(* ===== verification/_CoqProject ===== *)
-Q . S2P
Prelude.v
GoStr.v
GoErr.v
Kube.v
Coretools.v
Tenant.v
Apps.v
Synk.v
Rollout.v
ChartAssign.v
CrSyncer.v
HttpRelay.v
RelayClient.v
AuthProxy.v
Grpc2Rest.v
MetadataServer.v
SetupRobot.v
LoggingProxy.v
Base64.v
SynkCmd.v
CrdGenerator.v
Commands.v
CrSyncerMain.v
Setup.v
Deploy.v
Kubetest.v
