(* ===== verification/Prelude.v ===== *)
(** * A verification development for the Go code of SAP/cloud-robotics

    The repository connects robots, each with a Kubernetes cluster of its own,
    to a cloud cluster.  Its Go code is a set of controllers and proxies that
    share little state but the clusters' objects:

    - the tenant controller keeps the namespaces, accounts, DNS entries,
      certificates and gateways of tenants;
    - the AppRollout controller turns an AppRollout (an app for selected robots
      and the cloud) into one ChartAssignment per target cluster;
    - the ChartAssignment controller of each cluster renders the chart of each
      assignment and applies the result with the synk package;
    - synk applies a set of resources as a versioned ResourceSet and deletes
      what older versions left;
    - the cr-syncer copies custom resources between a robot and the cloud, the
      spec one way, the status the other;
    - the HTTP relay makes a robot's HTTP server reachable: relay clients fetch
      requests from a relay server and post the responses;
    - the app-auth-proxy stands before an app's backends: it logs users in at an
      OIDC provider and authorizes their requests by their groups;
    - the metadata server gives a robot's containers the robot's token and
      metadata, as the metadata server of a cloud does;
    - grpc2rest turns gRPC calls for custom resources into REST requests;
    - setup-robot registers a robot's cluster in the cloud and installs the base
      chart in it;
    - the logging-proxy forwards a robot's logs to the cloud;
    - the crd-generator turns proto messages into CustomResourceDefinitions;
    - the interactive set-up helpers, the synk command and the mains of the
      controllers tie these together, and kubetest runs tests against clusters
      of its own.

    ** Files

    - [Prelude]: programs as trees of calls ([prog]), their executions ([exec],
      [run]), weakest preconditions ([wp], [hwp]), call counting ([cost_le]),
      loops, and the tactics for them.
    - [GoStr], [GoErr], [Kube]: the parts of Go's strings, of the error types,
      of backoff.Retry and of the Kubernetes object model that the sources use.
    - [Coretools]: src/go/pkg/coretools.
    - [Tenant]: src/go/pkg/controller/tenant.  [Model] is controller.go,
      [Webhook] validatingwebhook.go.
    - [Apps]: the custom resources of src/go/pkg/apis/apps/v1alpha1/types.go.
    - [Synk]: src/go/pkg/synk/synk.go.
    - [Rollout]: src/go/pkg/controller/approllout.  [Values] has the heap of
      configuration maps, which Go shares between objects.
    - [ChartAssign]: src/go/pkg/controller/chartassignment.  [Release] is
      release.go with its worker goroutines as a step relation, [Model] is
      controller.go.
    - [CrSyncer]: src/go/cmd/cr-syncer/syncer.go.
    - [CrSyncerMain]: its main.go and health.go.  [crds] is the loop over the
      CRDs with the channel of [streamCrds].
    - [HttpRelay]: src/go/cmd/http-relay-server; the goroutines of the broker
      and the handlers are interleaved call by call over the broker's mutex,
      maps and channels ([step]).
    - [RelayClient]: src/go/cmd/http-relay-client.
    - [AuthProxy]: src/go/cmd/app-auth-proxy (main.go, sapoidc.go, proxy.go).
    - [Grpc2Rest]: src/go/pkg/grpc2rest.  [Dynamic] is what it uses of the
      dynamic protobuf messages of jhump/protoreflect, [Model] is method.go and
      resource_info.go.
    - [MetadataServer]: src/go/cmd/metadata-server (main.go, coredns.go) and
      src/go/pkg/robotauth.
    - [SetupRobot]: src/go/cmd/setup-robot, and [UpdateSecret] of
      src/go/pkg/kubeutils.
    - [LoggingProxy]: src/go/cmd/logging-proxy.
    - [Base64]: encoding/base64's standard encoding, with its round trip.
    - [SynkCmd]: src/go/cmd/synk/synk.go, a client of [Synk].
    - [CrdGenerator]: src/go/cmd/crd-generator; its output meets [Grpc2Rest] in
      [generated_crd_understood].
    - [Commands]: the mains of the tenant, AppRollout and ChartAssignment
      controllers ([Manager]) and their Add functions with the watches: what
      event enqueues which object.
    - [Setup]: src/go/pkg/setup ([Terminal]) and the contexts and client
      configurations of src/go/pkg/kubeutils ([Kubeutils]).
    - [Deploy]: the composition of [Rollout], [ChartAssign] and [Synk].
      [Worker.attach] puts package synk behind the calls of a release.
    - [Kubetest]: src/go/pkg/kubetest.

    ** How code is modelled

    A Go function that talks to a cluster, a clock, a channel or shared state
    becomes a [prog]: a tree of calls of the component's call type, one branch
    per answer.  Names and control flow are the source's; early returns, error
    wrapping and panics are kept; log lines and metrics are dropped.  An answer
    is arbitrary unless a theorem says otherwise (an [answers] hypothesis, or a
    handler such as [CrSyncer.cluster]), so the theorems cover every failure
    and every interleaving with other writers that answers can show.  State a
    program keeps in memory is passed explicitly.  Code outside src/ (YAML,
    Helm, codecs, net/url, merge patches) is a parameter, with the laws that
    are needed as hypotheses.

    ** The theorems

    - Confinement: what each controller writes and when ([Reconcile_confined],
      [reconcile_confined], [assignment_confined], [applyOne_guarded],
      [syncUpstream_confined], [syncDownstream_confined],
      [handleRequest_confined], [setup_confined]); none of them panics.  A
      release with synk behind it writes only into its namespace, kube-system or
      cluster scope ([release_confined]).
    - Access: what passes the auth proxy and who gets a robot's token
      ([protected_served_only_if_allowed], [AuthZ_decides],
      [callback_saves_verified_tokens], [login_completes],
      [token_served_only_to_allowed], [source_cidr_decides]).
    - Order and cleanup: pruning after success, finalizers dropped after
      cleanup, certificates after DNS.
    - Function: the wanted assignments are generated and reached
      ([generateChartAssignments_spec], [applyWanted_reconciles]), and the
      webhook admits what a rollout generates
      ([generated_assignments_admitted]); statuses tell the truth
      ([Reconcile_success_conditions], [setStatus_truthful], [update_outcome]),
      down to the objects on the cluster ([settled_means_installed]); two
      clusters converge where nothing is being deleted ([sync_converges]); a
      response passes the relay unchanged, but for repeated headers
      ([relay_transparent], [buildResponses_lossless]); a complete, well-typed
      gRPC message becomes the REST request it stands for
      ([request_meets_conventions]), for the resources there are
      ([repository_serves_the_crds]) and the CRDs the generator writes
      ([generator_outcome], [generated_crd_understood]); the metadata server
      leaves the robot as it was, where its calls succeed
      ([corefile_roundtrip], [serve_cleans_up]); the
      set-up leaves the Robot object and the pull secrets as asked for
      ([robot_as_wanted], [pull_secrets_reached]); a log request is forwarded
      once, with its end-to-end headers ([proxy_forwards]).
    - Wiring: an assignment that a robot's webhook admits is handled by its controller
      ([admitted_assignments_are_handled]), an event of a tenant's object leads
      back to the tenant ([tenant_objects_lead_back]).
    - Concurrency: the release cache loses no change ([releases_attended]), no
      key of a work queue is lost ([item_settled]), one syncer runs per CRD,
      in the loop ([crdLoop_one_syncer]) and in the program
      ([program_runs_one_syncer]), the broker's maps are protected
      ([broker_mutual_exclusion]) and responses reach their request; a test
      environment removes what its concurrent set-ups created
      ([created_is_torn_down]).
    - Termination and bounds: [applyAll_bounded], [synk_apply_retries],
      [synk_apply_bounded], [next_version], [buildResponses_bounded].
    - Behaviour that is not what the code means to do, each with a concrete
      execution: [base_values_leak], [delete_reports_success],
      [recreate_loses_status], [restart_once_safe_twice_not],
      [duplicate_id_stops_the_broker], [stalled_stream_panics],
      [repeated_headers_lost], [responses_never_aborted], [state_is_shared],
      [incomplete_requests_not_refused], [shared_method_lost],
      [inline_versions_refused], [failed_setup_leaks].

    ** Bounds and fuel

    Loops over lists are structural.  Retries are bounded by the library's
    limits (10 for posts, 60 polls for discovery, 10 rounds of synk, 240 polls
    of a test cluster's nodes), which are the fuel.  [Coretools.RandomString] gets 24 n rounds, which suffice for
    any stream that is not adversarial (its theorem says which).  Endless loops
    (workers, pumps, the loop over a response's messages) take a number of
    rounds; their theorems hold for every number.  So do [serve]'s removal of
    deprecated iptables rules, for which one round more than there are rules
    is enough ([serve_cleans_up]), and setup-robot's wait for a service
    account, for which one is enough where patching works
    ([pull_secrets_reached]).  Strings are byte strings;
    integers are [Z], wrapped to their width where they can overflow (the
    version of a ResourceSet, HTTP status codes).

    ** Not modelled

    Parsing of flags, construction of clients and loggers, TLS and metrics;
    the generated deep-copy, client and protobuf code (records are copied by
    value; aliasing that the sources create themselves is modelled where it
    matters); the mission and registry types, which no program of the
    repository reads beyond a Robot's type; caches and watches of client-go,
    except the answers they give; the memory model of Go below single calls
    (data races on the cr-syncer's counter and on the buffer of the relay's
    stream); time, except that a clock's answer is arbitrary. *)
From stdpp Require Import prelude strings gmap list sorting.
From Stdlib Require Import ZArith.

Definition is_some {A : Type} (o : option A) : bool :=
  match o with Some _ => true | None => false end.

(** ** Effectful programs

    A handler is a tree of calls to the services it talks to: [Vis o k]
    performs the call [o] and continues with its answer.  The class [Effect]
    says which answers a call can have. *)
Class Effect (Op : Type) := resp : Op → Type.

Inductive prog (Op : Type) `{Effect Op} (A : Type) : Type :=
| Ret (a : A)
| Vis (o : Op) (k : resp o → prog Op A)
| Panic (msg : string).
Arguments Ret {Op _ A} a.
Arguments Vis {Op _ A} o k.
Arguments Panic {Op _ A} msg.

Fixpoint prog_bind {Op : Type} `{Effect Op} {A B : Type}
    (f : A → prog Op B) (p : prog Op A) : prog Op B :=
  match p with
  | Ret a => f a
  | Vis o k => Vis o (λ r, prog_bind f (k r))
  | Panic m => Panic m
  end.

(** A single call. *)
Definition call {Op : Type} `{Effect Op} (o : Op) : prog Op (resp o) := Vis o Ret.

Declare Scope prog_scope.
Delimit Scope prog_scope with prog.
Bind Scope prog_scope with prog.
Notation "'let!' x := p 'in' q" := (prog_bind (λ x, q) p)
  (at level 10, x name, p at level 100, q at level 200) : prog_scope.
Notation "'let!' ' x := p 'in' q" := (prog_bind (λ y, match y with x => q end) p)
  (at level 10, x strict pattern, p at level 100, q at level 200) : prog_scope.
Notation "p ;;! q" := (prog_bind (λ _, q) p)
  (at level 199, right associativity) : prog_scope.

(** [for_each f l s] is a Go [for] loop over [l]: [s] is the state its body
    threads; the body returns [inl r] for an early [return r] of the whole
    function and [inr s] to go on. *)
Fixpoint for_each {Op : Type} `{Effect Op} {A S R : Type}
    (f : A → S → prog Op (R + S)) (l : list A) (s : S) : prog Op (R + S) :=
  match l with
  | [] => Ret (inr s)
  | x :: l => prog_bind (λ r, match r with
                              | inl r => Ret (inl r)
                              | inr s => for_each f l s
                              end) (f x s)
  end.

(** The same for a body that never returns early. *)
Fixpoint loop {Op : Type} `{Effect Op} {A S : Type}
    (f : A → S → prog Op S) (l : list A) (s : S) : prog Op S :=
  match l with
  | [] => Ret s
  | x :: l => prog_bind (loop f l) (f x s)
  end.

(** What a run of a program can end in. *)
Inductive outcome (A : Type) : Type :=
| Done (a : A)
| Panicked (msg : string).
Arguments Done {A} a.
Arguments Panicked {A} msg.

(** An event is a call with the answer it got; [exec p t out] says that [p]
    can perform exactly the calls of [t], get their answers, and end in
    [out].  Answers are arbitrary: a theorem about all [exec]s of a program
    assumes nothing about the services. *)
Definition event (Op : Type) `{Effect Op} : Type := {o : Op & resp o}.
Notation "o ▷ r" := (existT o r) (at level 60, only parsing) : stdpp_scope.

Fixpoint exec {Op : Type} `{Effect Op} {A : Type}
    (p : prog Op A) (t : list (event Op)) (out : outcome A) : Prop :=
  match p with
  | Ret a => t = [] ∧ out = Done a
  | Panic m => t = [] ∧ out = Panicked m
  | Vis o k => ∃ r t', t = existT o r :: t' ∧ exec (k r) t' out
  end.

(** [run h p s] executes a program against a handler with its own state, the
    executable reading for concrete services; [None] when the handler does not
    know the answer to a call. *)
Fixpoint run {Op : Type} `{Effect Op} {A S : Type}
    (h : ∀ o : Op, S → option (resp o * S)) (p : prog Op A) (s : S)
    : option (list (event Op) * outcome A * S) :=
  match p with
  | Ret a => Some ([], Done a, s)
  | Panic m => Some ([], Panicked m, s)
  | Vis o k =>
      match h o s with
      | Some (r, s') =>
          match run h (k r) s' with
          | Some (t, out, s'') => Some (existT o r :: t, out, s'')
          | None => None
          end
      | None => None
      end
  end.
(** The trace of a run. *)
Definition trace_of {Op : Type} `{Effect Op} {A S : Type}
    (r : option (list (event Op) * outcome A * S)) : list (event Op) :=
  match r with Some (t, _, _) => t | None => [] end.
Definition outcome_of {Op : Type} `{Effect Op} {A S : Type}
    (r : option (list (event Op) * outcome A * S)) : option (outcome A) :=
  match r with Some (_, out, _) => Some out | None => None end.

(** Every event of a trace satisfies [P]; every call of it satisfies [G]. *)
Fixpoint answers {Op : Type} `{Effect Op} (P : ∀ o : Op, resp o → Prop)
    (t : list (event Op)) : Prop :=
  match t with
  | [] => True
  | e :: t => P (projT1 e) (projT2 e) ∧ answers P t
  end.
Definition calls {Op : Type} `{Effect Op} (G : Op → Prop) : list (event Op) → Prop :=
  answers (λ o _, G o).

(** Programs that do the same calls and continue alike on every answer. *)
Fixpoint prog_eq {Op : Type} `{Effect Op} {A : Type} (p q : prog Op A) : Prop :=
  match p, q with
  | Ret a, Ret b => a = b
  | Panic m, Panic n => m = n
  | Vis o k, Vis o' k' => ∃ e : o = o', ∀ r, prog_eq (k r) (k' (eq_rect o resp r o' e))
  | _, _ => False
  end.

Section prog_facts.
Context {Op : Type} `{Effect Op}.

Lemma prog_eq_refl {A} (p : prog Op A) : prog_eq p p.
Proof.
  induction p as [a|o k IH|m]; simpl; [done| |done].
  exists eq_refl. intros r. apply IH.
Qed.

Lemma exec_bind {A B} (p : prog Op A) (f : A → prog Op B) t out :
  exec (prog_bind f p) t out ↔
  (∃ m, exec p t (Panicked m) ∧ out = Panicked m) ∨
  (∃ t1 t2 a, t = t1 ++ t2 ∧ exec p t1 (Done a) ∧ exec (f a) t2 out).
Proof.
  revert t. induction p as [a|o k IH|m]; intros t; simpl; split.
  - intros HE. right. exists [], t, a. naive_solver.
  - intros [(m & (_ & ?) & ?)|(t1 & t2 & a' & -> & (-> & [= ->]) & HE)]; done.
  - intros (r & t' & -> & HE%IH).
    destruct HE as [(m & HE & ->)|(t1 & t2 & a & -> & HE1 & HE2)].
    + left. exists m. naive_solver.
    + right. exists (existT o r :: t1), t2, a. naive_solver.
  - intros [(m & (r & t' & -> & HE) & ->)|(t1 & t2 & a & -> & (r & t' & -> & HE1) & HE2)].
    + exists r, t'. split; [done|]. apply IH. left. naive_solver.
    + exists r, (t' ++ t2). split; [done|]. apply IH. right. naive_solver.
  - intros (-> & ->). left. naive_solver.
  - intros [(m' & (-> & [= ->]) & ->)|(t1 & t2 & a & -> & (-> & ?) & HE)]; done.
Qed.

Lemma run_exec {A S} (h : ∀ o : Op, S → option (resp o * S)) (p : prog Op A) s out :
  outcome_of (run h p s) = Some out → exec p (trace_of (run h p s)) out.
Proof.
  revert s. induction p as [a|o k IH|m]; intros s; cbn.
  - by intros [= ->].
  - destruct (h o s) as [[r s']|]; [|done]. specialize (IH r s').
    destruct (run h (k r) s') as [[[t out'] s'']|]; [|done]. cbn in *.
    intros Hout. exists r, t. auto.
  - by intros [= ->].
Qed.

Lemma run_exec_some {A S} (h : ∀ o : Op, S → option (resp o * S)) (p : prog Op A) s :
  is_some (outcome_of (run h p s)) = true → ∃ out, outcome_of (run h p s) = Some out ∧ exec p (trace_of (run h p s)) out.
Proof.
  destruct (outcome_of (run h p s)) as [out|] eqn:E; [|done]. intros _. exists out.
  split; [done|by apply run_exec].
Qed.

Lemma answers_elem (P : ∀ o : Op, resp o → Prop) t o r : answers P t → existT o r ∈ t → P o r.
Proof.
  induction t as [|e t IH]; cbn; intros HP Hin; apply elem_of_cons in Hin as [Heq|Hin] ||
    by apply not_elem_of_nil in Hin.
  - subst. apply HP.
  - apply IH; [apply HP|done].
Qed.
Lemma answers_app (P : ∀ o : Op, resp o → Prop) t1 t2 :
  answers P (t1 ++ t2) ↔ answers P t1 ∧ answers P t2.
Proof. induction t1 as [|e t1 IH]; cbn; [tauto|]. rewrite IH. tauto. Qed.
Lemma answers_mono (P Q : ∀ o : Op, resp o → Prop) t :
  (∀ o r, P o r → Q o r) → answers P t → answers Q t.
Proof. intros HPQ. induction t as [|e t IH]; cbn; [done|]. intros [??]. auto. Qed.

Lemma answers_both (P Q : ∀ o : Op, resp o → Prop) t :
  answers P t → answers Q t → answers (λ o r, P o r ∧ Q o r) t.
Proof. induction t as [|e t IH]; cbn; [done|]. intros [??] [??]. auto. Qed.

Lemma run_bind {A B S} (h : ∀ o : Op, S → option (resp o * S)) (p : prog Op A)
    (f : A → prog Op B) s t a s1 t2 out s2 :
  run h p s = Some (t, Done a, s1) → run h (f a) s1 = Some (t2, out, s2) →
  run h (prog_bind f p) s = Some (t ++ t2, out, s2).
Proof.
  revert s t. induction p as [b|o k IH|m]; intros s t; cbn.
  - intros [= <- -> ->]. done.
  - destruct (h o s) as [[r s']|]; [|done].
    destruct (run h (k r) s') as [[[t' out'] s'']|] eqn:E; [|done].
    intros [= <- -> ->] Hf. by rewrite (IH r s' t' E Hf).
  - done.
Qed.

Lemma run_answers {A S} (P : ∀ o : Op, resp o → Prop) (h : ∀ o : Op, S → option (resp o * S))
    (p : prog Op A) s :
  (∀ o s r s', h o s = Some (r, s') → P o r) → answers P (trace_of (run h p s)).
Proof.
  intros Hh. revert s. induction p as [a|o k IH|m]; intros s; cbn; [done| |done].
  destruct (h o s) as [[r s']|] eqn:Ho; [|done]. specialize (IH r s').
  destruct (run h (k r) s') as [[[t out'] s'']|]; [|done]. cbn in *. split; [by eapply Hh|done].
Qed.

(** An invariant of a loop body, carried through the loop. *)
Lemma exec_for_each {A S R} (f : A → S → prog Op (R + S)) (l : list A)
    (I : list A → S → list (event Op) → Prop)
    (Q : list (event Op) → outcome (R + S) → Prop) s t0 t out :
  (∀ x l' s' t0' t1 out1, I (x :: l') s' t0' → exec (f x s') t1 out1 →
     match out1 with
     | Done (inr s'') => I l' s'' (t0' ++ t1)
     | Done (inl r) => Q (t0' ++ t1) (Done (inl r))
     | Panicked m => Q (t0' ++ t1) (Panicked m)
     end) →
  (∀ s' t0', I [] s' t0' → Q t0' (Done (inr s'))) →
  I l s t0 → exec (for_each f l s) t out → Q (t0 ++ t) out.
Proof.
  intros Hstep Hend. revert s t0 t. induction l as [|x l IH]; intros s t0 t HI HE; simpl in HE.
  - destruct HE as [-> ->]. rewrite app_nil_r. by apply Hend.
  - apply exec_bind in HE as [(m & HE & ->)|(t1 & t2 & a & -> & HE1 & HE2)].
    + by apply (Hstep _ _ _ _ _ _ HI HE).
    + specialize (Hstep _ _ _ _ _ _ HI HE1). destruct a as [r|s'].
      * destruct HE2 as [-> ->]. by rewrite app_nil_r.
      * rewrite (assoc_L (++)). by apply (IH s').
Qed.
End prog_facts.

(** *** Handlers

    [interp h p] runs [p] with every call answered by the program [h] gives
    for it: a component's calls made in terms of the calls of the program that
    embeds it. *)
Fixpoint interp {Op Op' : Type} `{Effect Op} `{Effect Op'} {A : Type}
    (h : ∀ o : Op, prog Op' (resp o)) (p : prog Op A) : prog Op' A :=
  match p with
  | Ret a => Ret a
  | Vis o k => prog_bind (λ r, interp h (k r)) (h o)
  | Panic m => Panic m
  end.

Section interp_facts.
Context {Op Op' : Type} `{Effect Op} `{Effect Op'} (h : ∀ o : Op, prog Op' (resp o)).

(** Where each call becomes one call with the same answer, the executions are
    those of [p], call by call. *)
Lemma exec_interp {A} (tr : event Op → event Op') (p : prog Op A) t out :
  (∀ o t out, exec (h o) t out → ∃ r, t = [tr (existT o r)] ∧ out = Done r) →
  exec (interp h p) t out → ∃ t', t = map tr t' ∧ exec p t' out.
Proof.
  intros Hh. revert t. induction p as [a|o k IH|m]; intros t HE; cbn [interp] in HE.
  - destruct HE as [-> ->]. by exists [].
  - apply exec_bind in HE as [(m & HE & _)|(t1 & t2 & r & -> & HE1 & HE2)].
    + by apply Hh in HE as (r & _ & ?).
    + apply Hh in HE1 as (r' & -> & [= ->]). destruct (IH _ _ HE2) as (t' & -> & HE).
      exists (existT o r' :: t'). split; [done|]. by exists r', t'.
  - destruct HE as [-> ->]. by exists [].
Qed.
Lemma interp_exec {A} (tr : event Op → event Op') (p : prog Op A) t out :
  (∀ o r, exec (h o) [tr (existT o r)] (Done r)) →
  exec p t out → exec (interp h p) (map tr t) out.
Proof.
  intros Hh. revert t. induction p as [a|o k IH|m]; intros t HE; cbn [interp] in *.
  - by destruct HE as [-> ->].
  - destruct HE as (r & t' & -> & HE). apply exec_bind. right.
    exists [tr (existT o r)], (map tr t'), r. split; [done|]. split; [apply Hh|by apply IH].
  - by destruct HE as [-> ->].
Qed.
Lemma interp_bind {A B} (p : prog Op A) (f : A → prog Op B) t out :
  exec (interp h (prog_bind f p)) t out ↔ exec (prog_bind (λ a, interp h (f a)) (interp h p)) t out.
Proof.
  revert t. induction p as [a|o k IH|m]; intros t; cbn [interp prog_bind]; [done| |done].
  rewrite !exec_bind. split.
  - intros [(m & HE & ->)|(t1 & t2 & r & -> & HE1 & HE2)].
    + left. exists m. split; [|done]. apply exec_bind. left. by exists m.
    + apply IH, exec_bind in HE2 as [(m & HE & ->)|(t3 & t4 & a & -> & HE3 & HE4)].
      * left. exists m. split; [|done]. apply exec_bind. right. by exists t1, t2, r.
      * right. exists (t1 ++ t3), t4, a. rewrite (assoc_L (++)). split_and!; [done| |done].
        apply exec_bind. right. by exists t1, t3, r.
  - intros [(m & HE & ->)|(t1 & t2 & a & -> & HE1 & HE2)].
    + apply exec_bind in HE as [(m' & HE & [= ->])|(t1 & t2 & r & -> & HE1 & HE2)].
      * left. by exists m'.
      * right. exists t1, t2, r. split_and!; [done..|]. apply IH, exec_bind. left. by exists m.
    + apply exec_bind in HE1 as [(m' & HE & ?)|(t3 & t4 & r & -> & HE3 & HE4)]; [done|].
      right. exists t3, (t4 ++ t2), r. rewrite (assoc_L (++)). split_and!; [done..|].
      apply IH, exec_bind. right. by exists t4, t2, a.
Qed.
End interp_facts.

(** ** Weakest preconditions

    [wp A G E p Φ]: as long as the services' answers satisfy [A], every call
    [p] makes satisfies [G], every message it panics with satisfies [E], and
    every value it returns satisfies [Φ] ([wp_exec]).  Computed by recursion
    on the program, so that [cbn] and case analysis do the symbolic
    execution. *)
Section wp.
Context {Op : Type} `{Effect Op}.
Context (A : ∀ o : Op, resp o → Prop) (G : Op → Prop) (E : string → Prop).

Fixpoint wp {T : Type} (p : prog Op T) (Φ : T → Prop) : Prop :=
  match p with
  | Ret a => Φ a
  | Vis o k => G o ∧ ∀ r, A o r → wp (k r) Φ
  | Panic m => E m
  end.

Lemma wp_mono {T} (p : prog Op T) (Φ Ψ : T → Prop) :
  (∀ a, Φ a → Ψ a) → wp p Φ → wp p Ψ.
Proof. intros HΦ. induction p as [a|o k IH|m]; cbn; naive_solver. Qed.

Lemma wp_bind {T U} (p : prog Op T) (f : T → prog Op U) Φ :
  wp p (λ a, wp (f a) Φ) → wp (prog_bind f p) Φ.
Proof. induction p as [a|o k IH|m]; cbn; naive_solver. Qed.

Lemma wp_for_each {T S R} (f : T → S → prog Op (R + S)) l (I : S → Prop) (Q : R + S → Prop) s :
  (∀ x s, x ∈ l → I s → wp (f x s) (λ r, match r with inl _ => Q r | inr s => I s end)) →
  (∀ s, I s → Q (inr s)) → I s → wp (for_each f l s) Q.
Proof.
  revert s. induction l as [|x l IH]; intros s Hf HQ HI; cbn; [by apply HQ|].
  apply wp_bind. eapply wp_mono; [|apply Hf; [by left|done]].
  intros [r|s'] Hr; [done|]. apply IH; [|done|done]. intros. apply Hf; [by right|done].
Qed.

Lemma wp_loop {T S} (f : T → S → prog Op S) l (I : S → Prop) s :
  (∀ x s, x ∈ l → I s → wp (f x s) I) → I s → wp (loop f l s) I.
Proof.
  revert s. induction l as [|x l IH]; intros s Hf HI; cbn; [done|].
  apply wp_bind. eapply wp_mono; [|apply Hf; [by left|done]].
  intros s' Hs'. apply IH; [|done]. intros. apply Hf; [by right|done].
Qed.

(** The invariant may speak of the elements already visited. *)
Lemma wp_loop_done {T S} (f : T → S → prog Op S) l (I : list T → S → Prop) dn s :
  (∀ x dn s, x ∈ l → I dn s → wp (f x s) (I (x :: dn))) → I dn s →
  wp (loop f l s) (I (rev l ++ dn)).
Proof.
  revert dn s. induction l as [|x l IH]; intros dn s Hf HI; cbn; [done|].
  apply wp_bind. eapply wp_mono; [|apply Hf; [by left|done]].
  intros s' Hs'. rewrite <-(assoc_L (++)). apply IH; [|done]. intros. apply Hf; [by right|done].
Qed.

(** The same for a loop that may return early. *)
Lemma wp_for_each_prefix {T S R} (f : T → S → prog Op (R + S)) l0 (I : list T → S → Prop)
    (Q : R + S → Prop) pre l s :
  (∀ pre x post s, (pre ++ x :: post)%list = l0 → I pre s →
     wp (f x s) (λ r, match r with inl _ => Q r | inr s => I (pre ++ [x])%list s end)) →
  (∀ s, I l0 s → Q (inr s)) → (pre ++ l)%list = l0 → I pre s → wp (for_each f l s) Q.
Proof.
  intros Hf HQ. revert pre s. induction l as [|x l IH]; intros pre s Hl HI; cbn.
  { rewrite app_nil_r in Hl. subst. by apply HQ. }
  apply wp_bind. eapply wp_mono; [|by eapply Hf]. intros [r|s'] Hr; [done|].
  apply (IH (pre ++ [x])%list); [|done]. by rewrite <-(assoc_L (++)).
Qed.

Lemma wp_exec {T} (p : prog Op T) Φ t out :
  wp p Φ → exec p t out → answers A t →
  calls G t ∧ match out with Done a => Φ a | Panicked m => E m end.
Proof.
  revert t. induction p as [a|o k IH|m]; cbn; intros t Hwp HE HA.
  - destruct HE as [-> ->]. by split.
  - destruct Hwp as [HG Hk], HE as (r & t' & -> & HE), HA as [HA HA'].
    destruct (IH r t' (Hk r HA) HE HA') as [HG' Hout]. split; [by split|done].
  - destruct HE as [-> ->]. by split.
Qed.
End wp.

Lemma wp_weaken {Op : Type} `{Effect Op} {T} (A A' : ∀ o : Op, resp o → Prop) (G G' : Op → Prop) E (p : prog Op T) Φ :
  (∀ o r, A' o r → A o r) → (∀ o, G o → G' o) → wp A G E p Φ → wp A' G' E p Φ.
Proof. intros HA HG. induction p as [a|o k IH|m]; cbn; naive_solver. Qed.
Lemma wp_weaken_call {Op : Type} `{Effect Op} {T} A (G G' : Op → Prop) E (p : prog Op T) Φ :
  (∀ o, G o → G' o) → wp A G E p Φ → wp A G' E p Φ.
Proof. intros HG. by apply wp_weaken. Qed.

(** *** With the history

    [hwp A G E h p Φ] is the same for properties of the order of calls: [h] is
    the trace so far, every call must satisfy [G] with the trace before it,
    and the result may depend on the whole trace. *)
Section hwp.
Context {Op : Type} `{Effect Op}.
Context (A : ∀ o : Op, resp o → Prop) (G : list (event Op) → Op → Prop) (E : string → Prop).

Fixpoint hwp {T : Type} (h : list (event Op)) (p : prog Op T) (Φ : list (event Op) → T → Prop) : Prop :=
  match p with
  | Ret a => Φ h a
  | Vis o k => G h o ∧ ∀ r, A o r → hwp (h ++ [existT o r]) (k r) Φ
  | Panic m => E m
  end.

Lemma hwp_mono {T} h (p : prog Op T) (Φ Ψ : list (event Op) → T → Prop) :
  (∀ h a, Φ h a → Ψ h a) → hwp h p Φ → hwp h p Ψ.
Proof. intros HΦ. revert h. induction p as [a|o k IH|m]; intros h; cbn; naive_solver. Qed.

Lemma hwp_bind {T U} h (p : prog Op T) (f : T → prog Op U) Φ :
  hwp h p (λ h a, hwp h (f a) Φ) → hwp h (prog_bind f p) Φ.
Proof. revert h. induction p as [a|o k IH|m]; intros h; cbn; naive_solver. Qed.

Lemma hwp_loop {T S} (f : T → S → prog Op S) l (I : list (event Op) → S → Prop) h s :
  (∀ h x s, x ∈ l → I h s → hwp h (f x s) I) → I h s → hwp h (loop f l s) I.
Proof.
  revert h s. induction l as [|x l IH]; intros h s Hf HI; cbn; [done|].
  apply hwp_bind. eapply hwp_mono; [|apply Hf; [by left|done]].
  intros h' s' Hs'. apply IH; [|done]. intros. apply Hf; [by right|done].
Qed.

Lemma hwp_for_each {T S R} (f : T → S → prog Op (R + S)) l (I : list (event Op) → S → Prop)
    (Q : list (event Op) → R + S → Prop) h s :
  (∀ h x s, x ∈ l → I h s →
     hwp h (f x s) (λ h r, match r with inl _ => Q h r | inr s => I h s end)) →
  (∀ h s, I h s → Q h (inr s)) → I h s → hwp h (for_each f l s) Q.
Proof.
  revert h s. induction l as [|x l IH]; intros h s Hf HQ HI; cbn; [by apply HQ|].
  apply hwp_bind. eapply hwp_mono; [|apply Hf; [by left|done]].
  intros h' [r|s'] Hr; [done|]. apply IH; [|done|done]. intros. apply Hf; [by right|done].
Qed.

Lemma hwp_exec {T} h (p : prog Op T) Φ t out :
  hwp h p Φ → exec p t out → answers A t →
  (∀ pre e post, t = (pre ++ e :: post)%list → G (h ++ pre) (projT1 e)) ∧
  match out with Done a => Φ (h ++ t) a | Panicked m => E m end.
Proof.
  revert h t. induction p as [a|o k IH|m]; cbn; intros h t Hwp HE HA.
  - destruct HE as [-> ->]. rewrite app_nil_r. split; [by intros []|done].
  - destruct Hwp as [HG Hk], HE as (r & t' & -> & HE), HA as [HA HA'].
    destruct (IH r _ t' (Hk r HA) HE HA') as [HG' Hout].
    rewrite <-(assoc_L (++)) in Hout. split; [|exact Hout].
    intros [|e' pre] e post Heq.
    + apply (f_equal head) in Heq. cbn in Heq. apply (inj Some) in Heq. subst e. by rewrite app_nil_r.
    + pose proof (f_equal head Heq) as He. pose proof (f_equal tail Heq) as Ht.
      cbn in He, Ht. apply (inj Some) in He. subst e'.
      rewrite (cons_middle _ h pre), (assoc_L (++)). by eapply HG'.
  - destruct HE as [-> ->]. split; [by intros []|done].
Qed.

(** A history-free result, used inside a proof with history: what the part
    calls is admitted after any such calls, and its own executions give the
    property of the result. *)
Lemma hwp_wp_exec {T} (G0 : Op → Prop) h (p : prog Op T) (Ψ : T → Prop) (Φ : list (event Op) → T → Prop) :
  wp A G0 E p Ψ → (∀ t o, calls G0 t → G0 o → G (h ++ t) o) →
  (∀ t a, calls G0 t → exec p t (Done a) → Ψ a → Φ (h ++ t)%list a) → hwp h p Φ.
Proof.
  revert h. induction p as [a|o k IH|m]; cbn; intros h Hwp HG HΦ.
  - specialize (HΦ [] a I (conj eq_refl eq_refl) Hwp). by rewrite app_nil_r in HΦ.
  - destruct Hwp as [HGo Hk]. split.
    { specialize (HG [] o I HGo). by rewrite app_nil_r in HG. }
    intros r Hr. apply IH; [by apply Hk| |].
    + intros t o' Ht Ho'. rewrite <-(assoc_L (++)). apply HG; [|done]. by split.
    + intros t a Ht Ha Hψ. rewrite <-(assoc_L (++)). apply HΦ; [by split| |done]. by exists r, t.
  - done.
Qed.

(** The same without the executions. *)
Lemma hwp_wp {T} (G0 : Op → Prop) h (p : prog Op T) (Ψ : T → Prop) (Φ : list (event Op) → T → Prop) :
  wp A G0 E p Ψ → (∀ t o, calls G0 t → G0 o → G (h ++ t) o) →
  (∀ t a, calls G0 t → answers A t → Ψ a → Φ (h ++ t)%list a) → hwp h p Φ.
Proof.
  revert h. induction p as [a|o k IH|m]; cbn; intros h Hwp HG HΦ.
  - specialize (HΦ [] a I I Hwp). by rewrite app_nil_r in HΦ.
  - destruct Hwp as [HGo Hk]. split.
    { specialize (HG [] o I HGo). by rewrite app_nil_r in HG. }
    intros r Hr. apply IH; [by apply Hk| |].
    + intros t o' Ht Ho'. rewrite <-(assoc_L (++)). apply HG; [|done]. by split.
    + intros t a Ht Ha Hψ. rewrite <-(assoc_L (++)). apply HΦ; [by split|by split|done].
  - done.
Qed.
End hwp.

Lemma hwp_weaken {Op : Type} `{Effect Op} {T} A (G G' : list (event Op) → Op → Prop) E h
    (p : prog Op T) Φ :
  (∀ h o, G h o → G' h o) → hwp A G E h p Φ → hwp A G' E h p Φ.
Proof. intros HG. revert h. induction p as [a|o k IH|m]; intros h; cbn; naive_solver. Qed.

(** A weakest precondition in terms of the calls of [p] carries over to the
    program its handler makes of it. *)
Lemma wp_interp {Op Op' : Type} `{Effect Op} `{Effect Op'} (h : ∀ o : Op, prog Op' (resp o)) {T}
    A (G : Op → Prop) A' (G' : Op' → Prop) E (p : prog Op T) Φ :
  (∀ o, G o → wp A' G' E (h o) (A o)) → wp A G E p Φ → wp A' G' E (interp h p) Φ.
Proof.
  intros Hh. induction p as [a|o k IH|m]; cbn; [done| |done].
  intros [HG Hk]. apply wp_bind. eapply wp_mono; [|by apply Hh]. intros r Hr. by apply IH, Hk.
Qed.

(** ** Counting calls

    [cost_le w p n]: on every path the calls of [p] weigh at most [n]. *)
Section cost.
Context {Op : Type} `{Effect Op} (w : Op → nat).

Fixpoint cost (t : list (event Op)) : nat :=
  match t with [] => 0 | e :: t => w (projT1 e) + cost t end.
Fixpoint cost_le {T : Type} (p : prog Op T) (n : nat) : Prop :=
  match p with
  | Ret _ | Panic _ => True
  | Vis o k => (w o ≤ n)%nat ∧ ∀ r, cost_le (k r) (n - w o)
  end.

Lemma cost_app t1 t2 : cost (t1 ++ t2)%list = (cost t1 + cost t2)%nat.
Proof. induction t1 as [|e t1 IH]; cbn; [done|]. rewrite IH. lia. Qed.
Lemma cost_le_mono {T} (p : prog Op T) n m : (n ≤ m)%nat → cost_le p n → cost_le p m.
Proof.
  revert n m. induction p as [a|o k IH|msg]; intros n m Hnm; cbn; [done| |done].
  intros [Hw Hk]. split; [lia|]. intros r. eapply IH; [|apply Hk]. lia.
Qed.
Lemma cost_le_bind {T U} (p : prog Op T) (f : T → prog Op U) n m :
  cost_le p n → (∀ a, cost_le (f a) m) → cost_le (prog_bind f p) (n + m).
Proof.
  revert n. induction p as [a|o k IH|msg]; intros n Hp Hf; cbn in *.
  - eapply cost_le_mono; [|apply Hf]. lia.
  - destruct Hp as [Hw Hk]. split; [lia|]. intros r.
    replace (n + m - w o)%nat with (n - w o + m)%nat by lia. by apply IH.
  - done.
Qed.
Lemma cost_le_loop {T S} (f : T → S → prog Op S) l n s :
  (∀ x s, x ∈ l → cost_le (f x s) n) → cost_le (loop f l s) (length l * n).
Proof.
  revert s. induction l as [|x l IH]; intros s Hf; cbn; [done|].
  apply cost_le_bind; [apply Hf; by left|]. intros s'. apply IH. intros. apply Hf. by right.
Qed.
Lemma cost_le_for_each {T S R} (f : T → S → prog Op (R + S)) l n s :
  (∀ x s, x ∈ l → cost_le (f x s) n) → cost_le (for_each f l s) (length l * n).
Proof.
  revert s. induction l as [|x l IH]; intros s Hf; cbn; [done|].
  apply cost_le_bind; [apply Hf; by left|]. intros [r|s']; [done|]. apply IH. intros. apply Hf. by right.
Qed.
Lemma cost_le_exec {T} (p : prog Op T) n t out : cost_le p n → exec p t out → (cost t ≤ n)%nat.
Proof.
  revert n t. induction p as [a|o k IH|msg]; intros n t Hp HE; cbn in *.
  - destruct HE as [-> _]. cbn. lia.
  - destruct Hp as [Hw Hk], HE as (r & t' & -> & HE). cbn.
    specialize (IH r _ _ (Hk r) HE). lia.
  - destruct HE as [-> _]. cbn. lia.
Qed.
End cost.

Lemma cost_le_interp {Op Op' : Type} `{Effect Op} `{Effect Op'} (w : Op → nat) (w' : Op' → nat)
    (h : ∀ o : Op, prog Op' (resp o)) {A} (p : prog Op A) n :
  (∀ o, cost_le w' (h o) (w o)) → cost_le w p n → cost_le w' (interp h p) n.
Proof.
  intros Hh. revert n. induction p as [a|o k IH|m]; intros n; cbn; [done| |done].
  intros [Hw Hk]. apply (cost_le_mono _ _ (w o + (n - w o))); [lia|].
  apply cost_le_bind; [apply Hh|]. intros r. apply IH, Hk.
Qed.

(** Answers, calls and panics nothing is assumed of or claimed about. *)
Definition any_answer {Op : Type} `{Effect Op} (o : Op) (r : resp o) : Prop := True.
Definition any_call {Op : Type} (o : Op) : Prop := True.
Definition no_panic (m : string) : Prop := False.
Definition any_panic (m : string) : Prop := True.

Lemma wp_exec_any {Op : Type} `{Effect Op} {T} G E (p : prog Op T) Φ t out :
  wp any_answer G E p Φ → exec p t out →
  calls G t ∧ match out with Done a => Φ a | Panicked m => E m end.
Proof.
  intros Hwp HE. eapply wp_exec; [exact Hwp|exact HE|].
  clear HE. induction t; cbn; [done|]. by split.
Qed.

(** Symbolic execution of a hypothesis [exec p t out]. *)
Ltac exec_inv H :=
  cbn [exec prog_bind call] in H;
  lazymatch type of H with
  | exec (prog_bind _ _) _ _ =>
      let m := fresh "m" in let t1 := fresh "tr" in let t2 := fresh "tr" in
      let a := fresh "a" in let H1 := fresh "HE" in let E := fresh "Ht" in
      apply exec_bind in H as [(m & H1 & H)|(t1 & t2 & a & E & H1 & H)]
  | ∃ _ _, _ =>
      let a := fresh "a" in let t1 := fresh "tr" in let E := fresh "Ht" in
      destruct H as (a & t1 & E & H)
  | _ ∧ _ => let E := fresh "Ht" in destruct H as [E H]
  end.

(** One step of symbolic execution, and the case analysis that follows it. *)
Ltac wp_case :=
  match goal with
  | |- wp _ _ _ (match ?x with _ => _ end) _ => destruct x eqn:?
  | |- wp _ _ _ (let '_ := ?x in _) _ => destruct x eqn:?
  end.
Ltac wp_call := cbn [wp prog_bind call]; split; [|intros ? ?].
