(* ===== verification/GoStr.v ===== *)
(** * Go strings: the functions of [strings], [strconv] and [fmt] that the
    sources use, on byte strings, with their lemmas. *)
From stdpp Require Import prelude strings list sorting pretty.
From Stdlib Require Import Ascii ZArith.
From S2P Require Import Prelude.

Open Scope string_scope.

(** ** Definitions *)

(** [s[n:]] *)
Fixpoint str_drop (n : nat) (s : string) : string :=
  match n, s with
  | O, _ => s
  | S n, String _ s => str_drop n s
  | S _, EmptyString => ""
  end.

(** [strings.HasPrefix], [strings.TrimPrefix] *)
Fixpoint HasPrefix (s p : string) : bool :=
  match p, s with
  | EmptyString, _ => true
  | String c p, String d s => Ascii.eqb c d && HasPrefix s p
  | String _ _, EmptyString => false
  end.
Definition TrimPrefix (s p : string) : string :=
  if HasPrefix s p then str_drop (String.length p) s else s.

(** The text before and after the first occurrence of [sep] in [s]. *)
Fixpoint cut (s sep : string) : option (string * string) :=
  if HasPrefix s sep then Some ("", str_drop (String.length sep) s)
  else match s with
       | EmptyString => None
       | String c s => match cut s sep with
                       | Some (a, b) => Some (String c a, b)
                       | None => None
                       end
       end.

(** [strings.Contains], [strings.SplitN(_, _, 2)], [strings.Replace(_, _, _, 1)];
    the separators in the sources are never empty. *)
Definition Contains (s sub : string) : bool :=
  match cut s sub with Some _ => true | None => false end.
Definition SplitN2 (s sep : string) : list string :=
  match cut s sep with Some (a, b) => [a; b] | None => [s] end.
Definition Replace1 (s old new : string) : string :=
  match cut s old with Some (a, b) => a +:+ new +:+ b | None => s end.

(** [strings.Split] and [strings.ReplaceAll]: one step of fuel per byte is
    enough, since every round removes a separator ([Split_fuel]). *)
Fixpoint Split_go (fuel : nat) (s sep : string) : list string :=
  match fuel with
  | O => [s]
  | S fuel => match cut s sep with
              | Some (a, b) => a :: Split_go fuel b sep
              | None => [s]
              end
  end.
Definition Split (s sep : string) : list string := Split_go (String.length s) s sep.

(** [strings.Join] *)
Fixpoint Join (l : list string) (sep : string) : string :=
  match l with
  | [] => ""
  | [x] => x
  | x :: l => x +:+ sep +:+ Join l sep
  end.
Definition ReplaceAll (s old new : string) : string := Join (Split s old) new.

Fixpoint map_string (f : ascii → ascii) (s : string) : string :=
  match s with
  | EmptyString => ""
  | String c s => String (f c) (map_string f s)
  end.

(** [strings.ToUpper] on ASCII. *)
Definition upper_ascii (c : ascii) : ascii :=
  let n := Ascii.nat_of_ascii c in
  if (97 <=? n)%nat && (n <=? 122)%nat then Ascii.ascii_of_nat (n - 32) else c.
Definition lower_ascii (c : ascii) : ascii :=
  let n := Ascii.nat_of_ascii c in
  if (65 <=? n)%nat && (n <=? 90)%nat then Ascii.ascii_of_nat (n + 32) else c.
Definition ToUpper (s : string) : string := map_string upper_ascii s.
Definition ToLower (s : string) : string := map_string lower_ascii s.

(** [%d] *)
Definition fmt_d (z : Z) : string := pretty z.

(** [%q] ([strconv.Quote]) on printable text: quotes and backslashes are
    escaped, newlines and tabs written [\n] and [\t]. *)
Definition quote_byte (c : ascii) : string :=
  if (Ascii.eqb c "034"%char) then String "092"%char (String "034"%char "")
  else if (Ascii.eqb c "092"%char) then String "092"%char (String "092"%char "")
  else if (Ascii.eqb c "010"%char) then String "092"%char "n"
  else if (Ascii.eqb c "009"%char) then String "092"%char "t"
  else String c "".
Fixpoint quote_go (s : string) : string :=
  match s with
  | EmptyString => String "034"%char ""
  | String c s => quote_byte c +:+ quote_go s
  end.
Definition fmt_q (s : string) : string := String "034"%char (quote_go s).

(** A text between double quotes. *)
Definition dq (s : string) : string := String "034"%char (s +:+ String "034"%char "").

(** Decimal digits and [strconv.Atoi] on them. *)
Definition is_digit (c : ascii) : bool :=
  let n := Ascii.nat_of_ascii c in (48 <=? n)%nat && (n <=? 57)%nat.
Definition digit_val (c : ascii) : Z := Z.of_nat (Ascii.nat_of_ascii c - 48).
Fixpoint digits_val (acc : Z) (s : string) : Z :=
  match s with
  | EmptyString => acc
  | String c s => digits_val (10 * acc + digit_val c) s
  end.
Fixpoint all_digits (s : string) : bool :=
  match s with
  | EmptyString => true
  | String c s => is_digit c && all_digits s
  end.

(** Go's [<] on strings is byte-lexicographic: [String.ltb].  [sort_by key]
    is [sort.Slice] with [key(l[i]) < key(l[j])]; Go leaves the order of
    elements with equal keys open, here it is the input order. *)
Definition key_le {A} (key : A → string) : relation A := λ x y, String.le (key x) (key y).
Definition key_le_dec {A} (key : A → string) : RelDecision (key_le key) :=
  λ x y, String.le_dec (key x) (key y).
Definition sort_by {A} (key : A → string) (l : list A) : list A :=
  @merge_sort A (key_le key) (key_le_dec key) l.

(** 64- and 32-bit integers: Go's conversions wrap around. *)
Definition wrap (w : Z) (z : Z) : Z := ((z + 2 ^ (w - 1)) mod 2 ^ w - 2 ^ (w - 1))%Z.
Definition int32 (z : Z) : Z := wrap 32 z.
Definition int64 (z : Z) : Z := wrap 64 z.

(** ** Facts *)

#[local] Arguments String.append !_ _ : simpl nomatch.

Lemma app_empty_r s : s +:+ "" = s.
Proof. induction s as [|c s IH]; [done|]. cbn. by f_equal. Qed.
Lemma app_assoc_s a b c : (a +:+ b) +:+ c = a +:+ b +:+ c.
Proof. induction a as [|x a IH]; [done|]. cbn. by f_equal. Qed.
Lemma app_cons c a b : String c a +:+ b = String c (a +:+ b).
Proof. done. Qed.
Lemma app_length_s a b : String.length (a +:+ b) = (String.length a + String.length b)%nat.
Proof. induction a as [|x a IH]; [done|]. cbn. by rewrite IH. Qed.
Lemma app_inj_l a b c : a +:+ b = a +:+ c → b = c.
Proof. induction a as [|x a IH]; [done|]. cbn. intros [= ?]. auto. Qed.
Lemma app_inj_len a b c d :
  String.length a = String.length c → a +:+ b = c +:+ d → a = c ∧ b = d.
Proof.
  revert c. induction a as [|x a IH]; intros [|y c]; cbn; try done.
  intros [= Hl] [= -> Heq]. destruct (IH _ Hl Heq) as [-> ->]. done.
Qed.
Lemma app_inj_r a b c : a +:+ b = c +:+ b → a = c.
Proof.
  intros Heq. assert (Hl : String.length (a +:+ b) = String.length (c +:+ b)) by by rewrite Heq.
  rewrite !app_length_s in Hl. apply (app_inj_len _ _ _ _) in Heq as [? _]; [done|lia].
Qed.

Lemma HasPrefix_app p s : HasPrefix (p +:+ s) p = true.
Proof.
  induction p as [|c p IH]; cbn; [by destruct s|]. by rewrite Ascii.eqb_refl.
Qed.
Lemma HasPrefix_split s p : HasPrefix s p = true → s = p +:+ str_drop (String.length p) s.
Proof.
  revert s. induction p as [|c p IH]; intros s; [by destruct s|].
  destruct s as [|d s]; cbn; [done|]. intros [Hc%Ascii.eqb_eq Hp]%andb_prop.
  subst d. f_equal. by apply IH.
Qed.
Lemma HasPrefix_iff s p : HasPrefix s p = true ↔ ∃ r, s = p +:+ r.
Proof.
  split; [|intros [r ->]; apply HasPrefix_app].
  intros Hp%HasPrefix_split. eauto.
Qed.
Lemma str_drop_app p s : str_drop (String.length p) (p +:+ s) = s.
Proof. induction p as [|c p IH]; [done|]. cbn. apply IH. Qed.
Lemma TrimPrefix_app p s : TrimPrefix (p +:+ s) p = s.
Proof. unfold TrimPrefix. by rewrite HasPrefix_app, str_drop_app. Qed.

(** [cut] finds an occurrence, and the first one. *)
Lemma cut_Some s sep a b : cut s sep = Some (a, b) → s = a +:+ sep +:+ b.
Proof.
  revert a. induction s as [|c s IH]; intros a; cbn [cut].
  - destruct (HasPrefix "" sep) eqn:E; [|done]. intros [= <- <-]. by apply HasPrefix_split in E.
  - destruct (HasPrefix (String c s) sep) eqn:E.
    + intros [= <- <-]. by apply HasPrefix_split in E.
    + destruct (cut s sep) as [[a' b']|]; [|done]. intros [= <- <-].
      rewrite app_cons. by rewrite <-(IH a').
Qed.
Lemma cut_None s sep a b : cut s sep = None → s ≠ a +:+ sep +:+ b.
Proof.
  revert a. induction s as [|c s IH]; intros a; cbn [cut];
    (match goal with |- context [HasPrefix ?s sep] => destruct (HasPrefix s sep) eqn:E end);
    try done; intros Hc Heq.
  - destruct a as [|? a]; [|done]. cbn in Heq.
    assert (HasPrefix "" sep = true) as Hp; [|congruence].
    rewrite Heq. apply HasPrefix_app.
  - destruct (cut s sep) as [[??]|]; [done|]. destruct a as [|d a].
    + cbn in Heq. rewrite Heq, HasPrefix_app in E. done.
    + rewrite app_cons in Heq. injection Heq as -> Heq. by apply (IH a).
Qed.
Lemma Contains_iff s sub : Contains s sub = true ↔ ∃ a b, s = a +:+ sub +:+ b.
Proof.
  unfold Contains. destruct (cut s sub) as [[a b]|] eqn:E; split; try done.
  - intros _. exists a, b. by apply cut_Some.
  - intros (a & b & Heq). by destruct (cut_None _ _ a b E).
Qed.
Lemma Replace1_spec s old new a b :
  cut s old = Some (a, b) → s = a +:+ old +:+ b ∧ Replace1 s old new = a +:+ new +:+ b.
Proof. intros E. split; [by apply cut_Some|]. unfold Replace1. by rewrite E. Qed.

(** [Join] undoes [Split]. *)
Lemma Join_Split_go fuel s sep : Join (Split_go fuel s sep) sep = s.
Proof.
  revert s. induction fuel as [|fuel IH]; intros s; cbn; [done|].
  destruct (cut s sep) as [[a b]|] eqn:E; [|done].
  apply cut_Some in E as ->. specialize (IH b).
  destruct (Split_go fuel b sep) as [|x l] eqn:El; [|by rewrite <-IH].
  destruct fuel; cbn in El; [done|]. by destruct (cut b sep) as [[??]|].
Qed.
Lemma Join_Split s sep : Join (Split s sep) sep = s.
Proof. apply Join_Split_go. Qed.

(** More fuel than bytes does not change [Split]: the fuel never runs out. *)
Lemma Split_fuel n m s sep :
  sep ≠ "" → (String.length s ≤ n)%nat → (String.length s ≤ m)%nat → Split_go n s sep = Split_go m s sep.
Proof.
  intros Hsep. revert m s. induction n as [|n IH]; intros [|m] s Hn Hm; cbn; [done| | |].
  - destruct s; [|cbn in *; lia]. destruct sep; [done|]. done.
  - destruct s; [|cbn in *; lia]. destruct sep; [done|]. done.
  - destruct (cut s sep) as [[a b]|] eqn:E; [|done]. f_equal. apply cut_Some in E as ->.
    rewrite !app_length_s in *. destruct sep as [|c sep]; [done|]. cbn in *. apply IH; lia.
Qed.

Section sort_by_facts.
Context {A : Type} (key : A → string).

#[local] Instance key_le_trans : Transitive (key_le key).
Proof. intros x y z. unfold key_le. apply transitivity. Qed.
#[local] Instance key_le_total : Total (key_le key).
Proof. intros x y. unfold key_le. apply (total String.le). Qed.

Lemma sort_by_perm (l : list A) : sort_by key l ≡ₚ l.
Proof. apply merge_sort_Permutation. Qed.
Lemma sort_by_sorted (l : list A) : StronglySorted (key_le key) (sort_by key l).
Proof. apply StronglySorted_merge_sort; apply _. Qed.
Lemma sort_by_elem (l : list A) x : x ∈ sort_by key l ↔ x ∈ l.
Proof. by rewrite sort_by_perm. Qed.
End sort_by_facts.

(** Wrapping is the identity in range, and always lands in range. *)
Lemma wrap_id w z : (0 < w → - 2 ^ (w - 1) ≤ z < 2 ^ (w - 1) → wrap w z = z)%Z.
Proof.
  intros Hw Hz. unfold wrap.
  assert (2 ^ w = 2 * 2 ^ (w - 1))%Z as Hp.
  { rewrite <-Z.pow_succ_r by lia. f_equal. lia. }
  rewrite Z.mod_small; lia.
Qed.
Lemma wrap_range w z : (0 < w → - 2 ^ (w - 1) ≤ wrap w z < 2 ^ (w - 1))%Z.
Proof.
  intros Hw. unfold wrap.
  assert (2 ^ w = 2 * 2 ^ (w - 1))%Z as Hp.
  { rewrite <-Z.pow_succ_r by lia. f_equal. lia. }
  assert (0 < 2 ^ (w - 1))%Z by (apply Z.pow_pos_nonneg; lia).
  pose proof (Z.mod_pos_bound (z + 2 ^ (w - 1)) (2 ^ w)). lia.
Qed.

(** ** Splitting at a character *)
Section split_char.
Context (c : ascii).
Abbreviation sep := (String c "").

Lemma cut_char_first s a b : cut s sep = Some (a, b) → cut a sep = None.
Proof.
  revert a. induction s as [|d s IH]; intros a; cbn [cut HasPrefix]; [done|].
  destruct (Ascii.eqb c d) eqn:E; cbn [andb].
  - destruct s; intros [= <- _]; reflexivity.
  - destruct (cut s sep) as [[a' b']|]; [|done]. intros [= <- ->]. cbn [cut HasPrefix].
    rewrite E. cbn [andb]. by rewrite (IH a' eq_refl).
Qed.
Lemma cut_char_app s y : cut s sep = None → cut (s +:+ String c y) sep = Some (s, y).
Proof.
  induction s as [|d s IH]; cbn [cut HasPrefix String.append].
  - intros _. rewrite Ascii.eqb_refl. cbn. by destruct y.
  - destruct (Ascii.eqb c d); [by destruct s|]. cbn [andb]. destruct (cut s sep) as [[??]|]; [done|]. intros _. by rewrite IH.
Qed.
Lemma cut_char_longer s a b y : cut s sep = Some (a, b) → cut (s +:+ y) sep = Some (a, b +:+ y).
Proof.
  revert a. induction s as [|d s IH]; intros a; cbn [cut HasPrefix String.append]; [done|].
  destruct (Ascii.eqb c d); cbn [andb].
  - destruct s; cbn; intros [= <- <-]; [by destruct y|done].
  - destruct (cut s sep) as [[a' b']|]; [|done]. intros [= <- <-]. by rewrite (IH a').
Qed.

Lemma Split_char_eq s : Split s sep = match cut s sep with Some (a, b) => a :: Split b sep | None => [s] end.
Proof.
  unfold Split. destruct s as [|d s]; [done|]. cbn [String.length Split_go].
  destruct (cut (String d s) sep) as [[a b]|] eqn:E; [|done]. f_equal. apply cut_Some in E.
  assert (String.length (String d s) = String.length (a +:+ sep +:+ b)) as Hl by by rewrite E.
  rewrite !app_length_s in Hl. cbn in Hl. apply Split_fuel; [done|lia|done].
Qed.
Lemma Split_char_snoc s y : cut y sep = None → Split (s +:+ String c y) sep = (Split s sep ++ [y])%list.
Proof.
  intros Hy. remember (String.length s) as n eqn:Hn. revert s Hn. induction (lt_wf n) as [n _ IH]. intros s ->.
  rewrite !Split_char_eq. destruct (cut s sep) as [[a b]|] eqn:E.
  - rewrite (cut_char_longer s a b _ E). cbn. f_equal. apply cut_Some in E.
    apply (IH (String.length b)); [|done]. rewrite E, !app_length_s. cbn. lia.
  - rewrite (cut_char_app s y E). cbn. rewrite Split_char_eq. by rewrite Hy.
Qed.
Lemma Split_char_parts s x : x ∈ Split s sep → cut x sep = None.
Proof.
  remember (String.length s) as n eqn:Hn. revert s Hn. induction (lt_wf n) as [n _ IH]. intros s ->.
  rewrite Split_char_eq. destruct (cut s sep) as [[a b]|] eqn:E.
  - intros [->|Hx]%elem_of_cons; [by eapply cut_char_first|]. apply cut_Some in E.
    eapply (IH (String.length b)); [|reflexivity|exact Hx]. rewrite E, !app_length_s. cbn. lia.
  - by intros ->%list_elem_of_singleton.
Qed.
Lemma Join_snoc l x s : l ≠ [] → Join (l ++ [x]) s = Join l s +:+ s +:+ x.
Proof.
  induction l as [|y l IH]; [done|]. intros _. destruct l as [|z l]; [done|].
  cbn [app Join] in *. rewrite IH by done. by rewrite !app_assoc_s.
Qed.
End split_char.
