(* ===== verification/GoErr.v ===== *)
(** * Go errors: the dynamic types of [error] values the sources tell apart,
    the predicates of [k8s.io/apimachinery/pkg/api/errors] and
    [github.com/pkg/errors], and [backoff.Retry]. *)
From stdpp Require Import prelude strings.
From Stdlib Require Import ZArith.
From S2P Require Import Prelude GoStr.

Open Scope string_scope.

(** One constructor per dynamic type an error is inspected for.  [EStatus] is
    [*k8serrors.StatusError]; [EText] is what [fmt.Errorf], [errors.New] and
    [errors.Errorf] build; [EWrap] is [errors.Wrap]; the rest are the types the
    repository declares, [backoff.PermanentError] and the discovery error. *)
#[warnings="-register-all"]
Inductive error : Type :=
| EStatus (code : Z) (reason : string) (msg : string)
| EText (msg : string)
| EWrap (msg : string) (cause : error)
| ENamespaceDeletion (msg : string)
| EMissingServiceAccount (msg : string)
| ERobotSelectorOverlap (robot : string)
| EGroupDiscoveryFailed (msg : string)
| ETransient (e : error)
| EPermanent (e : option error).

#[export] Instance error_eq_dec : EqDecision error.
Proof.
  refine (fix go (x y : error) {struct x} : Decision (x = y) :=
    match x, y with
    | EStatus a b c, EStatus a' b' c' => cast_if_and3 (decide (a = a')) (decide (b = b')) (decide (c = c'))
    | EText a, EText a' => cast_if (decide (a = a'))
    | EWrap a b, EWrap a' b' => cast_if_and (decide (a = a')) (go b b')
    | ENamespaceDeletion a, ENamespaceDeletion a' => cast_if (decide (a = a'))
    | EMissingServiceAccount a, EMissingServiceAccount a' => cast_if (decide (a = a'))
    | ERobotSelectorOverlap a, ERobotSelectorOverlap a' => cast_if (decide (a = a'))
    | EGroupDiscoveryFailed a, EGroupDiscoveryFailed a' => cast_if (decide (a = a'))
    | ETransient a, ETransient a' => cast_if (go a a')
    | EPermanent None, EPermanent None => left eq_refl
    | EPermanent (Some a), EPermanent (Some a') => cast_if (go a a')
    | _, _ => right _
    end); clear go; abstract intuition congruence.
Defined.

(** Results of Go functions returning [(T, error)]. *)
Inductive result (A : Type) : Type :=
| Ok (a : A)
| Err (e : error).
Arguments Ok {A} a.
Arguments Err {A} e.

Definition is_ok {A} (r : result A) : bool := match r with Ok _ => true | Err _ => false end.

(** [e.Error()]. *)
Fixpoint error_text (e : error) : string :=
  match e with
  | EStatus _ _ m | EText m | ENamespaceDeletion m | EMissingServiceAccount m
  | EGroupDiscoveryFailed m => m
  | EWrap m e => m +:+ ": " +:+ error_text e
  | ERobotSelectorOverlap r => "robot " +:+ fmt_q r +:+ " was selected multiple times"
  | ETransient e => error_text e
  | EPermanent (Some e) => error_text e
  | EPermanent None => ""
  end.

(** [errors.Cause] and [errors.As] for an API status: both look through
    [errors.Wrap] and through nothing else. *)
Fixpoint Cause (e : error) : error :=
  match e with EWrap _ e => Cause e | e => e end.

Definition ReasonForError (e : error) : string :=
  match Cause e with EStatus _ reason _ => reason | _ => "" end.
Definition StatusCode (e : error) : option Z :=
  match Cause e with EStatus code _ _ => Some code | _ => None end.

Definition has_reason (reason : string) (e : error) : bool :=
  bool_decide (ReasonForError e = reason).
Definition IsNotFound := has_reason "NotFound".
Definition IsAlreadyExists := has_reason "AlreadyExists".
Definition IsConflict := has_reason "Conflict".
Definition IsGone := has_reason "Gone".
Definition IsResourceExpired := has_reason "Expired".
Definition IsServiceUnavailable := has_reason "ServiceUnavailable".
Definition IsTimeout := has_reason "Timeout".
Definition IsServerTimeout := has_reason "ServerTimeout".
Definition IsInternalError := has_reason "InternalError".
Definition IsUnauthorized := has_reason "Unauthorized".
Definition IsTooManyRequests (e : error) : bool :=
  has_reason "TooManyRequests" e || bool_decide (StatusCode e = Some 429%Z).

(** [discovery.IsGroupDiscoveryFailedError]: a type assertion, no unwrapping. *)
Definition IsGroupDiscoveryFailedError (e : error) : bool :=
  match e with EGroupDiscoveryFailed _ => true | _ => false end.

(** [errors.Wrap] on a value that may be nil. *)
Definition Wrap (e : option error) (msg : string) : option error := EWrap msg <$> e.

(** ** [backoff.Retry] over [backoff.WithMaxRetries]

    [Retry n op] runs [op] at least once and at most [n + 1] times ([n > 0]:
    a limit of 0 means no limit in the library and is never used).  A
    [*PermanentError] ends the loop and is {e unwrapped}. *)
Fixpoint Retry {Op : Type} `{Effect Op} {S : Type}
    (n : nat) (op : S → prog Op (option error * S)) (s : S)
    : prog Op (option error * S) :=
  prog_bind (λ '(r, s),
    match r with
    | None => Ret (None, s)
    | Some (EPermanent e) => Ret (e, s)
    | Some e => match n with
                | O => Ret (Some e, s)
                | Datatypes.S n => Retry n op s
                end
    end) (op s).

(** ** Facts *)

Lemma Cause_wrap m e : Cause (EWrap m e) = Cause e.
Proof. done. Qed.
Lemma Cause_idemp e : Cause (Cause e) = Cause e.
Proof. induction e; cbn; done. Qed.
Lemma has_reason_wrap r m e : has_reason r (EWrap m e) = has_reason r e.
Proof. done. Qed.
Lemma has_reason_excl r r' e : has_reason r e = true → r ≠ r' → has_reason r' e = false.
Proof.
  unfold has_reason. intros Hr%bool_decide_eq_true Hne.
  apply bool_decide_eq_false. congruence.
Qed.

Section Retry_facts.
Context {Op : Type} `{Effect Op} {St : Type}.

(** No result of [Retry] is a [*PermanentError] unless it was wrapped twice. *)
Lemma Retry_not_permanent n (op : St → prog Op (option error * St)) s t r s' :
  (∀ s t e s', exec (op s) t (Done (Some (EPermanent e), s')) →
     match e with Some (EPermanent _) => False | _ => True end) →
  exec (Retry n op s) t (Done (r, s')) →
  match r with Some (EPermanent _) => False | _ => True end.
Proof.
  intros Hop. revert s t. induction n as [|n IH]; intros s t HE; cbn in HE;
    apply exec_bind in HE as [(m & HE & Hm)|(t1 & t2 & [e s1] & -> & HE1 & HE2)]; try done;
    destruct e as [[]|]; cbn in HE2;
    try (destruct HE2 as [_ [= -> ->]]; try done; by apply (Hop s t1 _ s1 HE1));
    by eapply IH.
Qed.

(** At most [n + 1] tries. *)
Lemma Retry_cost (w : Op → nat) n (op : St → prog Op (option error * St)) c s :
  (∀ s, cost_le w (op s) c) → cost_le w (Retry n op s) (S n * c).
Proof.
  intros Hop. revert s. induction n as [|n IH]; intros s; cbn [Retry].
  - apply (cost_le_mono _ _ (c + 0)); [lia|]. apply cost_le_bind; [apply Hop|].
    by intros [[[]|] s'].
  - apply (cost_le_mono _ _ (c + S n * c)); [lia|]. apply cost_le_bind; [apply Hop|].
    intros [[[]|] s']; done || apply IH.
Qed.

(** What the tries may call; [I] holds between them, [Q] after success. *)
Lemma wp_Retry A (G : Op → Prop) E n (op : St → prog Op (option error * St)) (I Q : St → Prop) s :
  (∀ s, I s → wp A G E (op s) (λ r, match r.1 with None | Some (EPermanent None) => Q r.2 | _ => I r.2 end)) →
  I s → wp A G E (Retry n op s) (λ r, match r.1 with None => Q r.2 | _ => True end).
Proof.
  intros Hop. revert s. induction n as [|n IH]; intros s HI; cbn [Retry]; apply wp_bind;
    (eapply wp_mono; [|by apply Hop]); intros [[[]|] s'] HI'; cbn in HI' |- *; try done; try (by apply IH);
    by repeat case_match.
Qed.

(** The result is the last try's, a [*PermanentError] unwrapped. *)
Lemma Retry_last n (op : St → prog Op (option error * St)) s t r s' :
  exec (Retry n op s) t (Done (r, s')) →
  ∃ t1 t2 s1 e, t = (t1 ++ t2)%list ∧ exec (op s1) t2 (Done (e, s')) ∧
    r = match e with Some (EPermanent e) => e | _ => e end.
Proof.
  revert s t. induction n as [|n IH]; intros s t HE; cbn [Retry] in HE;
    apply exec_bind in HE as [(m & _ & ?)|(t1 & t2 & [e s1] & -> & HE1 & HE2)]; [done| |done|].
  - exists [], t1, s, e. destruct e as [[]|]; cbn in HE2; destruct HE2 as [-> [= -> ->]]; by rewrite app_nil_r.
  - assert ((t2 = [] ∧ s1 = s' ∧ r = match e with Some (EPermanent e) => e | _ => e end) ∨
            exec (Retry n op s1) t2 (Done (r, s'))) as [(-> & -> & Hr)|HE].
    { destruct e as [[]|]; cbn in HE2; try (by right); destruct HE2 as [-> [= -> ->]]; by left. }
    + exists [], t1, s, e. by rewrite app_nil_r.
    + destruct (IH _ _ HE) as (ta & tb & s2 & e2 & -> & Hop & Hr). exists (t1 ++ ta)%list, tb, s2, e2.
      by rewrite (assoc_L (++)).
Qed.
End Retry_facts.

#[warnings="-implicit-create-rewrite-hint-db"]
#[export] Hint Rewrite Cause_wrap has_reason_wrap : goerr.
