(* ===== verification/Kube.v ===== *)
(** * Kubernetes objects and the API client

    The metadata and core types the controllers read and write, and the calls
    of [sigs.k8s.io/controller-runtime/pkg/client.Client].  The API server is
    a service: its answers are arbitrary. *)
From stdpp Require Import prelude strings gmap list.
From Stdlib Require Import ZArith.
From S2P Require Import Prelude GoErr GoStr.

Open Scope string_scope.

(** ** Metadata *)

(** A Go [map[string]string]: [None] is the nil map. *)
Abbreviation strmap := (option (gmap string string)).
Definition sm_lookup (m : strmap) (k : string) : option string := m ≫= (.!! k).
Definition sm_get (m : strmap) (k : string) : string := default "" (sm_lookup m k).
(** The nil-checked store of [setLabel] and [setAnnotation]. *)
Definition sm_set (m : strmap) (k v : string) : strmap := Some (<[k:=v]> (default ∅ m)).

(** Timestamps are nanoseconds; [None] is a nil [*metav1.Time]. *)
Abbreviation time := Z.
Definition Second : Z := 1000000000%Z.
Definition Minute : Z := (60 * Second)%Z.

Record OwnerReference := mkOwnerReference {
  or_APIVersion : string; or_Kind : string; or_Name : string; or_UID : string;
  or_BlockOwnerDeletion : option bool; or_Controller : option bool }.
#[export] Instance OwnerReference_eq_dec : EqDecision OwnerReference.
Proof. solve_decision. Defined.

Record ObjectMeta := mkObjectMeta {
  om_Name : string; om_Namespace : string; om_UID : string;
  om_ResourceVersion : string; om_Generation : Z;
  om_CreationTimestamp : time; om_DeletionTimestamp : option time;
  om_Labels : strmap; om_Annotations : strmap;
  om_OwnerReferences : list OwnerReference; om_Finalizers : list string }.

Definition emptyMeta : ObjectMeta := mkObjectMeta "" "" "" "" 0 0 None None None [] [].
Definition namedMeta (ns name : string) : ObjectMeta :=
  mkObjectMeta name ns "" "" 0 0 None None None [] [].

Definition om_setName (v : string) (m : ObjectMeta) : ObjectMeta :=
  let '(mkObjectMeta _ b c d e f g h i j k) := m in mkObjectMeta v b c d e f g h i j k.
Definition om_setNamespace (v : string) (m : ObjectMeta) : ObjectMeta :=
  let '(mkObjectMeta a _ c d e f g h i j k) := m in mkObjectMeta a v c d e f g h i j k.
Definition om_setResourceVersion (v : string) (m : ObjectMeta) : ObjectMeta :=
  let '(mkObjectMeta a b c _ e f g h i j k) := m in mkObjectMeta a b c v e f g h i j k.
Definition om_setLabels (v : strmap) (m : ObjectMeta) : ObjectMeta :=
  let '(mkObjectMeta a b c d e f g _ i j k) := m in mkObjectMeta a b c d e f g v i j k.
Definition om_setAnnotations (v : strmap) (m : ObjectMeta) : ObjectMeta :=
  let '(mkObjectMeta a b c d e f g h _ j k) := m in mkObjectMeta a b c d e f g h v j k.
Definition om_setOwnerReferences (v : list OwnerReference) (m : ObjectMeta) : ObjectMeta :=
  let '(mkObjectMeta a b c d e f g h i _ k) := m in mkObjectMeta a b c d e f g h i v k.
Definition om_setFinalizers (v : list string) (m : ObjectMeta) : ObjectMeta :=
  let '(mkObjectMeta a b c d e f g h i j _) := m in mkObjectMeta a b c d e f g h i j v.

(** ** Conditions: the three controllers' statuses use the same record shape. *)
Inductive ConditionStatus := ConditionTrue | ConditionFalse | ConditionUnknown.
#[export] Instance ConditionStatus_eq_dec : EqDecision ConditionStatus.
Proof. solve_decision. Defined.

Record Condition := mkCondition {
  cd_Type : string; cd_Status : ConditionStatus;
  cd_LastUpdateTime : time; cd_LastTransitionTime : time; cd_Message : string }.

(** The loop of the controllers' [setCondition]: the first condition of type
    [t] is updated in place, its timestamps only where something changed; a
    missing one is appended. *)
Fixpoint upsertCondition (now : time) (t : string) (v : ConditionStatus) (msg : string)
    (conds : list Condition) : list Condition :=
  match conds with
  | [] => [mkCondition t v now now msg]
  | c :: conds =>
      if bool_decide (cd_Type c = t) then
        mkCondition t v
          (if negb (bool_decide (cd_Status c = v)) || negb (bool_decide (cd_Message c = msg))
           then now else cd_LastUpdateTime c)
          (if negb (bool_decide (cd_Status c = v)) then now else cd_LastTransitionTime c)
          msg :: conds
      else c :: upsertCondition now t v msg conds
  end.

(** The status of the first condition of type [t]. *)
Definition condition_of (t : string) (conds : list Condition) : option (ConditionStatus * string) :=
  (λ c, (cd_Status c, cd_Message c)) <$> head (filter (λ c, cd_Type c = t) conds).

(** Lists of strings used as sets of finalizers. *)
Fixpoint stringsContain (l : list string) (s : string) : bool :=
  match l with [] => false | x :: l => bool_decide (x = s) || stringsContain l s end.
Fixpoint stringsDelete (l : list string) (s : string) : list string :=
  match l with
  | [] => []
  | x :: l => if bool_decide (x = s) then stringsDelete l s else x :: stringsDelete l s
  end.

(** ** [controllerutil.SetControllerReference] (vendored controller-runtime) *)

(** The group of [schema.ParseGroupVersion]; [None] is its error (more than
    one slash). *)
Definition gv_group (apiVersion : string) : option string :=
  match Split apiVersion "/" with
  | [_] => Some ""
  | [g; _] => Some g
  | _ => None
  end.
Definition referSameObject (a b : OwnerReference) : bool :=
  match gv_group (or_APIVersion a), gv_group (or_APIVersion b) with
  | Some g, Some g' => bool_decide (g = g') && bool_decide (or_Kind a = or_Kind b)
                       && bool_decide (or_Name a = or_Name b)
  | _, _ => false
  end.
Fixpoint upsertOwnerRef (ref : OwnerReference) (owners : list OwnerReference) : list OwnerReference :=
  match owners with
  | [] => [ref]
  | o :: owners => if referSameObject o ref then ref :: owners
                   else o :: upsertOwnerRef ref owners
  end.
Definition GetControllerOf (m : ObjectMeta) : option OwnerReference :=
  head (filter (λ r, or_Controller r = Some true) (om_OwnerReferences m)).
(** The error is dropped by every caller in the sources, so only the object is
    returned: unchanged when the call fails. *)
Definition SetControllerReference (apiVersion kind : string) (owner controlled : ObjectMeta) : ObjectMeta :=
  let ref := mkOwnerReference apiVersion kind (om_Name owner) (om_UID owner) (Some true) (Some true) in
  if negb (bool_decide (om_Namespace owner = "")) &&
     negb (bool_decide (om_Namespace owner = om_Namespace controlled)) then controlled
  else match GetControllerOf controlled with
       | Some existing =>
           if referSameObject existing ref
           then om_setOwnerReferences (upsertOwnerRef ref (om_OwnerReferences controlled)) controlled
           else controlled
       | None => om_setOwnerReferences (upsertOwnerRef ref (om_OwnerReferences controlled)) controlled
       end.

(** ** JSON *)

(** JSON values: configuration values, and what an [unstructured.Unstructured]
    holds besides the fields read through accessors. *)
#[warnings="-register-all"]
Inductive json : Type :=
| JNull
| JBool (b : bool)
| JNum (n : Z)
| JString (s : string)
| JList (l : list json)
| JObj (l : list (string * json)).

(** ** Core objects *)
Record Namespace := mkNamespace { ns_meta : ObjectMeta }.
Record ServiceAccount := mkServiceAccount { sa_meta : ObjectMeta; sa_ImagePullSecrets : list string }.
Record Secret := mkSecret { sec_meta : ObjectMeta; sec_Data : strmap; sec_Type : string }.
Record ConfigMap := mkConfigMap { cm_meta : ObjectMeta; cm_Data : strmap }.
Record Pod := mkPod { pod_meta : ObjectMeta; pod_Phase : string }.
(** Label selectors: the requirement list of a [metav1.LabelSelector]. *)
Inductive SelectorOp := OpIn | OpNotIn | OpExists | OpDoesNotExist | OpOther (name : string).
Record Requirement := mkRequirement { rq_Key : string; rq_Op : SelectorOp; rq_Values : list string }.
Record LabelSelector := mkLabelSelector {
  ls_MatchLabels : gmap string string; ls_MatchExpressions : list Requirement }.

(** ** The client *)

(** [Kinds K]: the object kinds a controller handles, and the Go type of each. *)
Class Kinds (K : Type) := obj : K → Type.

Inductive selector := All | InNamespace (ns : string) | MatchingFields (field value : string).

Inductive kop (K : Type) `{Kinds K} : Type :=
| KNow
| KGet (k : K) (ns name : string)
| KList (k : K) (sel : selector)
| KCreate (k : K) (o : obj k)
| KUpdate (k : K) (o : obj k)
| KStatusUpdate (k : K) (o : obj k)
| KDelete (k : K) (o : obj k)
| KDeleteAllOf (k : K) (sel : selector).
Arguments KNow {K _}.
Arguments KGet {K _} k ns name.
Arguments KList {K _} k sel.
Arguments KCreate {K _} k o.
Arguments KUpdate {K _} k o.
Arguments KStatusUpdate {K _} k o.
Arguments KDelete {K _} k o.
Arguments KDeleteAllOf {K _} k sel.

(** [Get], [Create] and the updates write the server's object back through
    their pointer argument: the object is the answer.  On an error the
    argument keeps its value. *)
#[export] Instance kop_effect {K : Type} `{Kinds K} : Effect (kop K) := λ o,
  match o with
  | KNow => time
  | KGet k _ _ | KCreate k _ | KUpdate k _ | KStatusUpdate k _ => result (obj k)
  | KList k _ => result (list (obj k))
  | KDelete _ _ | KDeleteAllOf _ _ => option error
  end.

(** Calls that change the cluster. *)
Definition is_write {K : Type} `{Kinds K} (o : kop K) : bool :=
  match o with KNow | KGet _ _ _ | KList _ _ => false | _ => true end.

(** ** Facts *)

Lemma sm_get_set_eq m k v : sm_get (sm_set m k v) k = v.
Proof. unfold sm_get, sm_lookup, sm_set. cbn. by rewrite lookup_insert_eq. Qed.
Lemma sm_lookup_set_ne m k k' v : k ≠ k' → sm_lookup (sm_set m k v) k' = sm_lookup m k'.
Proof. intros ?. unfold sm_lookup, sm_set. cbn. rewrite lookup_insert_ne by done. by destruct m. Qed.
Lemma sm_lookup_set_eq m k v : sm_lookup (sm_set m k v) k = Some v.
Proof. unfold sm_lookup, sm_set. cbn. by rewrite lookup_insert_eq. Qed.

Lemma SetControllerReference_name a k o c :
  om_Name (SetControllerReference a k o c) = om_Name c ∧
  om_Namespace (SetControllerReference a k o c) = om_Namespace c.
Proof.
  unfold SetControllerReference. destruct c. cbn.
  repeat case_match; done.
Qed.

Lemma condition_of_upsert now t v msg conds :
  condition_of t (upsertCondition now t v msg conds) = Some (v, msg).
Proof.
  unfold condition_of. induction conds as [|c conds IH]; cbn.
  - by rewrite decide_True by done.
  - case_bool_decide as Hc; cbn; [by rewrite decide_True|]. by rewrite decide_False.
Qed.
Lemma condition_of_upsert_ne now t t' v msg conds :
  t ≠ t' → condition_of t' (upsertCondition now t v msg conds) = condition_of t' conds.
Proof.
  intros Ht. unfold condition_of. induction conds as [|c conds IH]; cbn.
  - by rewrite decide_False.
  - case_bool_decide as Hc; cbn; subst; [by rewrite !decide_False|]. case_decide; done.
Qed.
Lemma upsertCondition_types now t v msg conds :
  cd_Type <$> upsertCondition now t v msg conds =
  ((cd_Type <$> conds) ++ (if bool_decide (t ∈ (cd_Type <$> conds)) then [] else [t]))%list.
Proof.
  induction conds as [|c conds IH]; cbn [upsertCondition]; [done|].
  destruct (decide (cd_Type c = t)) as [Hc|Hc].
  - rewrite (bool_decide_eq_true_2 _ Hc), (bool_decide_eq_true_2 (t ∈ _)).
    + rewrite app_nil_r. by subst.
    + subst. by left.
  - rewrite (bool_decide_eq_false_2 _ Hc), !fmap_cons, IH. cbn. f_equal. f_equal.
    repeat case_bool_decide; try done; rewrite elem_of_cons in *; naive_solver.
Qed.

Lemma stringsContain_iff l s : stringsContain l s = true ↔ s ∈ l.
Proof.
  induction l as [|x l IH]; cbn; [set_solver|].
  rewrite orb_true_iff, bool_decide_eq_true, IH. set_solver.
Qed.
Lemma stringsDelete_spec l s x : x ∈ stringsDelete l s ↔ x ∈ l ∧ x ≠ s.
Proof.
  induction l as [|y l IH]; cbn; [set_solver|]. case_bool_decide; set_solver.
Qed.
Lemma stringsDelete_id l s : s ∉ l → stringsDelete l s = l.
Proof.
  induction l as [|y l IH]; cbn; [done|]. intros Hn.
  rewrite bool_decide_eq_false_2 by set_solver. f_equal. apply IH. set_solver.
Qed.

#[warnings="-implicit-create-rewrite-hint-db"]
#[export] Hint Rewrite sm_get_set_eq sm_lookup_set_eq condition_of_upsert : kube.
Create HintDb kube.
#[export] Hint Resolve SetControllerReference_name : kube.
