(* ===== verification/Coretools.v ===== *)
(** * src/go/pkg/coretools: namespace names and random strings *)
From stdpp Require Import prelude strings list.
From Stdlib Require Import Ascii ZArith.
From S2P Require Import Prelude GoStr.

Open Scope string_scope.

Definition ImagePullSecret := "cloud-robotics-images".
Definition RobotSetupConfigmap := "robot-setup".
Definition RobotConfigCloudNamespace := "robot-config".
Definition RobotServiceAccount := "robot-service".
Definition RobotSetupServiceAccount := "robot-service-setup".
Definition TenantPrefix := "t-".
Definition DefaultTenantName := "default".

Definition letterBytes := "abcdefghijklmnopqrstuvwxyz".
Definition letterIdxBits := 5%Z.
Definition letterIdxMask := (Z.shiftl 1 letterIdxBits - 1)%Z.
Definition letterIdxMax := (63 `div` letterIdxBits)%Z.

(** One byte of [letterBytes]. *)
Definition letter (idx : Z) : string :=
  match String.get (Z.to_nat idx) letterBytes with
  | Some c => String c ""
  | None => ""
  end.

(** The loop of [RandomString].  [src pos] is the [pos]-th value of
    [src.Int63()]; [None] means the fuel ran out (the Go loop has no bound). *)
Fixpoint RandomString_loop (fuel : nat) (src : nat → Z) (pos : nat)
    (i cache remain : Z) (sb : string) : option string :=
  if (i <? 0)%Z then Some sb else
  match fuel with
  | O => None
  | S fuel =>
      let '(cache, remain, pos) :=
        if (remain =? 0)%Z then (src pos, letterIdxMax, S pos) else (cache, remain, pos) in
      let idx := Z.land cache letterIdxMask in
      if (idx <? Z.of_nat (String.length letterBytes))%Z
      then RandomString_loop fuel src pos (i - 1) (Z.shiftr cache letterIdxBits)
             (remain - 1) (sb +:+ letter idx)
      else RandomString_loop fuel src pos i (Z.shiftr cache letterIdxBits) (remain - 1) sb
  end.

Definition RandomString (fuel : nat) (src : nat → Z) (n : Z) : option string :=
  RandomString_loop fuel src 1 (n - 1) (src O) letterIdxMax "".

Definition RobotConfigNamespace (tenantMainNamespace : string) : string :=
  if bool_decide (tenantMainNamespace = "default") then RobotConfigCloudNamespace
  else tenantMainNamespace +:+ "-" +:+ RobotConfigCloudNamespace.

Definition TenantMainNamespace (tenantName : string) : string :=
  if bool_decide (tenantName = DefaultTenantName) then "default"
  else TenantPrefix +:+ tenantName.

(** ** Facts *)

Definition is_lower (c : ascii) : bool :=
  (97 <=? Ascii.nat_of_ascii c)%nat && (Ascii.nat_of_ascii c <=? 122)%nat.
Fixpoint all_lower (s : string) : bool :=
  match s with EmptyString => true | String c s => is_lower c && all_lower s end.

(** A value of the random source from which at least one letter can be drawn. *)
Definition drawable (v : Z) : Prop :=
  ∃ j, (0 ≤ j < 12)%Z ∧ (Z.land (Z.shiftr v (5 * j)) letterIdxMask < 26)%Z.

Lemma land_mask_range v : (0 ≤ Z.land v letterIdxMask < 32)%Z.
Proof.
  replace letterIdxMask with (Z.ones 5) by done. rewrite Z.land_ones by lia.
  apply Z.mod_pos_bound. lia.
Qed.

Lemma letter_ok idx : (0 ≤ idx < 26)%Z → String.length (letter idx) = 1 ∧ all_lower (letter idx) = true.
Proof.
  intros Hi. rewrite <-(Z2Nat.id idx) by lia.
  assert (Z.to_nat idx < 26)%nat as Hn by lia. revert Hn.
  generalize (Z.to_nat idx) as k. clear. intros k Hk.
  do 26 (destruct k as [|k]; [by vm_compute|]). lia.
Qed.

Lemma all_lower_app a b : all_lower (a +:+ b) = all_lower a && all_lower b.
Proof.
  induction a as [|c a IH]; [done|]. rewrite app_cons. cbn. rewrite IH. by rewrite andb_assoc.
Qed.

Lemma RandomString_loop_shape fuel src pos i cache remain sb s :
  (-1 ≤ i)%Z → all_lower sb = true →
  RandomString_loop fuel src pos i cache remain sb = Some s →
  Z.of_nat (String.length s) = (Z.of_nat (String.length sb) + i + 1)%Z ∧ all_lower s = true.
Proof.
  revert pos i cache remain sb. induction fuel as [|fuel IH]; intros pos i cache remain sb Hi Hsb;
    cbn [RandomString_loop]; destruct (Z.ltb_spec i 0).
  - intros [= <-]. split; [lia|done].
  - done.
  - intros [= <-]. split; [lia|done].
  - destruct (if (remain =? 0)%Z then _ else _) as [[cache' remain'] pos'].
    destruct (Z.ltb_spec (Z.land cache' letterIdxMask) (Z.of_nat (String.length letterBytes))) as [Hl|Hl].
    + pose proof (land_mask_range cache') as Hr.
      destruct (letter_ok (Z.land cache' letterIdxMask)) as [Hlen Hlow]; [cbn in Hl; lia|].
      intros HE. apply IH in HE as [Hs Hall]; [|lia|].
      * rewrite app_length_s, Hlen in Hs. split; [lia|done].
      * by rewrite all_lower_app, Hsb, Hlow.
    + intros HE. by apply IH in HE.
Qed.

(** The next letter is found within the bits left in the cache plus one fresh
    draw, whatever the state. *)
Lemma RandomString_scan (src : nat → Z) (n : nat) : ∀ j fuel pos i cache remain sb,
  (0 ≤ i)%Z → (0 ≤ j < 12)%Z → (Z.of_nat n = j) →
  (Z.land (Z.shiftr cache (5 * j)) letterIdxMask < 26)%Z → (j < remain)%Z →
  ∃ k pos' cache' remain' sb', (k ≤ 12)%nat ∧ (0 ≤ remain')%Z ∧ (remain' ≤ remain)%Z ∧
    RandomString_loop (k + fuel) src pos i cache remain sb =
    RandomString_loop fuel src pos' (i - 1) cache' remain' sb' ∧ (k ≤ S n)%nat.
Proof.
  induction n as [|n IH]; intros j fuel pos i cache remain sb Hi Hj Hn Hg Hr.
  - assert (j = 0%Z) as -> by lia. rewrite Z.shiftr_0_r in Hg.
    exists 1, pos, (Z.shiftr cache letterIdxBits), (remain - 1)%Z, (sb +:+ letter (Z.land cache letterIdxMask)).
    split_and!; [lia|lia|lia| |lia]. cbn [Nat.add RandomString_loop].
    destruct (Z.ltb_spec i 0); [lia|]. destruct (Z.eqb_spec remain 0); [lia|].
    cbn [String.length letterBytes]. destruct (Z.ltb_spec (Z.land cache letterIdxMask) (Z.of_nat 26)); [done|lia].
  - destruct (decide (Z.land cache letterIdxMask < 26)%Z) as [Hl|Hl].
    + exists 1, pos, (Z.shiftr cache letterIdxBits), (remain - 1)%Z, (sb +:+ letter (Z.land cache letterIdxMask)).
      split_and!; [lia|lia|lia| |lia]. cbn [Nat.add RandomString_loop].
      destruct (Z.ltb_spec i 0); [lia|]. destruct (Z.eqb_spec remain 0); [lia|].
      cbn [String.length letterBytes]. destruct (Z.ltb_spec (Z.land cache letterIdxMask) (Z.of_nat 26)); [done|lia].
    + destruct (IH (j - 1)%Z fuel pos i (Z.shiftr cache letterIdxBits) (remain - 1)%Z sb)
        as (k & pos' & cache' & remain' & sb' & Hk & Hr' & Hr'' & HE & Hk'); try lia.
      { rewrite Z.shiftr_shiftr by (unfold letterIdxBits; lia).
        by replace (letterIdxBits + 5 * (j - 1))%Z with (5 * j)%Z by (unfold letterIdxBits; lia). }
      exists (S k), pos', cache', remain', sb'. split_and!; [lia|lia|lia| |lia].
      cbn [Nat.add RandomString_loop].
      destruct (Z.ltb_spec i 0); [lia|]. destruct (Z.eqb_spec remain 0); [lia|].
      cbn [String.length letterBytes]. destruct (Z.ltb_spec (Z.land cache letterIdxMask) (Z.of_nat 26)); [lia|done].
Qed.

Lemma RandomString_refill fuel src pos i cache sb :
  RandomString_loop fuel src pos i cache 0 sb =
  RandomString_loop fuel src (S pos) i (src pos) letterIdxMax sb.
Proof. destruct fuel; cbn [RandomString_loop]; by destruct (i <? 0)%Z. Qed.

Lemma RandomString_progress (src : nat → Z) (r : nat) :
  (∀ m, drawable (src m)) → ∀ fuel pos i cache remain sb,
  (0 ≤ i)%Z → Z.of_nat r = remain → (remain ≤ 12)%Z →
  ∃ k pos' cache' remain' sb', (k ≤ r + 12)%nat ∧ (0 ≤ remain' ≤ 12)%Z ∧
    RandomString_loop (k + fuel) src pos i cache remain sb =
    RandomString_loop fuel src pos' (i - 1) cache' remain' sb'.
Proof.
  intros Hsrc. induction r as [|r IH]; intros fuel pos i cache remain sb Hi Hr Hle.
  - assert (remain = 0%Z) as -> by lia.
    destruct (Hsrc pos) as (j & Hj & Hg).
    destruct (RandomString_scan src (Z.to_nat j) j fuel (S pos) i (src pos) letterIdxMax sb)
      as (k & pos' & cache' & remain' & sb' & Hk & Hr0 & Hr1 & HE & _);
      [lia|lia|lia|done|change letterIdxMax with 12%Z; lia|].
    exists k, pos', cache', remain', sb'.
    split; [lia|]. split; [change letterIdxMax with 12%Z in Hr1; lia|].
    by rewrite RandomString_refill.
  - destruct (decide (Z.land cache letterIdxMask < 26)%Z) as [Hl|Hl].
    + exists 1, pos, (Z.shiftr cache letterIdxBits), (remain - 1)%Z, (sb +:+ letter (Z.land cache letterIdxMask)).
      split; [lia|]. split; [lia|]. cbn [Nat.add RandomString_loop].
      destruct (Z.ltb_spec i 0); [lia|]. destruct (Z.eqb_spec remain 0); [lia|].
      cbn [String.length letterBytes]. destruct (Z.ltb_spec (Z.land cache letterIdxMask) (Z.of_nat 26)); [done|lia].
    + destruct (IH fuel pos i (Z.shiftr cache letterIdxBits) (remain - 1)%Z sb)
        as (k & pos' & cache' & remain' & sb' & Hk & Hr' & HE); [lia|lia|lia|].
      exists (S k), pos', cache', remain', sb'. split; [lia|]. split; [done|].
      cbn [Nat.add RandomString_loop].
      destruct (Z.ltb_spec i 0); [lia|]. destruct (Z.eqb_spec remain 0); [lia|].
      cbn [String.length letterBytes]. destruct (Z.ltb_spec (Z.land cache letterIdxMask) (Z.of_nat 26)); [lia|done].
Qed.

Lemma RandomString_more src f g pos i cache remain sb s :
  RandomString_loop f src pos i cache remain sb = Some s → (f ≤ g)%nat →
  RandomString_loop g src pos i cache remain sb = Some s.
Proof.
  revert g pos i cache remain sb. induction f as [|f IH]; intros [|g] pos i cache remain sb;
    cbn [RandomString_loop]; destruct (i <? 0)%Z; try done; [lia|].
  destruct (if (remain =? 0)%Z then _ else _) as [[cache' remain'] pos'].
  case_match; intros HE Hle; (apply IH; [done|lia]).
Qed.

Lemma RandomString_loop_total (src : nat → Z) (n : nat) :
  (∀ m, drawable (src m)) → ∀ pos i cache remain sb,
  (i + 1)%Z = Z.of_nat n → (0 ≤ remain ≤ 12)%Z →
  is_Some (RandomString_loop (24 * n) src pos i cache remain sb).
Proof.
  intros Hsrc. induction n as [|n IH]; intros pos i cache remain sb Hn Hr.
  - cbn. destruct (Z.ltb_spec i 0); [eauto|lia].
  - destruct (RandomString_progress src (Z.to_nat remain) Hsrc (24 * n) pos i cache remain sb)
      as (k & pos' & cache' & remain' & sb' & Hk & Hr' & HE); [lia|lia|lia|].
    destruct (IH pos' (i - 1)%Z cache' remain' sb') as [s Hs]; [lia|done|].
    exists s. eapply RandomString_more; [by rewrite HE|lia].
Qed.

Lemma TenantMainNamespace_default : TenantMainNamespace "default" = "default".
Proof. done. Qed.
Lemma TenantMainNamespace_other n : n ≠ "default" → TenantMainNamespace n = "t-" +:+ n.
Proof. intros Hn. unfold TenantMainNamespace, DefaultTenantName. by rewrite bool_decide_eq_false_2. Qed.
Lemma RobotConfigNamespace_default : RobotConfigNamespace "default" = "robot-config".
Proof. done. Qed.
Lemma RobotConfigNamespace_other n : n ≠ "default" → RobotConfigNamespace n = n +:+ "-robot-config".
Proof. intros Hn. unfold RobotConfigNamespace. by rewrite bool_decide_eq_false_2. Qed.
Lemma TenantMainNamespace_is_default n : TenantMainNamespace n = "default" ↔ n = "default".
Proof.
  unfold TenantMainNamespace, DefaultTenantName. case_bool_decide; [done|]. split; done.
Qed.

#[export] Instance TenantMainNamespace_inj : Inj (=) (=) TenantMainNamespace.
Proof.
  intros a b. unfold TenantMainNamespace, DefaultTenantName.
  repeat case_bool_decide; subst; try done. apply app_inj_l.
Qed.
#[export] Instance RobotConfigNamespace_inj : Inj (=) (=) RobotConfigNamespace.
Proof.
  intros a b. unfold RobotConfigNamespace. repeat case_bool_decide; subst; try done; intros Heq.
  - apply (f_equal String.length) in Heq. rewrite !app_length_s in Heq. cbn in Heq. lia.
  - apply (f_equal String.length) in Heq. rewrite !app_length_s in Heq. cbn in Heq. lia.
  - by apply app_inj_r in Heq.
Qed.

(** ** Properties *)

(** namespaces identify tenants. Both the main namespace and the
    robot-config namespace of a tenant determine its name, a tenant's two
    namespaces differ, and stripping the ["t-"] prefix from the main namespace
    (as the AppRollout reconciler does) gives the tenant name back, the
    default tenant included. *)
Theorem tenant_namespaces_identify (a b : string) :
  (TenantMainNamespace a = TenantMainNamespace b ↔ a = b) ∧
  (RobotConfigNamespace (TenantMainNamespace a) = RobotConfigNamespace (TenantMainNamespace b) ↔ a = b) ∧
  RobotConfigNamespace (TenantMainNamespace a) ≠ TenantMainNamespace a ∧
  TrimPrefix (TenantMainNamespace a) TenantPrefix = a.
Proof.
  split_and!.
  - split; [apply (inj _)|by intros ->].
  - split; [|by intros ->]. intros Heq. by apply (inj RobotConfigNamespace), (inj TenantMainNamespace) in Heq.
  - unfold RobotConfigNamespace. case_bool_decide as Hd; [by rewrite Hd|].
    intros Heq%(f_equal String.length). rewrite !app_length_s in Heq. cbn in Heq. lia.
  - destruct (decide (a = "default")) as [->|Hd]; [done|].
    rewrite TenantMainNamespace_other by done. apply TrimPrefix_app.
Qed.

(** [RandomString n] terminates and returns [n] lowercase letters as soon
    as every value of the random source holds at least one 5-bit group below
    26; [24 * n] loop rounds are then enough. *)
Theorem RandomString_total_and_sized (src : nat → Z) (n : Z) :
  (0 ≤ n)%Z → (∀ m, drawable (src m)) →
  ∃ s, (∀ fuel, (24 * Z.to_nat n ≤ fuel)%nat → RandomString fuel src n = Some s) ∧
       Z.of_nat (String.length s) = n ∧ all_lower s = true.
Proof.
  intros Hn Hsrc. unfold RandomString.
  destruct (RandomString_loop_total src (Z.to_nat n) Hsrc 1 (n - 1)%Z (src O) letterIdxMax "")
    as [s Hs]; [lia|by vm_compute|].
  exists s. split; [intros fuel Hf; by eapply RandomString_more|].
  apply RandomString_loop_shape in Hs as [Hl Ha]; [|lia|done].
  split; [cbn in Hl; lia|done].
Qed.

Lemma RandomString_total_and_sized_witness :
  ∃ s, RandomString 72 (λ _, 33554401%Z) 3 = Some s ∧ String.length s = 3.
Proof.
  destruct (RandomString_total_and_sized (λ _, 33554401%Z) 3) as (s & Hs & Hl & _).
  - lia.
  - intros m. exists 0%Z. vm_compute. done.
  - exists s. split; [apply Hs; cbn; lia|lia].
Defined.

(** the two namespaces of different tenants can coincide: tenant
    ["a-robot-config"]'s main namespace is the namespace that holds tenant
    ["a"]'s robot credentials, and every tenant has such a twin. *)
Theorem tenant_namespaces_collide (a : string) :
  a ≠ "default" →
  a +:+ "-robot-config" ≠ a ∧
  TenantMainNamespace (a +:+ "-robot-config") = RobotConfigNamespace (TenantMainNamespace a).
Proof.
  intros Ha. split.
  - intros Heq%(f_equal String.length). rewrite app_length_s in Heq. cbn in Heq. lia.
  - rewrite TenantMainNamespace_other.
    + rewrite (TenantMainNamespace_other a), RobotConfigNamespace_other by done.
      by rewrite app_assoc_s.
    + intros Heq%(f_equal (λ s, String.length s)). rewrite app_length_s in Heq. cbn in Heq. lia.
Qed.

Lemma tenant_namespaces_collide_witness :
  TenantMainNamespace "acme-robot-config" = RobotConfigNamespace (TenantMainNamespace "acme").
Proof. apply (tenant_namespaces_collide "acme"). done. Defined.
