(* ===== verification/Tenant.v ===== *)
(** * src/go/pkg/controller/tenant: the tenant controller

    [Module Model] translates controller.go, [Module Webhook] the validating
    webhook; the properties follow. *)
From stdpp Require Import prelude strings gmap list.
From Stdlib Require Import ZArith.
From S2P Require Import Prelude GoErr GoStr Kube Coretools.

Open Scope string_scope.
Open Scope prog_scope.

Module Model.

(** ** Data *)

Definition finalizer := "tenant-controller.config.cloud-robotics.com".
Definition crSyncerRolebinding := "cloud-robotics:cr-syncer:robot-service".
Definition robotSetupRoleBinding := "cloud-robotics:robot-setup-service".
Definition dnsEntryName := "tenant-domain".
Definition istioLBServiceName := "istio-ingressgateway".
Definition istioLBServiceNamespace := "istio-system".
Definition gatewayName := "tenant-gateway".
Definition tenantLabel := "cloud-robotics-tenant".
Definition requeueFast : Z := (3 * Second)%Z.
Definition requeueSlow : Z := (3 * Minute)%Z.

Definition TenantConditionNamespace := "Namespace".
Definition TenantConditionDomain := "Domain".
Definition TenantConditionCertificate := "Certificate".
Definition TenantConditionGateway := "Gateway".
Definition TenantConditionServiceAccount := "ServiceAccount".
Definition TenantConditionPermissions := "Permissions".
Definition TenantConditionPullSecret := "PullSecret".
Definition TenantConditionRobotSetup := "RobotSetupConfig".

Record TenantStatus := mkTenantStatus {
  ts_Robots : Z; ts_RobotClusters : Z; ts_Gateway : string; ts_TenantDomain : string;
  ts_TenantNamespaces : list string; ts_Conditions : list Condition }.
Record Tenant := mkTenant {
  t_meta : ObjectMeta; t_SpecTenantDomain : string; t_Status : TenantStatus }.
Definition t_Name (t : Tenant) : string := om_Name (t_meta t).

Definition t_setMeta (m : ObjectMeta) (t : Tenant) : Tenant :=
  mkTenant m (t_SpecTenantDomain t) (t_Status t).
Definition t_setStatus (s : TenantStatus) (t : Tenant) : Tenant :=
  mkTenant (t_meta t) (t_SpecTenantDomain t) s.
Definition t_setRobots (n : Z) (t : Tenant) : Tenant :=
  let '(mkTenantStatus _ b c d e f) := t_Status t in t_setStatus (mkTenantStatus n b c d e f) t.
Definition t_setRobotClusters (n : Z) (t : Tenant) : Tenant :=
  let '(mkTenantStatus a _ c d e f) := t_Status t in t_setStatus (mkTenantStatus a n c d e f) t.
Definition t_setGateway (s : string) (t : Tenant) : Tenant :=
  let '(mkTenantStatus a b _ d e f) := t_Status t in t_setStatus (mkTenantStatus a b s d e f) t.
Definition t_setTenantDomain (s : string) (t : Tenant) : Tenant :=
  let '(mkTenantStatus a b c _ e f) := t_Status t in t_setStatus (mkTenantStatus a b c s e f) t.
Definition t_setTenantNamespaces (l : list string) (t : Tenant) : Tenant :=
  let '(mkTenantStatus a b c d _ f) := t_Status t in t_setStatus (mkTenantStatus a b c d l f) t.
Definition t_setConditions (l : list Condition) (t : Tenant) : Tenant :=
  let '(mkTenantStatus a b c d e _) := t_Status t in t_setStatus (mkTenantStatus a b c d e l) t.

Record RoleRef := mkRoleRef { rr_APIGroup : string; rr_Kind : string; rr_Name : string }.
Record Subject := mkSubject { sj_Kind : string; sj_Namespace : string; sj_Name : string }.
Record RoleBinding := mkRoleBinding {
  rb_meta : ObjectMeta; rb_RoleRef : RoleRef; rb_Subjects : list Subject }.
Record roleRefSubjects := mkRoleRefSubjects { roleRef : RoleRef; subjects : list Subject }.
Record DNSEntry := mkDNSEntry {
  d_meta : ObjectMeta; d_DNSName : string; d_TTL : option Z; d_Targets : list string;
  d_State : string }.
(** A service and its load balancer's ingress points: IP and host name. *)
Record Service := mkService { svc_meta : ObjectMeta; svc_Ingress : list (string * string) }.
Record Certificate := mkCertificate {
  c_meta : ObjectMeta; c_CommonName : option string; c_SecretName : option string;
  c_State : string }.
Record TLSSettings := mkTLSSettings {
  tls_CipherSuites : list string; tls_CredentialName : string; tls_MinProtocolVersion : string;
  tls_Mode : string; tls_HttpsRedirect : bool }.
Record Server := mkServer {
  srv_Hosts : list string; srv_PortName : string; srv_PortNumber : Z; srv_PortProtocol : string;
  srv_Tls : TLSSettings }.
Record Gateway := mkGateway {
  g_meta : ObjectMeta; g_Selector : gmap string string; g_Servers : list Server }.

Inductive tkind :=
| KTenant | KNamespace | KServiceAccount | KRoleBinding | KSecret | KConfigMap | KDNSEntry
| KService | KCertificate | KGateway | KRobot | KAppRollout | KChartAssignment.
#[export] Instance tkinds : Kinds tkind := λ k,
  match k with
  | KTenant => Tenant
  | KNamespace => Namespace
  | KServiceAccount => ServiceAccount
  | KRoleBinding => RoleBinding
  | KSecret => Secret
  | KConfigMap => ConfigMap
  | KDNSEntry => DNSEntry
  | KService => Service
  | KCertificate => Certificate
  | KGateway => Gateway
  | KRobot | KAppRollout | KChartAssignment => ObjectMeta
  end.

(** The calls of the controller: the API client, [coretools.RandomString],
    whose answer is a string that function can return, and the iteration
    order Go picks for the map of role bindings. *)
Definition bindings : Type := list (string * string * roleRefSubjects).
Inductive top : Type :=
| K (o : kop tkind)
| RandomStr (n : Z)
| RangeBindings (l : bindings).
#[export] Instance top_effect : Effect top := λ o,
  match o with
  | K o => resp o
  | RandomStr n => {s : string | ∃ fuel src, RandomString fuel src n = Some s}
  | RangeBindings l => {l' : bindings | l' ≡ₚ l}
  end.

Record Reconciler := mkReconciler {
  r_domain : string; r_defaultGateway : string; r_tenantSpecificGateways : bool }.
Record Result := mkResult { rs_RequeueAfter : Z }.

(** ** Helpers *)

Definition containsString (s : list string) (e : string) : bool := stringsContain s e.

Definition inCondition (t : Tenant) (tc : string) : bool :=
  existsb (λ c, bool_decide (cd_Type c = tc) && bool_decide (cd_Status c = ConditionTrue))
    (ts_Conditions (t_Status t)).

Definition setCondition (t : Tenant) (tc : string) (v : ConditionStatus) (msg : string)
    : prog top Tenant :=
  let! now := call (K KNow) in
  Ret (t_setConditions (upsertCondition now tc v msg (ts_Conditions (t_Status t))) t).

Definition setLabel (o : ObjectMeta) (k v : string) : ObjectMeta :=
  om_setLabels (sm_set (om_Labels o) k v) o.
Definition setAnnotation (o : ObjectMeta) (k v : string) : ObjectMeta :=
  om_setAnnotations (sm_set (om_Annotations o) k v) o.

Definition ownTenant (t : Tenant) (m : ObjectMeta) : ObjectMeta :=
  SetControllerReference "config.cloudrobotics.com/v1alpha1" "Tenant" (t_meta t) m.

Definition getCertificateName (t : Tenant) : string := "t-" +:+ t_Name t +:+ "-tls".

Definition getDefaultTenantDomain (r : Reconciler) (t : Tenant) : string :=
  if bool_decide (t_SpecTenantDomain t = "") then t_Name t +:+ ".t." +:+ r_domain r
  else t_SpecTenantDomain t.

Definition generateTenantDomain (r : Reconciler) : prog top (result string) :=
  let tenantSubdomain := ".t." +:+ r_domain r in
  let tenantSubdomainLength := Z.of_nat (String.length tenantSubdomain) in
  if (61 <? tenantSubdomainLength)%Z then
    Ret (Err (EText ("Cannot generate domain name. Tenant subdomain " +:+ fmt_q tenantSubdomain
                     +:+ " is longer than 61 characeters")))
  else
    let! s := call (RandomStr (62 - tenantSubdomainLength)) in
    Ret (Ok (`s +:+ tenantSubdomain)).

Definition updateTenantStatus (t : Tenant) : prog top (option error * Tenant) :=
  let! u := call (K (KStatusUpdate KTenant t)) in
  match u with
  | Ok t => Ret (None, t)
  | Err err => Ret (Some err, t)
  end.

(** The answer of a [Get] whose failure other than not-found was already
    handled: the object read, or the one the code had prepared. *)
Definition got {A : Type} (g : result A) (zero : A) : A :=
  match g with Ok a => a | Err _ => zero end.
Definition missing {A : Type} (g : result A) : bool :=
  match g with Ok _ => false | Err e => IsNotFound e end.
(** [err != nil && !k8serrors.IsNotFound(err)]. *)
Definition get_failed {A : Type} (g : result A) : option error :=
  match g with Ok _ => None | Err e => if IsNotFound e then None else Some e end.

(** [Create] when the object was missing, [Update] otherwise. *)
Definition createOrUpdate (create : bool) (k : tkind) (o : obj k) : prog top (result (obj k)) :=
  if create then call (K (KCreate k o)) else call (K (KUpdate k o)).

(** ** The steps of a reconciliation

    Each returns the error of the Go function with the tenant as the function
    leaves it ([t] is a pointer argument). *)
Abbreviation step := (prog top (option error * Tenant)).
(** A loop body: [inl] is an early [return], [inr] goes on. *)
Abbreviation body := (prog top ((option error * Tenant) + Tenant)).
Definition stop (e : error) (t : Tenant) : body := Ret (inl (Some e, t)).

(** The end of a step that loops: the loop's early return, or [fin]. *)
Definition after_loop (r : (option error * Tenant) + Tenant) (fin : Tenant → step) : step :=
  match r with
  | inl r => Ret r
  | inr t => fin t
  end.

Definition ensureNamespace_body (namespace : string) (t : Tenant) : body :=
  let! g := call (K (KGet KNamespace "" namespace)) in
  match get_failed g with
  | Some err =>
      let! t := setCondition t TenantConditionNamespace ConditionFalse
        ("Getting namespace " ++ namespace ++ " failed: " ++ error_text err) in
      stop (EText ("getting Namespace " ++ fmt_q namespace ++ " failed: " ++ error_text err)) t
  | None =>
      let ns := got g (mkNamespace (namedMeta "" namespace)) in
      match om_DeletionTimestamp (ns_meta ns) with
      | Some ts =>
          let! t := setCondition t TenantConditionNamespace ConditionFalse
            ("Namespace " ++ om_Name (ns_meta ns) ++ " in deletion") in
          stop (ENamespaceDeletion ("namespace " ++ fmt_q namespace
            ++ " was marked for deletion at " ++ fmt_d ts ++ ", skipping")) t
      | None =>
          let createNamespace := missing g in
          let t := t_setMeta (setLabel (t_meta t) tenantLabel (t_Name t)) t in
          let ns := mkNamespace (ownTenant t (ns_meta ns)) in
          let! u := createOrUpdate createNamespace KNamespace ns in
          match u with
          | Err err =>
              let! t := setCondition t TenantConditionNamespace ConditionFalse
                ("Updating namespace " ++ om_Name (ns_meta ns) ++ " failed: " ++ error_text err) in
              stop err t
          | Ok _ => Ret (inr t)
          end
      end
  end.

Definition ensureNamespace (t : Tenant) : step :=
  if bool_decide (t_Name t = DefaultTenantName) then
    let! t := setCondition t TenantConditionNamespace ConditionTrue
      "Default tenant uses default namespace" in
    Ret (None, t)
  else
    let mainNamespace := TenantMainNamespace (t_Name t) in
    let robotConfigNamespace := RobotConfigNamespace mainNamespace in
    let! l := for_each ensureNamespace_body [mainNamespace; robotConfigNamespace] t in
    after_loop l (λ t,
      let! t := setCondition t TenantConditionNamespace ConditionTrue "Tenant namespaces created" in
      Ret (None, t)).

Definition ensureServiceAccount_body (namespace serviceAccount : string) (t : Tenant) : body :=
  let! g := call (K (KGet KServiceAccount namespace serviceAccount)) in
  match get_failed g with
  | Some err =>
      let! t := setCondition t TenantConditionServiceAccount ConditionFalse
        ("Get service account " ++ serviceAccount ++ " failed: " ++ error_text err) in
      stop (EWrap "get service account" err) t
  | None =>
      let sa := got g (mkServiceAccount (namedMeta namespace serviceAccount) []) in
      let createServiceAccount := missing g in
      let sa := mkServiceAccount (ownTenant t (sa_meta sa)) (sa_ImagePullSecrets sa) in
      let! u := createOrUpdate createServiceAccount KServiceAccount sa in
      match u with
      | Err err =>
          let! t := setCondition t TenantConditionServiceAccount ConditionFalse
            ("Updating service account " ++ om_Name (sa_meta sa) ++ " failed: " ++ error_text err) in
          stop err t
      | Ok _ => Ret (inr t)
      end
  end.

Definition ensureServiceAccount (t : Tenant) : step :=
  let namespace := RobotConfigNamespace (TenantMainNamespace (t_Name t)) in
  let! l := for_each (ensureServiceAccount_body namespace)
              [RobotServiceAccount; RobotSetupServiceAccount] t in
  after_loop l (λ t,
    let! t := setCondition t TenantConditionServiceAccount ConditionTrue
      "Tenant service accounts created" in
    Ret (None, t)).

(** The role bindings of a tenant, keyed by namespace and name. *)
Definition tenantRoleBindings (t : Tenant) : bindings :=
  let mainNamespace := TenantMainNamespace (t_Name t) in
  let robotConfigNamespace := RobotConfigNamespace mainNamespace in
  [((mainNamespace, crSyncerRolebinding),
    mkRoleRefSubjects
      (mkRoleRef "rbac.authorization.k8s.io" "ClusterRole" "cloud-robotics:cr-syncer")
      [mkSubject "ServiceAccount" robotConfigNamespace RobotServiceAccount]);
   ((robotConfigNamespace, robotSetupRoleBinding),
    mkRoleRefSubjects
      (mkRoleRef "rbac.authorization.k8s.io" "ClusterRole" "cloud-robotics:robot-setup:robot-config")
      [mkSubject "ServiceAccount" robotConfigNamespace RobotSetupServiceAccount]);
   ((mainNamespace, robotSetupRoleBinding),
    mkRoleRefSubjects
      (mkRoleRef "rbac.authorization.k8s.io" "ClusterRole" "cloud-robotics:robot-setup:robots")
      [mkSubject "ServiceAccount" robotConfigNamespace RobotSetupServiceAccount])].

(** [%s] of a [types.NamespacedName]. *)
Definition nn_string (nn : string * string) : string := nn.1 ++ "/" ++ nn.2.

Definition ensurePermissions_body (b : string * string * roleRefSubjects) (t : Tenant) : body :=
  let '(nn, rrs) := b in
  let! g := call (K (KGet KRoleBinding nn.1 nn.2)) in
  match get_failed g with
  | Some err =>
      let! t := setCondition t TenantConditionPermissions ConditionFalse
        ("Get role binding failed: " ++ error_text err) in
      stop (EWrap ("get role binding " ++ nn_string nn) err) t
  | None =>
      let rb := got g (mkRoleBinding (namedMeta nn.1 nn.2) (mkRoleRef "" "" "") []) in
      let createRoleBinding := missing g in
      let rb := mkRoleBinding (ownTenant t (rb_meta rb)) (roleRef rrs) (subjects rrs) in
      let! u := createOrUpdate createRoleBinding KRoleBinding rb in
      match u with
      | Err err =>
          let! t := setCondition t TenantConditionPermissions ConditionFalse
            ("Update role binding failed: " ++ error_text err) in
          stop (EWrap ("create " ++ nn_string nn ++ " role binding") err) t
      | Ok _ => Ret (inr t)
      end
  end.

Definition ensurePermissions (t : Tenant) : step :=
  let! order := call (RangeBindings (tenantRoleBindings t)) in
  let! l := for_each ensurePermissions_body (`order) t in
  after_loop l (λ t,
    let! t := setCondition t TenantConditionPermissions ConditionTrue "Tenant permissions set" in
    Ret (None, t)).

(** The part of [ensurePullSecret] that configures the default service
    account of [namespace]. *)
Definition ensurePullSecret_sa (namespace : string) (t : Tenant) : body :=
  let! g := call (K (KGet KServiceAccount namespace "default")) in
  match g with
  | Err err =>
      if IsNotFound err then
        let! t := setCondition t TenantConditionPullSecret ConditionFalse
          "Missing default service account" in
        stop (EMissingServiceAccount ("ServiceAccount " ++ dq (namespace ++ ":default")
          ++ " not yet created")) t
      else
        let! t := setCondition t TenantConditionPullSecret ConditionFalse
          ("Get ServiceAccount " ++ dq (namespace ++ ":default") ++ " failed: " ++ error_text err) in
        stop (EText ("get ServiceAccount " ++ dq (namespace ++ ":default") ++ " failed: "
          ++ error_text err)) t
  | Ok sa =>
      let found := stringsContain (sa_ImagePullSecrets sa) ImagePullSecret in
      let sa := mkServiceAccount (sa_meta sa)
        (if found then sa_ImagePullSecrets sa
         else (sa_ImagePullSecrets sa ++ [ImagePullSecret])%list) in
      let! u := call (K (KUpdate KServiceAccount sa)) in
      match u with
      | Err err =>
          let! t := setCondition t TenantConditionPullSecret ConditionFalse
            ("Update ServiceAccount " ++ dq (namespace ++ ":default") ++ " failed: "
             ++ error_text err) in
          stop err t
      | Ok _ => Ret (inr t)
      end
  end.

Definition ensurePullSecret_body (templateSecret : Secret) (namespace : string) (t : Tenant) : body :=
  if bool_decide (namespace = "default") then Ret (inr t) else
  let! g := call (K (KGet KSecret namespace ImagePullSecret)) in
  match get_failed g with
  | Some err =>
      let! t := setCondition t TenantConditionPullSecret ConditionFalse
        ("Get secret " ++ namespace ++ "/" ++ ImagePullSecret ++ " failed: " ++ error_text err) in
      stop (EWrap ("get secret " ++ ImagePullSecret) err) t
  | None =>
      let secret := got g (mkSecret (namedMeta namespace ImagePullSecret) None "") in
      let createSecret := missing g in
      let secret := mkSecret (ownTenant t (sec_meta secret))
                      (sec_Data templateSecret) (sec_Type templateSecret) in
      let! u := createOrUpdate createSecret KSecret secret in
      match u with
      | Err err =>
          let! t := setCondition t TenantConditionPullSecret ConditionFalse
            ("Update secret " ++ om_Name (sec_meta secret) ++ "/" ++ om_Namespace (sec_meta secret)
             ++ " failed: " ++ error_text err) in
          stop (EText ("update Secret " ++ dq (namespace ++ ":" ++ ImagePullSecret)
            ++ " failed: " ++ error_text err)) t
      | Ok _ => ensurePullSecret_sa namespace t
      end
  end.

Definition ensurePullSecret (t : Tenant) : step :=
  let! g := call (K (KGet KSecret "default" ImagePullSecret)) in
  match g with
  | Err err =>
      if IsNotFound err then
        let! t := setCondition t TenantConditionPullSecret ConditionFalse
          ("Secret " ++ dq ("default:" ++ ImagePullSecret) ++ " not found") in
        Ret (Some (EText ("secret " ++ dq ("default:" ++ ImagePullSecret) ++ " not found")), t)
      else
        let! t := setCondition t TenantConditionPullSecret ConditionFalse
          ("getting Secret " ++ dq ("default:" ++ ImagePullSecret) ++ " failed: " ++ error_text err) in
        Ret (Some (EText ("getting Secret " ++ dq ("default:" ++ ImagePullSecret)
          ++ " failed: " ++ error_text err)), t)
  | Ok templateSecret =>
      let mainNamespace := TenantMainNamespace (t_Name t) in
      let robotConfigNamespace := RobotConfigNamespace mainNamespace in
      let! l := for_each (ensurePullSecret_body templateSecret)
                  [mainNamespace; robotConfigNamespace] t in
      after_loop l (λ t,
        let! t := setCondition t TenantConditionPullSecret ConditionTrue
          "Tenant pull secret created" in
        Ret (None, t))
  end.

(** The first ingress point with an IP or a host name. *)
Fixpoint ingressTarget (l : list (string * string)) : string :=
  match l with
  | [] => ""
  | (ip, hostname) :: l =>
      if negb (bool_decide (ip = "")) then ip
      else if negb (bool_decide (hostname = "")) then hostname
      else ingressTarget l
  end.

(** The choice of the tenant domain in [ensureDNS]: at most 62 characters,
    else the one already in the status, else a generated one. *)
Definition chooseTenantDomain (r : Reconciler) (t : Tenant) : prog top (result string) :=
  let tenantDomain := getDefaultTenantDomain r t in
  if (62 <? Z.of_nat (String.length tenantDomain))%Z then
    if Contains (ts_TenantDomain (t_Status t)) (".t." ++ r_domain r)
    then Ret (Ok (ts_TenantDomain (t_Status t)))
    else generateTenantDomain r
  else Ret (Ok tenantDomain).

(** The write of the DNS entry and the condition reporting its state. *)
Definition ensureDNS_write (createDNSEntry : bool) (d : DNSEntry) (tenantDomain : string)
    (t : Tenant) : step :=
  let! u := createOrUpdate createDNSEntry KDNSEntry d in
  match u with
  | Err err =>
      let! t := setCondition t TenantConditionDomain ConditionFalse
        ("Update DNS entry failed: " ++ error_text err) in
      Ret (Some (EWrap ("update " ++ dnsEntryName ++ " DNS entry") err), t)
  | Ok d =>
      let t := t_setTenantDomain tenantDomain t in
      if bool_decide (d_State d = "Ready") then
        let! t := setCondition t TenantConditionDomain ConditionTrue
          ("DNS entry for domain *." ++ tenantDomain ++ " created") in
        Ret (None, t)
      else
        let! t := setCondition t TenantConditionDomain ConditionFalse
          ("DNS entry for domain *." ++ tenantDomain ++ " created, but in state " ++ fmt_q (d_State d)) in
        Ret (None, t)
  end.

Definition ensureDNS (r : Reconciler) (t : Tenant) : step :=
  let mainNamespace := TenantMainNamespace (t_Name t) in
  let! g := call (K (KGet KDNSEntry mainNamespace dnsEntryName)) in
  match get_failed g with
  | Some err =>
      let! t := setCondition t TenantConditionDomain ConditionFalse
        ("Get DNS entry failed: " ++ error_text err) in
      Ret (Some (EWrap ("get DNS entry " ++ dnsEntryName) err), t)
  | None =>
  let d := got g (mkDNSEntry (namedMeta mainNamespace dnsEntryName) "" None [] "") in
  let createDNSEntry := missing g in
  let! s := call (K (KGet KService istioLBServiceNamespace istioLBServiceName)) in
  match s with
  | Err err =>
      let! t := setCondition t TenantConditionDomain ConditionFalse
        ("Get Istio loadbalancer service failed: " ++ error_text err) in
      Ret (Some (EWrap "get Istio loadbalancer service" err), t)
  | Ok iSVC =>
  let target := ingressTarget (svc_Ingress iSVC) in
  if bool_decide (target = "") then
    let! t := setCondition t TenantConditionDomain ConditionFalse
      "No hostname or IP in Istio loadbalancer service found" in
    Ret (Some (EText "No hostname or IP in Istio loadbalancer service found"), t)
  else
  let! dom := chooseTenantDomain r t in
  match dom with
  | Err err =>
      let! t := setCondition t TenantConditionDomain ConditionFalse
        ("Generate tenant domain failed: " ++ error_text err) in
      Ret (Some (EWrap "generate tenant domain" err), t)
  | Ok tenantDomain =>
  let d := mkDNSEntry
    (ownTenant t (setAnnotation (d_meta d) "dns.gardener.cloud/class" "garden"))
    ("*." ++ tenantDomain) (Some 600%Z) [target] (d_State d) in
  ensureDNS_write createDNSEntry d tenantDomain t
  end end end.

Definition ensureCertificate (t : Tenant) : step :=
  let tenantDomain := ts_TenantDomain (t_Status t) in
  if bool_decide (tenantDomain = "") then
    let! t := setCondition t TenantConditionCertificate ConditionFalse "Tenant domain not set yet" in
    Ret (Some (EText "Not able to create TLS certificate. Tenant domain not set yet"), t)
  else
  let name := getCertificateName t in
  let! g := call (K (KGet KCertificate "istio-system" name)) in
  match get_failed g with
  | Some err =>
      let! t := setCondition t TenantConditionCertificate ConditionFalse
        ("Get certificate *." ++ tenantDomain ++ " failed: " ++ error_text err) in
      Ret (Some (EWrap ("get certificate " ++ name) err), t)
  | None =>
  let c := got g (mkCertificate (namedMeta "istio-system" name) None None "") in
  let createCertificate := missing g in
  let c := mkCertificate (ownTenant t (c_meta c)) (Some ("*." ++ tenantDomain)) (Some name) (c_State c) in
  let! u := createOrUpdate createCertificate KCertificate c in
  match u with
  | Err err =>
      let! t := setCondition t TenantConditionCertificate ConditionFalse
        ("Update certificate *." ++ tenantDomain ++ " failed: " ++ error_text err) in
      Ret (Some (EWrap ("update " ++ name ++ " certificate") err), t)
  | Ok c =>
      if bool_decide (c_State c = "Ready") then
        let! t := setCondition t TenantConditionCertificate ConditionTrue
          ("TLS Certificate for domain *." ++ tenantDomain ++ " created") in
        Ret (None, t)
      else
        let! t := setCondition t TenantConditionCertificate ConditionFalse
          ("TLS Certificate for domain *." ++ tenantDomain ++ " created, but in state "
           ++ fmt_q (c_State c)) in
        Ret (None, t)
  end end.

Definition gatewayServers (tenantDomain certificateName : string) : list Server :=
  [mkServer ["*." ++ tenantDomain] "https" 443 "HTTPS"
     (mkTLSSettings
        ["ECDHE-RSA-CHACHA20-POLY1305"; "ECDHE-RSA-AES256-GCM-SHA384"; "ECDHE-RSA-AES256-SHA";
         "ECDHE-RSA-AES128-GCM-SHA256"; "ECDHE-RSA-AES128-SHA"]
        certificateName "TLSV1_2" "SIMPLE" false);
   mkServer ["*." ++ tenantDomain] "http" 80 "HTTP"
     (mkTLSSettings [] "" "TLS_AUTO" "PASSTHROUGH" true)].

Definition ensureGateway (t : Tenant) : step :=
  let tenantDomain := ts_TenantDomain (t_Status t) in
  if bool_decide (tenantDomain = "") then
    let! t := setCondition t TenantConditionGateway ConditionFalse "Tenant domain not set yet" in
    Ret (Some (EText "Not able to create Istio gateway. Tenant domain not set yet"), t)
  else
  let mainNamespace := TenantMainNamespace (t_Name t) in
  let! g := call (K (KGet KGateway mainNamespace gatewayName)) in
  match get_failed g with
  | Some err =>
      let! t := setCondition t TenantConditionGateway ConditionFalse
        ("Get Istio gateway " ++ gatewayName ++ " failed: " ++ error_text err) in
      Ret (Some (EWrap ("get Istio gateway " ++ gatewayName) err), t)
  | None =>
  let gw := got g (mkGateway (namedMeta mainNamespace gatewayName) ∅ []) in
  let createGateway := missing g in
  let gw := mkGateway (ownTenant t (g_meta gw))
    (<["app" := "istio-ingressgateway"]> {["istio" := "ingressgateway"]})
    (gatewayServers tenantDomain (getCertificateName t)) in
  let! u := createOrUpdate createGateway KGateway gw in
  match u with
  | Err err =>
      let! t := setCondition t TenantConditionGateway ConditionFalse
        ("Update Istio gateway " ++ gatewayName ++ " failed: " ++ error_text err) in
      Ret (Some (EWrap ("update " ++ gatewayName ++ " Istio gateway") err), t)
  | Ok gw =>
      let t := t_setGateway (om_Namespace (g_meta gw) ++ "/" ++ om_Name (g_meta gw)) t in
      let! t := setCondition t TenantConditionGateway ConditionTrue
        ("Istio gateway for domain *." ++ tenantDomain ++ " created") in
      Ret (None, t)
  end end.

Definition ensureRobotSetupConfig (t : Tenant) : step :=
  let! tpl := call (K (KGet KConfigMap RobotConfigCloudNamespace RobotSetupConfigmap)) in
  match tpl with
  | Err err =>
      let! t := setCondition t TenantConditionRobotSetup ConditionFalse
        ("Get config map " ++ RobotConfigCloudNamespace ++ "/" ++ RobotSetupConfigmap
         ++ " failed: " ++ error_text err) in
      Ret (Some (EWrap ("get " ++ RobotConfigCloudNamespace ++ "/" ++ RobotSetupConfigmap
        ++ " configmap") err), t)
  | Ok templateConfigMap =>
  let namespace := RobotConfigNamespace (TenantMainNamespace (t_Name t)) in
  let! g := call (K (KGet KConfigMap namespace RobotSetupConfigmap)) in
  match get_failed g with
  | Some err =>
      let! t := setCondition t TenantConditionRobotSetup ConditionFalse
        ("Get config map " ++ RobotSetupConfigmap ++ "/" ++ namespace ++ " failed: " ++ error_text err) in
      Ret (Some (EWrap ("get config map " ++ RobotSetupConfigmap) err), t)
  | None =>
  let configMap := got g (mkConfigMap (namedMeta namespace RobotSetupConfigmap) None) in
  let createConfigMap := missing g in
  match cm_Data templateConfigMap with
  | None => Panic "assignment to entry in nil map"
  | Some data =>
  let data := <["tenant_main_namespace" := TenantMainNamespace (t_Name t)]>
              (<["tenant_domain" := ts_TenantDomain (t_Status t)]>
               (<["tenant" := t_Name t]> data)) in
  let configMap := mkConfigMap (ownTenant t (cm_meta configMap)) (Some data) in
  let! u := createOrUpdate createConfigMap KConfigMap configMap in
  match u with
  | Err err =>
      let! t := setCondition t TenantConditionRobotSetup ConditionFalse
        ("Update config map " ++ om_Name (cm_meta configMap) ++ "/" ++ om_Namespace (cm_meta configMap)
         ++ " failed: " ++ error_text err) in
      Ret (Some (EText ("update ConfigMap " ++ dq (namespace ++ ":" ++ RobotSetupConfigmap)
        ++ " failed: " ++ error_text err)), t)
  | Ok _ =>
      let! t := setCondition t TenantConditionRobotSetup ConditionTrue
        "Robot-setup config synchronized" in
      Ret (None, t)
  end end end end.

(** The prefix of the namespaces apps of a tenant are installed in. *)
Definition appNamespacePrefix (t : Tenant) : string :=
  if bool_decide (t_Name t = DefaultTenantName) then "app-"
  else TenantMainNamespace (t_Name t) ++ "-app-".
Definition isTenantNamespace (t : Tenant) (name : string) : bool :=
  let mainNamespace := TenantMainNamespace (t_Name t) in
  HasPrefix name (appNamespacePrefix t) || bool_decide (name = mainNamespace)
  || bool_decide (name = RobotConfigNamespace mainNamespace).

Definition collectTenantNamespaces_body (t : Tenant) (ns : Namespace) (acc : list string)
    : prog top (error + list string) :=
  let name := om_Name (ns_meta ns) in
  let mine := isTenantNamespace t name in
  let acc := if mine then (acc ++ [name])%list else acc in
  let ns := if mine then mkNamespace (setLabel (ns_meta ns) tenantLabel (t_Name t)) else ns in
  let! u := call (K (KUpdate KNamespace ns)) in
  match u with
  | Err err => Ret (inl (EWrap "label namespace" err))
  | Ok _ => Ret (inr acc)
  end.

Definition collectTenantNamespaces (t : Tenant) : step :=
  let! l := call (K (KList KNamespace All)) in
  match l with
  | Err err => Ret (Some (EWrap "list namespaces" err), t)
  | Ok items =>
      let! r := for_each (collectTenantNamespaces_body t) items [] in
      match r with
      | inl err => Ret (Some err, t)
      | inr tenantNamespaces => Ret (None, t_setTenantNamespaces tenantNamespaces t)
      end
  end.

Definition isRobotToken (s : Secret) : bool :=
  bool_decide (sm_get (om_Annotations (sec_meta s)) "kubernetes.io/service-account.name"
               = RobotServiceAccount)
  && HasPrefix (om_Name (sec_meta s)) "robot-token-".

Definition collectRobots (t : Tenant) : step :=
  let! l := call (K (KList KRobot (InNamespace (TenantMainNamespace (t_Name t))))) in
  match l with
  | Err err => Ret (Some (EWrap "list robots" err), t)
  | Ok robots =>
      let t := t_setRobots (Z.of_nat (length robots)) t in
      let! l := call (K (KList KSecret (InNamespace
        (RobotConfigNamespace (TenantMainNamespace (t_Name t)))))) in
      match l with
      | Err err => Ret (Some (EWrap "list robot service account tokens" err), t)
      | Ok secrets =>
          Ret (None, t_setRobotClusters (Z.of_nat (length (filter (λ s, isRobotToken s = true) secrets))) t)
      end
  end.

Definition ensureDeleted (t : Tenant) : prog top (result bool) :=
  let mainNamespace := TenantMainNamespace (t_Name t) in
  let! l := call (K (KList KAppRollout (InNamespace mainNamespace))) in
  match l with
  | Err err => Ret (Err (EWrap ("list AppRollouts of tenant " ++ t_Name t) err))
  | Ok rollouts =>
      if (0 <? length rollouts)%nat then
        let! e := call (K (KDeleteAllOf KAppRollout (InNamespace mainNamespace))) in
        match e with
        | Some err => Ret (Err (EWrap ("delete AppRollouts of tenant " ++ t_Name t) err))
        | None => Ret (Ok false)
        end
      else
        let! l := call (K (KList KChartAssignment (InNamespace mainNamespace))) in
        match l with
        | Err err => Ret (Err (EWrap ("list ChartAssignments of tenant " ++ t_Name t) err))
        | Ok cas => Ret (Ok (negb (0 <? length cas)%nat))
        end
  end.


(** ** The reconciler *)

(** A step whose error is only recorded in [lastErrorOnEnsure]. *)
Definition ensured (s : Tenant → step) (last : option error) (t : Tenant) : step :=
  let! ' (e, t) := s t in
  Ret (match e with Some _ => e | None => last end, t).

(** [updateTenantStatus] with its error ignored, then the return. *)
Definition updateAndReturn (t : Tenant) (r : Result * option error)
    : prog top (Result * option error) :=
  updateTenantStatus t ;;! Ret r.

(** The DNS, certificate and gateway steps. *)
Definition ensureTenantGateway (r : Reconciler) (last : option error) (t : Tenant) : step :=
  let! ' (dnsError, t) := ensureDNS r t in
  let last := match dnsError with Some _ => dnsError | None => last end in
  let! ' (certErrors, last, t) :=
    match dnsError with
    | None =>
        let! ' (certError, t) := ensureCertificate t in
        match certError with
        | Some _ => Ret (true, certError, t)
        | None => Ret (false, last, t)
        end
    | Some _ =>
        let! t := setCondition t TenantConditionCertificate ConditionFalse
          "No DNS record for the tenant created" in
        Ret (false, last, t)
    end in
  if negb (is_some dnsError) && negb certErrors then ensured ensureGateway last t
  else
    let! t := setCondition t TenantConditionGateway ConditionFalse
      "No DNS record and/or TLS certificate for the tenant created" in
    Ret (last, t).

(** The steps whose errors do not end the reconciliation. *)
Definition reconcileResources (r : Reconciler) (t : Tenant) : step :=
  let! ' (last, t) := ensured ensureServiceAccount None t in
  let! ' (last, t) := ensured ensurePermissions last t in
  let! ' (last, t) := ensured ensureRobotSetupConfig last t in
  let! ' (last, t) := ensured ensurePullSecret last t in
  if r_tenantSpecificGateways r then ensureTenantGateway r last t
  else Ret (last, t_setGateway (r_defaultGateway r) (t_setTenantDomain "" t)).

(** The reconciliation of a tenant that carries the finalizer. *)
Definition reconcileTenant (r : Reconciler) (t : Tenant) : prog top (Result * option error) :=
  let! ' (e, t) := ensureNamespace t in
  match e with
  | Some (ENamespaceDeletion _) => updateAndReturn t (mkResult requeueFast, None)
  | Some err => updateAndReturn t (mkResult 0, Some (EWrap "ensure namespace" err))
  | None =>
  let! ' (e, t) := collectTenantNamespaces t in
  match e with
  | Some err => updateAndReturn t (mkResult 0, Some (EWrap "collect namespaces" err))
  | None =>
  let! ' (e, t) := collectRobots t in
  match e with
  | Some err => updateAndReturn t (mkResult 0, Some (EWrap "collect robots" err))
  | None =>
  let! ' (lastErrorOnEnsure, t) := reconcileResources r t in
  let! ' (e, t) := updateTenantStatus t in
  match e with
  | Some err => Ret (mkResult 0, Some err)
  | None =>
      match lastErrorOnEnsure with
      | Some err => Ret (mkResult 0, Some err)
      | None => Ret (mkResult requeueSlow, None)
      end
  end end end end.

(** The reconciliation of a tenant marked for deletion. *)
Definition reconcileDeleted (t : Tenant) : prog top (Result * option error) :=
  let! d := ensureDeleted t in
  match d with
  | Err err => Ret (mkResult 0, Some (EWrap ("delete tenant " ++ t_Name t) err))
  | Ok false => Ret (mkResult requeueFast, None)
  | Ok true =>
      if containsString (om_Finalizers (t_meta t)) finalizer then
        let t := t_setMeta (om_setFinalizers
          (stringsDelete (om_Finalizers (t_meta t)) finalizer) (t_meta t)) t in
        let! u := call (K (KUpdate KTenant t)) in
        match u with
        | Err err => Ret (mkResult 0, Some (EWrap ("remove finalizer from tenant " ++ t_Name t) err))
        | Ok _ => Ret (mkResult 0, None)
        end
      else Ret (mkResult 0, None)
  end.

Definition Reconcile (r : Reconciler) (name : string) : prog top (Result * option error) :=
  let! g := call (K (KGet KTenant "" name)) in
  match g with
  | Err err =>
      if IsNotFound err then Ret (mkResult 0, None)
      else Ret (mkResult 0, Some (EWrap ("get CR of tenant " ++ name) err))
  | Ok t =>
      if is_some (om_DeletionTimestamp (t_meta t)) then reconcileDeleted t
      else if containsString (om_Finalizers (t_meta t)) finalizer then reconcileTenant r t
      else
        let t := t_setMeta (om_setFinalizers
          (om_Finalizers (t_meta t) ++ [finalizer])%list (t_meta t)) t in
        let! u := call (K (KUpdate KTenant t)) in
        match u with
        | Err err => Ret (mkResult 0, Some (EWrap ("add finalizer to tenant " ++ t_Name t) err))
        | Ok t => reconcileTenant r t
        end
  end.

(** ** Events: the names of the tenants put on the queue *)

Definition enqueueAll : prog top (list string) :=
  let! l := call (K (KList KTenant All)) in
  match l with
  | Err _ => Ret []
  | Ok items => Ret (map t_Name items)
  end.

Definition enqueueFromNamespaceName (namespace : string) : prog top (list string) :=
  if HasPrefix namespace TenantPrefix then
    match SplitN2 namespace "-" with
    | _ :: rest :: _ =>
        let! l := call (K (KList KTenant All)) in
        match l with
        | Err _ => Ret []
        | Ok items => Ret (filter (λ n, HasPrefix rest n = true) (map t_Name items))
        end
    | _ => Ret []
    end
  else Ret [].

Definition enqueueFromObjectNamespace (namespace : string) : list string :=
  [TrimPrefix namespace TenantPrefix].

(** The guard of the config map watch in [Add]. *)
Definition watchedConfigMap (namespace name : string) : prog top (list string) :=
  if bool_decide (name = RobotSetupConfigmap) && bool_decide (namespace = RobotConfigCloudNamespace)
  then enqueueAll else Ret [].

End Model.

(** ** validatingwebhook.go *)
Module Webhook.
Import Model.

Inductive Operation := OpCreate | OpUpdate | OpDelete | OpConnect.
#[export] Instance Operation_eq_dec : EqDecision Operation.
Proof. solve_decision. Defined.

Inductive Response := Allowed | Errored (code : Z) (e : error).
Definition StatusBadRequest : Z := 400%Z.

(** [tenantValidator.Handle]: [req] is the decoded object, [tenants] the
    answer of the list call. *)
Definition Handle (tenantSpecificGateways : bool) (op : Operation) (req : result Tenant)
    (tenants : result (list Tenant)) : Response :=
  match req with
  | Err err => Errored StatusBadRequest err
  | Ok tenant =>
  match tenants with
  | Err err => Errored StatusBadRequest err
  | Ok items =>
  if bool_decide (t_Name tenant = DefaultTenantName) && negb (bool_decide (op = OpDelete))
     && existsb (λ t, negb (bool_decide (t_Name t = DefaultTenantName))) items
  then Errored StatusBadRequest
         (EText "Delete all other tenants before creating the default tenant")
  else if negb (bool_decide (t_Name tenant = DefaultTenantName)) && negb (bool_decide (op = OpDelete))
          && existsb (λ t, bool_decide (t_Name t = DefaultTenantName)) items
  then Errored StatusBadRequest (EText "Delete default tenant before creating other tenants")
  else if negb tenantSpecificGateways && negb (bool_decide (t_SpecTenantDomain tenant = ""))
  then Errored StatusBadRequest
         (EText "TenantDomain must be empty when tenant specific gateways are disabled")
  else Allowed
  end end.

End Webhook.

(** * Properties *)
Import Model.

(** ** Conditions *)

Definition conds (t : Tenant) : list Condition := ts_Conditions (t_Status t).

(** What a step says about its condition: [False] when it returns an error,
    one of [vs] when it does not; no other condition changes. *)
Definition reports (tc : string) (vs : list ConditionStatus) (t0 : Tenant)
    (r : option error * Tenant) : Prop :=
  (∃ v msg, condition_of tc (conds r.2) = Some (v, msg) ∧
            v ∈ (if is_some r.1 then [ConditionFalse] else vs)) ∧
  (∀ tc', tc' ≠ tc → condition_of tc' (conds r.2) = condition_of tc' (conds t0)).

(** What a loop body says: an early return reports, going on changes no condition. *)
Definition body_reports (tc : string) (vs : list ConditionStatus) (t0 : Tenant)
    (r : (option error * Tenant) + Tenant) : Prop :=
  match r with
  | inl r => is_some r.1 = true ∧ reports tc vs t0 r
  | inr t => conds t = conds t0
  end.

Lemma conds_setConditions l t : conds (t_setConditions l t) = l.
Proof. by destruct t as [? ? []]. Qed.
Lemma conds_setMeta m t : conds (t_setMeta m t) = conds t.
Proof. done. Qed.
Lemma conds_setTenantDomain m t : conds (t_setTenantDomain m t) = conds t.
Proof. by destruct t as [? ? []]. Qed.
Lemma conds_setGateway m t : conds (t_setGateway m t) = conds t.
Proof. by destruct t as [? ? []]. Qed.

(** [setCondition] is what a reporting step ends in. *)
Lemma setCondition_reports tc vs v msg t t0 now e :
  conds t = conds t0 → v ∈ (if is_some e then [ConditionFalse] else vs) →
  reports tc vs t0 (e, t_setConditions (upsertCondition now tc v msg (ts_Conditions (t_Status t))) t).
Proof.
  intros Ht Hv. fold (conds t). rewrite Ht. split; cbn [fst snd]; rewrite conds_setConditions.
  - exists v, msg. by rewrite condition_of_upsert.
  - intros tc' ?. by apply condition_of_upsert_ne.
Qed.

#[local] Arguments for_each : simpl never.

Ltac reports_tac :=
  repeat (cbn [wp prog_bind call setCondition stop after_loop createOrUpdate];
    first
    [ progress wp_case
    | split; [exact I|intros ? _]
    | match goal with |- wp _ _ _ (createOrUpdate ?b _ _) _ => destruct b end
    | match goal with |- wp _ _ _ (prog_bind _ _) _ => apply wp_bind end
    | (split; [done|]); apply setCondition_reports; [by rewrite ?conds_setTenantDomain, ?conds_setGateway|set_solver]
    | apply setCondition_reports; [by rewrite ?conds_setTenantDomain, ?conds_setGateway|set_solver]
    | done ]).

Section reports.
Abbreviation ok := (wp (Op:=top) any_answer any_call any_panic).

Lemma ensureNamespace_body_reports t0 ns t :
  conds t = conds t0 →
  ok (ensureNamespace_body ns t) (body_reports TenantConditionNamespace [ConditionTrue] t0).
Proof. intros Ht. unfold ensureNamespace_body. reports_tac. Qed.
Lemma ensureServiceAccount_body_reports t0 ns sa t :
  conds t = conds t0 →
  ok (ensureServiceAccount_body ns sa t)
     (body_reports TenantConditionServiceAccount [ConditionTrue] t0).
Proof. intros Ht. unfold ensureServiceAccount_body. reports_tac. Qed.
Lemma ensurePermissions_body_reports t0 b t :
  conds t = conds t0 →
  ok (ensurePermissions_body b t) (body_reports TenantConditionPermissions [ConditionTrue] t0).
Proof. intros Ht. unfold ensurePermissions_body. reports_tac. Qed.
Lemma ensurePullSecret_sa_reports t0 ns t :
  conds t = conds t0 →
  ok (ensurePullSecret_sa ns t) (body_reports TenantConditionPullSecret [ConditionTrue] t0).
Proof. intros Ht. unfold ensurePullSecret_sa. reports_tac. Qed.
Lemma ensurePullSecret_body_reports t0 tpl ns t :
  conds t = conds t0 →
  ok (ensurePullSecret_body tpl ns t) (body_reports TenantConditionPullSecret [ConditionTrue] t0).
Proof.
  intros Ht. unfold ensurePullSecret_body.
  reports_tac; by apply ensurePullSecret_sa_reports.
Qed.

(** A step that loops over a reporting body and ends in a reporting
    [setCondition]. *)
Lemma loop_reports {A} tc (f : A → Tenant → body) l t msg :
  (∀ x t', conds t' = conds t → ok (f x t') (body_reports tc [ConditionTrue] t)) →
  ok (let! r := for_each f l t in
      after_loop r (λ t, let! t := setCondition t tc ConditionTrue msg in Ret (None, t)))
     (reports tc [ConditionTrue] t).
Proof.
  intros Hf. apply wp_bind.
  apply (wp_for_each _ _ _ f l (λ t', conds t' = conds t)); [| |done].
  - intros x t' _ Ht. eapply wp_mono; [|by apply Hf].
    intros [r|t'']; cbn; [|done]. by intros [_ ?].
  - intros t' Ht. cbn. split; [exact I|]. intros now _. by apply setCondition_reports; [|left].
Qed.

Lemma ensureNamespace_reports t :
  ok (ensureNamespace t) (reports TenantConditionNamespace [ConditionTrue] t).
Proof.
  unfold ensureNamespace. case_bool_decide; [reports_tac|].
  apply loop_reports. intros. by apply ensureNamespace_body_reports.
Qed.
Lemma ensureServiceAccount_reports t :
  ok (ensureServiceAccount t) (reports TenantConditionServiceAccount [ConditionTrue] t).
Proof. apply loop_reports. intros. by apply ensureServiceAccount_body_reports. Qed.
Lemma ensurePermissions_reports t :
  ok (ensurePermissions t) (reports TenantConditionPermissions [ConditionTrue] t).
Proof.
  unfold ensurePermissions. cbn [wp prog_bind call]. split; [exact I|]. intros order _.
  apply loop_reports. intros. by apply ensurePermissions_body_reports.
Qed.
Lemma ensurePullSecret_reports t :
  ok (ensurePullSecret t) (reports TenantConditionPullSecret [ConditionTrue] t).
Proof.
  unfold ensurePullSecret. cbn [wp prog_bind call]. split; [exact I|]. intros [tpl|err] _.
  - apply loop_reports. intros. by apply ensurePullSecret_body_reports.
  - reports_tac.
Qed.
Lemma ensureDNS_reports r t :
  ok (ensureDNS r t) (reports TenantConditionDomain [ConditionTrue; ConditionFalse] t).
Proof.
  unfold ensureDNS, chooseTenantDomain, generateTenantDomain, ensureDNS_write. reports_tac.
Qed.
Lemma ensureCertificate_reports t :
  ok (ensureCertificate t) (reports TenantConditionCertificate [ConditionTrue; ConditionFalse] t).
Proof. unfold ensureCertificate. reports_tac. Qed.
Lemma ensureGateway_reports t :
  ok (ensureGateway t) (reports TenantConditionGateway [ConditionTrue] t).
Proof. unfold ensureGateway. reports_tac. Qed.
Lemma ensureRobotSetupConfig_reports t :
  ok (ensureRobotSetupConfig t) (reports TenantConditionRobotSetup [ConditionTrue] t).
Proof. unfold ensureRobotSetupConfig. reports_tac. Qed.
End reports.

(** ** What a successful reconciliation has established *)

Definition cond_is (tc : string) (v : ConditionStatus) (t : Tenant) : Prop :=
  ∃ msg, condition_of tc (conds t) = Some (v, msg).

(** Without an error so far the conditions of [L] are all true; with one, a
    condition of [L ++ W] is false. *)
Definition progress_inv (L W : list string) (last : option error) (t : Tenant) : Prop :=
  match last with
  | None => ∀ tc, tc ∈ L → cond_is tc ConditionTrue t
  | Some _ => ∃ tc, tc ∈ (L ++ W)%list ∧ cond_is tc ConditionFalse t
  end.

Definition required (r : Reconciler) : list string :=
  [TenantConditionNamespace; TenantConditionServiceAccount; TenantConditionPermissions;
   TenantConditionRobotSetup; TenantConditionPullSecret] ++
  (if r_tenantSpecificGateways r then [TenantConditionGateway] else []).
Definition observed (r : Reconciler) : list string :=
  if r_tenantSpecificGateways r then [TenantConditionDomain; TenantConditionCertificate] else [].

Lemma reports_frame tc vs t r tc' v :
  reports tc vs t r → tc' ≠ tc → cond_is tc' v t → cond_is tc' v r.2.
Proof. intros [_ Hf] Hne [msg Hc]. exists msg. by rewrite Hf. Qed.
Lemma reports_False tc vs t e t' : reports tc vs t (Some e, t') → cond_is tc ConditionFalse t'.
Proof. intros [(v & msg & Hc & Hv) _]. apply list_elem_of_singleton in Hv as ->. by exists msg. Qed.
Lemma reports_True tc t t' : reports tc [ConditionTrue] t (None, t') → cond_is tc ConditionTrue t'.
Proof. intros [(v & msg & Hc & Hv) _]. apply list_elem_of_singleton in Hv as ->. by exists msg. Qed.

Lemma cond_is_setCondition tc v t now tc' v' msg :
  tc' ≠ tc → cond_is tc v t →
  cond_is tc v (t_setConditions (upsertCondition now tc' v' msg (ts_Conditions (t_Status t))) t).
Proof.
  intros Hne [msg' Hc]. exists msg'. by rewrite conds_setConditions, condition_of_upsert_ne.
Qed.

(** Recording the outcome of a reporting step keeps the invariant. *)
Lemma reports_progress L W tc t e t' last :
  reports tc [ConditionTrue] t (e, t') → tc ∉ (L ++ W)%list → progress_inv L W last t →
  progress_inv (L ++ [tc]) W (match e with Some _ => e | None => last end) t'.
Proof.
  intros Hr Htc Hp. destruct e as [e|]; cbn.
  - exists tc. split; [set_solver|]. by eapply reports_False.
  - destruct last as [err|]; cbn in *.
    + destruct Hp as (tc' & Hin & Hc). exists tc'. split; [set_solver|].
      apply (reports_frame _ _ _ _ _ _ Hr); [set_solver|done].
    + intros tc' [Hin|Heq%list_elem_of_singleton]%elem_of_app; [|subst; by eapply reports_True].
      apply (reports_frame _ _ _ _ _ _ Hr); [set_solver|auto].
Qed.
(** The same for a step that may succeed and report [False]. *)
Lemma reports_progress_weak L W tc vs t e t' last :
  reports tc vs t (e, t') → tc ∉ (L ++ W)%list → progress_inv L W last t →
  progress_inv L (W ++ [tc]) (match e with Some _ => e | None => last end) t'.
Proof.
  intros Hr Htc Hp. destruct e as [e|]; cbn.
  - exists tc. split; [set_solver|]. by eapply reports_False.
  - destruct last as [err|]; cbn in *.
    + destruct Hp as (tc' & Hin & Hc). exists tc'. split; [set_solver|].
      apply (reports_frame _ _ _ _ _ _ Hr); [set_solver|done].
    + intros tc' Hin. apply (reports_frame _ _ _ _ _ _ Hr); [set_solver|auto].
Qed.

Section progress.
Abbreviation ok := (wp (Op:=top) any_answer any_call any_panic).

Lemma ensured_progress L W tc s last t :
  ok (s t) (reports tc [ConditionTrue] t) → tc ∉ (L ++ W)%list → progress_inv L W last t →
  ok (ensured s last t) (λ '(last', t'), progress_inv (L ++ [tc]) W last' t').
Proof.
  intros Hs Htc Hp. apply wp_bind. eapply wp_mono; [|exact Hs].
  intros [e t'] Hr. cbn. by eapply reports_progress.
Qed.

Lemma ensureTenantGateway_progress r L last t :
  TenantConditionGateway ∉ L → TenantConditionDomain ∉ L → TenantConditionCertificate ∉ L →
  progress_inv L [] last t →
  ok (ensureTenantGateway r last t) (λ '(last', t'),
    progress_inv (L ++ [TenantConditionGateway])
      [TenantConditionDomain; TenantConditionCertificate] last' t').
Proof.
  intros HG HD HC Hp. unfold ensureTenantGateway. apply wp_bind.
  eapply wp_mono; [|apply ensureDNS_reports]. intros [e t1] Hr1.
  assert (Hne : TenantConditionDomain ≠ TenantConditionCertificate ∧
    TenantConditionGateway ≠ TenantConditionDomain ∧
    TenantConditionGateway ≠ TenantConditionCertificate) by done.
  pose proof (reports_progress_weak L [] _ _ _ _ _ last Hr1 ltac:(set_solver) Hp) as Hp1.
  apply wp_bind. destruct e as [e|].
  - cbn [wp prog_bind call setCondition negb andb is_some].
    split; [done|]. intros now1 _. split; [done|]. intros now2 _.
    apply reports_False in Hr1. exists TenantConditionDomain.
    split; [set_solver|].
    apply cond_is_setCondition; [done|]. by apply cond_is_setCondition.
  - apply wp_bind. eapply wp_mono; [|apply ensureCertificate_reports]. intros [e2 t2] Hr2.
    assert (Hn2 : TenantConditionCertificate ∉ (L ++ [] ++ [TenantConditionDomain])%list) by set_solver.
    pose proof (reports_progress_weak _ _ _ _ _ _ _ last Hr2 Hn2 Hp1) as Hp2.
    destruct e2 as [e2|]; cbn [wp prog_bind call setCondition negb andb is_some].
    + split; [done|]. intros now _.
      apply reports_False in Hr2. exists TenantConditionCertificate.
      split; [set_solver|]. by apply cond_is_setCondition.
    + apply ensured_progress; [apply ensureGateway_reports|set_solver|done].
Qed.

Lemma reconcileResources_progress r t :
  cond_is TenantConditionNamespace ConditionTrue t →
  ok (reconcileResources r t) (λ '(last, t'), progress_inv (required r) (observed r) last t').
Proof.
  intros Ht. unfold reconcileResources.
  assert (progress_inv [TenantConditionNamespace] [] None t) as Hp.
  { intros tc Heq%list_elem_of_singleton. by subst. }
  apply wp_bind. eapply wp_mono; [|eapply ensured_progress;
    [apply ensureServiceAccount_reports| |exact Hp]; by set_solver]. intros [l1 t1] Hp1.
  apply wp_bind. eapply wp_mono; [|eapply ensured_progress;
    [apply ensurePermissions_reports| |exact Hp1]; set_solver]. intros [l2 t2] Hp2.
  apply wp_bind. eapply wp_mono; [|eapply ensured_progress;
    [apply ensureRobotSetupConfig_reports| |exact Hp2]; set_solver]. intros [l3 t3] Hp3.
  apply wp_bind. eapply wp_mono; [|eapply ensured_progress;
    [apply ensurePullSecret_reports| |exact Hp3]; set_solver]. intros [l4 t4] Hp4.
  unfold required, observed. destruct (r_tenantSpecificGateways r).
  - apply ensureTenantGateway_progress; try done; set_solver.
  - cbn [wp]. rewrite app_nil_r. destruct l4 as [e|]; cbn [progress_inv] in *;
      unfold cond_is in *; by setoid_rewrite conds_setGateway;
      setoid_rewrite conds_setTenantDomain.
Qed.
End progress.

Lemma updateAndReturn_exec t r tr out : exec (updateAndReturn t r) tr out → out = Done r.
Proof.
  unfold updateAndReturn, updateTenantStatus. cbn [exec prog_bind call].
  intros ([t'|e] & tr' & _ & HE); by exec_inv HE.
Qed.

Lemma collectTenantNamespaces_conds t :
  wp (Op:=top) any_answer any_call any_panic (collectTenantNamespaces t) (λ r, conds r.2 = conds t).
Proof.
  unfold collectTenantNamespaces. cbn [wp prog_bind call]. split; [done|]. intros [items|e] _; [|done].
  apply wp_bind. apply (wp_for_each _ _ _ _ _ (λ _, True)); [| |done].
  - intros ns acc _ _. cbn. split; [done|]. by intros [|] _.
  - intros acc _. cbn. by destruct t as [? ? []].
Qed.
Lemma collectRobots_conds t :
  wp (Op:=top) any_answer any_call any_panic (collectRobots t) (λ r, conds r.2 = conds t).
Proof.
  unfold collectRobots. cbn [wp prog_bind call]. split; [done|]. intros [robots|e] _; [|done].
  cbn [wp prog_bind call]. split; [done|]. destruct t as [? ? []]. by intros [secrets|e] _.
Qed.

Lemma reconcileTenant_success r t tr :
  exec (reconcileTenant r t) tr (Done (mkResult requeueSlow, None)) →
  ∃ tr0 t' u, tr = (tr0 ++ [existT (K (KStatusUpdate KTenant t')) (Ok u)])%list ∧
    ∀ tc, tc ∈ required r → cond_is tc ConditionTrue t'.
Proof.
  unfold reconcileTenant. intros HE. exec_inv HE; [done|]. destruct a as [[e|] t1].
  { destruct e; by apply updateAndReturn_exec in HE. }
  apply (wp_exec_any _ _ _ _ _ _ (ensureNamespace_reports t)) in HE0 as [_ Hns].
  apply reports_True in Hns.
  exec_inv HE; [done|]. destruct a as [[e|] t2]; [by apply updateAndReturn_exec in HE|].
  apply (wp_exec_any _ _ _ _ _ _ (collectTenantNamespaces_conds t1)) in HE0 as [_ H2].
  exec_inv HE; [done|]. destruct a as [[e|] t3]; [by apply updateAndReturn_exec in HE|].
  apply (wp_exec_any _ _ _ _ _ _ (collectRobots_conds t2)) in HE0 as [_ H3].
  exec_inv HE; [done|]. destruct a as [last t4].
  apply (wp_exec_any _ _ _ _ _ _ (reconcileResources_progress r t3 ltac:(
    unfold cond_is in *; cbn in H2, H3; by rewrite H3, H2))) in HE0 as [_ Hp].
  unfold updateTenantStatus in HE. exec_inv HE. destruct a as [u|e]; cbn in HE; [|by destruct HE].
  destruct last as [e|]; destruct HE as [-> [=]]. subst.
  do 3 eexists. rewrite !(assoc_L (++)). by split; [done|].
Qed.

(** The two ways [Reconcile] reaches a live tenant: it carries the finalizer
    already, or the finalizer was just added. *)
Lemma Reconcile_live r name tr out :
  exec (Reconcile r name) tr out →
  (∃ g e, tr = [existT (K (KGet KTenant "" name)) (Err g)] ∧ out = Done (mkResult 0, e)) ∨
  (∃ t tr', tr = existT (K (KGet KTenant "" name)) (Ok t) :: tr' ∧
     is_some (om_DeletionTimestamp (t_meta t)) = true ∧ exec (reconcileDeleted t) tr' out) ∨
  (∃ t t' pre tr', tr = (pre ++ tr')%list ∧ is_some (om_DeletionTimestamp (t_meta t)) = false ∧
     (pre = [existT (K (KGet KTenant "" name)) (Ok t)] ∧ t' = t ∨
      pre = [existT (K (KGet KTenant "" name)) (Ok t);
             existT (K (KUpdate KTenant (t_setMeta (om_setFinalizers
               (om_Finalizers (t_meta t) ++ [finalizer])%list (t_meta t)) t))) (Ok t')]) ∧
     exec (reconcileTenant r t') tr' out) ∨
  (∃ t u e, tr = [existT (K (KGet KTenant "" name)) (Ok t);
                  existT (K (KUpdate KTenant u)) (Err e)] ∧
     finalizer ∈ om_Finalizers (t_meta u) ∧ out = Done (mkResult 0, Some (EWrap ("add finalizer to tenant " ++ t_Name u) e))).
Proof.
  unfold Reconcile. intros HE. exec_inv HE. destruct a as [t|err];
    [|left; case_match; exec_inv HE; subst; by do 2 eexists].
  destruct (is_some _) eqn:Hd; [right; left; by do 2 eexists|]. right; right.
  destruct (containsString _ _).
  - left. exists t, t, [existT (K (KGet KTenant "" name)) (Ok t)], tr0. naive_solver.
  - exec_inv HE. destruct a as [t'|err].
    + left. eexists t, t', [existT (K (KGet KTenant "" name)) (Ok t); existT (K (KUpdate KTenant _)) (Ok t')], tr1.
      split; [by subst|]. split; [done|]. split; [right|exact HE]. reflexivity.
    + right. destruct HE as [-> ->]. do 3 eexists. split; [by subst|]. split; [|done].
      destruct t as [[] ? ?]; cbn. set_solver.
Qed.

(** C7: a reconciliation that ends without error and is requeued at the slow
    rate finished by writing a status in which every required condition is
    true: namespace, service accounts, permissions, robot-setup config, pull
    secret, and the gateway when tenant specific gateways are on. *)
Theorem Reconcile_success_conditions r name tr :
  exec (Reconcile r name) tr (Done (mkResult requeueSlow, None)) →
  ∃ tr0 t u, tr = (tr0 ++ [existT (K (KStatusUpdate KTenant t)) (Ok u)])%list ∧
    ∀ tc, tc ∈ required r → cond_is tc ConditionTrue t.
Proof.
  intros HE.
  apply Reconcile_live in HE as [(g & e & _ & [=])|[(t & tr' & -> & _ & HE)|[HE|HE]]].
  - unfold reconcileDeleted in HE. exec_inv HE; [done|].
    destruct a as [[|]|e]; [case_match|by exec_inv HE|by exec_inv HE].
    + exec_inv HE. by destruct a; exec_inv HE.
    + by exec_inv HE.
  - destruct HE as (t & t' & pre & tr' & -> & _ & _ & HE).
    apply reconcileTenant_success in HE as (tr0 & t'' & u & -> & Ht).
    exists (pre ++ tr0)%list, t'', u. by rewrite (assoc_L (++)).
  - destruct HE as (? & ? & ? & _ & _ & [=]).
Qed.

(** ** Where a reconciliation writes *)

(** The metadata of an object of any kind. *)
Definition kmeta (k : tkind) : obj k → ObjectMeta :=
  match k with
  | KTenant => t_meta
  | KNamespace => ns_meta
  | KServiceAccount => sa_meta
  | KRoleBinding => rb_meta
  | KSecret => sec_meta
  | KConfigMap => cm_meta
  | KDNSEntry => d_meta
  | KService => svc_meta
  | KCertificate => c_meta
  | KGateway => g_meta
  | KRobot | KAppRollout | KChartAssignment => λ m, m
  end.

(** What the API server documents: a [Get] answers with the object asked for,
    an [Update] does not rename its object; and the robot-setup template has
    data. *)
Definition faithful (o : top) : resp o → Prop :=
  match o return resp o → Prop with
  | K (KGet k ns name) => λ r,
      match r with
      | Ok x => om_Namespace (kmeta k x) = ns ∧ om_Name (kmeta k x) = name ∧
          match k return obj k → Prop with
          | KConfigMap => λ cm, ns = RobotConfigCloudNamespace → name = RobotSetupConfigmap →
                            cm_Data cm ≠ None
          | _ => λ _, True
          end x
      | Err _ => True
      end
  | K (KUpdate k x) => λ r,
      match r with Ok y => om_Name (kmeta k y) = om_Name (kmeta k x) | Err _ => True end
  | _ => λ _, True
  end.

(** The writes of a reconciliation of tenant [tn]: its own CR, its two
    namespaces and the objects in them, its certificate in istio-system;
    nothing is deleted but its own AppRollouts.  Other namespaces are written
    back as they were listed, those of the tenant's apps with its label. *)
Definition in_tenant (tn ns : string) : Prop :=
  ns = TenantMainNamespace tn ∨ ns = RobotConfigNamespace (TenantMainNamespace tn).
Definition tenant_namespace (tn ns : string) : Prop :=
  in_tenant tn ns ∨
  HasPrefix ns (if bool_decide (tn = DefaultTenantName) then "app-" else TenantMainNamespace tn ++ "-app-") = true.
Definition relisted (tn : string) (listed : Namespace → Prop) (m : ObjectMeta) : Prop :=
  ∃ ns, listed ns ∧
    (m = ns_meta ns ∨ tenant_namespace tn (om_Name (ns_meta ns)) ∧ m = setLabel (ns_meta ns) tenantLabel tn).
Definition write_scope (tn : string) (listed : Namespace → Prop) (create : bool) (k : tkind) (m : ObjectMeta) : Prop :=
  match k with
  | KTenant => om_Name m = tn ∧ create = false
  | KNamespace => in_tenant tn (om_Name m) ∧ tn ≠ DefaultTenantName ∨ create = false ∧ relisted tn listed m
  | KCertificate => om_Namespace m = "istio-system" ∧ om_Name m = "t-" +:+ tn +:+ "-tls"
  | KSecret => in_tenant tn (om_Namespace m) ∧ om_Namespace m ≠ "default"
  | KRobot | KAppRollout | KChartAssignment | KService => False
  | _ => in_tenant tn (om_Namespace m)
  end.
Definition in_scope (tn : string) (listed : Namespace → Prop) (o : top) : Prop :=
  match o with
  | K (KCreate k x) => write_scope tn listed true k (kmeta k x)
  | K (KUpdate k x) => write_scope tn listed false k (kmeta k x)
  | K (KStatusUpdate k x) => k = KTenant ∧ om_Name (kmeta k x) = tn
  | K (KDelete _ _) => False
  | K (KDeleteAllOf k sel) => k = KAppRollout ∧ sel = InNamespace (TenantMainNamespace tn)
  | _ => True
  end.

(** The namespaces that a trace lists. *)
Definition lists (listed : Namespace → Prop) (o : top) : resp o → Prop :=
  match o return resp o → Prop with
  | K (KList KNamespace _) => λ a, match a with Ok items => ∀ ns, ns ∈ items → listed ns | Err _ => True end
  | _ => λ _, True
  end.
Definition listed_in (tr : list (event top)) (ns : Namespace) : Prop :=
  ∃ sel items, existT (K (KList KNamespace sel)) (Ok items) ∈ tr ∧ ns ∈ items.
Lemma lists_listed tr : answers (lists (listed_in tr)) tr.
Proof.
  assert (∀ t, (∀ e, e ∈ t → e ∈ tr) → answers (lists (listed_in tr)) t) as H; [|by apply H].
  induction t as [|[o a] t IH]; intros Hsub; [done|]. split; [|apply IH; intros; apply Hsub; by right].
  specialize (Hsub _ (list_elem_of_here _ _)). destruct o as [[]|?|?]; try exact I.
  destruct k; try exact I. cbn in *. destruct a as [items|e]; [|done]. intros ns Hns. by exists sel, items.
Qed.

Lemma t_Name_setConditions l t : t_Name (t_setConditions l t) = t_Name t.
Proof. by destruct t as [? ? []]. Qed.
Lemma t_Name_setTenantDomain l t : t_Name (t_setTenantDomain l t) = t_Name t.
Proof. by destruct t as [? ? []]. Qed.
Lemma t_Name_setGateway l t : t_Name (t_setGateway l t) = t_Name t.
Proof. by destruct t as [? ? []]. Qed.
Lemma t_Name_setFinalizers l t : t_Name (t_setMeta (om_setFinalizers l (t_meta t)) t) = t_Name t.
Proof. by destruct t as [[] ? ?]. Qed.
Lemma t_Name_setLabel k v t : t_Name (t_setMeta (setLabel (t_meta t) k v) t) = t_Name t.
Proof. by destruct t as [[] ? ?]. Qed.
Lemma ownTenant_name t m : om_Name (ownTenant t m) = om_Name m.
Proof. apply SetControllerReference_name. Qed.
Lemma ownTenant_namespace t m : om_Namespace (ownTenant t m) = om_Namespace m.
Proof. apply SetControllerReference_name. Qed.
Lemma setAnnotation_meta m k v :
  om_Name (setAnnotation m k v) = om_Name m ∧ om_Namespace (setAnnotation m k v) = om_Namespace m.
Proof. by destruct m. Qed.
#[warnings="-implicit-create-rewrite-hint-db"]
#[local] Hint Rewrite t_Name_setConditions t_Name_setTenantDomain t_Name_setGateway
  t_Name_setFinalizers t_Name_setLabel ownTenant_name ownTenant_namespace : tenant.

(** The object a step goes on with has the key it asked for. *)
Lemma got_key (k : tkind) (g : result (obj k)) (z : obj k) ns name :
  faithful (K (KGet k ns name)) g → om_Namespace (kmeta k z) = ns → om_Name (kmeta k z) = name →
  om_Namespace (kmeta k (got g z)) = ns ∧ om_Name (kmeta k (got g z)) = name.
Proof. destruct g as [x|e]; cbn; [|done]. by intros (? & ? & _). Qed.

(** The answers of such a server, with the namespaces it lists. *)
Definition answered (listed : Namespace → Prop) (o : top) (a : resp o) : Prop := faithful o a ∧ lists listed o a.

Section scope.
Context (tn : string) (listed : Namespace → Prop).
Abbreviation ok := (wp (Op:=top) (answered listed) (in_scope tn listed) no_panic).

Lemma ok_setCondition t tc v msg (Φ : Tenant → Prop) :
  t_Name t = tn → (∀ t', t_Name t' = tn → Φ t') → ok (setCondition t tc v msg) Φ.
Proof.
  intros Ht HΦ. cbn. split; [done|]. intros now _. apply HΦ. by rewrite t_Name_setConditions.
Qed.

(** A write whose object has an allowed key, followed by anything. *)
Lemma ok_createOrUpdate create k o (Φ : result (obj k) → Prop) :
  (∀ c, c = create → write_scope tn listed c k (kmeta k o)) → (∀ r, Φ r) → ok (createOrUpdate create k o) Φ.
Proof. intros Ho HΦ. destruct create; cbn; split; auto. Qed.

Lemma ok_get k ns name (Φ : result (obj k) → Prop) :
  (∀ g, faithful (K (KGet k ns name)) g → Φ g) → ok (call (K (KGet k ns name))) Φ.
Proof. cbn [wp call]. intros Hg. split; [done|]. intros g [Hf _]. by apply Hg. Qed.

(** A loop whose body keeps the tenant's name. *)
Lemma ok_loop {A} (f : A → Tenant → body) l t tc msg :
  t_Name t = tn →
  (∀ x t', x ∈ l → t_Name t' = tn → ok (f x t') (λ r, match r with
     | inl r => t_Name r.2 = tn | inr t'' => t_Name t'' = tn end)) →
  ok (let! r := for_each f l t in
      after_loop r (λ t, let! t := setCondition t tc ConditionTrue msg in Ret (None, t)))
     (λ r, t_Name r.2 = tn).
Proof.
  intros Ht Hf. apply wp_bind. apply (wp_for_each _ _ _ f l (λ t', t_Name t' = tn)); [| |done].
  - intros x t' Hx Ht'. eapply wp_mono; [|by apply Hf]. by intros [r|t''].
  - intros t' Ht'. apply wp_bind. by apply ok_setCondition.
Qed.
End scope.

Ltac scope_tac :=
  repeat (cbn [wp prog_bind stop after_loop fst snd];
    first
    [ progress wp_case
    | match goal with
      | |- wp _ _ _ (prog_bind _ _) _ => apply wp_bind
      | |- wp _ _ _ (setCondition _ _ _ _) _ => apply ok_setCondition; [by autorewrite with tenant|intros ? ?]
      | |- wp _ _ _ (call (K (KGet _ _ _))) _ => apply ok_get; intros ? ?
      | |- wp _ _ _ (call (RandomStr _)) _ => cbn [wp call]; split; [exact I|intros ? _]
      | |- wp _ _ _ (createOrUpdate ?c ?k ?o) _ => apply (ok_createOrUpdate _ _ c k o); [intros ? ?|intros ?]
      end
    | by autorewrite with tenant ]).

(** Rewrites with the key of the object a step got. *)
Ltac got_key_tac :=
  match goal with
  | Hf : faithful (K (KGet ?k ?ns ?name)) ?g |- context [got ?g ?z] =>
      let H1 := fresh in let H2 := fresh in
      destruct (got_key k g z ns name Hf eq_refl eq_refl) as [H1 H2];
      cbn in H1, H2; cbn; rewrite ?H1, ?H2
  end.

Section scope_steps.
Context (tn : string) (listed : Namespace → Prop).
Abbreviation ok := (wp (Op:=top) (answered listed) (in_scope tn listed) no_panic).
Abbreviation keeps := (λ r : option error * Tenant, t_Name r.2 = tn).


Lemma ensureNamespace_scope t : t_Name t = tn → ok (ensureNamespace t) keeps.
Proof.
  intros Ht. unfold ensureNamespace. case_bool_decide; [scope_tac|]. apply ok_loop; [done|].
  intros ns t' Hns Ht'. unfold ensureNamespace_body. scope_tac.
  cbn. left. rewrite ownTenant_name. rewrite Ht in *. split; [|done].
  got_key_tac.
  unfold in_tenant. set_solver.
Qed.

Lemma ensureServiceAccount_scope t : t_Name t = tn → ok (ensureServiceAccount t) keeps.
Proof.
  intros Ht. unfold ensureServiceAccount. apply ok_loop; [done|]. rewrite Ht.
  intros sa t' _ Ht'. unfold ensureServiceAccount_body. scope_tac.
  cbn. rewrite ownTenant_namespace.
  got_key_tac.
  by right.
Qed.

Lemma ensurePermissions_scope t : t_Name t = tn → ok (ensurePermissions t) keeps.
Proof.
  intros Ht. unfold ensurePermissions. cbn [wp prog_bind call]. split; [done|].
  intros [order Hperm] _. apply ok_loop; [done|].
  intros [[ns name] rrs] t' Hin Ht'. cbn in Hin. unfold ensurePermissions_body. scope_tac.
  cbn. rewrite ownTenant_namespace. 
  got_key_tac.
  rewrite Hperm in Hin. unfold tenantRoleBindings in Hin. rewrite ?Ht in Hin.
  apply (list_elem_of_fmap_2 (λ b, b.1.1)) in Hin.
  unfold in_tenant. set_solver.
Qed.

Lemma ensurePullSecret_scope t : t_Name t = tn → ok (ensurePullSecret t) keeps.
Proof.
  intros Ht. unfold ensurePullSecret. cbn [wp prog_bind call]. split; [done|].
  intros [tpl|err] _; [|scope_tac]. apply ok_loop; [done|]. rewrite Ht.
  intros ns t' Hin Ht'. unfold ensurePullSecret_body, ensurePullSecret_sa.
  assert (in_tenant tn ns) as Hns by (unfold in_tenant; set_solver).
  case_bool_decide; [done|]. scope_tac.
  - cbn. rewrite ownTenant_namespace.
    got_key_tac. done.
  - cbn [wp prog_bind call]. split; [|intros u Hu; scope_tac].
    match goal with Hf : faithful _ (Ok _) |- _ => destruct Hf as (Hk & _) end.
    cbn in Hk |- *. by rewrite Hk.
Qed.

Lemma ensureRobotSetupConfig_scope t : t_Name t = tn → ok (ensureRobotSetupConfig t) keeps.
Proof.
  intros Ht. unfold ensureRobotSetupConfig. scope_tac.
  - cbn. rewrite ownTenant_namespace. 
    got_key_tac.
    right. by rewrite Ht.
  - match goal with Hf : faithful _ (Ok ?a), Hn : cm_Data ?a = None |- _ =>
      destruct Hf as (_ & _ & Hf); by apply Hf in Hn end.
Qed.

Lemma ensureDNS_scope r t : t_Name t = tn → ok (ensureDNS r t) keeps.
Proof.
  intros Ht. unfold ensureDNS, ensureDNS_write, chooseTenantDomain, generateTenantDomain.
  scope_tac; cbn; rewrite ownTenant_namespace, (proj2 (setAnnotation_meta _ _ _));
    got_key_tac; left; by rewrite Ht.
Qed.

Lemma ensureCertificate_scope t : t_Name t = tn → ok (ensureCertificate t) keeps.
Proof.
  intros Ht. unfold ensureCertificate. scope_tac.
  cbn. rewrite ownTenant_namespace, ownTenant_name. got_key_tac.
  unfold getCertificateName. by rewrite Ht.
Qed.

Lemma ensureGateway_scope t : t_Name t = tn → ok (ensureGateway t) keeps.
Proof.
  intros Ht. unfold ensureGateway. scope_tac.
  cbn. rewrite ownTenant_namespace. got_key_tac. left. by rewrite Ht.
Qed.

Lemma collectTenantNamespaces_scope t : t_Name t = tn → ok (collectTenantNamespaces t) keeps.
Proof.
  intros Ht. unfold collectTenantNamespaces. cbn [wp prog_bind call]. split; [done|].
  intros [items|e] [_ Hl]; [|done]. apply wp_bind.
  apply (wp_for_each _ _ _ _ _ (λ _, True)); [| |done].
  - intros ns acc Hns _. cbn. split; [|by intros [|] _]. right. split; [done|]. exists ns. split; [by apply Hl|].
    unfold isTenantNamespace, appNamespacePrefix. rewrite Ht.
    destruct (HasPrefix _ _ || _ || _) eqn:Hm; [right|by left]. split; [|done].
    rewrite !orb_true_iff, !bool_decide_eq_true in Hm. unfold tenant_namespace, in_tenant. naive_solver.
  - intros acc _. cbn [wp]. by destruct t as [? ? []].
Qed.

Lemma collectRobots_scope t : t_Name t = tn → ok (collectRobots t) keeps.
Proof.
  intros Ht. unfold collectRobots. cbn [wp prog_bind call]. split; [done|].
  intros [robots|e] _; [|done]. cbn [wp prog_bind call]. split; [done|].
  destruct t as [? ? []]. by intros [secrets|e] _.
Qed.

Lemma ensured_scope s last t :
  (∀ t, t_Name t = tn → ok (s t) keeps) → t_Name t = tn → ok (ensured s last t) keeps.
Proof.
  intros Hs Ht. apply wp_bind. eapply wp_mono; [|by apply Hs]. by intros [e t'] Hr.
Qed.

Lemma ensureTenantGateway_scope r last t :
  t_Name t = tn → ok (ensureTenantGateway r last t) keeps.
Proof.
  intros Ht. unfold ensureTenantGateway. apply wp_bind.
  eapply wp_mono; [|by apply ensureDNS_scope]. intros [e1 t1] Ht1. cbn in Ht1.
  apply wp_bind. destruct e1 as [e1|]; cbn [negb andb is_some].
  - apply wp_bind, ok_setCondition; [done|]. intros t2 Ht2. cbn [wp].
    apply wp_bind, ok_setCondition; [done|]. by intros t3 Ht3.
  - apply wp_bind. eapply wp_mono; [|by apply ensureCertificate_scope].
    intros [[e2|] t2] Ht2; cbn in Ht2; cbn [wp negb].
    + apply wp_bind, ok_setCondition; [done|]. by intros t3 Ht3.
    + apply ensured_scope; [apply ensureGateway_scope|done].
Qed.

Lemma reconcileResources_scope r t : t_Name t = tn → ok (reconcileResources r t) keeps.
Proof.
  intros Ht. unfold reconcileResources.
  apply wp_bind. eapply wp_mono; [|by apply (ensured_scope _ _ _ ensureServiceAccount_scope)].
  intros [l1 t1] Ht1. cbn in Ht1.
  apply wp_bind. eapply wp_mono; [|by apply (ensured_scope _ _ _ ensurePermissions_scope)].
  intros [l2 t2] Ht2. cbn in Ht2.
  apply wp_bind. eapply wp_mono; [|by apply (ensured_scope _ _ _ ensureRobotSetupConfig_scope)].
  intros [l3 t3] Ht3. cbn in Ht3.
  apply wp_bind. eapply wp_mono; [|by apply (ensured_scope _ _ _ ensurePullSecret_scope)].
  intros [l4 t4] Ht4. cbn in Ht4.
  case_match; [by apply ensureTenantGateway_scope|].
  cbn [wp snd]. by rewrite t_Name_setGateway, t_Name_setTenantDomain.
Qed.

Lemma updateAndReturn_scope t r : t_Name t = tn → ok (updateAndReturn t r) (λ _, True).
Proof. intros Ht. cbn. split; [done|]. by intros [|] _. Qed.

Lemma reconcileTenant_scope r t : t_Name t = tn → ok (reconcileTenant r t) (λ _, True).
Proof.
  intros Ht. unfold reconcileTenant.
  apply wp_bind. eapply wp_mono; [|by apply ensureNamespace_scope].
  intros [[e|] t1] Ht1; cbn in Ht1; [destruct e; by apply updateAndReturn_scope|].
  apply wp_bind. eapply wp_mono; [|by apply collectTenantNamespaces_scope].
  intros [[e|] t2] Ht2; cbn in Ht2; [by apply updateAndReturn_scope|].
  apply wp_bind. eapply wp_mono; [|by apply collectRobots_scope].
  intros [[e|] t3] Ht3; cbn in Ht3; [by apply updateAndReturn_scope|].
  apply wp_bind. eapply wp_mono; [|by apply reconcileResources_scope].
  intros [last t4] Ht4. cbn in Ht4. cbn. split; [done|]. intros [u|e] _; [|done]. by destruct last.
Qed.

Lemma ensureDeleted_scope t : t_Name t = tn → ok (ensureDeleted t) (λ _, True).
Proof.
  intros Ht. unfold ensureDeleted. rewrite Ht. cbn [wp prog_bind call].
  split; [done|]. intros [rollouts|e] _; [|done]. destruct (0 <? length rollouts)%nat;
    cbn [wp prog_bind call]; (split; [done|]); by intros [|] _.
Qed.

Lemma reconcileDeleted_scope t : t_Name t = tn → ok (reconcileDeleted t) (λ _, True).
Proof.
  intros Ht. apply wp_bind. eapply wp_mono; [|by apply ensureDeleted_scope].
  intros [[|]|e] _; [|done..]. case_match; [|done]. cbn [wp prog_bind call].
  split; [by destruct t as [[] ? ?]|]. by intros [|] _.
Qed.
End scope_steps.


(** ** Deletion *)

(** The update that takes the finalizer off. *)
Definition removes_finalizer (o : top) : Prop :=
  match o with
  | K (KUpdate KTenant t) => finalizer ∉ om_Finalizers (t_meta t)
  | _ => False
  end.

Lemma om_Finalizers_set l m : om_Finalizers (om_setFinalizers l m) = l.
Proof. by destruct m. Qed.

(** No step of a live tenant's reconciliation updates the tenant CR itself. *)
Definition no_tenant_update (o : top) : Prop :=
  match o with K (KUpdate KTenant _) | K (KCreate KTenant _) => False | _ => True end.
Section no_update.
Abbreviation ok := (wp (Op:=top) any_answer no_tenant_update any_panic).

Ltac quiet_tac :=
  repeat (cbn [wp prog_bind call setCondition stop after_loop createOrUpdate];
    first
    [ progress wp_case
    | match goal with
      | |- wp _ _ _ (createOrUpdate ?b _ _) _ => destruct b
      | |- wp _ _ _ (prog_bind (λ _, after_loop _ _) (for_each _ _ _)) _ =>
          apply wp_bind, (wp_for_each _ _ _ _ _ (λ _, True)); [intros ? ? _ _|intros ? _|done]
      | |- wp _ _ _ (prog_bind _ _) _ => apply wp_bind
      end
    | split; [exact I|intros ? _]
    | done ]).

Lemma loop_quiet {A} (f : A → Tenant → body) l t fin :
  (∀ x t, ok (f x t) (λ _, True)) → (∀ t, ok (fin t) (λ _, True)) →
  ok (let! r := for_each f l t in after_loop r fin) (λ _, True).
Proof.
  intros Hf Hfin. apply wp_bind, (wp_for_each _ _ _ _ _ (λ _, True)); [|intros t' _; apply Hfin|done].
  intros x t' _ _. eapply wp_mono; [|apply Hf]. by intros [|].
Qed.
Lemma bind_quiet {A B} (p : prog top A) (k : A → prog top B) :
  ok p (λ _, True) → (∀ x, ok (k x) (λ _, True)) → ok (prog_bind k p) (λ _, True).
Proof. intros Hp Hk. apply wp_bind. eapply wp_mono; [|exact Hp]. auto. Qed.

Lemma ensureNamespace_quiet t : ok (ensureNamespace t) (λ _, True).
Proof.
  unfold ensureNamespace. case_bool_decide; [quiet_tac|].
  apply loop_quiet; intros; [unfold ensureNamespace_body|]; quiet_tac.
Qed.
Lemma ensureServiceAccount_quiet t : ok (ensureServiceAccount t) (λ _, True).
Proof. apply loop_quiet; intros; [unfold ensureServiceAccount_body|]; quiet_tac. Qed.
Lemma ensurePermissions_quiet t : ok (ensurePermissions t) (λ _, True).
Proof.
  unfold ensurePermissions. cbn [wp prog_bind call]. split; [exact I|]. intros order _.
  apply loop_quiet; intros; [unfold ensurePermissions_body|]; quiet_tac.
Qed.
Lemma ensurePullSecret_quiet t : ok (ensurePullSecret t) (λ _, True).
Proof.
  unfold ensurePullSecret. cbn [wp prog_bind call]. split; [exact I|]. intros [tpl|err] _.
  - apply loop_quiet; intros; [unfold ensurePullSecret_body, ensurePullSecret_sa|]; quiet_tac.
  - quiet_tac.
Qed.
Lemma ensureRobotSetupConfig_quiet t : ok (ensureRobotSetupConfig t) (λ _, True).
Proof. unfold ensureRobotSetupConfig. quiet_tac. Qed.
Lemma ensureTenantGateway_quiet r last t : ok (ensureTenantGateway r last t) (λ _, True).
Proof.
  unfold ensureTenantGateway, ensured. apply bind_quiet.
  - unfold ensureDNS, chooseTenantDomain, generateTenantDomain, ensureDNS_write. quiet_tac.
  - intros [[e|] t1]; cbn [is_some negb andb]; [quiet_tac|]. apply bind_quiet.
    + apply bind_quiet; [unfold ensureCertificate; quiet_tac|]. by intros [[]].
    + intros [[[] ?] ?]; cbn [negb]; [quiet_tac|].
      apply bind_quiet; [unfold ensureGateway; quiet_tac|]. by intros [? ?].
Qed.
Lemma reconcileTenant_quiet r t : ok (reconcileTenant r t) (λ _, True).
Proof.
  unfold reconcileTenant, updateAndReturn, updateTenantStatus, reconcileResources, ensured.
  apply bind_quiet; [apply ensureNamespace_quiet|]. intros [[e|] t1]; [destruct e; quiet_tac|].
  apply bind_quiet.
  { unfold collectTenantNamespaces, collectTenantNamespaces_body. cbn [wp prog_bind call].
    split; [exact I|]. intros [items|e] _; [|done]. apply bind_quiet; [|by intros []].
    apply (wp_for_each _ _ _ _ _ (λ _, True)); [|done..]. intros. quiet_tac. }
  intros [[e|] t2]; [quiet_tac|].
  apply bind_quiet; [unfold collectRobots; quiet_tac|]. intros [[e|] t3]; [quiet_tac|].
  apply bind_quiet; [|intros [? ?]; quiet_tac].
  apply bind_quiet; [apply bind_quiet; [apply ensureServiceAccount_quiet|by intros []]|intros [? ?]].
  apply bind_quiet; [apply bind_quiet; [apply ensurePermissions_quiet|by intros []]|intros [? ?]].
  apply bind_quiet; [apply bind_quiet; [apply ensureRobotSetupConfig_quiet|by intros []]|intros [? ?]].
  apply bind_quiet; [apply bind_quiet; [apply ensurePullSecret_quiet|by intros []]|intros [? ?]].
  case_match; [apply ensureTenantGateway_quiet|done].
Qed.
End no_update.

(** A call that removes a finalizer is none of the calls of a concrete trace. *)
Ltac event_op Hin := apply (f_equal (@projT1 _ _)) in Hin; cbn in Hin; subst.
Ltac not_in_trace Hin :=
  exfalso;
  repeat (apply elem_of_cons in Hin as [Hin|Hin]; [by event_op Hin|]);
  by apply not_elem_of_nil in Hin.

Lemma reconcileDeleted_finalizer t tr out o a :
  exec (reconcileDeleted t) tr out → existT o a ∈ tr → removes_finalizer o →
  tr = [existT (K (KList KAppRollout (InNamespace (TenantMainNamespace (t_Name t))))) (Ok []);
        existT (K (KList KChartAssignment (InNamespace (TenantMainNamespace (t_Name t))))) (Ok []);
        existT o a].
Proof.
  unfold reconcileDeleted, ensureDeleted. intros HE Hin Ho.
  exec_inv HE. destruct a0 as [[|x rollouts]|e]; cbn [length Nat.ltb Nat.leb] in HE.
  - exec_inv HE. destruct a0 as [[|x cas]|e]; cbn [length Nat.ltb Nat.leb negb] in HE.
    + case_match; exec_inv HE; [|subst; not_in_trace Hin].
      assert (tr2 = []) as -> by (destruct a0; by destruct HE).
      subst. do 2 (apply elem_of_cons in Hin as [Hin|Hin]; [by event_op Hin|]).
      apply list_elem_of_singleton in Hin. by rewrite Hin.
    + exec_inv HE. subst. not_in_trace Hin.
    + exec_inv HE. subst. not_in_trace Hin.
  - exec_inv HE. assert (tr1 = []) as -> by (destruct a0; by destruct HE).
    subst. not_in_trace Hin.
  - exec_inv HE. subst. not_in_trace Hin.
Qed.

(** C8: the finalizer of a tenant is removed only when the tenant is marked
    for deletion and both an AppRollout list and, after it, a ChartAssignment
    list of its namespace came back empty in the same reconciliation; these
    two lists and the update are then all it did. *)
Theorem finalizer_removed_only_when_empty r name tr out o a :
  exec (Reconcile r name) tr out → existT o a ∈ tr → removes_finalizer o →
  ∃ t, is_some (om_DeletionTimestamp (t_meta t)) = true ∧
    tr = [existT (K (KGet KTenant "" name)) (Ok t);
          existT (K (KList KAppRollout (InNamespace (TenantMainNamespace (t_Name t))))) (Ok []);
          existT (K (KList KChartAssignment (InNamespace (TenantMainNamespace (t_Name t))))) (Ok []);
          existT o a].
Proof.
  intros HE Hin Ho.
  apply Reconcile_live in HE as [(g & e & -> & _)|[(t & tr' & -> & Hdel & HE)|[HE|HE]]].
  - apply list_elem_of_singleton in Hin. by event_op Hin.
  - apply elem_of_cons in Hin as [Hin|Hin]; [by event_op Hin|].
    exists t. split; [done|]. f_equal.
    by eapply reconcileDeleted_finalizer.
  - destruct HE as (t & t' & pre & tr' & -> & _ & Hpre & HE).
    apply elem_of_app in Hin as [Hin|Hin].
    + destruct Hpre as [[-> _]| ->]; 
        [by not_in_trace Hin|].
      apply elem_of_cons in Hin as [Hin|Hin]; [by event_op Hin|].
      apply list_elem_of_singleton in Hin. event_op Hin. cbn in Ho.
      rewrite om_Finalizers_set in Ho. set_solver.
    + apply (wp_exec_any _ _ _ _ _ _ (reconcileTenant_quiet r t')) in HE as [Hq _].
      apply (answers_elem _ _ o a) in Hq; [|done].
      destruct o as [[| | | |[]| | |]| |]; done.
  - destruct HE as (t & u & e & -> & Hu & _).
    apply elem_of_cons in Hin as [Hin|Hin]; [by event_op Hin|].
    apply list_elem_of_singleton in Hin. by event_op Hin.
Qed.

(** ** The order of the gateway steps *)

Definition op_kind (o : top) : option tkind :=
  match o with
  | K (KGet k _ _) | K (KList k _) | K (KCreate k _) | K (KUpdate k _) | K (KStatusUpdate k _)
  | K (KDelete k _) | K (KDeleteAllOf k _) => Some k
  | _ => None
  end.
(** The trace contains a create or update of kind [k] that succeeded. *)
Definition wrote (k : tkind) (tr : list (event top)) : Prop :=
  ∃ o a, existT o a ∈ tr ∧
    match o return resp o → Prop with
    | K (KCreate k' _) | K (KUpdate k' _) => λ a, k' = k ∧ is_ok a = true
    | _ => λ _, False
    end a.
Definition kinds_in (ks : list tkind) (o : top) : Prop :=
  match op_kind o with Some k => k ∈ ks | None => True end.

Ltac exec_cases H :=
  repeat first
    [ progress exec_inv H
    | match type of H with
      | exec (match ?x with _ => _ end) _ _ => destruct x eqn:?
      end ].

Section order.
Abbreviation ok ks := (wp (Op:=top) any_answer (kinds_in ks) any_panic).

Ltac kinds_tac :=
  repeat (cbn [wp prog_bind call setCondition createOrUpdate];
    first
    [ progress wp_case
    | match goal with
      | |- wp _ _ _ (createOrUpdate ?b _ _) _ => destruct b
      | |- wp _ _ _ (prog_bind _ _) _ => apply wp_bind
      end
    | split; [unfold kinds_in; cbn; set_solver|intros ? _]
    | done ]).

Lemma ensureDNS_kinds r t : ok [KDNSEntry; KService] (ensureDNS r t) (λ _, True).
Proof.
  unfold ensureDNS, chooseTenantDomain, generateTenantDomain, ensureDNS_write. kinds_tac.
Qed.
Lemma ensureCertificate_kinds t : ok [KCertificate] (ensureCertificate t) (λ _, True).
Proof. unfold ensureCertificate. kinds_tac. Qed.

Lemma createOrUpdate_wrote c k x tr y :
  exec (createOrUpdate c k x) tr (Done (Ok y)) → wrote k tr.
Proof.
  destruct c; cbn; intros (a & tr' & -> & -> & [= <-]).
  - by exists (K (KCreate k x)), (Ok y); split; [left|].
  - by exists (K (KUpdate k x)), (Ok y); split; [left|].
Qed.
Lemma wrote_ok_app k tr1 tr2 : wrote k tr1 ∨ wrote k tr2 → wrote k (tr1 ++ tr2).
Proof. unfold wrote. setoid_rewrite elem_of_app. naive_solver. Qed.
Lemma wrote_cons k e tr : wrote k tr → wrote k (e :: tr).
Proof. intros (o & a & Hin & Ho). exists o, a. split; [by right|done]. Qed.

Lemma ensureDNS_wrote r t tr t' : exec (ensureDNS r t) tr (Done (None, t')) → wrote KDNSEntry tr.
Proof.
  unfold ensureDNS, ensureDNS_write. intros HE. exec_cases HE; try done; subst;
    match goal with H : exec (createOrUpdate ?c ?k ?x) _ _ |- _ =>
      apply (createOrUpdate_wrote c k x) in H end;
    eauto 12 using wrote_ok_app, wrote_cons.
Qed.
Lemma ensureCertificate_wrote t tr t' :
  exec (ensureCertificate t) tr (Done (None, t')) → wrote KCertificate tr.
Proof.
  unfold ensureCertificate. intros HE. exec_cases HE; try done; subst;
    match goal with H : exec (createOrUpdate ?c ?k ?x) _ _ |- _ =>
      apply (createOrUpdate_wrote c k x) in H end;
    eauto 12 using wrote_ok_app, wrote_cons.
Qed.

(** The certificate step of [ensureTenantGateway]. *)
Lemma certificate_step t last tr out :
  exec (let! ' (certError, t) := ensureCertificate t in
        match certError with
        | Some _ => Ret (true, certError, t)
        | None => Ret (false, last, t)
        end) tr out →
  calls (kinds_in [KCertificate]) tr ∧
  match out with Done (false, _, _) => wrote KCertificate tr | _ => True end.
Proof.
  intros HE. exec_inv HE.
  - apply (wp_exec_any _ _ _ _ _ _ (ensureCertificate_kinds t)) in HE0 as [Hc _]. by subst.
  - pose proof (wp_exec_any _ _ _ _ _ _ (ensureCertificate_kinds t) HE0) as [Hc _].
    destruct a as [[err|] t']; destruct HE as [-> ->]; subst; rewrite app_nil_r;
      (split; [done|]); [done|by eapply ensureCertificate_wrote].
Qed.

(** In a trace whose first part only handles the kinds [ks], a call of
    another kind lies in the second part. *)
Lemma split_event ks tr1 tr2 pre e post k :
  calls (kinds_in ks) tr1 → (tr1 ++ tr2)%list = (pre ++ e :: post)%list →
  op_kind (projT1 e) = Some k → k ∉ ks → ∃ mid, pre = (tr1 ++ mid)%list ∧ tr2 = (mid ++ e :: post)%list.
Proof.
  revert pre. induction tr1 as [|e1 tr1 IH]; intros pre Hc Heq He Hk; [by exists pre|].
  destruct Hc as [Hc1 Hc]. destruct pre as [|e' pre]; injection Heq as -> Heq.
  - unfold kinds_in in Hc1. by rewrite He in Hc1.
  - destruct (IH pre Hc Heq He Hk) as (mid & -> & ->). by exists mid.
Qed.
End order.

(** TLS certificate and gateway wait for the DNS entry: in any run of the
    gateway steps, a call about a certificate comes after a DNS entry was
    written with success, and a call about the Istio gateway after both a DNS
    entry and a certificate were. *)
Theorem gateway_after_certificate_after_dns r last t tr out pre e post :
  exec (ensureTenantGateway r last t) tr out → tr = (pre ++ e :: post)%list →
  (op_kind (projT1 e) = Some KCertificate → wrote KDNSEntry pre) ∧
  (op_kind (projT1 e) = Some KGateway → wrote KDNSEntry pre ∧ wrote KCertificate pre).
Proof.
  unfold ensureTenantGateway, ensured. intros HE Htr.
  assert (∀ tr0 k, calls (kinds_in [KDNSEntry; KService]) tr0 → tr0 = tr → op_kind (projT1 e) = Some k →
    k ∉ [KDNSEntry; KService] → False) as Honly.
  { intros tr0 k Hc -> He Hk. destruct (split_event _ tr [] pre e post k Hc ltac:(by rewrite app_nil_r) He Hk)
      as (mid & _ & Hmid). by destruct mid. }
  assert ((KCertificate ∉ [KDNSEntry; KService]) ∧ (KGateway ∉ [KDNSEntry; KService]) ∧
          (KGateway ∉ [KCertificate])) as (Hk1 & Hk2 & Hk3) by set_solver.
  exec_inv HE.
  { apply (wp_exec_any _ _ _ _ _ _ (ensureDNS_kinds r t)) in HE0 as [Hc _].
    split; intros He; exfalso; by eapply Honly. }
  pose proof (wp_exec_any _ _ _ _ _ _ (ensureDNS_kinds r t) HE0) as [Hc1 _].
  destruct a as [[err|] t1].
  { cbn [exec prog_bind call setCondition is_some negb andb] in HE.
    destruct HE as (now1 & tr3 & -> & now2 & tr4 & -> & -> & _).
    assert (calls (kinds_in [KDNSEntry; KService]) tr) as Hc.
    { rewrite Ht. by apply answers_app; split; [|cbn]. }
    split; intros He; exfalso; by eapply Honly. }
  apply ensureDNS_wrote in HE0 as HD.
  rewrite Ht in Htr.
  split; intros He.
  - destruct (split_event _ _ _ _ _ _ _ Hc1 Htr He Hk1) as (mid & -> & _). apply wrote_ok_app. by left.
  - destruct (split_event _ _ _ _ _ _ _ Hc1 Htr He Hk2) as (mid & -> & Hmid).
    split; apply wrote_ok_app; [by left|right].
    exec_inv HE; apply certificate_step in HE1 as [Hc2 Hw].
    { destruct (split_event _ _ [] _ _ _ _ Hc2 ltac:(by rewrite app_nil_r) He Hk3)
        as (mid' & _ & Hm). by destruct mid'. }
    rewrite Ht0 in Hmid. destruct (split_event _ _ _ _ _ _ _ Hc2 Hmid He Hk3) as (mid' & -> & Hm).
    destruct a as [[[] last'] t2]; cbn [is_some negb andb] in HE;
      [|apply wrote_ok_app; by left].
    exfalso. cbn in HE. destruct HE as (now & tr5 & -> & -> & _).
    destruct mid' as [|? [|]]; cbn in Hm; [|done..].
    apply (f_equal head) in Hm. cbn in Hm. apply (inj Some) in Hm. by rewrite <-Hm in He.
Qed.

(** ** The tenant domain *)

Lemma ltb_len k n : (Z.of_nat k <? Z.of_nat n)%Z = negb (n <=? k)%nat.
Proof. destruct (Nat.leb_spec n k), (Z.ltb_spec (Z.of_nat k) (Z.of_nat n)); cbn; lia. Qed.

(** the domain chosen for a tenant has at most 62 characters (so that the
    wildcard certificate's common name fits in 64), unless it is kept from the
    status: the default one if it fits, else the one recorded before if it
    lies under the cluster's [".t.<domain>"], else exactly 62 characters made
    of random lowercase letters under that suffix; a suffix longer than 61
    characters is refused. *)
Theorem chooseTenantDomain_spec r t tr out :
  exec (chooseTenantDomain r t) tr out →
  let def := getDefaultTenantDomain r t in
  let sub := ".t." +:+ r_domain r in
  let old := ts_TenantDomain (t_Status t) in
  if (String.length def <=? 62)%nat then out = Done (Ok def)
  else if Contains old sub then out = Done (Ok old)
  else if (String.length sub <=? 61)%nat then
    ∃ s, out = Done (Ok (s +:+ sub)) ∧ all_lower s = true ∧
         String.length (s +:+ sub) = 62 ∧ s ≠ ""
  else ∃ e, out = Done (Err e).
Proof.
  intros HE def sub old. unfold chooseTenantDomain, generateTenantDomain in HE.
  fold def sub old in HE. rewrite (ltb_len 62), (ltb_len 61) in HE.
  destruct (String.length def <=? 62)%nat; cbn [negb exec] in HE; [by destruct HE|].
  destruct (Contains old sub); [by destruct HE|].
  destruct (Nat.leb_spec (String.length sub) 61) as [Hs|Hs]; cbn [negb exec prog_bind call] in HE.
  - destruct HE as ([s (fuel & src & HR)] & tr' & -> & -> & ->).
    pose proof HR as HR'. apply RandomString_loop_shape in HR' as [Hl Ha]; [|lia|done].
    exists s. split; [done|]. split; [done|]. rewrite app_length_s. cbn [String.length] in Hl.
    split; [lia|]. intros ->. cbn in Hl. lia.
  - destruct HE as [_ ->]. by eexists.
Qed.

(** ** The namespaces collected into the status *)

Lemma collect_loop t items acc tr r :
  exec (for_each (collectTenantNamespaces_body t) items acc) tr (Done (inr r)) →
  r = (acc ++ filter (λ n, isTenantNamespace t n = true) (map (om_Name ∘ ns_meta) items))%list ∧
  Forall2 (λ ns e, projT1 e = K (KUpdate KNamespace
    (if isTenantNamespace t (om_Name (ns_meta ns))
     then mkNamespace (setLabel (ns_meta ns) tenantLabel (t_Name t)) else ns))) items tr.
Proof.
  revert acc tr. induction items as [|ns items IH]; intros acc tr HE; cbn in HE.
  - destruct HE as [-> [= ->]]. cbn. by rewrite app_nil_r.
  - destruct HE as ([u|e] & tr' & -> & HE); [|by destruct HE]. cbn in HE.
    apply IH in HE as [-> HF]. split.
    + cbn. destruct (isTenantNamespace t (om_Name (ns_meta ns))) eqn:Hm.
      * rewrite decide_True by done. by rewrite <-(assoc_L (++)).
      * by rewrite decide_False by done.
    + constructor; [done|exact HF].
Qed.

(** collecting a tenant's namespaces records in its status exactly the
    names that carry the tenant's app prefix or are its two own namespaces, in
    list order, and updates every namespace of the cluster once: with the
    tenant's label if it was collected, unchanged otherwise. *)
Theorem collectTenantNamespaces_spec t tr t' :
  exec (collectTenantNamespaces t) tr (Done (None, t')) →
  ∃ items upd, tr = existT (K (KList KNamespace All)) (Ok items) :: upd ∧
    t' = t_setTenantNamespaces
           (filter (λ n, isTenantNamespace t n = true) (map (om_Name ∘ ns_meta) items)) t ∧
    Forall2 (λ ns e, projT1 e = K (KUpdate KNamespace
      (if isTenantNamespace t (om_Name (ns_meta ns))
       then mkNamespace (setLabel (ns_meta ns) tenantLabel (t_Name t)) else ns))) items upd.
Proof.
  unfold collectTenantNamespaces. intros HE. exec_inv HE. destruct a as [items|e]; [|by destruct HE].
  exec_inv HE; [done|]. destruct a as [e|l]; [by destruct HE|]. destruct HE as [-> [= ->]].
  apply collect_loop in HE0 as [-> HF]. exists items, tr1. split; [|by split].
  by rewrite Ht, Ht0, app_nil_r.
Qed.

(** the app prefix of a tenant is not its own: tenant [a] collects (and
    labels as its own) both namespaces of a tenant named [a-app-b]. *)
Theorem foreign_namespaces_collected t a b :
  a ≠ "default" → t_Name t = a →
  a +:+ "-app-" +:+ b ≠ a ∧
  isTenantNamespace t (TenantMainNamespace (a +:+ "-app-" +:+ b)) = true ∧
  isTenantNamespace t (RobotConfigNamespace (TenantMainNamespace (a +:+ "-app-" +:+ b))) = true.
Proof.
  intros Ha Ht.
  assert (a +:+ "-app-" +:+ b ≠ a) as Hne.
  { intros Heq%(f_equal String.length). rewrite !app_length_s in Heq. cbn in Heq. lia. }
  assert (a +:+ "-app-" +:+ b ≠ "default") as Hd.
  { intros Heq%(f_equal (λ s, Contains s "-")). unfold Contains in Heq.
    destruct (cut (a +:+ "-app-" +:+ b) "-") as [[x y]|] eqn:E; [done|].
    by apply (cut_None _ _ a ("app-" +:+ b)) in E. }
  assert (isTenantNamespace t (TenantMainNamespace (a +:+ "-app-" +:+ b)) = true ∧
    ∀ x, isTenantNamespace t (TenantMainNamespace (a +:+ "-app-" +:+ b) +:+ x) = true) as [H1 H2].
  { unfold isTenantNamespace, appNamespacePrefix. rewrite Ht, !TenantMainNamespace_other by done.
    rewrite bool_decide_eq_false_2 by done.
    assert (∀ x, HasPrefix (("t-" +:+ a +:+ "-app-" +:+ b) +:+ x) (("t-" +:+ a) +:+ "-app-") = true) as Hp.
    { intros x. rewrite !app_assoc_s, <-(app_assoc_s a), <-(app_assoc_s "t-").
      rewrite <-(app_assoc_s "t-" a "-app-"). apply HasPrefix_app. }
    split; [|intros x; by rewrite Hp]. specialize (Hp ""). rewrite app_empty_r in Hp. by rewrite Hp. }
  split; [done|]. split; [done|]. rewrite RobotConfigNamespace_other; [apply H2|].
  by rewrite TenantMainNamespace_is_default.
Qed.

(** ** Namespace labels *)

Definition unlabelled_create (o : top) : Prop :=
  match o with K (KCreate KNamespace ns) => om_Labels (ns_meta ns) = None | _ => True end.

Lemma SetControllerReference_labels a k o c : om_Labels (SetControllerReference a k o c) = om_Labels c.
Proof. unfold SetControllerReference. destruct c. cbn. repeat case_match; done. Qed.

Lemma ensureNamespace_body_labels tn ns t :
  t_Name t = tn →
  wp (Op:=top) any_answer unlabelled_create any_panic (ensureNamespace_body ns t) (λ r,
    match r with
    | inl r => is_some r.1 = true
    | inr t' => t_Name t' = tn ∧ sm_lookup (om_Labels (t_meta t')) tenantLabel = Some tn
    end).
Proof.
  intros Ht. unfold ensureNamespace_body, createOrUpdate.
  repeat (cbn [wp prog_bind call setCondition stop];
    first [progress wp_case | split; [exact I|intros ? _] | done
          | match goal with |- wp _ _ _ (prog_bind _ (if ?b then _ else _)) _ => destruct b eqn:? end]).
  - split; [|intros [u|err] _; [|by split]].
    + cbn. unfold ownTenant. rewrite SetControllerReference_labels.
      match goal with H : missing ?g = true |- _ => by destruct g end.
    + split; [by rewrite t_Name_setLabel|].
      destruct t as [[] ? ?]. cbn in Ht. subst. apply sm_lookup_set_eq.
  - cbn [wp]. split; [by rewrite t_Name_setLabel|].
    destruct t as [[] ? ?]. cbn in Ht. subst. apply sm_lookup_set_eq.
Qed.

(** the namespaces [ensureNamespace] creates carry no label: the tenant
    label goes to the tenant object itself, which leaves the step with it. *)
Theorem ensureNamespace_labels_the_tenant t tr t' :
  exec (ensureNamespace t) tr (Done (None, t')) → t_Name t ≠ DefaultTenantName →
  calls unlabelled_create tr ∧
  sm_lookup (om_Labels (t_meta t')) tenantLabel = Some (t_Name t).
Proof.
  intros HE Hd.
  eapply (wp_exec_any unlabelled_create any_panic _ (λ r, r.1 = None →
    sm_lookup (om_Labels (t_meta r.2)) tenantLabel = Some (t_Name t))) in HE as [Hc Hl].
  - split; [done|by apply Hl].
  - unfold ensureNamespace. rewrite bool_decide_eq_false_2 by done. cbn [for_each].
    apply wp_bind, wp_bind. eapply wp_mono; [|by apply (ensureNamespace_body_labels (t_Name t))].
    intros [[[e|] t1]|t1] Ht1; [done..|]. destruct Ht1 as [Ht1 _].
    apply wp_bind. eapply wp_mono; [|by apply (ensureNamespace_body_labels (t_Name t))].
    intros [[[e|] t2]|t2] Ht2; [done..|]. destruct Ht2 as [_ Ht2].
    cbn. split; [done|]. intros now _ _. by destruct t2 as [? ? []].
Qed.

(** ** The webhook *)
Import Webhook.

(** The tenants of the cluster, and what the webhook's client shows of them: it
    reads the manager's cache, which follows the cluster at some distance.
    [sees] says what the cache may miss when a change is admitted. *)
Definition wstate : Type := list Tenant * list Tenant.
Inductive admitted (gw : bool) (sees : list Tenant → list Tenant → Prop) : wstate → wstate → Prop :=
| admitted_create t ts cache :
    Handle gw OpCreate (Ok t) (Ok cache) = Allowed → sees ts cache →
    admitted gw sees (ts, cache) ((ts ++ [t])%list, cache)
| admitted_update i t ts cache :
    Handle gw OpUpdate (Ok t) (Ok cache) = Allowed → sees ts cache →
    admitted gw sees (ts, cache) (<[i:=t]> ts, cache)
| admitted_delete i ts cache : admitted gw sees (ts, cache) (delete i ts, cache)
| cache_changed ts cache cache' : admitted gw sees (ts, cache) (ts, cache').

(** Every tenant there is is in the cache; it may show deleted ones. *)
Definition misses_none (ts cache : list Tenant) : Prop := ∀ n, n ∈ t_Name <$> ts → n ∈ t_Name <$> cache.

(** The default tenant is alone. *)
Definition default_alone (ts : list Tenant) : Prop :=
  DefaultTenantName ∈ t_Name <$> ts → ∀ n, n ∈ t_Name <$> ts → n = DefaultTenantName.
(** Without tenant specific gateways no tenant has a domain of its own. *)
Definition domains_ok (gw : bool) (ts : list Tenant) : Prop :=
  gw = false → ∀ t, t ∈ ts → t_SpecTenantDomain t = "".

Lemma Handle_allowed gw op t ts :
  op ≠ OpDelete → Handle gw op (Ok t) (Ok ts) = Allowed →
  (t_Name t = DefaultTenantName → ∀ n, n ∈ (t_Name <$> ts) → n = DefaultTenantName) ∧
  (t_Name t ≠ DefaultTenantName → DefaultTenantName ∉ (t_Name <$> ts)) ∧
  (gw = false → t_SpecTenantDomain t = "").
Proof.
  intros Hop. unfold Handle. rewrite (bool_decide_eq_false_2 (op = OpDelete)) by done.
  destruct (decide (t_Name t = DefaultTenantName)) as [Hn|Hn];
    [rewrite bool_decide_eq_true_2 by done|rewrite bool_decide_eq_false_2 by done]; cbn.
  - destruct (existsb _ ts) eqn:Hex; cbn; [done|]. intros Hgw. split_and!; [|done|].
    + intros _ n [t' [-> Hin]]%list_elem_of_fmap. apply not_true_iff_false in Hex.
      destruct (decide (t_Name t' = DefaultTenantName)) as [|Hne]; [done|]. destruct Hex.
      apply existsb_exists. exists t'. rewrite <-list_elem_of_In. split; [done|].
      by rewrite bool_decide_eq_false_2.
    + intros ->. cbn in Hgw. by case_bool_decide.
  - destruct (existsb _ ts) eqn:Hex; cbn; [done|]. intros Hgw. split_and!; [done| |].
    + intros _ [t' [Heq Hin]]%list_elem_of_fmap. apply not_true_iff_false in Hex. destruct Hex.
      apply existsb_exists. exists t'. rewrite <-list_elem_of_In. split; [done|].
      by rewrite bool_decide_eq_true_2.
    + intros ->. cbn in Hgw. by case_bool_decide.
Qed.

Lemma default_alone_add ts ts' t cache gw op :
  op ≠ OpDelete → Handle gw op (Ok t) (Ok cache) = Allowed → misses_none ts cache →
  (∀ x, x ∈ ts' → x = t ∨ x ∈ ts) → default_alone ts → default_alone ts'.
Proof.
  intros Hop HH Hsees Hsub Hd Hdef n Hn. destruct (Handle_allowed _ _ _ _ Hop HH) as (Hall & Hnone & _).
  assert (∀ m, m ∈ t_Name <$> ts' → m = t_Name t ∨ m ∈ t_Name <$> ts) as Hsub'.
  { intros m (x & -> & [->|Hx]%Hsub)%list_elem_of_fmap; [by left|right; apply list_elem_of_fmap; by exists x]. }
  destruct (decide (t_Name t = DefaultTenantName)) as [Ht|Ht].
  - apply Hsub' in Hn as [->|Hn]; [done|]. by apply Hall, Hsees.
  - apply Hsub' in Hdef as [?|Hdef]; [congruence|]. by destruct (Hnone Ht (Hsees _ Hdef)).
Qed.
Lemma insert_sub {X} (i : nat) (t x : X) (l : list X) : x ∈ <[i:=t]> l → x = t ∨ x ∈ l.
Proof.
  intros [j Hj]%list_elem_of_lookup_1. apply list_lookup_insert_Some in Hj as [(_ & -> & _)|[_ Hj]]; [by left|right].
  by eapply list_elem_of_lookup_2.
Qed.
Lemma delete_sub {X} (i : nat) (x : X) (l : list X) : x ∈ delete i l → x ∈ l.
Proof. intros Hx. eapply elem_of_submseteq; [exact Hx|]. apply sublist_submseteq, sublist_delete. Qed.

Lemma admitted_default_alone gw w w' :
  admitted gw misses_none w w' → default_alone w.1 → default_alone w'.1.
Proof.
  intros Hadm Hd. destruct Hadm as [t ts cache HH Hs|i t ts cache HH Hs|i ts cache|ts cache cache']; cbn [fst] in *; [| | |done].
  - eapply default_alone_add; [|exact HH|exact Hs| |exact Hd]; [done|]. set_solver.
  - eapply default_alone_add; [|exact HH|exact Hs| |exact Hd]; [done|]. intros x. apply insert_sub.
  - intros Hdef n (x & -> & Hx%delete_sub)%list_elem_of_fmap. apply Hd; [|apply list_elem_of_fmap; by exists x].
    apply list_elem_of_fmap in Hdef as (y & -> & Hy%delete_sub). apply list_elem_of_fmap. by exists y.
Qed.
Lemma admitted_domains gw sees w w' : admitted gw sees w w' → domains_ok gw w.1 → domains_ok gw w'.1.
Proof.
  intros Hadm Hd Hgw x Hx. destruct Hadm as [t ts cache HH _|i t ts cache HH _|i ts cache|ts cache cache']; cbn [fst] in *; [| | |by apply Hd].
  - apply elem_of_app in Hx as [Hx|Hx%list_elem_of_singleton]; [by apply Hd|subst x].
    by eapply Handle_allowed in HH as (_ & _ & H); [apply H|].
  - apply insert_sub in Hx as [->|Hx]; [|by apply Hd]. by eapply Handle_allowed in HH as (_ & _ & H); [apply H|].
  - apply delete_sub in Hx. by apply Hd.
Qed.

(** C9: take any sequence of creations, updates and deletions that the webhook
    admits, starting without tenants, the webhook reading a cache that changes
    at any time.  Without tenant specific gateways no tenant ever has a domain
    in its spec, whatever the cache showed; and if no admission missed a tenant
    that existed (the cache may show deleted ones), the default tenant never
    coexists with a tenant of another name. *)
Theorem webhook_keeps_tenants_ok gw sees ts cache cache0 :
  rtc (admitted gw sees) ([], cache0) (ts, cache) →
  domains_ok gw ts ∧ ((∀ ts cache, sees ts cache → misses_none ts cache) → default_alone ts).
Proof.
  intros Hrtc. split.
  - assert (domains_ok gw ([], cache0 : list Tenant).1) as H0 by (intros _ t Ht; by apply not_elem_of_nil in Ht).
    change ts with (ts, cache).1. induction Hrtc as [|w w' w'' Hs _ IH]; [done|]. by eapply IH, admitted_domains.
  - intros Hsees. assert (default_alone ([], cache0 : list Tenant).1) as H0 by (intros Ht; by apply not_elem_of_nil in Ht).
    change ts with (ts, cache).1. induction Hrtc as [|w w' w'' Hs _ IH]; [done|]. apply IH.
    eapply admitted_default_alone, H0. destruct Hs; econstructor; eauto.
Qed.

Definition demoNamed (n : string) : Tenant := mkTenant (namedMeta "" n) "" (mkTenantStatus 0 0 "" "" [] []).
Lemma webhook_keeps_tenants_ok_witness :
  let t := demoNamed "acme" in let d := demoNamed "default" in
  Handle false OpCreate (Ok d) (Ok [t]) ≠ Allowed ∧ default_alone [d] ∧ domains_ok false [d].
Proof.
  intros t d. split; [by vm_compute|].
  destruct (webhook_keeps_tenants_ok false misses_none [d] [] []) as [Hdom Hd]; [|split; [by apply Hd|exact Hdom]].
  eapply rtc_l; [apply (admitted_create false misses_none t [] []); [by vm_compute|set_solver]|].
  eapply rtc_l; [apply (cache_changed false misses_none [t] [] [t])|].
  eapply rtc_l; [apply (admitted_delete false misses_none 0)|].
  eapply rtc_l; [apply (cache_changed false misses_none [] [t] [])|].
  eapply rtc_l; [apply (admitted_create false misses_none d [] []); [by vm_compute|set_solver]|]. apply rtc_refl.
Defined.

(** A cache that misses the last creation lets the default tenant in next to
    another one. *)
Example stale_cache_admits_both :
  let t := demoNamed "acme" in let d := demoNamed "default" in
  rtc (admitted false (λ _ _, True)) ([], []) ([t; d], []) ∧ ¬ default_alone [t; d].
Proof.
  intros t d. split.
  - eapply rtc_l; [by apply (admitted_create _ _ t [] []); [vm_compute|]|].
    eapply rtc_l; [by apply (admitted_create _ _ d [t] []); [vm_compute|]|]. apply rtc_refl.
  - intros Hd. assert ("acme" = DefaultTenantName) as H; [|by vm_compute in H]. apply Hd; vm_compute; set_solver.
Qed.

(** ** Events *)

Lemma SplitN2_tenant x : SplitN2 ("t-" +:+ x) "-" = ["t"; x].
Proof. by destruct x. Qed.

(** The tenants the API server lists. *)
Definition lists_tenants (items : list Tenant) (o : top) : resp o → Prop :=
  match o return resp o → Prop with
  | K (KList KTenant _) => λ a, a = Ok items
  | _ => λ _, True
  end.

(** no event of a tenant is lost. With the tenants [items] in the
    cluster, a change of either namespace of a listed tenant [n] other than the
    default one enqueues [n], and so does a robot in its main namespace (for
    the default tenant too); only names of listed tenants are enqueued. *)
Theorem events_reach_their_tenant n items ns tr l :
  n ∈ (t_Name <$> items) → n ≠ DefaultTenantName →
  ns = TenantMainNamespace n ∨ ns = RobotConfigNamespace (TenantMainNamespace n) →
  exec (enqueueFromNamespaceName ns) tr (Done l) → answers (lists_tenants items) tr →
  (n ∈ l) ∧ (∀ m, m ∈ l → m ∈ (t_Name <$> items)) ∧
  enqueueFromObjectNamespace (TenantMainNamespace n) = [n] ∧
  enqueueFromObjectNamespace (TenantMainNamespace DefaultTenantName) = [DefaultTenantName].
Proof.
  intros Hn Hd Hns HE HA.
  assert (∃ x, ns = "t-" +:+ n +:+ x) as [x ->].
  { assert (TenantMainNamespace n = "t-" +:+ n) as HT by by apply TenantMainNamespace_other.
    destruct Hns as [-> | ->].
    - exists "". by rewrite app_empty_r.
    - exists "-robot-config". rewrite RobotConfigNamespace_other, HT, app_assoc_s; [done|].
      by rewrite TenantMainNamespace_is_default. }
  assert (enqueueFromObjectNamespace (TenantMainNamespace n) = [n]) as HO.
  { unfold enqueueFromObjectNamespace. rewrite TenantMainNamespace_other by done. by rewrite TrimPrefix_app. }
  assert (wp (lists_tenants items) any_call any_panic (enqueueFromNamespaceName ("t-" +:+ n +:+ x))
    (λ l, n ∈ l ∧ ∀ m, m ∈ l → m ∈ (t_Name <$> items))) as Hwp.
  { unfold enqueueFromNamespaceName, TenantPrefix. rewrite HasPrefix_app.
    rewrite SplitN2_tenant.
    cbn [wp prog_bind call]. split; [done|]. intros a ->. cbn [wp].
    split; [|intros m; rewrite list_elem_of_filter; tauto].
    apply list_elem_of_filter. split; [apply HasPrefix_app|done]. }
  destruct (wp_exec _ _ _ _ _ _ _ Hwp HE HA) as [_ [H1 H2]]. by split_and!.
Qed.

Lemma events_reach_their_tenant_witness :
  let items := [mkTenant (namedMeta "" "acme") "" (mkTenantStatus 0 0 "" "" [] [])] in
  "acme" ∈ ["acme"] ∧ enqueueFromObjectNamespace "t-acme" = ["acme"].
Proof.
  intros items.
  destruct (events_reach_their_tenant "acme" items "t-acme-robot-config"
    [existT (K (KList KTenant All)) (Ok items)] ["acme"]) as (H1 & _ & H2 & _).
  - by left.
  - done.
  - by right.
  - by exists (Ok items), [].
  - by split.
  - by split.
Defined.

(** ** A small API server, for the witnesses *)

Definition demoTenant (deleted : bool) : Tenant :=
  mkTenant (mkObjectMeta "acme" "" "uid" "1" 1 0 (if deleted then Some 5%Z else None) None None []
    [finalizer]) "" (mkTenantStatus 0 0 "" "" [] []).
Definition demoReconciler (gw : bool) : Reconciler := mkReconciler "example.org" "istio/default" gw.
Definition notFound : error := EStatus 404 "NotFound" "not found".

Definition ready (k : tkind) : obj k → obj k :=
  match k return obj k → obj k with
  | KDNSEntry => λ d, mkDNSEntry (d_meta d) (d_DNSName d) (d_TTL d) (d_Targets d) "Ready"
  | KCertificate => λ c, mkCertificate (c_meta c) (c_CommonName c) (c_SecretName c) "Ready"
  | _ => λ x, x
  end.
Definition demoAPI (t : Tenant) (o : top) (s : unit) : option (resp o * unit) :=
  match o return option (resp o * unit) with
  | K KNow => Some (7%Z, s)
  | K (KGet k ns name) =>
      Some (match k return result (obj k) with
            | KTenant => Ok t
            | KSecret => if bool_decide (ns = "default")
                         then Ok (mkSecret (namedMeta ns name) None "docker") else Err notFound
            | KServiceAccount => if bool_decide (name = "default")
                                 then Ok (mkServiceAccount (namedMeta ns name) []) else Err notFound
            | KConfigMap => if bool_decide (ns = RobotConfigCloudNamespace)
                            then Ok (mkConfigMap (namedMeta ns name) (Some (∅ : gmap string string))) else Err notFound
            | KService => Ok (mkService (namedMeta ns name) [("", ""); ("192.0.2.1", "")])
            | _ => Err notFound
            end, s)
  | K (KList k sel) =>
      Some (match k return result (list (obj k)) with
            | KNamespace => Ok [mkNamespace (namedMeta "" "t-acme-app-x"); mkNamespace (namedMeta "" "kube-system")]
            | _ => Ok []
            end, s)
  | K (KCreate k x) | K (KUpdate k x) | K (KStatusUpdate k x) => Some (Ok (ready k x), s)
  | K (KDelete _ _) | K (KDeleteAllOf _ _) => Some (None, s)
  | RandomStr _ => None
  | RangeBindings l => Some (exist (λ l', l' ≡ₚ l) l (Permutation_refl l), s)
  end.
Definition demoTrace {A} (t : Tenant) (p : prog top A) : list (event top) :=
  trace_of (run (demoAPI t) p tt).
Lemma demo_exec {A} (t : Tenant) (p : prog top A) out :
  outcome_of (run (demoAPI t) p tt) = Some out → exec p (demoTrace t p) out.
Proof. apply run_exec. Qed.

Lemma Reconcile_success_conditions_witness :
  let tr := demoTrace (demoTenant false) (Reconcile (demoReconciler true) "acme") in
  ∃ tr0 t u, tr = (tr0 ++ [existT (K (KStatusUpdate KTenant t)) (Ok u)])%list ∧
    ∀ tc, tc ∈ required (demoReconciler true) → cond_is tc ConditionTrue t.
Proof.
  intros tr. eapply Reconcile_success_conditions, demo_exec. vm_compute. reflexivity.
Defined.


Lemma finalizer_removed_only_when_empty_witness :
  let t := demoTenant true in
  let u := t_setMeta (om_setFinalizers [] (t_meta t)) t in
  ∃ t', is_some (om_DeletionTimestamp (t_meta t')) = true ∧
    demoTrace t (Reconcile (demoReconciler true) "acme") =
      [existT (K (KGet KTenant "" "acme")) (Ok t');
       existT (K (KList KAppRollout (InNamespace (TenantMainNamespace (t_Name t'))))) (Ok []);
       existT (K (KList KChartAssignment (InNamespace (TenantMainNamespace (t_Name t'))))) (Ok []);
       existT (K (KUpdate KTenant u)) (Ok u)].
Proof.
  intros t u. eapply (finalizer_removed_only_when_empty (demoReconciler true) "acme").
  - apply demo_exec. vm_compute. reflexivity.
  - vm_compute. do 3 right. left.
  - vm_compute. by intros ?%not_elem_of_nil.
Defined.

Lemma gateway_after_certificate_after_dns_witness :
  let t := demoTenant false in
  let tr := demoTrace t (ensureTenantGateway (demoReconciler true) None t) in
  ((λ e, op_kind (projT1 e)) <$> tr !! 7) = Some (Some KGateway) ∧
  wrote KDNSEntry (take 7 tr) ∧ wrote KCertificate (take 7 tr).
Proof.
  intros t tr.
  assert (∃ out, outcome_of (run (demoAPI t) (ensureTenantGateway (demoReconciler true) None t) tt)
    = Some out) as [out Hout] by (eexists; vm_compute; reflexivity).
  apply demo_exec in Hout.
  assert (((λ e, op_kind (projT1 e)) <$> tr !! 7) = Some (Some KGateway)) as Hk by by vm_compute.
  split; [done|]. destruct (tr !! 7) as [e|] eqn:He; [|done].
  eapply (gateway_after_certificate_after_dns (demoReconciler true) None t tr out _ e (drop 8 tr)).
  - exact Hout.
  - symmetry. by apply take_drop_middle.
  - by injection Hk.
Defined.

Lemma chooseTenantDomain_spec_witness :
  let t := t_setTenantDomain "x.t.example.org" (mkTenant
    (namedMeta "" "a-tenant-whose-name-is-so-long-that-its-domain-does-not-fit-any-more") ""
    (mkTenantStatus 0 0 "" "" [] [])) in
  outcome_of (run (demoAPI t) (chooseTenantDomain (demoReconciler true) t) tt)
  = Some (Done (Ok "x.t.example.org")).
Proof.
  intros t. assert (∃ out, outcome_of (run (demoAPI t) (chooseTenantDomain (demoReconciler true) t) tt)
    = Some out) as [out Hout] by (eexists; by vm_compute).
  rewrite Hout. f_equal. apply demo_exec in Hout.
  exact (chooseTenantDomain_spec (demoReconciler true) t _ _ Hout).
Defined.

Lemma collectTenantNamespaces_spec_witness :
  let t := demoTenant false in
  ∃ items upd, demoTrace t (collectTenantNamespaces t) = existT (K (KList KNamespace All)) (Ok items) :: upd ∧
    length upd = length items.
Proof.
  intros t. edestruct (collectTenantNamespaces_spec t) as (items & upd & Htr & _ & HF).
  - apply (demo_exec t). vm_compute. reflexivity.
  - exists items, upd. split; [exact Htr|]. symmetry. by eapply Forall2_length.
Defined.

Lemma foreign_namespaces_collected_witness :
  isTenantNamespace (demoTenant false) (TenantMainNamespace "acme-app-robots") = true.
Proof. apply (foreign_namespaces_collected (demoTenant false) "acme" "robots"); done. Defined.

Lemma ensureNamespace_labels_the_tenant_witness :
  calls unlabelled_create (demoTrace (demoTenant false) (ensureNamespace (demoTenant false))).
Proof.
  eapply ensureNamespace_labels_the_tenant.
  - apply demo_exec. vm_compute. reflexivity.
  - done.
Defined.
