(* ===== verification/Apps.v ===== *)
(** * src/go/pkg/apis/apps/v1alpha1: apps, rollouts and chart assignments

    The custom resources the AppRollout controller turns into each other and
    the ChartAssignment controller installs. *)
From stdpp Require Import prelude strings gmap list.
From Stdlib Require Import ZArith.
From S2P Require Import Prelude GoStr GoErr Kube.

Open Scope string_scope.

(** A [map[string]interface{}] as decoded from JSON. *)
Abbreviation ConfigValues := (list (string * json)).

Record AppComponent := mkAppComponent { cmp_Name : string; cmp_Inline : string }.
Record AppComponents := mkAppComponents { cmps_Cloud : AppComponent; cmps_Robot : AppComponent }.
Record AppSpec := mkAppSpec {
  as_Repository : string; as_Version : string; as_Components : AppComponents }.
Record App := mkApp { app_meta : ObjectMeta; app_Spec : AppSpec }.

(** [Any *bool] and the embedded [*metav1.LabelSelector]. *)
Record RobotSelector := mkRobotSelector {
  rsel_LabelSelector : option LabelSelector; rsel_Any : option bool }.
Record AppRolloutSpecRobot := mkAppRolloutSpecRobot {
  rr_Selector : option RobotSelector; rr_Values : ConfigValues; rr_Version : string }.
Record AppRolloutSpec := mkAppRolloutSpec {
  ars_AppName : string; ars_CloudValues : ConfigValues; ars_Robots : list AppRolloutSpecRobot }.
Record AppRolloutStatus := mkAppRolloutStatus {
  art_ObservedGeneration : Z; art_Conditions : list Condition; art_Assignments : Z;
  art_SettledAssignments : Z; art_ReadyAssignments : Z; art_FailedAssignments : Z }.
Record AppRollout := mkAppRollout {
  ar_APIVersion : string; ar_Kind : string; ar_meta : ObjectMeta;
  ar_Spec : AppRolloutSpec; ar_Status : AppRolloutStatus }.
Definition ar_Name (ar : AppRollout) : string := om_Name (ar_meta ar).
Definition ar_Namespace (ar : AppRollout) : string := om_Namespace (ar_meta ar).
Definition ar_setStatus (s : AppRolloutStatus) (ar : AppRollout) : AppRollout :=
  let '(mkAppRollout a b c d _) := ar in mkAppRollout a b c d s.

Definition AppRolloutConditionSettled := "Settled".
Definition AppRolloutConditionReady := "Ready".

Record AssignedChart := mkAssignedChart {
  ch_Repository : string; ch_Name : string; ch_Version : string; ch_Inline : string;
  ch_Values : ConfigValues }.
Record ChartAssignmentSpec := mkChartAssignmentSpec {
  cas_ClusterName : string; cas_NamespaceName : string; cas_Chart : AssignedChart }.
Record ChartAssignmentStatus := mkChartAssignmentStatus {
  cat_ObservedGeneration : Z; cat_Phase : string; cat_Conditions : list Condition }.
Record ChartAssignment := mkChartAssignment {
  ca_APIVersion : string; ca_Kind : string; ca_meta : ObjectMeta;
  ca_Spec : ChartAssignmentSpec; ca_Status : ChartAssignmentStatus }.
Definition ca_Name (ca : ChartAssignment) : string := om_Name (ca_meta ca).
Definition ca_Namespace (ca : ChartAssignment) : string := om_Namespace (ca_meta ca).
Definition ca_setMeta (m : ObjectMeta) (ca : ChartAssignment) : ChartAssignment :=
  let '(mkChartAssignment a b _ d e) := ca in mkChartAssignment a b m d e.
Definition ca_setSpec (s : ChartAssignmentSpec) (ca : ChartAssignment) : ChartAssignment :=
  let '(mkChartAssignment a b c _ e) := ca in mkChartAssignment a b c s e.
Definition ca_setStatus (s : ChartAssignmentStatus) (ca : ChartAssignment) : ChartAssignment :=
  let '(mkChartAssignment a b c d _) := ca in mkChartAssignment a b c d s.
Definition ca_setPhase (p : string) (ca : ChartAssignment) : ChartAssignment :=
  let '(mkChartAssignmentStatus a _ c) := ca_Status ca in ca_setStatus (mkChartAssignmentStatus a p c) ca.
Definition ca_setConditions (l : list Condition) (ca : ChartAssignment) : ChartAssignment :=
  let '(mkChartAssignmentStatus a b _) := ca_Status ca in ca_setStatus (mkChartAssignmentStatus a b l) ca.
Definition ca_setObservedGeneration (g : Z) (ca : ChartAssignment) : ChartAssignment :=
  let '(mkChartAssignmentStatus _ b c) := ca_Status ca in ca_setStatus (mkChartAssignmentStatus g b c) ca.
Definition ch_setVersion (v : string) (c : AssignedChart) : AssignedChart :=
  let '(mkAssignedChart a b _ d e) := c in mkAssignedChart a b v d e.
Definition ch_setInline (v : string) (c : AssignedChart) : AssignedChart :=
  let '(mkAssignedChart a b c' _ e) := c in mkAssignedChart a b c' v e.
Definition ch_setValues (v : ConfigValues) (c : AssignedChart) : AssignedChart :=
  let '(mkAssignedChart a b c' d _) := c in mkAssignedChart a b c' d v.
Definition cas_setClusterName (v : string) (s : ChartAssignmentSpec) : ChartAssignmentSpec :=
  let '(mkChartAssignmentSpec _ b c) := s in mkChartAssignmentSpec v b c.
Definition cas_setChart (v : AssignedChart) (s : ChartAssignmentSpec) : ChartAssignmentSpec :=
  let '(mkChartAssignmentSpec a b _) := s in mkChartAssignmentSpec a b v.

Definition ChartAssignmentPhaseAccepted := "Accepted".
Definition ChartAssignmentPhaseLoadingChart := "LoadingChart".
Definition ChartAssignmentPhaseInstalling := "Installing".
Definition ChartAssignmentPhaseUpdating := "Updating".
Definition ChartAssignmentPhaseDeleting := "Deleting".
Definition ChartAssignmentPhaseSettled := "Settled".
Definition ChartAssignmentPhaseDeleted := "Deleted".
Definition ChartAssignmentPhaseFailed := "Failed".
Definition ChartAssignmentPhaseReady := "Ready".
Definition ChartAssignmentConditionSettled := "Settled".
Definition ChartAssignmentConditionReady := "Ready".

(** The zero values Go starts from. *)
Definition emptyApp : App :=
  mkApp emptyMeta (mkAppSpec "" "" (mkAppComponents (mkAppComponent "" "") (mkAppComponent "" ""))).
Definition emptyAssignedChart : AssignedChart := mkAssignedChart "" "" "" "" [].
Definition emptyChartAssignment : ChartAssignment :=
  mkChartAssignment "" "" emptyMeta (mkChartAssignmentSpec "" "" emptyAssignedChart)
    (mkChartAssignmentStatus 0 "" []).

(** [reflect.DeepEqual] of JSON values in their canonical form. *)
#[export] Instance json_eq_dec : EqDecision json.
Proof.
  refine (fix go (x y : json) {struct x} : Decision (x = y) :=
    match x, y with
    | JNull, JNull => left eq_refl
    | JBool a, JBool b => cast_if (decide (a = b))
    | JNum a, JNum b => cast_if (decide (a = b))
    | JString a, JString b => cast_if (decide (a = b))
    | JList a, JList b =>
        cast_if ((fix gol (a b : list json) {struct a} : Decision (a = b) :=
          match a, b with
          | [], [] => left eq_refl
          | x :: a, y :: b => cast_if_and (go x y) (gol a b)
          | _, _ => right _
          end) a b)
    | JObj a, JObj b =>
        cast_if ((fix gol (a b : list (string * json)) {struct a} : Decision (a = b) :=
          match a, b with
          | [], [] => left eq_refl
          | (k, x) :: a, (k', y) :: b => cast_if_and3 (decide (k = k')) (go x y) (gol a b)
          | _, _ => right _
          end) a b)
    | _, _ => right _
    end); clear go; abstract intuition congruence.
Defined.
#[export] Instance AssignedChart_eq_dec : EqDecision AssignedChart.
Proof. solve_decision. Defined.
#[export] Instance ChartAssignmentSpec_eq_dec : EqDecision ChartAssignmentSpec.
Proof. solve_decision. Defined.
