(* ===== verification/Synk.v ===== *)
(** * src/go/pkg/synk: applying a set of resources and keeping track of it

    [Module Model] translates synk.go: names and versions of ResourceSets,
    ownership, the application of one resource and of a whole set, and the
    bookkeeping in the ResourceSet.  The properties follow. *)
From stdpp Require Import prelude strings gmap list sorting pretty.
From Stdlib Require Import Ascii ZArith Sorting.Sorted.
From S2P Require Import Prelude GoErr GoStr Kube.

Open Scope string_scope.
Open Scope prog_scope.

Module Model.

(** ** Data *)

(** A resource.  [u_nil] tells a nil [Object] map; [u_body] are the fields
    other than apiVersion, kind and metadata. *)
Record Unstructured := mkU {
  u_nil : bool; u_APIVersion : string; u_Kind : string; u_meta : ObjectMeta;
  u_body : list (string * json) }.
Definition u_Name (u : Unstructured) : string := om_Name (u_meta u).
Definition u_Namespace (u : Unstructured) : string := om_Namespace (u_meta u).
Definition u_setMeta (m : ObjectMeta) (u : Unstructured) : Unstructured :=
  mkU (u_nil u) (u_APIVersion u) (u_Kind u) m (u_body u).

Record GVK := mkGVK { gvk_Group : string; gvk_Version : string; gvk_Kind : string }.
#[export] Instance GVK_eq_dec : EqDecision GVK.
Proof. solve_decision. Defined.

Record ResourceRef := mkRef { ref_Namespace : string; ref_Name : string }.
Record ResourceSetSpecGroup := mkSpecGroup {
  sg_Group : string; sg_Version : string; sg_Kind : string; sg_Items : list ResourceRef }.
Inductive ResourceAction := ActionNone | ActionCreate | ActionUpdate | ActionReplace.
Record ResourceStatus := mkResourceStatus {
  st_Namespace : string; st_Name : string; st_Action : ResourceAction;
  st_UID : string; st_Generation : Z; st_Error : string }.
Record ResourceSetStatusGroup := mkStatusGroup {
  tg_Group : string; tg_Version : string; tg_Kind : string; tg_Items : list ResourceStatus }.
Inductive ResourceSetPhase := PhaseNone | PhasePending | PhaseFailed | PhaseSettled.
Record ResourceSetStatus := mkResourceSetStatus {
  rss_Phase : ResourceSetPhase; rss_StartedAt : time; rss_FinishedAt : time;
  rss_Applied : list ResourceSetStatusGroup; rss_Failed : list ResourceSetStatusGroup }.
Record ResourceSet := mkResourceSet {
  rs_meta : ObjectMeta; rs_Resources : list ResourceSetSpecGroup; rs_Status : ResourceSetStatus }.
Definition rs_Name (rs : ResourceSet) : string := om_Name (rs_meta rs).

Record ApplyOptions := mkApplyOptions {
  o_name : string; o_version : Z; o_Namespace : string; o_EnforceNamespace : bool; o_Log : bool }.

(** What a CustomResourceDefinition decodes to: the parts that are read. *)
Record CRD := mkCRD {
  crd_Group : string; crd_Kind : string; crd_Plural : string; crd_ClusterScoped : bool;
  crd_Versions : list (string * bool) (* name, served *) }.
Record APIResource := mkAPIResource { ar_Name : string; ar_Kind : string; ar_Namespaced : bool }.
Record RESTMapping := mkRESTMapping { m_Resource : string * string * string; m_Root : bool; m_GVK : GVK }.
Inductive PatchType := StrategicMergePatchType | MergePatchType.
(** [scheme.Scheme.New]: an object, "not registered", or another error. *)
Inductive Instantiated := Registered | NotRegistered | NewError (e : error).

(** The libraries the package computes with: JSON encoding and decoding, the
    type registry, and the three-way merges. *)
Record Libs := mkLibs {
  MarshalJSON : Unstructured → result string;
  convertCRD : Unstructured → result CRD;
  SchemeNew : GVK → Instantiated;
  NewPatchMeta : GVK → option error;
  StrategicPatch : GVK → string → string → string → result string;
  JSONMergePatch : string → string → string → result string }.

(** One entry of [applyResults]: [res] is the position of the resource in the
    slice, since the entry holds the pointer. *)
Record applyResult := mkApplyResult { resource : nat; action : ResourceAction; err : option error }.
Abbreviation applyResults := (gmap string applyResult).

(** The calls: discovery, the REST mapper, the dynamic client on a resource
    type and namespace ("" for cluster scope), the ResourceSet client, the
    caller's log function and the iteration order over a result map. *)
Definition target : Type := (string * string * string) * string.
Inductive sop : Type :=
| Now
| ServerResources
| ServerResourcesForGroupVersion (gv : string)
| Invalidate
| ResetMapper
| RESTMap (gvk : GVK)
| Get (t : target) (name : string)
| Create (t : target) (u : Unstructured)
| Update (t : target) (u : Unstructured)
| Patch (t : target) (name : string) (pt : PatchType) (patch : string)
| Delete (t : target) (name : string)
| ListResourceSets
| CreateResourceSet (rs : ResourceSet)
| UpdateResourceSet (rs : ResourceSet)
| DeleteResourceSet (name : string)
| DeleteResourceSets (labelSelector : string)
| Log (u : Unstructured) (a : ResourceAction) (ok : bool) (msg : string)
| RangeResults (r : applyResults).
#[export] Instance sop_effect : Effect sop := λ o,
  match o with
  | Now => time
  | ServerResources => result (list (string * list APIResource))
  | ServerResourcesForGroupVersion _ => result (list APIResource)
  | Invalidate | ResetMapper | Log _ _ _ _ => unit
  | RESTMap _ => result RESTMapping
  | Get _ _ | Create _ _ | Update _ _ | Patch _ _ _ _ => result Unstructured
  | Delete _ _ | DeleteResourceSet _ | DeleteResourceSets _ => option error
  | ListResourceSets => result (list Unstructured)
  | CreateResourceSet _ | UpdateResourceSet _ => result ResourceSet
  | RangeResults r => {l : list (string * applyResult) | l ≡ₚ map_to_list r}
  end.

(** ** Keys and names *)

(** [schema.ParseGroupVersion] and [GroupVersionKind]. *)
Definition GroupVersionKind (u : Unstructured) : GVK :=
  if bool_decide (u_APIVersion u = "") || bool_decide (u_APIVersion u = "/")
  then mkGVK "" "" (u_Kind u)
  else match Split (u_APIVersion u) "/" with
       | [v] => mkGVK "" v (u_Kind u)
       | [g; v] => mkGVK g v (u_Kind u)
       | _ => mkGVK "" "" ""
       end.
Definition gvkKey (group version kind : string) : string :=
  group ++ "/" ++ version ++ "/" ++ kind.
Definition resourceKey (u : Unstructured) : string :=
  let gvk := GroupVersionKind u in
  gvkKey (gvk_Group gvk) (gvk_Version gvk) (gvk_Kind gvk) ++ "/" ++ u_Namespace u ++ "/" ++ u_Name u.

(** [fmt.Sprintf("%s.v%d", s, v)] *)
Definition resourceSetName (s : string) (v : Z) : string := s ++ ".v" ++ fmt_d v.

(** [^(.+)\.v([0-9]+)$]: the text before and after a [".v"] that is followed by
    digits only; the dot matches no newline. *)
Fixpoint namePat (s : string) : option (string * string) :=
  let rest := str_drop 2 s in
  if HasPrefix s ".v" && all_digits rest && negb (bool_decide (rest = "")) then Some ("", rest)
  else match s with
       | EmptyString => None
       | String c s =>
           if Ascii.eqb c "010"%char then None
           else match namePat s with
                | Some (a, d) => Some (String c a, d)
                | None => None
                end
       end.

(** [Some None] is the false [ok]; [None] is the panic on a version that does
    not fit an int. *)
Definition decodeResourceSetName (s : string) : option (option (string * Z)) :=
  match namePat s with
  | None | Some ("", _) => Some None
  | Some (n, d) =>
      let v := digits_val 0 d in
      if (v <? 2 ^ 63)%Z then Some (Some (n, int32 v)) else None
  end.
Definition decodePanic : string := "strconv.Atoi: value out of range".

(** ** Selecting and ordering resources *)

Definition isTestResource (u : Unstructured) : bool :=
  match sm_lookup (om_Annotations (u_meta u)) "helm.sh/hook" with
  | Some hook => HasPrefix hook "test-"
  | None => false
  end.
Definition isCustomResourceDefinition (u : Unstructured) : bool :=
  HasPrefix (u_APIVersion u) "apiextensions.k8s.io/"
  && bool_decide (u_Kind u = "CustomResourceDefinition").
(** The positions of the CRDs and of the other resources. *)
Fixpoint separateCRDsFromResources (i : nat) (l : list Unstructured) : list nat * list nat :=
  match l with
  | [] => ([], [])
  | u :: l => let '(crds, regulars) := separateCRDsFromResources (S i) l in
              if isCustomResourceDefinition u then (i :: crds, regulars) else (crds, i :: regulars)
  end.
Definition cleanResources (l : list Unstructured) : list Unstructured :=
  filter (λ u, negb (u_nil u) && negb (isTestResource u) = true) l.
Definition sortResources (l : list Unstructured) : list Unstructured := sort_by resourceKey l.

(** ** The applied annotation *)

Definition totalAnnotationSizeLimitB : Z := (256 * Z.shiftl 1 10)%Z.
Definition LastAppliedConfigAnnotation := "kubectl.kubernetes.io/last-applied-configuration".

Definition deleteAppliedAnnotation (u : Unstructured) : Unstructured :=
  let anns := default ∅ (om_Annotations (u_meta u)) in
  u_setMeta (om_setAnnotations (Some (delete LastAppliedConfigAnnotation anns)) (u_meta u)) u.

Definition setAppliedAnnotation (L : Libs) (u : Unstructured) : option error * Unstructured :=
  let u := deleteAppliedAnnotation u in
  match MarshalJSON L u with
  | Err e => (Some e, u)
  | Ok b =>
      if (totalAnnotationSizeLimitB <=? Z.of_nat (String.length b))%Z then
        (Some (EText ("skipping annotation " ++ fmt_q LastAppliedConfigAnnotation ++ " for "
           ++ fmt_q (u_Name u) ++ ": size " ++ fmt_d (Z.of_nat (String.length b))
           ++ " > max. allowed size " ++ fmt_d totalAnnotationSizeLimitB)), u)
      else (None, u_setMeta (om_setAnnotations
              (sm_set (om_Annotations (u_meta u)) LastAppliedConfigAnnotation b) (u_meta u)) u)
  end.

Definition getAppliedAnnotation (u : Unstructured) : string :=
  sm_get (om_Annotations (u_meta u)) LastAppliedConfigAnnotation.

(** ** Ownership *)

Definition isResourceSetRef (or : OwnerReference) : bool :=
  bool_decide (or_APIVersion or = "apps.cloudrobotics.com/v1alpha1")
  && bool_decide (or_Kind or = "ResourceSet").

Fixpoint validateOwnerRefs_loop (name : string) (version : Z) (refs : list OwnerReference)
    : option (option error) :=
  match refs with
  | [] => Some None
  | or :: refs =>
      if negb (isResourceSetRef or) then validateOwnerRefs_loop name version refs
      else match decodeResourceSetName (or_Name or) with
           | None => None
           | Some None => Some (Some (EText ("ResourceSet owner reference with invalid name "
                                             ++ fmt_q (or_Name or))))
           | Some (Some (n, v)) =>
               if negb (bool_decide (n = name)) then
                 Some (Some (EText ("owned by conflicting ResourceSet object " ++ fmt_q (or_Name or))))
               else if (version <? v)%Z then
                 Some (Some (EText ("owned by newer ResourceSet " ++ fmt_q (or_Name or)
                                    ++ " > v" ++ fmt_d version)))
               else validateOwnerRefs_loop name version refs
           end
  end.
(** [None] is the panic of [decodeResourceSetName]. *)
Definition validateOwnerRefs (r : Unstructured) (set : option ResourceSet) : option (option error) :=
  match set with
  | None => Some None
  | Some set =>
      match decodeResourceSetName (rs_Name set) with
      | None => None
      | Some None => Some (Some (EText ("invalid ResourceSet name " ++ fmt_q (rs_Name set))))
      | Some (Some (name, version)) =>
          validateOwnerRefs_loop name version (om_OwnerReferences (u_meta r))
      end
  end.

Definition setOwnerRef (r : Unstructured) (set : ResourceSet) : Unstructured :=
  let newRefs := filter (λ or, negb (isResourceSetRef or) = true) (om_OwnerReferences (u_meta r)) in
  u_setMeta (om_setOwnerReferences
    (newRefs ++ [mkOwnerReference "apps.cloudrobotics.com/v1alpha1" "ResourceSet"
                   (rs_Name set) (om_UID (rs_meta set)) (Some true) None])%list (u_meta r)) r.

(** ** Replacing a resource *)

(** [unstructured.NestedString(obj, "spec", "persistentVolumeReclaimPolicy")]
    is found and equals [v]. *)
Definition json_field (l : list (string * json)) (k : string) : option json :=
  snd <$> head (filter (λ kv, kv.1 = k) l).
Definition reclaimPolicyIs (r : Unstructured) (v : string) : bool :=
  match json_field (u_body r) "spec" with
  | Some (JObj spec) =>
      match json_field spec "persistentVolumeReclaimPolicy" with
      | Some (JString p) => bool_decide (p = v)
      | _ => false
      end
  | _ => false
  end.

Definition canReplace (r : Unstructured) (patchErr : error) : bool :=
  let k := u_Kind r in
  let e := error_text patchErr in
  (bool_decide (k = "Job") && Contains e "field is immutable")
  || (bool_decide (k = "Service") &&
      (Contains e "field is immutable" || Contains e "may not change once set"
       || Contains e "can not be unset"))
  || (bool_decide (k = "PersistentVolume") && Contains e "is immutable after creation"
      && reclaimPolicyIs r "Retain").

Definition replace (client : target) (r : Unstructured) : prog sop (result Unstructured) :=
  let! e := call (Delete client (u_Name r)) in
  match e with
  | Some err => Ret (Err (EWrap "delete" err))
  | None =>
      let! c := call (Create client r) in
      match c with
      | Err err => Ret (Err (EWrap "create" err))
      | Ok res => Ret (Ok res)
      end
  end.

(** ** Applying one resource

    Returns the resource as the function leaves it, the action and the error. *)
Abbreviation applied := (Unstructured * ResourceAction * option error)%type.

(** The patch sent when the live object carries the applied annotation. *)
Definition makePatch (L : Libs) (gvk : GVK) (original modified current : string)
    : result (PatchType * string) :=
  match SchemeNew L gvk with
  | Registered =>
      match NewPatchMeta L gvk with
      | Some err => Err (EWrap "lookup patch meta" err)
      | None =>
          match StrategicPatch L gvk original modified current with
          | Err err => Err (EWrap "create strategic-merge-patch" err)
          | Ok patch => Ok (StrategicMergePatchType, patch)
          end
      end
  | NotRegistered =>
      match JSONMergePatch L original modified current with
      | Err err => Err (EWrap "create json-merge-patch" err)
      | Ok patch => Ok (MergePatchType, patch)
      end
  | NewError err => Err (EWrap "instantiate object" err)
  end.

(** The end of [applyOne], after patching or updating failed. *)
Definition applyOne_replace (client : target) (r : Unstructured) (patchErr : error)
    : prog sop applied :=
  if negb (canReplace r patchErr) then
    Ret (r, ActionUpdate, Some (EWrap "apply patch or update" patchErr))
  else
    let! p := replace client r in
    match p with
    | Err err => Ret (r, ActionReplace, Some (EWrap "replace" err))
    | Ok res => Ret (res, ActionReplace, None)
    end.

(** [applyOne] once the live object [current] is known and not owned by
    another ResourceSet. *)
Definition applyOne_update (L : Libs) (client : target) (mapping : RESTMapping)
    (resetAppliedAnnotation : bool) (r current : Unstructured) : prog sop applied :=
  match MarshalJSON L current with
  | Err err => Ret (r, ActionNone, Some err)
  | Ok currentRaw =>
  match MarshalJSON L r with
  | Err err => Ret (r, ActionNone, Some err)
  | Ok resourceRaw =>
  let current := if resetAppliedAnnotation then deleteAppliedAnnotation current else current in
  let originalRaw := getAppliedAnnotation current in
  if negb (bool_decide (originalRaw = "")) then
    match makePatch L (m_GVK mapping) originalRaw resourceRaw currentRaw with
    | Err err => Ret (r, ActionNone, Some err)
    | Ok (patchType, patch) =>
        let! p := call (Patch client (u_Name r) patchType patch) in
        match p with
        | Ok res => Ret (res, ActionUpdate, None)
        | Err patchErr => applyOne_replace client r patchErr
        end
    end
  else
    let r := u_setMeta (om_setResourceVersion (om_ResourceVersion (u_meta current)) (u_meta r)) r in
    let! p := call (Update client r) in
    match p with
    | Ok res => Ret (res, ActionUpdate, None)
    | Err patchErr => applyOne_replace client r patchErr
    end
  end end.

Definition applyOne (L : Libs) (r : Unstructured) (set : option ResourceSet) : prog sop applied :=
  if bool_decide (u_Name r = "") then
    Ret (r, ActionNone, Some (EText "missing resource name"))
  else
  let! m := call (RESTMap (GroupVersionKind r)) in
  match m with
  | Err err => Ret (r, ActionNone, Some (EWrap "get REST mapping" err))
  | Ok mapping =>
  let client : target := (m_Resource mapping, if m_Root mapping then "" else u_Namespace r) in
  let '(annErr, r) := setAppliedAnnotation L r in
  let resetAppliedAnnotation := is_some annErr in
  let! g := call (Get client (u_Name r)) in
  match g with
  | Err err =>
      if IsNotFound err then
        let! c := call (Create client r) in
        match c with
        | Err err => Ret (r, ActionCreate, Some (EWrap "create resource" err))
        | Ok res => Ret (res, ActionCreate, None)
        end
      else Ret (r, ActionNone, Some (EWrap "get resource" err))
  | Ok current =>
      match validateOwnerRefs current set with
      | None => Panic decodePanic
      | Some (Some err) => Ret (r, ActionNone, Some (EWrap "owner conflict" err))
      | Some None => applyOne_update L client mapping resetAppliedAnnotation r current
      end
  end end.

(** ** Errors *)

Definition IsTransientErr (e : error) : bool :=
  match e with
  | ETransient _ => true
  | _ =>
      let e := Cause e in
      IsConflict e || IsResourceExpired e || IsAlreadyExists e || IsNotFound e || IsGone e
      || IsInternalError e || IsServerTimeout e || IsTimeout e || IsTooManyRequests e
      || IsServiceUnavailable e || IsGroupDiscoveryFailedError e
      || Contains (error_text e) "unable to create new content in namespace"
  end.

(** ** Applying all resources

    The slice of resources is a store: [applyResults] and the two sublists
    hold positions, because the code holds pointers and [applyOne] writes
    through them. *)
Definition noResource : Unstructured := mkU true "" "" emptyMeta [].
Definition at_ (store : list Unstructured) (i : nat) : Unstructured := default noResource (store !! i).

Definition results_set (res : applyResults) (store : list Unstructured) (i : nat)
    (a : ResourceAction) (e : option error) : applyResults :=
  <[resourceKey (at_ store i) := mkApplyResult i a e]> res.
Definition results_failed (res : applyResults) (store : list Unstructured) (i : nat) : bool :=
  match res !! resourceKey (at_ store i) with
  | Some x => is_some (err x)
  | None => false
  end.

Definition logf (opts : ApplyOptions) (u : Unstructured) (a : ResourceAction) (msg : string) : prog sop unit :=
  if o_Log opts then call (Log u a true msg) else Ret ().
Definition errorf (opts : ApplyOptions) (u : Unstructured) (a : ResourceAction) (msg : string) : prog sop unit :=
  if o_Log opts then call (Log u a false msg) else Ret ().

Abbreviation astate := (list Unstructured * applyResults)%type.

Definition applyCRD (L : Libs) (rs : ResourceSet) (opts : ApplyOptions) (i : nat) (st : astate)
    : prog sop astate :=
  let '(store, res) := st in
  let! ' (u, a, e) := applyOne L (at_ store i) (Some rs) in
  let store := <[i := u]> store in
  (match e with
   | Some err => errorf opts u a ("failed to apply: " ++ error_text err)
   | None => logf opts u a "applied successfully"
   end) ;;!
  Ret (store, results_set res store i a e).

(** [crdAvailable]: every served version lists the plural name. *)
Definition crdVersion_body (crd : CRD) (v : string) (_ : unit) : prog sop (bool + unit) :=
  let! l := call (ServerResourcesForGroupVersion (crd_Group crd ++ "/" ++ v)) in
  match l with
  | Err _ => Ret (inl false)
  | Ok items => if existsb (λ r, bool_decide (ar_Name r = crd_Plural crd)) items
                then Ret (inr ()) else Ret (inl false)
  end.
Definition crdAvailable (L : Libs) (u : Unstructured) : prog sop (result bool) :=
  match convertCRD L u with
  | Err e => Ret (Err e)
  | Ok crd =>
      let versions := map fst (filter (λ v, v.2 = true) (crd_Versions crd)) in
      let! r := for_each (crdVersion_body crd) versions () in
      match r with
      | inl b => Ret (Ok b)
      | inr _ => Ret (Ok true)
      end
  end.

Definition waitCRD_body (L : Libs) (store : list Unstructured) (i : nat) (_ : unit)
    : prog sop (error + unit) :=
  let! a := crdAvailable L (at_ store i) in
  match a with
  | Err err => Ret (inl (EPermanent (Some err)))
  | Ok false => Ret (inl (EText ("crd not yet available: " ++ fmt_q (u_Name (at_ store i)))))
  | Ok true => Ret (inr ())
  end.
Definition waitCRDs (L : Libs) (store : list Unstructured) (crds : list nat)
    : prog sop (option error * unit) :=
  Retry 60 (λ _,
    call Invalidate ;;!
    let! r := for_each (waitCRD_body L store) crds () in
    match r with
    | inl err => Ret (Some err, ())
    | inr _ => Ret (None, ())
    end) ().

(** One pass over the regular resources; counts the failures. *)
Definition applyRegular (L : Libs) (rs : ResourceSet) (opts : ApplyOptions) (first : bool)
    (i : nat) (st : nat * astate) : prog sop (nat * astate) :=
  let '(curFailures, (store, res)) := st in
  if negb first && negb (results_failed res store i) then Ret st
  else
    let! ' (u, a, e) := applyOne L (setOwnerRef (at_ store i) rs) (Some rs) in
    let store := <[i := u]> store in
    (match e with
     | Some err => errorf opts u a ("failed to apply, may retry: " ++ error_text err)
     | None => logf opts u a "applied successfully"
     end) ;;!
    Ret ((if is_some e then S curFailures else curFailures), (store, results_set res store i a e)).

(** The rounds: until nothing failed or as many failed as the round before. *)
Fixpoint applyRounds (L : Libs) (rs : ResourceSet) (opts : ApplyOptions) (regulars : list nat)
    (n : nat) (first : bool) (prevFailures : nat) (st : astate) : prog sop astate :=
  match n with
  | O => Ret st
  | S n =>
      let! ' (curFailures, st) := loop (applyRegular L rs opts first) regulars (O, st) in
      if bool_decide (curFailures = 0) || bool_decide (curFailures = prevFailures) then Ret st
      else applyRounds L rs opts regulars n false curFailures st
  end.

(** The overall error, over the results in the order they are visited. *)
Definition failures (l : list (string * applyResult)) : list (applyResult * error) :=
  omap (λ kr, (λ e, (kr.2, e)) <$> err kr.2) l.
Definition applyError (store : list Unstructured) (l : list (string * applyResult)) : option error :=
  let fs := failures l in
  match fs with
  | [] => None
  | (firstFailure, e) :: _ =>
      let numErrors := length fs in
      let m := fmt_d (Z.of_nat numErrors) ++ "/" ++ fmt_d (Z.of_nat (length l)) ++ " resources failed to apply" in
      let key := resourceKey (at_ store (resource firstFailure)) in
      let m := if bool_decide (numErrors = 1%nat) then m ++ ": " ++ key ++ ": " ++ error_text e
               else m ++ ", including " ++ key ++ ": " ++ error_text e in
      if forallb (λ f, IsTransientErr f.2) fs then Some (ETransient (EText m)) else Some (EText m)
  end.

Definition applyAll (L : Libs) (rs : ResourceSet) (opts : ApplyOptions) (store : list Unstructured)
    : prog sop (applyResults * option error * list Unstructured) :=
  let '(crds, regulars) := separateCRDsFromResources 0 store in
  let! ' (store, res) := loop (applyCRD L rs opts) crds (store, ∅) in
  let! ' (e, _) := waitCRDs L store crds in
  match e with
  | Some err => Ret (res, Some (EWrap "wait for CRDs" err), store)
  | None =>
      call ResetMapper ;;!
      let! ' (store, res) := applyRounds L rs opts regulars 10 true 0 (store, res) in
      let! order := call (RangeResults res) in
      Ret (res, applyError store (`order), store)
  end.

(** ** ResourceSets *)

Definition deleteResourceSets_body (name : string) (version : Z) (r : Unstructured) (_ : unit)
    : prog sop (error + unit) :=
  match decodeResourceSetName (u_Name r) with
  | None => Panic decodePanic
  | Some None => Ret (inr ())
  | Some (Some (n, v)) =>
      if negb (bool_decide (n = name)) || (version <=? v)%Z then Ret (inr ())
      else
        let! e := call (DeleteResourceSet (u_Name r)) in
        match e with
        | Some err => Ret (inl (EWrap ("delete ResourceSet " ++ fmt_q (u_Name r)) err))
        | None => Ret (inr ())
        end
  end.
Definition deleteResourceSets (name : string) (version : Z) : prog sop (option error) :=
  let! l := call ListResourceSets in
  match l with
  | Err err => Ret (Some (EWrap "list existing resources" err))
  | Ok items =>
      let! r := for_each (deleteResourceSets_body name version) items () in
      match r with
      | inl err => Ret (Some err)
      | inr _ => Ret None
      end
  end.

(** [next]: one more than the highest version in use, as an int32. *)
Fixpoint maxVersion (name : string) (cur : Z) (items : list Unstructured) : option Z :=
  match items with
  | [] => Some cur
  | r :: items =>
      match decodeResourceSetName (u_Name r) with
      | None => None
      | Some None => maxVersion name cur items
      | Some (Some (n, v)) =>
          maxVersion name (if bool_decide (n = name) && (cur <? v)%Z then v else cur) items
      end
  end.
Definition next (name : string) : prog sop (result Z) :=
  let! l := call ListResourceSets in
  match l with
  | Err err => Ret (Err (EWrap "list existing ResourceSets" err))
  | Ok items =>
      match maxVersion name 0 items with
      | None => Panic decodePanic
      | Some cur => Ret (Ok (int32 (cur + 1)))
      end
  end.

(** Groups of items that share a kind, in the order of [gvkKey]. *)
Fixpoint addToGroup {I : Type} (gvk : GVK) (x : I) (g : list (GVK * list I)) : list (GVK * list I) :=
  match g with
  | [] => [(gvk, [x])]
  | (k, l) :: g => if bool_decide (k = gvk) then (k, (l ++ [x])%list) :: g
                   else (k, l) :: addToGroup gvk x g
  end.
Definition groupBy {X I : Type} (kind : X → GVK) (item : X → I) (l : list X) : list (GVK * list I) :=
  fold_left (λ g x, addToGroup (kind x) (item x) g) l [].
Definition specGroups (resources : list Unstructured) : list ResourceSetSpecGroup :=
  sort_by (λ g, gvkKey (sg_Group g) (sg_Version g) (sg_Kind g))
    (map (λ '(k, l), mkSpecGroup (gvk_Group k) (gvk_Version k) (gvk_Kind k) l)
      (groupBy GroupVersionKind (λ u, mkRef (u_Namespace u) (u_Name u)) resources)).

(** [populateNamespaces]: which kinds are namespaced, from discovery and from
    the CRDs about to be installed. *)
Fixpoint crdsNamespaced (L : Libs) (crds : list Unstructured) (m : gmap string bool)
    : result (gmap string bool) :=
  match crds with
  | [] => Ok m
  | u :: crds =>
      match convertCRD L u with
      | Err err => Err (EWrap ("invalid CustomResourceDefinition " ++ fmt_q (resourceKey u)) err)
      | Ok crd =>
          crdsNamespaced L crds
            (fold_left (λ m v, <[crd_Group crd ++ "/" ++ v.1 ++ "/" ++ crd_Kind crd
                                 := negb (crd_ClusterScoped crd)]> m) (crd_Versions crd) m)
      end
  end.
Definition serverNamespaced (l : list (string * list APIResource)) : gmap string bool :=
  fold_left (λ m '(gv, rs), fold_left (λ m r, <[gv ++ "/" ++ ar_Kind r := ar_Namespaced r]> m) rs m) l ∅.
Definition setNamespace (isNamespaced : gmap string bool) (ns : string) (u : Unstructured) : Unstructured :=
  if negb (isCustomResourceDefinition u) && bool_decide (u_Namespace u = "")
     && default false (isNamespaced !! (u_APIVersion u ++ "/" ++ u_Kind u))
  then u_setMeta (om_setNamespace ns (u_meta u)) u else u.
Definition populateNamespaces (L : Libs) (ns : string) (resources : list Unstructured)
    : prog sop (result (list Unstructured)) :=
  let! l := call ServerResources in
  match l with
  | Err err => Ret (Err (EWrap "discover server resources" err))
  | Ok list =>
      match crdsNamespaced L (filter (λ u, isCustomResourceDefinition u = true) resources)
              (serverNamespaced list) with
      | Err err => Ret (Err err)
      | Ok isNamespaced => Ret (Ok (map (setNamespace isNamespaced ns) resources))
      end
  end.

Definition foreignNamespace (opts : ApplyOptions) (u : Unstructured) : bool :=
  negb (isCustomResourceDefinition u)
  && negb (bool_decide (u_Namespace u = "")) && negb (bool_decide (u_Namespace u = o_Namespace opts))
  && negb (bool_decide (u_Namespace u = "kube-system")).

Definition newResourceSet (name : string) (version : Z) (now : time) (resources : list Unstructured)
    : ResourceSet :=
  mkResourceSet
    (om_setLabels (Some {["name" := name]}) (namedMeta "" (resourceSetName name version)))
    (specGroups resources)
    (mkResourceSetStatus PhasePending now 0 [] []).

Definition setVersion (v : Z) (opts : ApplyOptions) : ApplyOptions :=
  mkApplyOptions (o_name opts) v (o_Namespace opts) (o_EnforceNamespace opts) (o_Log opts).

(** Returns the ResourceSet, the prepared resources and the options with the
    version filled in. *)
Definition initialize (L : Libs) (opts : ApplyOptions) (resources : list Unstructured)
    : prog sop (result (ResourceSet * list Unstructured * ApplyOptions)) :=
  let resources := sortResources (cleanResources resources) in
  let! p := populateNamespaces L (o_Namespace opts) resources in
  match p with
  | Err err => Ret (Err (EWrap "set default namespaces" err))
  | Ok resources =>
  match (if o_EnforceNamespace opts then head (filter (λ u, foreignNamespace opts u = true) resources)
         else None) with
  | Some r => Ret (Err (EText ("invalid namespace " ++ fmt_q (u_Namespace r) ++ " on "
                 ++ fmt_q (resourceKey r) ++ ", expected " ++ fmt_q (o_Namespace opts)
                 ++ " or " ++ dq "kube-system")))
  | None =>
  let! v := next (o_name opts) in
  match v with
  | Err err => Ret (Err (EWrap "get next ResourceSet version" err))
  | Ok version =>
  let! now := call Now in
  let rs := newResourceSet (o_name opts) version now resources in
  let! c := call (CreateResourceSet rs) in
  match c with
  | Err err => Ret (Err (EWrap ("create resources object " ++ fmt_q (rs_Name rs)) err))
  | Ok rs => Ret (Ok (rs, resources, setVersion version opts))
  end end end end.

(** *** The status *)

Definition resultStatus (store : list Unstructured) (r : applyResult) : ResourceStatus :=
  let u := at_ store (resource r) in
  mkResourceStatus (u_Namespace u) (u_Name u) (action r) (om_UID (u_meta u)) (om_Generation (u_meta u))
    (match err r with Some e => error_text e | None => "" end).
Definition statusGroups (store : list Unstructured) (l : list applyResult)
    : list ResourceSetStatusGroup :=
  map (λ '(k, l), mkStatusGroup (gvk_Group k) (gvk_Version k) (gvk_Kind k) l)
    (groupBy (λ r, GroupVersionKind (at_ store (resource r))) (resultStatus store) l).
Definition sortStatusGroups : list ResourceSetStatusGroup → list ResourceSetStatusGroup :=
  sort_by (λ g, gvkKey (tg_Group g) (tg_Version g) (tg_Kind g)).

Definition results_list (store : list Unstructured) (l : list (string * applyResult)) : list applyResult :=
  sort_by (λ r, resourceKey (at_ store (resource r))) (map snd l).

(** The ResourceSet with the results in its status. *)
Definition withResults (rs : ResourceSet) (store : list Unstructured) (l : list applyResult) (now : time)
    : ResourceSet :=
  let applied := sortStatusGroups (rss_Applied (rs_Status rs)
    ++ statusGroups store (filter (λ r, err r = None) l))%list in
  let failed := sortStatusGroups (rss_Failed (rs_Status rs)
    ++ statusGroups store (filter (λ r, err r ≠ None) l))%list in
  mkResourceSet (rs_meta rs) (rs_Resources rs)
    (mkResourceSetStatus (if bool_decide (failed = []) then PhaseSettled else PhaseFailed)
       (rss_StartedAt (rs_Status rs)) now applied failed).

Definition updateResourceSetStatus (rs : ResourceSet) (store : list Unstructured) (res : applyResults)
    : prog sop (option error * ResourceSet) :=
  let! order := call (RangeResults res) in
  let! now := call Now in
  let rs := withResults rs store (results_list store (`order)) now in
  let! u := call (UpdateResourceSet rs) in
  match u with
  | Err err => Ret (Some (EWrap "update ResourceSet status" err), rs)
  | Ok rs => Ret (None, rs)
  end.

(** ** The package's interface *)

Definition setName (name : string) (opts : ApplyOptions) : ApplyOptions :=
  mkApplyOptions name (o_version opts) (o_Namespace opts) (o_EnforceNamespace opts) (o_Log opts).

Definition Apply (L : Libs) (name : string) (opts : option ApplyOptions) (resources : list Unstructured)
    : prog sop (option ResourceSet * option error) :=
  let opts := setName name (default (mkApplyOptions "" 0 "" false false) opts) in
  let! i := initialize L opts resources in
  match i with
  | Err err => Ret (None, Some err)
  | Ok (rs, resources, opts) =>
      let! ' (results, applyErr, store) := applyAll L rs opts resources in
      let! ' (e, rs) := updateResourceSetStatus rs store results in
      match e with
      | Some err => Ret (Some rs, Some err)
      | None =>
          match applyErr with
          | Some err => Ret (Some rs, Some err)
          | None =>
              let! d := deleteResourceSets (o_name opts) (o_version opts) in
              Ret (Some rs, d)
          end
      end
  end.

Definition DeleteSet (name : string) : prog sop (option error) :=
  call (DeleteResourceSets ("name=" ++ name)).

(** The CRD that [Init] installs. *)
Definition anyObject : json :=
  JObj [("type", JString "object"); ("x-kubernetes-preserve-unknown-fields", JBool true)].
Definition resourceSetCRD : Unstructured :=
  mkU false "apiextensions.k8s.io/v1" "CustomResourceDefinition"
    (namedMeta "" "resourcesets.apps.cloudrobotics.com")
    [("spec", JObj
       [("group", JString "apps.cloudrobotics.com");
        ("names", JObj [("plural", JString "resourcesets"); ("singular", JString "resourceset");
                        ("kind", JString "ResourceSet")]);
        ("scope", JString "Cluster");
        ("versions", JList [JObj
          [("name", JString "v1alpha1"); ("served", JBool true); ("storage", JBool true);
           ("schema", JObj [("openAPIV3Schema", JObj
             [("type", JString "object");
              ("properties", JObj [("spec", anyObject); ("status", anyObject)])])])]])]);
     ("status", JObj
       [("conditions", JNull);
        ("acceptedNames", JObj [("plural", JString ""); ("kind", JString "")]);
        ("storedVersions", JNull)])].

Definition Init (L : Libs) : prog sop (option error) :=
  let! ' (u, _, e) := applyOne L resourceSetCRD None in
  match e with
  | Some err => Ret (Some (EWrap "create ResourceSet CRD" err))
  | None =>
      let! ' (e, _) := Retry 60 (λ _,
        call Invalidate ;;!
        let! a := crdAvailable L u in
        match a with
        | Err err => Ret (Some err, ())
        | Ok false => Ret (Some (EText "crd not available"), ())
        | Ok true => Ret (None, ())
        end) () in
      match e with
      | Some err => Ret (Some (EWrap "wait for ResourceSet CRD" err))
      | None => Ret None
      end
  end.

End Model.

(** * Properties *)
Import Model.

(** ** Names and versions *)

Lemma all_digits_app a b : all_digits (a +:+ b) = all_digits a && all_digits b.
Proof. induction a as [|c a IH]; [done|]. rewrite app_cons. cbn. by rewrite IH, andb_assoc. Qed.
Lemma digits_val_app acc a b : digits_val acc (a +:+ b) = digits_val (digits_val acc a) b.
Proof. revert acc. induction a as [|c a IH]; intros acc; [done|]. rewrite app_cons. cbn. apply IH. Qed.

(** Decimal printing, digit by digit. *)
Lemma digit_ok d : (d < 10)%N → is_digit (pretty_N_char d) = true ∧ digit_val (pretty_N_char d) = Z.of_N d.
Proof.
  intros Hd. assert (d = 0 ∨ d = 1 ∨ d = 2 ∨ d = 3 ∨ d = 4 ∨ d = 5 ∨ d = 6 ∨ d = 7 ∨ d = 8 ∨ d = 9)%N
    as Hcases by lia.
  repeat (destruct Hcases as [->|Hcases]; [by vm_compute|]). by subst; vm_compute.
Qed.
Lemma pretty_N_go_spec (x : N) : (0 < x)%N → ∃ p, (∀ s, pretty_N_go x s = p +:+ s) ∧
  all_digits p = true ∧ digits_val 0 p = Z.of_N x ∧ p ≠ "".
Proof.
  induction (N.lt_wf_0 x) as [x _ IH]. intros Hx.
  pose proof (N.mod_lt x 10 ltac:(done)) as Hm. pose proof (N.div_mod x 10 ltac:(done)) as Hdm.
  destruct (digit_ok (x `mod` 10)%N Hm) as [Hdig Hval].
  destruct (decide (x `div` 10 = 0)%N) as [Hz|Hz].
  - exists (String (pretty_N_char (x `mod` 10)) ""). split_and!.
    + intros s. rewrite pretty_N_go_step by done. rewrite Hz. by rewrite pretty_N_go_0.
    + cbn. by rewrite Hdig.
    + cbn. rewrite Hval. lia.
    + done.
  - destruct (IH (x `div` 10)%N) as (p & Hp & Hpd & Hpv & Hpn);
      [apply N.div_lt; lia|lia|].
    exists (p +:+ String (pretty_N_char (x `mod` 10)) ""). split_and!.
    + intros s. rewrite pretty_N_go_step by done. rewrite Hp, app_assoc_s. done.
    + rewrite all_digits_app, Hpd. cbn. by rewrite Hdig.
    + rewrite digits_val_app, Hpv. cbn. rewrite Hval. lia.
    + destruct p; [done|]. by rewrite app_cons.
Qed.
Lemma fmt_d_spec (v : Z) : (0 ≤ v)%Z →
  all_digits (fmt_d v) = true ∧ digits_val 0 (fmt_d v) = v ∧ fmt_d v ≠ "".
Proof.
  intros Hv. destruct v as [|x|x]; [by vm_compute| |lia].
  destruct (pretty_N_go_spec (N.pos x)) as (p & Hp & Hd & Hval & Hn); [lia|].
  assert (fmt_d (Z.pos x) = p) as ->; [|done].
  change (fmt_d (Z.pos x)) with (pretty_N_go (N.pos x) ""). by rewrite Hp, app_empty_r.
Qed.

Fixpoint has_newline (s : string) : bool :=
  match s with EmptyString => false | String c s => Ascii.eqb c "010"%char || has_newline s end.

Lemma namePat_app n d :
  has_newline n = false → all_digits d = true → d ≠ "" →
  namePat (n +:+ ".v" +:+ d) = Some (n, d).
Proof.
  intros Hn Hd Hne. induction n as [|c n IH].
  - destruct d as [|c d]; [done|].
    change ("" +:+ ".v" +:+ String c d) with (String "." (String "v" (String c d))).
    cbn -[all_digits]. by rewrite Hd.
  - cbn in Hn. apply orb_false_iff in Hn as [Hc Hn]. rewrite app_cons. cbn [namePat].
    rewrite Hc, (IH Hn).
    destruct (HasPrefix (String c (n +:+ ".v" +:+ d)) ".v" && _ && _) eqn:E; [|done]. exfalso.
    apply andb_prop in E as [[Hp Ha]%andb_prop _].
    destruct n as [|c' n].
    + change ("" +:+ ".v" +:+ d) with (String "." (String "v" d)) in Hp.
      cbn in Hp. by rewrite andb_false_r in Hp.
    + rewrite app_cons in Ha. cbn [str_drop] in Ha. rewrite all_digits_app in Ha. apply andb_prop in Ha as [_ Ha]. done.
Qed.

Lemma resourceSetName_decodes n v :
  n ≠ "" → has_newline n = false → (0 ≤ v < 2 ^ 31)%Z →
  decodeResourceSetName (resourceSetName n v) = Some (Some (n, v)).
Proof.
  intros Hn Hnl Hv. destruct (fmt_d_spec v) as (Hd & Hval & Hne); [lia|].
  unfold decodeResourceSetName, resourceSetName. rewrite namePat_app by done.
  destruct n as [|c n]; [done|]. rewrite Hval.
  destruct (Z.ltb_spec v (2 ^ 63)); [|lia]. unfold int32. by rewrite wrap_id by lia.
Qed.

(** names and versions of ResourceSets round trip: the name built from a
    non-empty [n] without newlines and a non-negative int32 version decodes to
    them, whatever dots, digits or [".v"] the name contains; so no two
    applications and no two versions share a ResourceSet name. *)
Theorem resourceSetName_roundtrip n v n' v' :
  n ≠ "" → has_newline n = false → (0 ≤ v < 2 ^ 31)%Z →
  n' ≠ "" → has_newline n' = false → (0 ≤ v' < 2 ^ 31)%Z →
  decodeResourceSetName (resourceSetName n v) = Some (Some (n, v)) ∧
  (resourceSetName n v = resourceSetName n' v' ↔ n = n' ∧ v = v').
Proof.
  intros Hn Hnl Hv Hn' Hnl' Hv'. split; [by apply resourceSetName_decodes|].
  split; [|by intros [-> ->]]. intros Heq%(f_equal decodeResourceSetName).
  rewrite !resourceSetName_decodes in Heq by done. by simplify_eq.
Qed.
Lemma resourceSetName_roundtrip_witness :
  decodeResourceSetName "my.v2.app.v12" = Some (Some ("my.v2.app", 12%Z)).
Proof. apply (resourceSetName_roundtrip "my.v2.app" 12 "a" 0); done. Defined.

(** [namePat] and [decodeResourceSetName], the other way round. *)
Lemma maxVersion_spec name cur items m :
  maxVersion name cur items = Some m →
  (cur ≤ m)%Z ∧ (∀ r v, r ∈ items → decodeResourceSetName (u_Name r) = Some (Some (name, v)) → (v ≤ m)%Z) ∧
  (m = cur ∨ ∃ r, r ∈ items ∧ decodeResourceSetName (u_Name r) = Some (Some (name, m))).
Proof.
  revert cur. induction items as [|r items IH]; intros cur; cbn [maxVersion].
  { intros [= ->]. split_and!; [lia|set_solver|by left]. }
  destruct (decodeResourceSetName (u_Name r)) as [[[n v]|]|] eqn:Hd; [| |done].
  - destruct (bool_decide (n = name) && (cur <? v)%Z) eqn:E; intros Hm;
      apply IH in Hm as (Hle & Hall & Hor).
    + apply andb_prop in E as [->%bool_decide_eq_true Hlt%Z.ltb_lt].
      split_and!; [lia| |].
      * intros r' v' [->|Hin]%elem_of_cons Hd'; [|by eapply Hall]. rewrite Hd in Hd'. injection Hd' as ->. done.
      * right. destruct Hor as [->|(r' & ? & ?)]; [exists r; split; [by left|done]|exists r'; split; [by right|done]].
    + split_and!; [done| |].
      * intros r' v' [->|Hin]%elem_of_cons Hd'; [|by eapply Hall].
        rewrite Hd in Hd'. injection Hd' as -> ->. rewrite bool_decide_eq_true_2 in E by done.
        apply Z.ltb_ge in E. lia.
      * destruct Hor as [->|(r' & ? & ?)]; [by left|right; exists r'; split; [by right|done]].
  - intros Hm. apply IH in Hm as (Hle & Hall & Hor). split_and!; [done| |].
    + intros r' v' [->|Hin]%elem_of_cons Hd'; [congruence|by eapply Hall].
    + destruct Hor as [->|(r' & ? & ?)]; [by left|right; exists r'; split; [by right|done]].
Qed.

(** The API server lists the ResourceSets [items]. *)
Definition lists_sets (items : list Unstructured) (o : sop) : resp o → Prop :=
  match o return resp o → Prop with
  | ListResourceSets => λ a, a = Ok items
  | _ => λ _, True
  end.

Lemma namePat_overflow n : namePat (n +:+ ".v-2147483648") = None.
Proof.
  induction n as [|c n IH]; [by vm_compute|]. rewrite app_cons. cbn [namePat]. rewrite IH.
  assert (all_digits (str_drop 2 (String c (n +:+ ".v-2147483648"))) = false) as ->.
  { destruct n as [|c' n]; [done|]. rewrite app_cons. cbn [str_drop].
    rewrite all_digits_app. by rewrite andb_false_r. }
  rewrite andb_false_r. cbn. by destruct (Ascii.eqb c _).
Qed.

(** C30: [next] gives a version above every version of that name in use, one
    above the highest (or 1), so that the new ResourceSet's name is unused, as
    long as the highest is below the int32 maximum; at the maximum the sum
    wraps around to the most negative version, whose name no longer decodes. *)
Theorem next_version name items tr v :
  name ≠ "" → has_newline name = false →
  exec (next name) tr (Done (Ok v)) → answers (lists_sets items) tr →
  ∃ m, maxVersion name 0 items = Some m ∧ (0 ≤ m)%Z ∧ v = int32 (m + 1) ∧
    ((m < 2 ^ 31 - 1)%Z → v = (m + 1)%Z ∧
      ∀ r, r ∈ items → u_Name r ≠ resourceSetName name v ∧
        ∀ v', decodeResourceSetName (u_Name r) = Some (Some (name, v')) → (v' < v)%Z) ∧
    (m = (2 ^ 31 - 1)%Z →
      v = (- 2 ^ 31)%Z ∧ decodeResourceSetName (resourceSetName name v) = Some None).
Proof.
  intros Hn Hnl HE HA.
  assert (wp (lists_sets items) any_call any_panic (next name) (λ r, ∀ v, r = Ok v →
    ∃ m, maxVersion name 0 items = Some m ∧ v = int32 (m + 1))) as Hwp.
  { unfold next. cbn [wp prog_bind call]. split; [done|]. intros a ->. cbn.
    destruct (maxVersion name 0 items) as [m|]; [|done]. intros v' [= <-]. by exists m. }
  destruct (wp_exec _ _ _ _ _ _ _ Hwp HE HA) as [_ Hv].
  destruct (Hv v eq_refl) as (m & Hm & ->). pose proof (maxVersion_spec _ _ _ _ Hm) as (H0 & Hall & _).
  exists m. split; [done|]. split; [done|]. split; [done|]. split.
  - intros Hlt. assert (int32 (m + 1) = m + 1)%Z as -> by (apply wrap_id; lia).
    split; [done|]. intros r Hr. split.
    + intros Heq. specialize (Hall r (m + 1)%Z Hr). rewrite Heq, resourceSetName_decodes in Hall by (done || lia).
      specialize (Hall eq_refl). lia.
    + intros v' Hd. specialize (Hall r v' Hr Hd). lia.
  - intros ->. assert (int32 (2 ^ 31 - 1 + 1) = - 2 ^ 31)%Z as -> by done. split; [done|].
    unfold decodeResourceSetName, resourceSetName.
    change (fmt_d (- 2 ^ 31)) with "-2147483648". change (".v" +:+ "-2147483648") with ".v-2147483648".
    by rewrite namePat_overflow.
Qed.
Lemma next_version_witness :
  let items := [mkU false "" "" (namedMeta "" "app.v3") []; mkU false "" "" (namedMeta "" "app.v11") [];
                mkU false "" "" (namedMeta "" "other.v20") []] in
  exec (next "app") [existT ListResourceSets (Ok items)] (Done (Ok 12%Z)) ∧
  maxVersion "app" 0 items = Some 11%Z.
Proof.
  intros items.
  assert (exec (next "app") [existT ListResourceSets (Ok items)] (Done (Ok 12%Z))) as HE.
  { exists (Ok items), []. split; [done|]. by vm_compute. }
  split; [done|].
  destruct (next_version "app" items _ 12 ltac:(done) ltac:(done) HE ltac:(by split)) as (m & Hm & _).
  rewrite Hm. vm_compute in Hm. by injection Hm as <-.
Defined.

(** ** Owners *)

Lemma validateOwnerRefs_loop_iff name version refs :
  validateOwnerRefs_loop name version refs = Some None ↔
  ∀ or, or ∈ refs → isResourceSetRef or = true →
    ∃ v, decodeResourceSetName (or_Name or) = Some (Some (name, v)) ∧ (v ≤ version)%Z.
Proof.
  induction refs as [|or refs IH]; cbn [validateOwnerRefs_loop].
  { split; [set_solver|done]. }
  destruct (isResourceSetRef or) eqn:Hor; cbn [negb].
  2: { rewrite IH. split; intros H' or'; [intros [->|Hin]%elem_of_cons|intros Hin; apply H'; by right];
         [congruence|by apply H']. }
  destruct (decodeResourceSetName (or_Name or)) as [[[n v]|]|] eqn:Hdo.
  2,3: split; [done|]; intros H'; destruct (H' or ltac:(by left) Hor) as (v' & Hv' & _); congruence.
  destruct (bool_decide_reflect (n = name)) as [->|Hne]; cbn [negb].
  2: { split; [done|]. intros H'. destruct (H' or ltac:(by left) Hor) as (v' & Hv' & _). congruence. }
  destruct (Z.ltb_spec version v).
  - split; [done|]. intros H'. destruct (H' or ltac:(by left) Hor) as (v' & Hv' & ?).
    rewrite Hdo in Hv'. injection Hv' as ->. lia.
  - rewrite IH. split.
    + intros H' or' [->|Hin]%elem_of_cons Hor'; [by exists v|by apply H'].
    + intros H' or' Hin. apply H'. by right.
Qed.

(** a live object is accepted exactly when every ResourceSet among its
    owners has a decodable name of the same application and a version no newer
    than the set being applied. *)
Theorem validateOwnerRefs_iff r rs name version :
  decodeResourceSetName (rs_Name rs) = Some (Some (name, version)) →
  validateOwnerRefs r (Some rs) = Some None ↔
  ∀ or, or ∈ om_OwnerReferences (u_meta r) → isResourceSetRef or = true →
    ∃ v, decodeResourceSetName (or_Name or) = Some (Some (name, v)) ∧ (v ≤ version)%Z.
Proof.
  intros Hd. unfold validateOwnerRefs. rewrite Hd. apply validateOwnerRefs_loop_iff.
Qed.
Lemma validateOwnerRefs_iff_witness :
  let ref n := mkOwnerReference "apps.cloudrobotics.com/v1alpha1" "ResourceSet" n "" None None in
  let r n := mkU false "" "" (om_setOwnerReferences [ref n] (namedMeta "" "x")) [] in
  let rs := mkResourceSet (namedMeta "" "app.v3") [] (mkResourceSetStatus PhaseNone 0 0 [] []) in
  validateOwnerRefs (r "app.v2") (Some rs) = Some None ∧ validateOwnerRefs (r "app.v4") (Some rs) ≠ Some None.
Proof.
  intros ref r rs. split; [|by vm_compute].
  apply (validateOwnerRefs_iff (r "app.v2") rs "app" 3); [done|].
  intros or ->%list_elem_of_singleton _. by exists 2%Z.
Defined.

Lemma om_OwnerReferences_set l m : om_OwnerReferences (om_setOwnerReferences l m) = l.
Proof. by destruct m. Qed.

(** [setOwnerRef] makes the applied set the only ResourceSet owner: every
    other owner is kept in order, the rest of the object is unchanged, and the
    object then passes the owner check of that set and of every later version. *)
Theorem setOwnerRef_spec r rs name version rs' version' :
  decodeResourceSetName (rs_Name rs) = Some (Some (name, version)) →
  decodeResourceSetName (rs_Name rs') = Some (Some (name, version')) → (version ≤ version')%Z →
  let r' := setOwnerRef r rs in
  filter (λ or, isResourceSetRef or = true) (om_OwnerReferences (u_meta r')) =
    [mkOwnerReference "apps.cloudrobotics.com/v1alpha1" "ResourceSet" (rs_Name rs) (om_UID (rs_meta rs)) (Some true) None] ∧
  filter (λ or, isResourceSetRef or = false) (om_OwnerReferences (u_meta r')) =
    filter (λ or, isResourceSetRef or = false) (om_OwnerReferences (u_meta r)) ∧
  resourceKey r' = resourceKey r ∧ u_body r' = u_body r ∧
  validateOwnerRefs r' (Some rs') = Some None.
Proof.
  intros Hd Hd' Hle r'. subst r'. unfold setOwnerRef. cbn [u_setMeta u_meta u_body].
  rewrite om_OwnerReferences_set.
  assert (∀ l : list OwnerReference, filter (λ or, isResourceSetRef or = true)
    (filter (λ or, negb (isResourceSetRef or) = true) l) = []) as Hf.
  { intros l. induction l as [|o l IH]; [done|]. destruct (isResourceSetRef o) eqn:E.
    - by rewrite filter_cons_False by (by rewrite E).
    - rewrite filter_cons_True by (by rewrite E). by rewrite filter_cons_False by (by rewrite E). }
  assert (∀ l : list OwnerReference, filter (λ or, isResourceSetRef or = false)
    (filter (λ or, negb (isResourceSetRef or) = true) l) = filter (λ or, isResourceSetRef or = false) l) as Hf'.
  { intros l. induction l as [|o l IH]; [done|]. destruct (isResourceSetRef o) eqn:E.
    - rewrite (filter_cons_False _ o l) by (by rewrite E).
      by rewrite (filter_cons_False _ o l) by (by rewrite E).
    - rewrite (filter_cons_True (λ or, negb (isResourceSetRef or) = true) o l) by (by rewrite E).
      by rewrite !filter_cons_True, IH by done. }
  split_and!.
  - by rewrite filter_app, Hf.
  - by rewrite filter_app, Hf', app_nil_r.
  - unfold resourceKey, u_Namespace, u_Name, GroupVersionKind. cbn. by destruct (u_meta r).
  - done.
  - unfold validateOwnerRefs. rewrite Hd'. apply validateOwnerRefs_loop_iff. cbn [u_setMeta u_meta].
    rewrite om_OwnerReferences_set. intros or [Hin|Hin]%elem_of_app Hor.
    + apply list_elem_of_filter in Hin as [Hn _]. by rewrite Hor in Hn.
    + apply list_elem_of_singleton in Hin as ->. by exists version.
Qed.
Lemma setOwnerRef_spec_witness :
  let rs := mkResourceSet (namedMeta "" "app.v3") [] (mkResourceSetStatus PhaseNone 0 0 [] []) in
  validateOwnerRefs (setOwnerRef noResource rs) (Some rs) = Some None.
Proof. intros rs. by apply (setOwnerRef_spec noResource rs "app" 3 rs 3). Defined.

(** ** Applying one resource *)

Definition readonly (o : sop) : bool :=
  match o with
  | Create _ _ | Update _ _ | Patch _ _ _ _ | Delete _ _ | CreateResourceSet _
  | UpdateResourceSet _ | DeleteResourceSet _ | DeleteResourceSets _ => false
  | _ => true
  end.

(** The live object was read under that name at [t] and its owners accepted. *)
Definition owned_ok (h : list (event sop)) (t : target) (name : string) (set : option ResourceSet) : Prop :=
  ∃ current, existT (Get t name) (Ok current) ∈ h ∧ validateOwnerRefs current set = Some None.
(** The kinds that may be deleted and recreated. *)
Definition replaceable (r : Unstructured) : Prop :=
  u_Kind r = "Job" ∨ u_Kind r = "Service" ∨
  (u_Kind r = "PersistentVolume" ∧ reclaimPolicyIs r "Retain" = true).

(** When [applyOne] on [r] for [set] may make the call [o] after [h]. *)
Definition write_guard (r : Unstructured) (set : option ResourceSet) (h : list (event sop)) (o : sop) : Prop :=
  match o with
  | Update t u => u_Name u = u_Name r ∧ u_Kind u = u_Kind r ∧ u_body u = u_body r ∧ owned_ok h t (u_Name r) set
  | Patch t n _ _ => n = u_Name r ∧ owned_ok h t (u_Name r) set
  | Delete t n =>
      n = u_Name r ∧ replaceable r ∧ owned_ok h t (u_Name r) set ∧
      ((∃ u e, existT (Update t u) (Err e) ∈ h) ∨
       (∃ pt p e, existT (Patch t n pt p) (Err e) ∈ h))
  | Create t u =>
      u_Name u = u_Name r ∧ u_Kind u = u_Kind r ∧ u_body u = u_body r ∧
      ((∃ e, existT (Get t (u_Name r)) (Err e) ∈ h ∧ IsNotFound e = true) ∨
       existT (Delete t (u_Name r)) None ∈ h)
  | CreateResourceSet _ | UpdateResourceSet _ | DeleteResourceSet _ | DeleteResourceSets _ => False
  | _ => True
  end.

(** The action that the writes of a trace amount to. *)
Definition wrote (sel : sop → bool) (h : list (event sop)) : bool := existsb (λ e, sel (projT1 e)) h.
Definition deletes (o : sop) : bool := match o with Delete _ _ => true | _ => false end.
Definition updates (o : sop) : bool := match o with Update _ _ | Patch _ _ _ _ => true | _ => false end.
Definition creates (o : sop) : bool := match o with Create _ _ => true | _ => false end.
Definition action_of (h : list (event sop)) : ResourceAction :=
  if wrote deletes h then ActionReplace
  else if wrote updates h then ActionUpdate
  else if wrote creates h then ActionCreate
  else ActionNone.

(** The last call of the trace is a write, and the server answered [u] to it. *)
Definition server_answer (h : list (event sop)) (u : Unstructured) : Prop :=
  ∃ h' t, (∃ x, h = h' ++ [existT (Create t x) (Ok u)])%list ∨ (∃ x, h = h' ++ [existT (Update t x) (Ok u)])%list ∨
          (∃ n pt p, h = h' ++ [existT (Patch t n pt p) (Ok u)])%list.
Definition applied_ok (r : Unstructured) (h : list (event sop)) (res : applied) : Prop :=
  let '(u, a, e) := res in
  a = action_of h ∧ (a = ActionNone → e ≠ None) ∧
  (e = None → server_answer h u) ∧
  (e ≠ None → u_Name u = u_Name r ∧ u_Kind u = u_Kind r ∧ u_body u = u_body r).

Lemma wrote_app sel h1 h2 : wrote sel (h1 ++ h2)%list = wrote sel h1 || wrote sel h2.
Proof. apply existsb_app. Qed.
Lemma wrote_readonly sel h :
  (∀ o, readonly o = true → sel o = false) → calls (λ o, readonly o = true) h → wrote sel h = false.
Proof.
  intros Hsel. induction h as [|[o a] h IH]; [done|]. intros [Ho Hh]. cbn. rewrite (Hsel o Ho). by apply IH.
Qed.
Lemma action_of_readonly h1 h2 : calls (λ o, readonly o = true) h1 → action_of (h1 ++ h2)%list = action_of h2.
Proof. intros Hc. unfold action_of. rewrite !wrote_app, !(wrote_readonly _ h1) by (done || by intros []). done. Qed.
Lemma action_of_replace h1 h2 : wrote deletes h2 = true → action_of (h1 ++ h2)%list = ActionReplace.
Proof. intros Hd. unfold action_of. by rewrite wrote_app, Hd, orb_true_r. Qed.

Lemma canReplace_replaceable r e : canReplace r e = true → replaceable r.
Proof.
  unfold canReplace, replaceable. rewrite !orb_true_iff, !andb_true_iff, !bool_decide_eq_true. tauto.
Qed.
Lemma deleteAppliedAnnotation_keeps u :
  u_Name (deleteAppliedAnnotation u) = u_Name u ∧ u_Namespace (deleteAppliedAnnotation u) = u_Namespace u.
Proof. unfold u_Name, u_Namespace. by destruct u as [? ? ? [] ?]. Qed.
Lemma setAppliedAnnotation_keeps L u e u' :
  setAppliedAnnotation L u = (e, u') →
  u_Name u' = u_Name u ∧ u_Kind u' = u_Kind u ∧ u_body u' = u_body u ∧ u_Namespace u' = u_Namespace u ∧
  u_APIVersion u' = u_APIVersion u ∧ om_OwnerReferences (u_meta u') = om_OwnerReferences (u_meta u).
Proof.
  unfold setAppliedAnnotation, u_Name, u_Namespace. destruct u as [? ? ? [] ?]; cbn.
  intros Heq. repeat case_match; simplify_eq; cbn; done.
Qed.
Lemma canReplace_keeps r r' e :
  u_Kind r' = u_Kind r → u_body r' = u_body r → canReplace r' e = canReplace r e.
Proof. unfold canReplace, reclaimPolicyIs. by intros -> ->. Qed.

Section applyOne.
Context (L : Libs) (r0 : Unstructured) (set : option ResourceSet).
Abbreviation ok := (hwp any_answer (write_guard r0 set) any_panic).
Definition like (r : Unstructured) : Prop :=
  u_Name r = u_Name r0 ∧ u_Kind r = u_Kind r0 ∧ u_body r = u_body r0.

Lemma applyOne_replace_ok h t r e :
  like r → owned_ok h t (u_Name r0) set → action_of h = ActionUpdate →
  ((∃ u e, existT (Update t u) (Err e) ∈ h) ∨
   (∃ pt p e, existT (Patch t (u_Name r0) pt p) (Err e) ∈ h)) →
  ok h (applyOne_replace t r e) (applied_ok r0).
Proof.
  intros Hl Hown Ha Herr. pose proof Hl as (Hn & Hk & Hb). unfold applyOne_replace.
  destruct (canReplace r e) eqn:Hc; cbn [negb]; [|by split_and!].
  unfold replace. cbn [hwp prog_bind call]. rewrite Hn. split.
  { split; [done|]. split; [|done].
    rewrite (canReplace_keeps r0 r e) in Hc by done. by eapply canReplace_replaceable. }
  intros [err|] _; cbn [hwp prog_bind call]; [split_and!; try done; by rewrite action_of_replace|].
  split; [split_and!; try done; right; set_solver|].
  intros [res|err] _; cbn [hwp prog_bind call]; (split_and!; [by rewrite <-(assoc_L (++)), action_of_replace|done..| |]);
    try done. intros _. eexists _, t. left. by eexists.
Qed.

Lemma like_setMeta r m : like r → om_Name m = om_Name (u_meta r) → like (u_setMeta m r).
Proof. intros (Hn & Hk & Hb) Hm. unfold like, u_Name in *. cbn. by rewrite Hm. Qed.

(** Nothing has been written yet in a history of reads. *)
Lemma applied_none h r e :
  like r → calls (λ o, readonly o = true) h → applied_ok r0 h (r, ActionNone, Some e).
Proof. intros Hl Hc. split_and!; try done. rewrite <-(app_nil_r h). by rewrite action_of_readonly. Qed.

Lemma applyOne_update_ok h t mapping reset r current :
  like r → calls (λ o, readonly o = true) h →
  existT (Get t (u_Name r0)) (Ok current) ∈ h → validateOwnerRefs current set = Some None →
  ok h (applyOne_update L t mapping reset r current) (applied_ok r0).
Proof.
  intros Hl Hc Hg Hv. unfold applyOne_update.
  assert (owned_ok h t (u_Name r0) set) as Hown by by exists current.
  assert (∀ h', owned_ok (h ++ h')%list t (u_Name r0) set) as Hown'.
  { intros h'. exists current. split; [|done]. apply elem_of_app. by left. }
  destruct (MarshalJSON L current); [|by apply applied_none].
  destruct (MarshalJSON L r); [|by apply applied_none].
  set (cur := if reset then _ else _). case_bool_decide as Ho; cbn [negb].
  - assert (like (u_setMeta (om_setResourceVersion (om_ResourceVersion (u_meta cur)) (u_meta r)) r)) as Hl'.
    { apply like_setMeta; [done|]. by destruct (u_meta r). }
    cbn [hwp prog_bind call]. split; [by destruct Hl' as (? & ? & ?)|].
    intros [res|err] _; cbn [hwp].
    + split_and!; try done; [by rewrite action_of_readonly|]. intros _. eexists _, t. right. left. by eexists.
    + apply applyOne_replace_ok; [done|done|by rewrite action_of_readonly|]. left. set_solver.
  - destruct (makePatch _ _ _ _ _) as [[pt patch]|]; [|by apply applied_none].
    destruct (Hl) as (Hn & _). cbn [hwp prog_bind call]. rewrite Hn. split; [done|].
    intros [res|err] _; cbn [hwp].
    + split_and!; try done; [by rewrite action_of_readonly|]. intros _. eexists _, t. right. right. by do 3 eexists.
    + apply applyOne_replace_ok; [done|done|by rewrite action_of_readonly|]. right. set_solver.
Qed.

Lemma applyOne_ok : ok [] (applyOne L r0 set) (applied_ok r0).
Proof.
  unfold applyOne. case_bool_decide; [by apply applied_none|].
  cbn [hwp prog_bind call app]. split; [done|]. intros [mapping|e] _; [|by apply applied_none].
  destruct (setAppliedAnnotation L r0) as [annErr r] eqn:Hann.
  apply setAppliedAnnotation_keeps in Hann as (Hn & Hk & Hb & _).
  cbn [hwp prog_bind call app]. rewrite Hn. split; [done|]. intros [current|e] _; cbn [app].
  - destruct (validateOwnerRefs current set) as [[e|]|] eqn:Hv; [by apply applied_none| |done].
    apply applyOne_update_ok; [done|done| |done]. set_solver.
  - destruct (IsNotFound e) eqn:He; [|by apply applied_none].
    cbn [hwp prog_bind call app]. split.
    { split_and!; try done. left. exists e. split; [set_solver|done]. }
    intros [res|err] _; cbn [app hwp]; split_and!; try done.
    intros _. eexists [_; _], _. left. by eexists.
Qed.
End applyOne.


(** *** A small API server for the witnesses: one object exists at a version,
    with or without an owner. *)
Definition demoLibs : Libs :=
  mkLibs (λ u, Ok (u_Kind u ++ "/" ++ u_Name u))
    (λ u, Ok (mkCRD "g" "K" (u_Name u) true [("v1", true); ("v0", false)]))
    (λ _, Registered) (λ _, None)
    (λ _ a b c, Ok (a ++ "|" ++ b ++ "|" ++ c)) (λ a b c, Ok b).
Definition demoLive (owners : list OwnerReference) : Unstructured :=
  mkU false "batch/v1" "Job"
    (om_setAnnotations (Some {[LastAppliedConfigAnnotation := "x"]})
      (om_setOwnerReferences owners (namedMeta "ns" "job"))) [].
Definition demoAPI (existing : list Unstructured) (sets : list string) (o : sop) (s : unit)
    : option (resp o * unit) :=
  match o return option (resp o * unit) with
  | Now => Some (9%Z, s)
  | ServerResources => Some (Ok [("batch/v1", [mkAPIResource "jobs" "Job" true])], s)
  | ServerResourcesForGroupVersion _ => Some (Ok [mkAPIResource "crd" "K" true], s)
  | Invalidate | ResetMapper | Log _ _ _ _ => Some (tt, s)
  | RESTMap gvk => Some (Ok (mkRESTMapping (gvk_Group gvk, gvk_Version gvk, gvk_Kind gvk) false gvk), s)
  | Get _ name =>
      Some (match list_find (λ u, u_Name u = name) existing with
            | Some (_, u) => Ok u
            | None => Err (EStatus 404 "NotFound" "not found")
            end, s)
  | Create _ u => Some (Ok u, s)
  | Update _ u => Some (Ok u, s)
  | Patch _ _ _ _ => Some (Err (EStatus 422 "Invalid" "spec.template: field is immutable"), s)
  | Delete _ _ | DeleteResourceSet _ | DeleteResourceSets _ => Some (None, s)
  | ListResourceSets => Some (Ok (map (λ n, mkU false "" "ResourceSet" (namedMeta "" n) []) sets), s)
  | CreateResourceSet rs => Some (Ok rs, s)
  | UpdateResourceSet rs => Some (Ok rs, s)
  | RangeResults r => Some (exist (λ l, l ≡ₚ map_to_list r) (map_to_list r) (Permutation_refl _), s)
  end.
Definition demoSet (name : string) : ResourceSet :=
  mkResourceSet (namedMeta "" name) [] (mkResourceSetStatus PhasePending 0 0 [] []).


(** ** The overall error *)

Lemma failures_spec l x e : (x, e) ∈ failures l ↔ ∃ k, (k, x) ∈ l ∧ err x = Some e.
Proof.
  unfold failures. rewrite list_elem_of_omap. split.
  - intros ([k y] & Hin & Hy). cbn in Hy. destruct (err y) as [e'|] eqn:E; [|done].
    injection Hy as -> ->. by exists k.
  - intros (k & Hin & He). exists (k, x). split; [done|]. cbn. by rewrite He.
Qed.
Lemma applyError_None store l : applyError store l = None ↔ ∀ k x, (k, x) ∈ l → err x = None.
Proof.
  unfold applyError. destruct (failures l) as [|[x e] fs] eqn:E.
  - split; [|done]. intros _ k x Hin. destruct (err x) as [e|] eqn:Hx; [|done].
    assert ((x, e) ∈ failures l) as Hf by (apply failures_spec; eauto). rewrite E in Hf. set_solver.
  - split; [by case_match|]. intros Hall.
    assert ((x, e) ∈ failures l) as (k & Hin & He)%failures_spec by (rewrite E; by left).
    by rewrite (Hall k x Hin) in He.
Qed.

(** [applyAll]'s overall error, in whatever order the results are visited:
    none exactly when every resource was applied; marked transient exactly
    when there is a failure and every failure is transient. *)
Theorem applyError_spec store l :
  (applyError store l = None ↔ ∀ k x, (k, x) ∈ l → err x = None) ∧
  ((∃ e, applyError store l = Some (ETransient e)) ↔
    (∃ k x, (k, x) ∈ l ∧ err x ≠ None) ∧
    ∀ k x f, (k, x) ∈ l → err x = Some f → IsTransientErr f = true).
Proof.
  split; [apply applyError_None|].
  unfold applyError. destruct (failures l) as [|[x e] fs] eqn:E.
  { split; [by intros (? & ?)|]. intros [(k & x & Hin & Hx) _].
    destruct (err x) as [e|] eqn:He; [|done].
    assert ((x, e) ∈ failures l) as Hf by (apply failures_spec; eauto). rewrite E in Hf. set_solver. }
  rewrite <-E. destruct (forallb (λ f, IsTransientErr f.2) (failures l)) eqn:Hall.
  - split; [|intros _; by eexists]. intros _. split.
    + assert ((x, e) ∈ failures l) as (k & Hin & He)%failures_spec by (rewrite E; by left).
      exists k, x. split; [done|]. by rewrite He.
    + intros k x' f Hin Hf. rewrite forallb_forall in Hall.
      apply (Hall (x', f)), list_elem_of_In, failures_spec. eauto.
  - split; [by intros (? & ?)|]. intros [_ Hf]. apply not_true_iff_false in Hall. destruct Hall.
    apply forallb_forall. intros [x' f] Hin%list_elem_of_In. apply failures_spec in Hin as (k & Hin & He).
    by eapply Hf.
Qed.

Lemma Contains_infix a s b sub : Contains s sub = true → Contains (a +:+ s +:+ b) sub = true.
Proof.
  rewrite !Contains_iff. intros (x & y & ->). exists (a +:+ x), (y +:+ b).
  by rewrite !app_assoc_s.
Qed.

(** an overall error that is not marked transient can still be taken for a
    transient one: it quotes its first failure, and [IsTransientErr] looks for
    "unable to create new content in namespace" in the text. So when such a
    failure is visited first, the error is retried although another failure
    is permanent. *)
Theorem mixed_failure_looks_transient store l x f rest e :
  failures l = (x, f) :: rest → rest ≠ [] →
  Contains (error_text f) "unable to create new content in namespace" = true →
  applyError store l = Some e → IsTransientErr e = true.
Proof.
  intros E Hrest Hc. unfold applyError. rewrite E.
  destruct rest as [|f' rest]; [done|]. cbn [length].
  rewrite (bool_decide_eq_false_2 (S (S (length rest)) = 1%nat)) by lia.
  case_match; intros [= <-]; [done|].
  unfold IsTransientErr. cbn [Cause error_text].
  match goal with |- context [Contains (?a ++ ", including " ++ ?b ++ ": " ++ ?s)%string ?sub] =>
    assert (Contains (a ++ ", including " ++ b ++ ": " ++ s)%string sub = true) as -> end.
  { match goal with |- Contains (?a ++ ?b ++ ?c ++ ?d ++ ?s)%string _ = _ =>
      replace (a ++ b ++ c ++ d ++ s)%string with ((a ++ b ++ c ++ d) ++ s ++ "")%string
        by (rewrite app_empty_r, !app_assoc_s; done) end.
    by apply Contains_infix. }
  by rewrite !orb_true_r.
Qed.
Lemma mixed_failure_looks_transient_witness :
  let ns := EText "unable to create new content in namespace x because it is being terminated" in
  let l := [("a", mkApplyResult 0 ActionCreate (Some ns)); ("b", mkApplyResult 1 ActionNone (Some (EText "bad")))] in
  IsTransientErr (EText "bad") = false ∧ ∃ e, applyError [] l = Some e ∧ IsTransientErr e = true.
Proof.
  intros ns l. split; [by vm_compute|].
  destruct (applyError [] l) as [e|] eqn:E; [|by vm_compute in E]. exists e. split; [done|].
  eapply (mixed_failure_looks_transient [] l); [reflexivity|done|by vm_compute|exact E].
Defined.

(** ** Applying the set *)

(** Calls that leave the ResourceSets alone. *)
Definition no_set_write (o : sop) : Prop :=
  match o with
  | CreateResourceSet _ | UpdateResourceSet _ | DeleteResourceSet _ | DeleteResourceSets _ => False
  | _ => True
  end.

(** A loop-free program of such calls. *)
Ltac quiet_tac :=
  repeat (cbn [wp prog_bind call];
    first
    [ progress wp_case
    | match goal with
      | |- wp _ _ _ (prog_bind _ (for_each _ _ _)) _ => fail 1
      | |- wp _ _ _ (prog_bind _ _) _ => apply wp_bind
      end
    | split; [exact I|intros ? _]
    | done ]).

Section applyAll.
Context (L : Libs).
Abbreviation ok := (wp any_answer no_set_write any_panic).

Lemma applyOne_quiet r set : ok (applyOne L r set) (λ _, True).
Proof. unfold applyOne, applyOne_update, applyOne_replace, replace. quiet_tac. Qed.
Lemma crdAvailable_quiet u : ok (crdAvailable L u) (λ _, True).
Proof.
  unfold crdAvailable. destruct (convertCRD L u) as [crd|]; [|done].
  apply wp_bind, (wp_for_each _ _ _ _ _ (λ _, True)); [|done..].
  intros v [] _ _. unfold crdVersion_body. quiet_tac.
Qed.
Lemma Retry_quiet n op :
  (∀ s : unit, ok (op s) (λ _, True)) → ∀ s, ok (Retry n op s) (λ _, True).
Proof.
  intros Hop s. eapply wp_mono; [|apply (wp_Retry _ _ _ _ _ (λ _, True) (λ _, True)); [|done]]; [done|].
  intros s' _. eapply wp_mono; [|apply Hop]. intros [[[]|] ?] _; by repeat case_match.
Qed.
Lemma waitCRDs_quiet store crds : ok (waitCRDs L store crds) (λ _, True).
Proof.
  apply Retry_quiet. intros []. cbn [wp prog_bind call]. split; [exact I|]. intros _ _.
  apply wp_bind, (wp_for_each _ _ _ _ _ (λ _, True)); [|done..].
  intros i [] _ _. unfold waitCRD_body. apply wp_bind. eapply wp_mono; [|apply crdAvailable_quiet].
  by intros [[]|] _.
Qed.

(** Every position of [done] has its key among the results. *)
Definition recorded (n : nat) (dn : list nat) (st : astate) : Prop :=
  length st.1 = n ∧ ∀ i, i ∈ dn → is_Some (st.2 !! resourceKey (at_ st.1 i)).

Lemma results_set_recorded n dn store res i u a e :
  (i < n)%nat → recorded n dn (store, res) →
  recorded n (i :: dn) (<[i := u]> store, results_set res (<[i := u]> store) i a e).
Proof.
  intros Hi [Hlen Hrec]. split; cbn [fst snd] in *; [by rewrite length_insert|].
  intros j Hj. unfold results_set. apply lookup_insert_is_Some.
  destruct (decide (resourceKey (at_ (<[i:=u]> store) i) = resourceKey (at_ (<[i:=u]> store) j)))
    as [|Hne]; [by left|right]. split; [done|].
  destruct (decide (i = j)) as [->|Hij]; [done|].
  unfold at_. rewrite list_lookup_insert_ne by done. apply Hrec. set_solver.
Qed.

Lemma log_quiet opts u a m (b : bool) :
  ok (if b then logf opts u a m else errorf opts u a m) (λ _, True).
Proof. unfold logf, errorf. destruct b, (o_Log opts); cbn; by repeat split. Qed.

Lemma applyCRD_recorded rs opts n dn i st :
  (i < n)%nat → recorded n dn st → ok (applyCRD L rs opts i st) (recorded n (i :: dn)).
Proof.
  intros Hi Hr. destruct st as [store res]. unfold applyCRD.
  apply wp_bind. eapply wp_mono; [|apply applyOne_quiet]. intros [[u a] e] _.
  apply wp_bind. apply wp_mono with (λ _, True).
  { intros [] _. cbn [wp]. by apply results_set_recorded. }
  destruct e as [err|]; [apply (log_quiet opts u a _ false)|apply (log_quiet opts u a _ true)].
Qed.
Lemma applyRegular_recorded rs opts first n dn i st :
  (i < n)%nat → recorded n dn st.2 → first = true ∨ i ∈ dn →
  ok (applyRegular L rs opts first i st) (λ st, recorded n (i :: dn) st.2).
Proof.
  intros Hi Hr Hdn. destruct st as [cur [store res]]. unfold applyRegular.
  destruct (negb first && negb (results_failed res store i)) eqn:Hs.
  { destruct Hdn as [->|Hdn]; [done|]. cbn [wp]. destruct Hr as [Hlen Hrec].
    split; [done|]. intros j [->|Hj]%elem_of_cons; auto. }
  apply wp_bind. eapply wp_mono; [|apply applyOne_quiet]. intros [[u a] e] _.
  apply wp_bind. apply wp_mono with (λ _, True).
  { intros [] _. cbn [wp]. by apply results_set_recorded. }
  destruct e as [err|]; [apply (log_quiet opts u a _ false)|apply (log_quiet opts u a _ true)].
Qed.

Lemma recorded_mono n dn dn' st : (∀ i, i ∈ dn' → i ∈ dn) → recorded n dn st → recorded n dn' st.
Proof. intros Hsub [Hlen Hrec]. split; [done|]. auto. Qed.

Lemma applyRounds_recorded rs opts regulars n k first prev dn st :
  (∀ i, i ∈ regulars → (i < n)%nat) → recorded n dn st →
  (first = true ∧ k ≠ O ∨ ∀ i, i ∈ regulars → i ∈ dn) →
  ok (applyRounds L rs opts regulars k first prev st) (recorded n (regulars ++ dn)).
Proof.
  intros Hlt. revert first prev dn st. induction k as [|k IH]; intros first prev dn st Hr Hor; cbn [applyRounds wp].
  { destruct Hor as [[_ ?]|Hor]; [done|]. eapply recorded_mono; [|exact Hr]. set_solver. }
  apply wp_bind. eapply wp_mono; [|apply (wp_loop_done _ _ _ _ _ (λ dn' st, recorded n (dn' ++ dn) st.2) [])].
  - intros [cur st'] Hr'. cbn [snd] in Hr'. rewrite app_nil_r in Hr'.
    assert (recorded n (regulars ++ dn) st') as Hr''.
    { eapply recorded_mono; [|exact Hr']. intros i. rewrite !elem_of_app, !list_elem_of_In, <-in_rev. done. }
    case_match; [exact Hr''|].
    eapply wp_mono; [|apply IH; [exact Hr''|right; set_solver]].
    intros st2. apply recorded_mono. set_solver.
  - intros i dn' st' Hi Hr'. apply applyRegular_recorded; [by apply Hlt|exact Hr'|].
    destruct Hor as [[-> _]|Hor]; [by left|right]. set_solver.
  - exact Hr.
Qed.

Lemma separate_spec k store crds regulars :
  separateCRDsFromResources k store = (crds, regulars) →
  (∀ i, i ∈ crds ∨ i ∈ regulars ↔ (k ≤ i < k + length store)%nat) ∧
  (∀ i, i ∈ crds → isCustomResourceDefinition (at_ store (i - k)) = true) ∧
  (∀ i, i ∈ regulars → isCustomResourceDefinition (at_ store (i - k)) = false).
Proof.
  revert k crds regulars. induction store as [|u store IH]; intros k crds regulars; cbn [separateCRDsFromResources].
  { intros [= <- <-]. cbn. split_and!; [|set_solver..]. intros i. split; [set_solver|lia]. }
  destruct (separateCRDsFromResources (S k) store) as [c r] eqn:E.
  destruct (IH _ _ _ E) as (Hall & Hc & Hr).
  assert (∀ i, S k ≤ i → at_ (u :: store) (i - k) = at_ store (i - S k))%nat as Hat.
  { intros i Hi. unfold at_. by replace (i - k)%nat with (S (i - S k)) by lia. }
  assert (∀ i, i ∈ c ∨ i ∈ r → S k ≤ i)%nat as Hge by (intros i Hi%Hall; lia).
  destruct (isCustomResourceDefinition u) eqn:Hu; intros [= <- <-]; (split; [|split]).
  - intros i. cbn [length]. specialize (Hall i). rewrite elem_of_cons. split.
    + intros [[->|?]|?]; [lia|..]; assert (S k ≤ i < S k + length store)%nat by (apply Hall; auto); lia.
    + intros ?. destruct (decide (i = k)) as [->|]; [by left; left|].
      destruct (proj2 Hall) as [?|?]; [lia|left; by right|by right].
  - intros i [->|Hi]%elem_of_cons; [by rewrite Nat.sub_diag|]. rewrite Hat by auto. by apply Hc.
  - intros i Hi. rewrite Hat by auto. by apply Hr.
  - intros i. cbn [length]. specialize (Hall i). rewrite elem_of_cons. split.
    + intros [?|[->|?]]; [|lia|]; assert (S k ≤ i < S k + length store)%nat by (apply Hall; auto); lia.
    + intros ?. destruct (decide (i = k)) as [->|]; [by right; left|].
      destruct (proj2 Hall) as [?|?]; [lia|by left|right; by right].
  - intros i Hi. rewrite Hat by auto. by apply Hc.
  - intros i [->|Hi]%elem_of_cons; [by rewrite Nat.sub_diag|]. rewrite Hat by auto. by apply Hr.
Qed.

(** What [applyAll] returns. *)
Definition applied_all (n : nat) (r : applyResults * option error * list Unstructured) : Prop :=
  let '(res, e, store) := r in
  length store = n ∧
  (e = None → (∀ k x, res !! k = Some x → err x = None) ∧
    ∀ i, (i < n)%nat → ∃ x, res !! resourceKey (at_ store i) = Some x ∧ err x = None).

Lemma applyAll_quiet rs opts store : ok (applyAll L rs opts store) (applied_all (length store)).
Proof.
  unfold applyAll. destruct (separateCRDsFromResources 0 store) as [crds regulars] eqn:E.
  destruct (separate_spec _ _ _ _ E) as (Hall & _ & _).
  apply wp_bind. eapply wp_mono; [|apply (wp_loop_done _ _ _ _ _ (recorded (length store)) [])].
  2: { intros i dn st Hi. apply applyCRD_recorded. apply Hall. by left. }
  2: { split; [done|set_solver]. }
  intros [store1 res1] Hr1. apply wp_bind. eapply wp_mono; [|apply waitCRDs_quiet].
  intros [[e|] _] _; [by split; [apply Hr1|]|].
  cbn [wp prog_bind call]. split; [exact I|]. intros _ _.
  apply wp_bind. eapply wp_mono; [|apply applyRounds_recorded; [|exact Hr1|by left]].
  2: { intros i Hi. apply Hall. by right. }
  intros [store2 res2] [Hlen Hrec]. cbn [wp prog_bind call fst snd] in *. split; [exact I|].
  intros [order Hperm] _. cbn [proj1_sig]. split; [done|]. intros Hnone.
  rewrite applyError_None in Hnone.
  assert (∀ k x, res2 !! k = Some x → err x = None) as Hok.
  { intros k x Hx. apply (Hnone k x). rewrite Hperm. by apply elem_of_map_to_list. }
  split; [done|]. intros i Hi. destruct (Hrec i) as [x Hx]; [|exists x; split; [done|by eapply Hok]].
  rewrite app_nil_r. apply elem_of_app.
  destruct (proj2 (Hall i)) as [?|?]; [lia|right|by left].
  by apply list_elem_of_In, in_rev; rewrite rev_involutive; apply list_elem_of_In.
Qed.
End applyAll.

(** when [applyAll] returns without error, every result is a success and
    every resource, CRD or not, has one under its key; and it never writes a
    ResourceSet itself. *)
Theorem applyAll_complete L rs opts store tr res store' :
  exec (applyAll L rs opts store) tr (Done (res, None, store')) →
  calls no_set_write tr ∧ length store' = length store ∧
  (∀ k x, res !! k = Some x → err x = None) ∧
  ∀ i, (i < length store)%nat → ∃ x, res !! resourceKey (at_ store' i) = Some x ∧ err x = None.
Proof.
  intros HE. apply (wp_exec_any _ _ _ _ _ _ (applyAll_quiet L rs opts store)) in HE as [Hc [Hl Hok]].
  specialize (Hok eq_refl). tauto.
Qed.

(** ** What was written *)

(** An object's identity, and the object a write was answered with. *)
Definition idOf (u : Unstructured) : GVK * string * string := (GroupVersionKind u, u_Namespace u, u_Name u).
Definition wrote_back (e : event sop) : option Unstructured :=
  match e with
  | existT o a => match o return resp o → option Unstructured with
                  | Create _ _ | Update _ _ | Patch _ _ _ _ => λ a, match a with Ok u => Some u | Err _ => None end
                  | _ => λ _, None
                  end a
  end.
Definition written (h : list (event sop)) (u : Unstructured) : Prop := ∃ e, e ∈ h ∧ wrote_back e = Some u.

(** The server answers a write with the object at that address, and the
    address of a prepared resource is the one its kind is mapped to. *)
Definition faithful (ident : target → string → GVK * string * string) (prepared : list Unstructured)
    (o : sop) : resp o → Prop :=
  match o return resp o → Prop with
  | Create t x => λ a, ∀ u, a = Ok u → idOf u = ident t (u_Name x)
  | Update t x => λ a, ∀ u, a = Ok u → idOf u = ident t (u_Name x)
  | Patch t n _ _ => λ a, ∀ u, a = Ok u → idOf u = ident t n
  | RESTMap gvk => λ a, ∀ m u0, a = Ok m → u0 ∈ prepared → GroupVersionKind u0 = gvk →
      ident (m_Resource m, if m_Root m then "" else u_Namespace u0) (u_Name u0) = idOf u0
  | _ => λ _, True
  end.
(** Every one of the resources was written and the server accepted it. *)
Definition installed (prepared : list Unstructured) (h : list (event sop)) : Prop :=
  ∀ ident, answers (faithful ident prepared) h →
  ∀ u0, u0 ∈ prepared → ∃ u, written h u ∧ resourceKey u = resourceKey u0.

Lemma written_app h1 h2 u : written h1 u → written (h1 ++ h2)%list u.
Proof. intros (e & He & Hw). exists e. split; [|done]. apply elem_of_app. by left. Qed.
Lemma installed_app prepared h0 h1 h2 : installed prepared h1 → installed prepared (h0 ++ h1 ++ h2)%list.
Proof.
  intros Hi ident [_ [Ha _]%answers_app]%answers_app u0 Hu. destruct (Hi ident Ha u0 Hu) as (u & (e & He & Hw) & Hk).
  exists u. split; [|done]. exists e. split; [|done]. set_solver.
Qed.
Lemma idOf_key u u' : idOf u = idOf u' → resourceKey u = resourceKey u'.
Proof. unfold idOf, resourceKey. by intros [= -> -> ->]. Qed.
Lemma GroupVersionKind_eq u u' : u_APIVersion u = u_APIVersion u' → u_Kind u = u_Kind u' →
  GroupVersionKind u = GroupVersionKind u'.
Proof. unfold GroupVersionKind. by intros -> ->. Qed.
Lemma setOwnerRef_id u rs : idOf (setOwnerRef u rs) = idOf u.
Proof. unfold idOf, setOwnerRef, u_Namespace, u_Name. by destruct u as [? ? ? [] ?]. Qed.

Section writing.
Context (L : Libs) (ident : target → string → GVK * string * string) (prepared : list Unstructured).
Abbreviation fok := (hwp (faithful ident prepared) (λ _ _, True) any_panic).

(** The history only grows. *)
Definition after (h : list (event sop)) {T} (Φ : list (event sop) → T → Prop) (h' : list (event sop)) (x : T) : Prop :=
  (∃ t, h' = (h ++ t)%list) ∧ Φ h' x.
Definition applied_id (id : GVK * string * string) (h : list (event sop)) (x : applied) : Prop :=
  let '(u, _, e) := x in idOf u = id ∧ (e = None → written h u).

Lemma replace_written h t r e id :
  idOf r = id → ident t (u_Name r) = id →
  fok h (applyOne_replace t r e) (after h (applied_id id)).
Proof.
  intros Hid Ht. unfold applyOne_replace. destruct (canReplace r e); cbn [negb].
  2: { split; [exists []; by rewrite app_nil_r|done]. }
  unfold replace. cbn [hwp prog_bind call]. split; [done|]. intros [err|] _; cbn [hwp prog_bind call].
  { split; [by eexists|done]. }
  split; [done|]. intros [u|err] Hu; cbn [hwp prog_bind call]; (split; [rewrite <-(assoc_L (++)); by eexists|]); [|done].
  split; [by rewrite (Hu u eq_refl)|]. intros _. eexists. split; [apply elem_of_app; right; by left|done].
Qed.

Lemma applyOne_written h u0 r set :
  u0 ∈ prepared → idOf r = idOf u0 → fok h (applyOne L r set) (after h (applied_id (idOf u0))).
Proof.
  intros Hin Hid. unfold applyOne.
  assert (∀ r e, idOf r = idOf u0 → after h (applied_id (idOf u0)) h (r, ActionNone, Some e)) as Hnone.
  { intros r' e Hr'. split; [exists []; by rewrite app_nil_r|done]. }
  assert (∀ t r e, idOf r = idOf u0 →
    after h (applied_id (idOf u0)) (h ++ t)%list (r, ActionNone, Some e)) as Hnone'.
  { intros t r' e Hr'. split; [by eexists|done]. }
  case_bool_decide; [by apply Hnone|].
  cbn [hwp prog_bind call]. split; [done|]. intros [m|e] Hm; [|by apply Hnone'].
  destruct (setAppliedAnnotation L r) as [annErr r'] eqn:Hann.
  apply setAppliedAnnotation_keeps in Hann as (Hn & Hk & _ & Hns & Hv & _).
  assert (idOf r' = idOf u0) as Hid'.
  { rewrite <-Hid. unfold idOf. by rewrite Hn, Hns, (GroupVersionKind_eq r' r Hv Hk). }
  assert (ident (m_Resource m, if m_Root m then "" else u_Namespace r) (u_Name r') = idOf u0) as Hident.
  { injection Hid as Hg Hnr Hnr'. rewrite <-(Hm m u0 eq_refl Hin (eq_sym Hg)). by rewrite Hn, Hnr, Hnr'. }
  set (t := (m_Resource m, _)) in *.
  cbn [hwp prog_bind call]. split; [done|]. intros [current|e] _; rewrite <-(assoc_L (++)); cbn [app].
  2: { destruct (IsNotFound e); [|by apply Hnone']. cbn [hwp prog_bind call]. split; [done|].
       intros [u|e'] Hu; cbn [hwp]; rewrite <-(assoc_L (++)); (split; [by eexists|]); [|done].
       split; [by rewrite (Hu u eq_refl)|]. intros _. eexists. split; [apply elem_of_app; right; do 2 right; by left|done]. }
  destruct (validateOwnerRefs current set) as [[e|]|]; [by apply Hnone'| |done].
  unfold applyOne_update. destruct (MarshalJSON L current); [|by apply Hnone'].
  destruct (MarshalJSON L r'); [|by apply Hnone']. set (cur := if is_some annErr then _ else _).
  case_bool_decide as Ho; cbn [negb].
  - set (r2 := u_setMeta _ r').
    assert (idOf r2 = idOf r' ∧ u_Name r2 = u_Name r') as [Hid2 Hn2].
    { unfold r2, idOf, u_Namespace, u_Name. by destruct r' as [? ? ? [] ?]. }
    cbn [hwp prog_bind call]. split; [done|]. intros [u|e] Hu; cbn [hwp]; rewrite <-(assoc_L (++)).
    + split; [by eexists|]. split; [rewrite (Hu u eq_refl); by rewrite Hn2|].
      intros _. eexists. split; [apply elem_of_app; right; apply elem_of_app; right; by left|done].
    + eapply hwp_mono; [|apply (replace_written _ t r2 e (idOf u0)); [by rewrite Hid2|by rewrite Hn2]].
      intros h' w [[t' ->] Hw]. split; [rewrite <-(assoc_L (++)); by eexists|done].
  - destruct (makePatch _ _ _ _ _) as [[pt patch]|]; [|by apply Hnone'].
    cbn [hwp prog_bind call]. split; [done|]. intros [u|e] Hu; cbn [hwp]; rewrite <-(assoc_L (++)).
    + split; [by eexists|]. split; [by rewrite (Hu u eq_refl)|].
      intros _. eexists. split; [apply elem_of_app; right; apply elem_of_app; right; by left|done].
    + eapply hwp_mono; [|by apply (replace_written _ t r' e (idOf u0))].
      intros h' w [[t' ->] Hw]. split; [rewrite <-(assoc_L (++)); by eexists|done].
Qed.

(** Every position keeps the identity it was prepared with, and a key whose
    result is a success was written. *)
Definition progress (h : list (event sop)) (st : astate) : Prop :=
  length st.1 = length prepared ∧
  (∀ i, (i < length prepared)%nat → idOf (at_ st.1 i) = idOf (at_ prepared i)) ∧
  ∀ k x, st.2 !! k = Some x → err x = None → ∃ u, written h u ∧ resourceKey u = k.

Lemma progress_app h t st : progress h st → progress (h ++ t)%list st.
Proof.
  intros (Hl & Hid & Hw). split_and!; [done..|]. intros k x Hx He. destruct (Hw k x Hx He) as (u & Hu & Hk).
  exists u. split; [by apply written_app|done].
Qed.
Lemma at_elem l i : (i < length l)%nat → at_ l i ∈ l.
Proof. intros [u Hu]%lookup_lt_is_Some_2. unfold at_. rewrite Hu. by eapply list_elem_of_lookup_2. Qed.
Lemma progress_set h store res i u a e :
  (i < length prepared)%nat → progress h (store, res) → applied_id (idOf (at_ prepared i)) h (u, a, e) →
  progress h (<[i := u]> store, results_set res (<[i := u]> store) i a e).
Proof.
  intros Hi (Hl & Hid & Hw) [Hu He]. cbn [fst snd] in *. unfold progress. cbn [fst snd].
  assert (at_ (<[i := u]> store) i = u) as Hat by (unfold at_; rewrite list_lookup_insert_eq; [done|by rewrite Hl]).
  split_and!; [by rewrite length_insert| |].
  - intros j Hj. destruct (decide (i = j)) as [<-|Hij]; [by rewrite Hat|].
    unfold at_ at 1. rewrite list_lookup_insert_ne by done. by apply Hid.
  - intros k x Hx Hnone. unfold results_set in Hx. rewrite Hat in Hx.
    apply lookup_insert_Some in Hx as [[<- <-]|[_ Hx]]; [|by eapply Hw].
    exists u. split; [by apply He|done].
Qed.
Lemma log_after h opts u a m (b : bool) :
  fok h (if b then logf opts u a m else errorf opts u a m) (λ h' _, ∃ t, h' = (h ++ t)%list).
Proof.
  unfold logf, errorf. destruct b, (o_Log opts); cbn; try (split; [done|]; intros [] _; by eexists);
    exists []; by rewrite app_nil_r.
Qed.
Lemma applyCRD_progress rs opts h i st :
  (i < length prepared)%nat → progress h st → fok h (applyCRD L rs opts i st) progress.
Proof.
  intros Hi Hp. destruct st as [store res]. unfold applyCRD.
  apply hwp_bind. eapply hwp_mono; [|apply applyOne_written; [by apply at_elem|by apply Hp]].
  intros h1 [[u a] e] [[t ->] Ha]. cbn beta iota. apply hwp_bind.
  eapply (hwp_mono _ _ _ _ _ (λ h' _, ∃ t', h' = ((h ++ t) ++ t')%list)).
  - intros h2 [] [t' ->]. cbn [hwp]. apply progress_app, progress_set; [done|by apply progress_app|done].
  - destruct e as [err|]; [apply (log_after _ opts u a _ false)|apply (log_after _ opts u a _ true)].
Qed.
Lemma applyRegular_progress rs opts first h i st :
  (i < length prepared)%nat → progress h st.2 → fok h (applyRegular L rs opts first i st) (λ h st, progress h st.2).
Proof.
  intros Hi Hp. destruct st as [cur [store res]]. unfold applyRegular. case_match; [done|].
  apply hwp_bind. eapply hwp_mono; [|apply applyOne_written; [by apply at_elem|rewrite setOwnerRef_id; by apply Hp]].
  intros h1 [[u a] e] [[t ->] Ha]. cbn beta iota. apply hwp_bind.
  eapply (hwp_mono _ _ _ _ _ (λ h' _, ∃ t', h' = ((h ++ t) ++ t')%list)).
  - intros h2 [] [t' ->]. cbn [hwp snd]. apply progress_app, progress_set; [done|by apply progress_app|done].
  - destruct e as [err|]; [apply (log_after _ opts u a _ false)|apply (log_after _ opts u a _ true)].
Qed.
Lemma applyRounds_progress rs opts regulars n first prev h st :
  (∀ i, i ∈ regulars → (i < length prepared)%nat) → progress h st →
  fok h (applyRounds L rs opts regulars n first prev st) progress.
Proof.
  intros Hlt. revert first prev h st. induction n as [|n IH]; intros first prev h st Hp; cbn [applyRounds hwp]; [done|].
  apply hwp_bind. eapply hwp_mono; [|apply (hwp_loop _ _ _ _ _ (λ h st, progress h st.2)); [|exact Hp]].
  - intros h' [cur st'] Hp'. cbn [snd] in Hp'. case_match; [exact Hp'|by apply IH].
  - intros h' i st' Hi Hp'. apply applyRegular_progress; [by apply Hlt|done].
Qed.
Lemma applyAll_progress rs opts :
  fok [] (applyAll L rs opts prepared) (λ h r, progress h (r.2, r.1.1)).
Proof.
  unfold applyAll. destruct (separateCRDsFromResources 0 prepared) as [crds regulars] eqn:E.
  destruct (separate_spec _ _ _ _ E) as (Hall & _ & _).
  apply hwp_bind. eapply hwp_mono; [|apply (hwp_loop _ _ _ _ _ progress)].
  2: { intros h i st Hi. apply applyCRD_progress. apply Hall. by left. }
  2: { by split_and!. }
  intros h1 [store1 res1] Hp1. apply hwp_bind.
  eapply (hwp_wp _ _ _ no_set_write); [eapply (wp_weaken any_answer); [done|done|apply waitCRDs_quiet]|done|].
  intros t [[e|] []] _ _ _; [by apply progress_app|]. cbn [hwp prog_bind call]. split; [done|]. intros [] _.
  rewrite <-(assoc_L (++)). apply hwp_bind.
  eapply hwp_mono; [|apply applyRounds_progress; [|by apply progress_app]].
  2: { intros i Hi. apply Hall. by right. }
  intros h2 [store2 res2] Hp2. cbn [hwp prog_bind call]. split; [done|]. intros order _. by apply progress_app.
Qed.
End writing.

(** Without an error, [applyAll] installed everything. *)
Lemma applyAll_installed L rs opts prepared t res store :
  exec (applyAll L rs opts prepared) t (Done (res, None, store)) → installed prepared t.
Proof.
  intros HE ident Ha u0 Hu.
  destruct (hwp_exec _ _ _ _ _ _ _ _ (applyAll_progress L ident prepared rs opts) HE Ha) as [_ (Hl & Hid & Hw)].
  cbn [fst snd app] in *.
  apply applyAll_complete in HE as (_ & _ & _ & Hall). apply list_elem_of_lookup_1 in Hu as [i Hi].
  pose proof (lookup_lt_Some _ _ _ Hi) as Hlt. destruct (Hall i Hlt) as (x & Hx & He).
  destruct (Hw _ _ Hx He) as (u & Hu & Hk). exists u. split; [done|]. rewrite Hk. apply idOf_key.
  rewrite (Hid i Hlt). unfold at_. by rewrite Hi.
Qed.

(** ** Initialisation *)

Definition create_failed (o : sop) : resp o → Prop :=
  match o return resp o → Prop with
  | CreateResourceSet _ => λ a, is_ok a = false
  | _ => λ _, True
  end.
(** What [initialize] leaves on success, and on an error. *)
Definition initialized (opts : ApplyOptions) (resources : list Unstructured)
    (h : list (event sop)) (r : result (ResourceSet * list Unstructured * ApplyOptions)) : Prop :=
  match r with
  | Ok (rs, prepared, opts') =>
      ∃ now ns version,
        let created := newResourceSet (o_name opts) version now prepared in
        existT (CreateResourceSet created) (Ok rs) ∈ h ∧ opts' = setVersion version opts ∧
        prepared = map (setNamespace ns (o_Namespace opts)) (sortResources (cleanResources resources)) ∧
        (o_EnforceNamespace opts = true → ∀ u, u ∈ prepared → foreignNamespace opts u = false)
  | Err _ => answers create_failed h
  end.
(** [CreateResourceSet] is the only write. *)
Definition only_create_set (o : sop) : Prop :=
  match o with
  | CreateResourceSet _ => True
  | _ => readonly o = true
  end.

Lemma initialize_ok L opts resources :
  hwp any_answer (λ _, only_create_set) any_panic [] (initialize L opts resources) (initialized opts resources).
Proof.
  unfold initialize, populateNamespaces, next.
  cbn [hwp prog_bind call app]. split; [done|]. intros [l|e] _; [|by repeat split].
  destruct (crdsNamespaced _ _ _) as [m|e]; [|by repeat split]. cbn [hwp prog_bind].
  set (prepared := map _ _).
  destruct (if o_EnforceNamespace opts then _ else _) as [r|] eqn:Hns; [by repeat split|].
  cbn [hwp prog_bind call app]. split; [done|]. intros [items|e] _; [|by repeat split].
  destruct (maxVersion _ _ _) as [cur|]; [|done]. cbn [hwp prog_bind call app].
  split; [done|]. intros now _. split; [done|]. intros [rs|e] _; cbn [hwp initialized app].
  - exists now, m, (int32 (cur + 1)). cbn zeta. split; [do 3 right; left|]. split; [done|]. split; [done|].
    intros He u Hu. rewrite He in Hns. destruct (foreignNamespace opts u) eqn:Hf; [|done].
    destruct (filter _ prepared) as [|x f] eqn:Ef; [|done].
    assert (u ∈ filter (λ u, foreignNamespace opts u = true) prepared) as Hin
      by (apply list_elem_of_filter; done).
    rewrite Ef in Hin. set_solver.
  - by repeat split.
Qed.

(** [initialize] creates at most one ResourceSet and writes nothing else;
    on success the set created lists the prepared resources, which are the
    caller's without test and nil ones, sorted, with the default namespace
    filled in, and none of them violates an enforced namespace; on any error
    no ResourceSet was created. *)
Theorem initialize_spec L opts resources tr r :
  exec (initialize L opts resources) tr (Done r) →
  calls only_create_set tr ∧ initialized opts resources tr r.
Proof.
  intros HE. assert (answers any_answer tr) as HA by (clear HE; by induction tr).
  destruct (hwp_exec _ _ _ _ _ _ _ _ (initialize_ok L opts resources) HE HA) as [HG Hout].
  split; [|exact Hout]. clear HE HA Hout. revert HG. generalize (@nil (event sop)) as h.
  induction tr as [|e tr IH]; intros h HG; [done|]. split.
  - by apply (HG [] e tr).
  - apply (IH (h ++ [e])%list). intros pre e' post Heq. apply (HG (e :: pre) e' post). by rewrite Heq.
Qed.

(** A foreign namespace under enforcement is an error. *)
Lemma initialize_spec_witness :
  let opts := mkApplyOptions "app" 0 "mine" true false in
  let u := mkU false "batch/v1" "Job" (namedMeta "theirs" "job") [] in
  let tr := trace_of (run (demoAPI [] ["app.v4"]) (initialize demoLibs opts [u]) tt) in
  length tr = 1%nat ∧ answers create_failed tr.
Proof.
  intros opts u tr. split; [by vm_compute|].
  destruct (run_exec_some (demoAPI [] ["app.v4"]) (initialize demoLibs opts [u]) tt)
    as (out & Hout & HE); [by vm_compute|].
  assert (match outcome_of (run (demoAPI [] ["app.v4"]) (initialize demoLibs opts [u]) tt) with
          | Some (Done (Err _)) => true | _ => false end = true) as Hb by by vm_compute.
  rewrite Hout in Hb. destruct out as [[|e]|]; [done| |done].
  apply initialize_spec in HE as [_ Hi]. exact Hi.
Defined.

(** ** Pruning *)

(** Version [version] of [name] was created for the [prepared] resources, all
    of them were installed, and the status stored afterwards lists a success
    for each and, if the server gave the created set without failures, says
    Settled. *)
Definition settled_with (name : string) (version : Z) (prepared : list Unstructured) (h : list (event sop)) : Prop :=
  ∃ now rs store res order now' u,
    existT (CreateResourceSet (newResourceSet name version now prepared)) (Ok rs) ∈ h ∧
    installed prepared h ∧
    length store = length prepared ∧
    (∀ i, (i < length prepared)%nat → is_Some (res !! resourceKey (at_ store i))) ∧
    (∀ k x, res !! k = Some x → err x = None) ∧
    order ≡ₚ map_to_list res ∧
    existT (UpdateResourceSet (withResults rs store (results_list store order) now')) (Ok u) ∈ h ∧
    (rss_Failed (rs_Status rs) = [] →
      rss_Phase (rs_Status (withResults rs store (results_list store order) now')) = PhaseSettled).
Definition settled (name : string) (version : Z) (h : list (event sop)) : Prop :=
  ∃ prepared, settled_with name version prepared h.

(** [prepared] is what [initialize] makes of the caller's resources: without
    test and nil ones, sorted, with the default namespace filled in where the
    kind is namespaced. *)
Definition prepares (opts : ApplyOptions) (resources prepared : list Unstructured) : Prop :=
  ∃ ns, prepared = map (setNamespace ns (o_Namespace opts)) (sortResources (cleanResources resources)).

(** When [Apply name] may delete the ResourceSet [n] after [h]: [n] is an
    older version of [name] than the set created in this run, which is
    [settled]. *)
Definition prune_guard (name : string) (h : list (event sop)) (o : sop) : Prop :=
  match o with
  | DeleteResourceSet n =>
      ∃ v version, decodeResourceSetName n = Some (Some (name, v)) ∧ (v < version)%Z ∧
        settled name version h
  | DeleteResourceSets _ => False
  | _ => True
  end.

(** The same for the resources of this run. *)
Definition prune_guard_for (name : string) (opts : ApplyOptions) (resources : list Unstructured)
    (h : list (event sop)) (o : sop) : Prop :=
  match o with
  | DeleteResourceSet n =>
      ∃ v version prepared, decodeResourceSetName n = Some (Some (name, v)) ∧ (v < version)%Z ∧
        prepares opts resources prepared ∧ settled_with name version prepared h
  | DeleteResourceSets _ => False
  | _ => True
  end.
Lemma prune_guard_for_weak name opts resources h o : prune_guard_for name opts resources h o → prune_guard name h o.
Proof.
  destruct o; try done. intros (v & version & prepared & Hd & Hv & _ & Hs). exists v, version. split_and!; [done..|].
  by exists prepared.
Qed.

Lemma settled_app name version prepared h0 h h' :
  settled_with name version prepared h → settled_with name version prepared (h0 ++ h ++ h')%list.
Proof.
  intros (now & rs & store & res & order & now' & u & Hc & Hi & Hl & Hk & Hn & Ho & Hu & Hs).
  exists now, rs, store, res, order, now', u.
  split_and!; try done; [set_solver|by apply installed_app|set_solver].
Qed.
Lemma prune_guard_app name h0 h n :
  prune_guard name h (DeleteResourceSet n) → prune_guard name (h0 ++ h)%list (DeleteResourceSet n).
Proof.
  intros (v & version & Hd & Hv & prepared & Hs). exists v, version. split_and!; [done..|]. exists prepared.
  rewrite <-(app_nil_r h). by apply settled_app.
Qed.

Lemma withResults_settled rs store l now :
  rss_Failed (rs_Status rs) = [] → (∀ x, x ∈ l → err x = None) →
  rss_Phase (rs_Status (withResults rs store l now)) = PhaseSettled.
Proof.
  intros Hf Hall. unfold withResults. cbn [rs_Status rss_Phase]. rewrite Hf.
  assert (filter (λ r, err r ≠ None) l = []) as ->.
  { induction l as [|x l IH]; [done|]. rewrite filter_cons_False; [apply IH|].
    - intros y Hy. apply Hall. by right.
    - intros Hx. apply Hx, Hall. by left. }
  cbn. unfold sortStatusGroups. by vm_compute.
Qed.

Lemma deleteResourceSets_guard name version h G :
  (∀ t n v, decodeResourceSetName n = Some (Some (name, v)) → (v < version)%Z →
     G (h ++ t)%list (DeleteResourceSet n)) →
  (∀ t, G (h ++ t)%list ListResourceSets) →
  hwp any_answer G any_panic h (deleteResourceSets name version) (λ h' _, ∃ t, h' = (h ++ t)%list).
Proof.
  intros HG HL. unfold deleteResourceSets. cbn [hwp prog_bind call].
  split; [specialize (HL []); by rewrite app_nil_r in HL|]. intros [items|e] _; [|by eexists].
  apply hwp_bind, (hwp_for_each _ _ _ _ _ (λ h' _, ∃ t, h' = (h ++ t)%list)).
  - intros h' r [] _ [t ->]. unfold deleteResourceSets_body.
    destruct (decodeResourceSetName (u_Name r)) as [[[n v]|]|] eqn:Hd; [|by exists t|done].
    destruct (bool_decide_reflect (n = name)) as [->|]; [|by exists t].
    destruct (Z.leb_spec version v); [by exists t|]. cbn [negb orb hwp prog_bind call].
    split; [by eapply HG|]. intros [err|] _; cbn [hwp]; eexists; by rewrite <-(assoc_L (++)).
  - intros h' [] Ht. exact Ht.
  - by eexists.
Qed.

Lemma Apply_guard_for L name opts resources :
  let opts0 := setName name (default (mkApplyOptions "" 0 "" false false) opts) in
  hwp any_answer (prune_guard_for name opts0 resources) any_panic [] (Apply L name opts resources)
    (λ h r, r.2 = None → ∃ version prepared, prepares opts0 resources prepared ∧ settled_with name version prepared h).
Proof.
  intros opts0. unfold Apply. fold opts0.
  apply hwp_bind. eapply hwp_mono; [|apply (hwp_weaken _ (λ _, only_create_set)), initialize_ok].
  2: { by intros h []. }
  intros h1 [[[rs prepared] opts1]|e] Hi; [|done].
  destruct Hi as (now & ns & version & Hcr & -> & Hprep & _).
  set (created := newResourceSet _ _ _ _) in Hcr.
  assert (prepares opts0 resources prepared) as Hp by by exists ns. clear Hprep.
  apply hwp_bind. eapply (hwp_wp_exec _ _ _ no_set_write); [apply applyAll_quiet| |].
  { by intros t []. }
  intros t1 [[res applyErr] store] _ HA [Hlen Hres]. apply hwp_bind.
  unfold updateResourceSetStatus. cbn [hwp prog_bind call]. split; [done|].
  intros [order Hperm] _. split; [done|]. intros now2 _. split; [done|]. cbn [proj1_sig].
  intros [u|e] _; [|done]. destruct applyErr as [e|]; [done|].
  match goal with |- hwp _ _ _ ?h _ _ => set (h2 := h) end.
  assert (settled_with name version prepared h2) as Hs.
  { destruct (Hres eq_refl) as [Hok Hall]. exists now, rs, store, res, order, now2, u. split_and!; try done.
    - unfold h2. rewrite <-!(assoc_L (++)). apply elem_of_app. by left.
    - unfold h2. rewrite <-!(assoc_L (++)). by eapply installed_app, applyAll_installed.
    - intros i Hi. destruct (Hall i Hi) as (x & Hx & _). by exists x.
    - unfold h2. apply elem_of_app. right. by left.
    - intros Hf. apply withResults_settled; [done|]. intros x Hx. unfold results_list in Hx.
      rewrite sort_by_elem, list_elem_of_fmap in Hx. destruct Hx as ([k y] & -> & Hin).
      rewrite Hperm in Hin. apply elem_of_map_to_list in Hin. by eapply Hok. }
  cbn [hwp prog_bind]. apply hwp_bind.
  eapply hwp_mono; [|apply deleteResourceSets_guard]; [|intros t n v Hd Hv|done].
  - intros h d [t ->] _. exists version, prepared. split; [done|]. by apply (settled_app _ _ _ []).
  - cbn [o_version setVersion o_name opts0 setName] in Hv, Hd.
    exists v, version, prepared. split_and!; [done..|]. by apply (settled_app _ _ _ []).
Qed.
Lemma Apply_guard L name opts resources :
  hwp any_answer (prune_guard name) any_panic [] (Apply L name opts resources)
    (λ h r, r.2 = None → ∃ version, settled name version h).
Proof.
  eapply hwp_weaken; [|eapply hwp_mono; [|apply Apply_guard_for]].
  - intros h o. apply prune_guard_for_weak.
  - intros h r Hr Hnone. destruct (Hr Hnone) as (version & prepared & _ & Hs). by exists version, prepared.
Qed.

(** C2: [Apply] deletes an old ResourceSet only after everything was applied:
    the deleted set is an older version of the same application than the one
    this run created for exactly the caller's resources (less test and nil
    ones, with the default namespace); before the deletion the server accepted
    a write of each of them, and then the new set's status was stored, with a
    success for each and the phase Settled (if the server returned the created
    set without failures).  That a write of each was accepted needs that the
    server answers a write with the object at its address. *)
Theorem Apply_prunes_after_success L name opts resources tr out pre n a post :
  exec (Apply L name opts resources) tr out →
  tr = (pre ++ existT (DeleteResourceSet n) a :: post)%list →
  prune_guard_for name (setName name (default (mkApplyOptions "" 0 "" false false) opts)) resources
    pre (DeleteResourceSet n).
Proof.
  intros HE Htr. assert (answers any_answer tr) as HA by (clear HE Htr; by induction tr).
  destruct (hwp_exec _ _ _ _ _ _ _ _ (Apply_guard_for L name opts resources) HE HA) as [HG _].
  by apply (HG pre (existT (DeleteResourceSet n) a) post).
Qed.

(** ** How much work *)

Definition is_mapping (o : sop) : nat := match o with RESTMap _ => 1 | _ => 0 end.
Definition is_poll (o : sop) : nat := match o with Invalidate => 1 | _ => 0 end.

Ltac cost_tac :=
  repeat (cbn [cost_le prog_bind call];
    first
    [ match goal with
      | |- cost_le _ (match ?x with _ => _ end) _ => destruct x eqn:?
      | |- cost_le _ (let '_ := ?x in _) _ => destruct x eqn:?
      | |- cost_le _ (prog_bind _ _) 0 => apply (cost_le_bind _ _ _ 0 0); [|intros ?]
      end
    | split; [cbn; lia|intros ?; cbn [is_mapping is_poll Nat.sub]]
    | done ]).

Lemma applyOne_mappings L r set : cost_le is_mapping (applyOne L r set) 1.
Proof. unfold applyOne, applyOne_update, applyOne_replace, replace. cost_tac. Qed.
Lemma applyOne_polls L r set : cost_le is_poll (applyOne L r set) 0.
Proof. unfold applyOne, applyOne_update, applyOne_replace, replace. cost_tac. Qed.
Lemma logs_cost w opts u a (m : error → string) m' (e : option error) :
  (∀ u a b m, w (Log u a b m) = 0%nat) →
  cost_le w (match e with Some err => errorf opts u a (m err) | None => logf opts u a m' end) 0.
Proof. intros Hw. unfold logf, errorf. destruct e, (o_Log opts); cbn; rewrite ?Hw; by repeat split. Qed.

Section work.
Context (L : Libs) (rs : ResourceSet) (opts : ApplyOptions) (w : sop → nat) (c : nat).
Context (Hone : ∀ r, cost_le w (applyOne L r (Some rs)) c) (Hlog : ∀ u a b m, w (Log u a b m) = 0%nat).

Lemma applyCRD_cost i st : cost_le w (applyCRD L rs opts i st) c.
Proof.
  destruct st as [store res]. unfold applyCRD. apply (cost_le_mono _ _ (c + (0 + 0))); [lia|].
  apply cost_le_bind; [apply Hone|]. intros [[u a] e].
  apply cost_le_bind; [|done].
  by apply (logs_cost w opts u a (λ err, "failed to apply: " +:+ error_text err)).
Qed.
Lemma applyRegular_cost first i st : cost_le w (applyRegular L rs opts first i st) c.
Proof.
  destruct st as [cur [store res]]. unfold applyRegular. case_match; [done|].
  apply (cost_le_mono _ _ (c + (0 + 0))); [lia|]. apply cost_le_bind; [apply Hone|]. intros [[u a] e].
  apply cost_le_bind; [|done].
  by apply (logs_cost w opts u a (λ err, "failed to apply, may retry: " +:+ error_text err)).
Qed.
Lemma applyRounds_cost regulars n first prev st :
  cost_le w (applyRounds L rs opts regulars n first prev st) (n * (length regulars * c)).
Proof.
  revert first prev st. induction n as [|n IH]; intros first prev st; cbn [applyRounds]; [done|].
  apply cost_le_bind; [apply cost_le_loop; intros; apply applyRegular_cost|].
  intros [cur st']. case_match; [done|]. apply IH.
Qed.
End work.

Lemma crdAvailable_cost L u w :
  (∀ gv, w (ServerResourcesForGroupVersion gv) = 0%nat) → cost_le w (crdAvailable L u) 0.
Proof.
  intros Hw. unfold crdAvailable. destruct (convertCRD L u) as [crd|]; [|done].
  apply (cost_le_mono _ _ (length (map fst (filter (λ v, v.2 = true) (crd_Versions crd))) * 0 + 0)); [lia|].
  apply cost_le_bind; [|by intros [|]]. apply cost_le_for_each. intros v [] _.
  unfold crdVersion_body. cbn. rewrite Hw. split; [lia|]. intros [items|]; [by case_match|done].
Qed.
Lemma waitCRDs_cost L store crds w :
  (∀ gv, w (ServerResourcesForGroupVersion gv) = 0%nat) →
  cost_le w (waitCRDs L store crds) (61 * w Invalidate).
Proof.
  intros Hw. unfold waitCRDs. apply Retry_cost. intros []. cbn [prog_bind call cost_le].
  split; [lia|]. intros _. rewrite Nat.sub_diag.
  apply (cost_le_mono _ _ (length crds * 0 + 0)); [lia|].
  apply cost_le_bind; [|by intros [|]]. apply cost_le_for_each. intros i [] _.
  unfold waitCRD_body. apply (cost_le_mono _ _ (0 + 0)); [lia|].
  apply cost_le_bind; [by apply crdAvailable_cost|]. by intros [[]|].
Qed.

Lemma applyAll_cost L rs opts store w c :
  (∀ r, cost_le w (applyOne L r (Some rs)) c) → (∀ u a b m, w (Log u a b m) = 0%nat) →
  (∀ gv, w (ServerResourcesForGroupVersion gv) = 0%nat) → w ResetMapper = 0%nat →
  (∀ r, w (RangeResults r) = 0%nat) →
  let '(crds, regulars) := separateCRDsFromResources 0 store in
  cost_le w (applyAll L rs opts store) (length crds * c + 61 * w Invalidate + 10 * (length regulars * c)).
Proof.
  intros Hone Hlog Hsr Hrm Hrange. unfold applyAll.
  destruct (separateCRDsFromResources 0 store) as [crds regulars].
  rewrite <-Nat.add_assoc. apply cost_le_bind; [apply cost_le_loop; intros; by apply applyCRD_cost|].
  intros [store1 res1]. apply cost_le_bind; [by apply waitCRDs_cost|].
  intros [[e|] _]; [done|]. cbn [prog_bind call cost_le]. split; [lia|]. intros _.
  apply (cost_le_mono _ _ (10 * (length regulars * c) + 0)); [lia|].
  apply cost_le_bind; [by apply applyRounds_cost|]. intros [store2 res2]. cbn. rewrite Hrange.
  split; [lia|done].
Qed.

(** C3: [applyAll] ends whatever the server answers, after a bounded number of
    attempts: each CRD is applied at most once, each other resource at most ten
    times, and discovery is polled at most 61 times for the CRDs. *)
Theorem applyAll_bounded L rs opts store tr out :
  exec (applyAll L rs opts store) tr out →
  let '(crds, regulars) := separateCRDsFromResources 0 store in
  (cost is_mapping tr ≤ length crds + 10 * length regulars)%nat ∧ (cost is_poll tr ≤ 61)%nat.
Proof.
  intros HE.
  pose proof (applyAll_cost L rs opts store is_mapping 1) as H1.
  pose proof (applyAll_cost L rs opts store is_poll 0) as H2.
  destruct (separateCRDsFromResources 0 store) as [crds regulars]. split.
  - eapply cost_le_exec in HE; [|apply H1; intros; try done; apply applyOne_mappings]. cbn in HE. lia.
  - eapply cost_le_exec in HE; [|apply H2; intros; try done; apply applyOne_polls]. cbn in HE. lia.
Qed.

(** *** Witnesses on the small API server *)

Definition demoResources : list Unstructured :=
  [mkU false "batch/v1" "Job" (namedMeta "ns" "a") []; mkU false "batch/v1" "Job" (namedMeta "ns" "b") [];
   mkU false "apiextensions.k8s.io/v1" "CustomResourceDefinition" (namedMeta "" "crd") []].
Definition demoOptions : ApplyOptions := mkApplyOptions "app" 0 "ns" true true.

Lemma applyAll_bounded_witness :
  (cost is_mapping (trace_of (run (demoAPI [] []) (applyAll demoLibs (demoSet "app.v1") demoOptions demoResources) tt)) ≤ 21)%nat.
Proof.
  destruct (run_exec_some (demoAPI [] []) (applyAll demoLibs (demoSet "app.v1") demoOptions demoResources) tt)
    as (out & _ & HE); [by vm_compute|].
  apply applyAll_bounded in HE as [Hb _]. cbn in Hb. exact Hb.
Defined.

Lemma applyAll_complete_witness :
  let p := applyAll demoLibs (demoSet "app.v1") demoOptions demoResources in
  calls no_set_write (trace_of (run (demoAPI [] []) p tt)).
Proof.
  intros p. destruct (run_exec_some (demoAPI [] []) p tt) as (out & Hout & HE); [by vm_compute|].
  assert (match outcome_of (run (demoAPI [] []) p tt) with
          | Some (Done (_, None, _)) => true | _ => false end = true) as Hb by by vm_compute.
  rewrite Hout in Hb. destruct out as [[[res [e|]] store']|]; [done| |done].
  by apply applyAll_complete in HE as [Hc _].
Defined.

(** The small server answers writes with the objects at their addresses, so
    what [installed] asks for holds of its traces. *)
Definition demoIdent (t : target) (n : string) : GVK * string * string :=
  let '((g, v, k), ns) := t in (mkGVK g v k, ns, n).
Definition faithful_b (ident : target → string → GVK * string * string) (prepared : list Unstructured)
    (e : event sop) : bool :=
  let back t n a := match a with Ok u => bool_decide (idOf u = ident t n) | Err _ => true end in
  match e with
  | existT o a => match o return resp o → bool with
      | Create t x => back t (u_Name x)
      | Update t x => back t (u_Name x)
      | Patch t n _ _ => back t n
      | RESTMap gvk => λ a, match a with
          | Ok m => forallb (λ u0, negb (bool_decide (GroupVersionKind u0 = gvk)) || bool_decide
              (ident (m_Resource m, if m_Root m then "" else u_Namespace u0) (u_Name u0) = idOf u0)) prepared
          | Err _ => true
          end
      | _ => λ _, true
      end a
  end.
Lemma faithful_b_true ident prepared t :
  forallb (faithful_b ident prepared) t = true → answers (faithful ident prepared) t.
Proof.
  induction t as [|[o a] t IH]; [done|]. cbn [forallb]. rewrite andb_true_iff. intros [Ho Ht].
  split; [|by apply IH]. clear IH Ht. destruct o; try exact I; cbn in *.
  1: { intros m u0 -> Hin Hg. rewrite forallb_forall in Ho. apply list_elem_of_In, Ho in Hin.
       rewrite (bool_decide_eq_true_2 _ Hg) in Hin. by apply bool_decide_eq_true in Hin. }
  all: by intros x ->; apply bool_decide_eq_true in Ho.
Qed.
Example demo_installs :
  let p := applyAll demoLibs (demoSet "app.v1") demoOptions demoResources in
  answers (faithful demoIdent demoResources) (trace_of (run (demoAPI [] []) p tt)) ∧
  ∀ u0, u0 ∈ demoResources → ∃ u, written (trace_of (run (demoAPI [] []) p tt)) u ∧ resourceKey u = resourceKey u0.
Proof.
  intros p. assert (answers (faithful demoIdent demoResources) (trace_of (run (demoAPI [] []) p tt))) as Ha
    by (apply faithful_b_true; vm_compute; reflexivity).
  split; [exact Ha|].
  destruct (run_exec_some (demoAPI [] []) p tt) as (out & Hout & HE); [by vm_compute|].
  assert (match outcome_of (run (demoAPI [] []) p tt) with
          | Some (Done (_, None, _)) => true | _ => false end = true) as Hb by by vm_compute.
  rewrite Hout in Hb. destruct out as [[[res [e|]] store']|]; [done| |done].
  exact (applyAll_installed _ _ _ _ _ _ _ HE demoIdent Ha).
Qed.

Lemma Apply_prunes_after_success_witness :
  let p := Apply demoLibs "app" (Some demoOptions) demoResources in
  let tr := trace_of (run (demoAPI [] ["app.v1"; "other.v1"]) p tt) in
  ∃ i a, tr !! i = Some (existT (DeleteResourceSet "app.v1") a) ∧
    prune_guard_for "app" (setName "app" demoOptions) demoResources (take i tr) (DeleteResourceSet "app.v1").
Proof.
  intros p tr.
  destruct (run_exec_some (demoAPI [] ["app.v1"; "other.v1"]) p tt) as (out & _ & HE); [by vm_compute|].
  assert (tr !! 24 = Some (existT (DeleteResourceSet "app.v1") None)) as Ht.
  { by vm_compute. }
  exists 24%nat, None. split; [done|].
  eapply (Apply_prunes_after_success demoLibs "app" (Some demoOptions) demoResources tr out _ "app.v1" None (drop 25 tr) HE).
  symmetry. by apply take_drop_middle.
Defined.

(** ** The stored status *)

Lemma addToGroup_perm {I} gvk (x : I) g :
  concat (snd <$> addToGroup gvk x g) ≡ₚ x :: concat (snd <$> g).
Proof.
  induction g as [|[k l] g IH]; cbn; [done|]. case_bool_decide; cbn.
  - rewrite <-(assoc_L (++)). cbn. by rewrite Permutation_middle.
  - rewrite IH. by rewrite Permutation_middle.
Qed.
Lemma addToGroup_keys {I} gvk (x : I) g :
  NoDup g.*1 → NoDup (addToGroup gvk x g).*1 ∧ ∀ k, k ∈ (addToGroup gvk x g).*1 → k = gvk ∨ k ∈ g.*1.
Proof.
  induction g as [|[k l] g IH]; cbn; intros Hnd.
  { split; [apply NoDup_singleton|]. intros k Hk. left. by apply list_elem_of_singleton. }
  apply NoDup_cons in Hnd as [Hk Hnd]. destruct (IH Hnd) as [IH1 IH2]. case_bool_decide; cbn.
  - split; [by apply NoDup_cons|]. auto.
  - split; [|set_solver]. apply NoDup_cons. split; [|done]. intros Hin%IH2. naive_solver.
Qed.
Lemma groupBy_go {X I} (kind : X → GVK) (item : X → I) l g :
  NoDup g.*1 →
  let r := fold_left (λ g x, addToGroup (kind x) (item x) g) l g in
  concat (snd <$> r) ≡ₚ concat (snd <$> g) ++ map item l ∧ NoDup r.*1.
Proof.
  revert g. induction l as [|x l IH]; intros g Hnd; cbn; [by rewrite app_nil_r|].
  destruct (IH (addToGroup (kind x) (item x) g)) as [IH1 IH2]; [by apply addToGroup_keys|].
  split; [|done]. rewrite IH1, addToGroup_perm. cbn. by rewrite Permutation_middle.
Qed.
Lemma groupBy_spec {X I} (kind : X → GVK) (item : X → I) l :
  concat (snd <$> groupBy kind item l) ≡ₚ map item l ∧ NoDup (groupBy kind item l).*1.
Proof. apply (groupBy_go kind item l []). constructor. Qed.

Definition items (l : list ResourceSetStatusGroup) : list ResourceStatus := concat (map tg_Items l).
Lemma statusGroups_items store l : items (statusGroups store l) ≡ₚ map (resultStatus store) l.
Proof.
  unfold items, statusGroups. rewrite map_map.
  rewrite <-(proj1 (groupBy_spec (λ r, GroupVersionKind (at_ store (resource r))) (resultStatus store) l)).
  induction (groupBy _ _ l) as [|[k g] gs IH]; [done|]. cbn. by rewrite IH.
Qed.
#[export] Instance items_perm : Proper ((≡ₚ) ==> (≡ₚ)) items.
Proof. intros l l' Hl. unfold items. by rewrite Hl. Qed.
Lemma items_app l l' : items (l ++ l') = (items l ++ items l')%list.
Proof. unfold items. by rewrite map_app, concat_app. Qed.

(** the status stored after a run reports every result exactly once, under
    Applied without an error text and under Failed with it, on top of what the
    server returned; each list is in the order of the group keys; and the phase
    is Settled exactly when nothing is listed as failed. *)
Theorem withResults_complete rs store l now :
  let st := rs_Status (withResults rs store l now) in
  items (rss_Applied st) ≡ₚ items (rss_Applied (rs_Status rs))
    ++ map (resultStatus store) (filter (λ r, err r = None) l) ∧
  items (rss_Failed st) ≡ₚ items (rss_Failed (rs_Status rs))
    ++ map (resultStatus store) (filter (λ r, err r ≠ None) l) ∧
  (rss_Phase st = PhaseSettled ↔ rss_Failed st = []) ∧ (rss_Phase st = PhaseFailed ↔ rss_Failed st ≠ []) ∧
  StronglySorted (key_le (λ g, gvkKey (tg_Group g) (tg_Version g) (tg_Kind g))) (rss_Applied st) ∧
  StronglySorted (key_le (λ g, gvkKey (tg_Group g) (tg_Version g) (tg_Kind g))) (rss_Failed st) ∧
  rss_StartedAt st = rss_StartedAt (rs_Status rs) ∧ rss_FinishedAt st = now.
Proof.
  cbn zeta. unfold withResults. cbn [rs_Status rss_Applied rss_Failed rss_Phase rss_StartedAt rss_FinishedAt].
  unfold sortStatusGroups. split_and!; try done; try apply sort_by_sorted.
  - by rewrite sort_by_perm, items_app, statusGroups_items.
  - by rewrite sort_by_perm, items_app, statusGroups_items.
  - case_bool_decide; naive_solver.
  - case_bool_decide; naive_solver.
Qed.
