(* ===== verification/Rollout.v ===== *)
(** * src/go/pkg/controller/approllout: from rollouts to chart assignments

    [Module Values] models Go's maps of configuration values as a heap, since
    [MergeInto] shares nested maps between the values it merges; [Module
    Model] translates controller.go.  The properties follow. *)
From stdpp Require Import prelude strings gmap list sorting pretty.
From Stdlib Require Import ZArith Sorting.Sorted.
From S2P Require Import Prelude GoErr GoStr Kube Coretools Tenant Apps.

Open Scope string_scope.
Open Scope prog_scope.

(** ** chartutil.Values (vendor/k8s.io/helm/pkg/chartutil/values.go) *)
Module Values.

(** A Go value inside a map: a reference to another map, or anything else. *)
Abbreviation loc := nat.
Inductive cval := CTable (l : loc) | CVal (j : json).
Abbreviation table := (gmap string cval).
Record heap := mkHeap { h_next : loc; h_tables : gmap loc table }.
Definition h_get (h : heap) (l : loc) : table := default ∅ (h_tables h !! l).
Definition h_put (l : loc) (t : table) (h : heap) : heap := mkHeap (h_next h) (<[l:=t]> (h_tables h)).
Definition h_new (t : table) (h : heap) : loc * heap :=
  (h_next h, mkHeap (S (h_next h)) (<[h_next h:=t]> (h_tables h))).

(** Decoding JSON builds fresh maps. *)
Fixpoint load (j : json) (h : heap) : cval * heap :=
  match j with
  | JObj fields =>
      let '(t, h) := (fix go l h t :=
        match l with
        | [] => (t, h)
        | (k, j) :: l => let '(v, h) := load j h in go l h (<[k:=v]> t)
        end) fields h ∅ in
      let '(l, h) := h_new t h in (CTable l, h)
  | j => (CVal j, h)
  end.
Definition loadFields (fields : list (string * json)) (h : heap) (t : table) : table * heap :=
  (fix go l h t :=
     match l with
     | [] => (t, h)
     | (k, j) :: l => let '(v, h) := load j h in go l h (<[k:=v]> t)
     end) fields h t.
Definition loadValues (v : ConfigValues) (h : heap) : loc * heap :=
  let '(t, h) := loadFields v h ∅ in h_new t h.

(** The order in which Go ranges over a map can be any; [Ranges ord] says that
    [ord] is one. *)
Definition order : Type := heap → loc → list (string * cval).
Definition Ranges (ord : order) : Prop := ∀ h l, ord h l ≡ₚ map_to_list (h_get h l).

(** [v.MergeInto(src)]; [None] is a stack overflow of the recursion. *)
Definition merge_key (rec : loc → loc → heap → option heap) (v : loc)
    (oh : option heap) (kv : string * cval) : option heap :=
  h ← oh;
  match h_get h v !! kv.1, kv.2 with
  | Some (CTable destMap), CTable srcMap => rec destMap srcMap h
  | _, _ => Some (h_put v (<[kv.1:=kv.2]> (h_get h v)) h)
  end.
Fixpoint MergeInto (ord : order) (fuel : nat) (v src : loc) (h : heap) : option heap :=
  match fuel with
  | O => None
  | S fuel => foldl (merge_key (MergeInto ord fuel) v) (Some h) (ord h src)
  end.

(** Serialising reads the maps behind a value, keys in order. *)
Fixpoint resolve (fuel : nat) (h : heap) (v : cval) : option json :=
  match v with
  | CVal j => Some j
  | CTable l =>
      match fuel with
      | O => None
      | S fuel =>
          JObj <$> mapM (λ kv : string * cval, (λ j, (kv.1, j)) <$> resolve fuel h kv.2)
                     (sort_by fst (map_to_list (h_get h l)))
      end
  end.
Definition resolveValues (fuel : nat) (h : heap) (l : loc) : option ConfigValues :=
  match resolve fuel h (CTable l) with
  | Some (JObj fields) => Some fields
  | _ => None
  end.
End Values.

Module Model.
Import Values.

(** ** Data *)

Definition fieldIndexOwners := "metadata.ownerReferences.uid".
Definition fieldIndexAppName := "spec.appName".
Definition labelRobotName := "cloudrobotics.com/robot-name".
Definition LastAppliedConfigAnnotation := "kubectl.kubernetes.io/last-applied-configuration".
Definition compTypeRobot := "robot".
Definition compTypeCloud := "cloud".

(** Of a [registry.Robot] only the metadata is read. *)
Abbreviation Robot := ObjectMeta.
Definition Tenant : Type := Tenant.Model.Tenant.
Definition t_Name (t : Tenant) : string := Tenant.Model.t_Name t.
Definition emptyTenant : Tenant :=
  Tenant.Model.mkTenant emptyMeta "" (Tenant.Model.mkTenantStatus 0 0 "" "" [] []).

Inductive rkind := KApp | KAppRollout | KChartAssignment | KRobot | KTenant.
#[export] Instance rkinds : Kinds rkind := λ k,
  match k with
  | KApp => App
  | KAppRollout => AppRollout
  | KChartAssignment => ChartAssignment
  | KRobot => Robot
  | KTenant => Tenant
  end.

(** The API client, and the order in which Go ranges over the map of chart
    assignments to drop. *)
Inductive rop : Type :=
| K (o : kop rkind)
| RangeCAs (m : gmap string ChartAssignment).
#[export] Instance rop_effect : Effect rop := λ o,
  match o with
  | K o => resp o
  | RangeCAs m => {l : list (string * ChartAssignment) | l ≡ₚ map_to_list m}
  end.

(** The libraries: selectors, YAML, name validation, map iteration order, and
    the depth of Go's stack. *)
Record Libs := mkLibs {
  LabelSelectorAsSelector : LabelSelector → result (strmap → bool);
  yamlMarshal : ChartAssignmentSpec → result string;
  NameIsDNSSubdomain : string → list string;
  rangeOrder : order;
  stackDepth : nat }.

(** A chart assignment under construction holds the reference to its values;
    they are read when the client serialises it. *)
Record wantCA := mkWantCA { w_ca : ChartAssignment; w_values : loc }.

(** ** Helpers *)

Definition setLabel (o : ObjectMeta) (k v : string) : ObjectMeta :=
  om_setLabels (sm_set (om_Labels o) k v) o.
Definition setAnnotation (o : ObjectMeta) (k v : string) : ObjectMeta :=
  om_setAnnotations (sm_set (om_Annotations o) k v) o.

Definition appNamespaceName (namespace rollout : string) : string :=
  if bool_decide (namespace = "default") then "app-" ++ rollout
  else namespace ++ "-app-" ++ rollout.

Definition chartAssignmentName (rollout typ robot : string) : string :=
  if bool_decide (robot = "") then rollout ++ "-" ++ typ
  else rollout ++ "-" ++ typ ++ "-" ++ robot.

Fixpoint upsertOwner (ref : OwnerReference) (l : list OwnerReference) : list OwnerReference :=
  match l with
  | [] => [ref]
  | o :: l => if bool_decide (or_UID ref = or_UID o) then ref :: l else o :: upsertOwner ref l
  end.
Definition setOwnerReference (om : ObjectMeta) (ref : OwnerReference) : ObjectMeta :=
  om_setOwnerReferences (upsertOwner ref (om_OwnerReferences om)) om.

Definition indexOwnerReferences (ca : ChartAssignment) : list string :=
  or_UID <$> om_OwnerReferences (ca_meta ca).
Definition indexAppName (ar : AppRollout) : list string := [ars_AppName (ar_Spec ar)].

Definition ar_setConditions (l : list Condition) (ar : AppRollout) : AppRollout :=
  let '(mkAppRolloutStatus a _ c d e f) := ar_Status ar in
  ar_setStatus (mkAppRolloutStatus a l c d e f) ar.
Definition setCondition (ar : AppRollout) (t : string) (s : ConditionStatus) (msg : string)
    : prog rop AppRollout :=
  let! now := call (K KNow) in
  Ret (ar_setConditions (upsertCondition now t s msg (art_Conditions (ar_Status ar))) ar).

Section generate.
Context (L : Libs).

(** [v.MergeInto(src)] and [v.MergeInto(chartutil.Values{key: val})] for a
    value that is no map. *)
Definition merge (v src : loc) (h : heap) : prog rop heap :=
  match MergeInto (rangeOrder L) (stackDepth L) v src h with
  | Some h => Ret h
  | None => Panic "stack overflow"
  end.
Definition mergeKey (v : loc) (key : string) (val : json) (h : heap) : prog rop heap :=
  let '(src, h) := h_new {[key := CVal val]} h in merge v src h.

Definition newBaseChartAssignment (app : App) (rollout : AppRollout) (comp : AppComponent)
    : ChartAssignment :=
  let m := map_fold (λ k v m, setLabel m k v) emptyMeta (default ∅ (om_Labels (ar_meta rollout))) in
  let m := map_fold (λ k v m, if bool_decide (k = LastAppliedConfigAnnotation) then m
                              else setAnnotation m k v) m
             (default ∅ (om_Annotations (ar_meta rollout))) in
  let chart := if negb (bool_decide (cmp_Name comp = ""))
               then mkAssignedChart (as_Repository (app_Spec app)) (cmp_Name comp)
                      (as_Version (app_Spec app)) "" []
               else emptyAssignedChart in
  mkChartAssignment "" "" m
    (mkChartAssignmentSpec "" (appNamespaceName (ar_Namespace rollout) (ar_Name rollout))
       (ch_setInline (cmp_Inline comp) chart))
    (ca_Status emptyChartAssignment).

(** [robotValues] as its JSON tags serialise it, and Go slices. *)
Definition robotValues (name : string) : json := JObj [("name", JString name)].
Definition jsonSlice {A} (f : A → json) (l : list A) : json :=
  match l with [] => JNull | _ => JList (f <$> l) end.

Definition named (name : string) (ca : ChartAssignment) : ChartAssignment :=
  ca_setMeta (om_setName name (ca_meta ca)) ca.

Definition newCloudChartAssignment (app : App) (rollout : AppRollout) (tenant : Tenant)
    (values cloudValues : loc) (robots : list Robot) (h : heap) : prog rop (wantCA * heap) :=
  let ca := newBaseChartAssignment app rollout (cmps_Cloud (as_Components (app_Spec app))) in
  let ca := named (chartAssignmentName (ar_Name rollout) compTypeCloud "") ca in
  let ca := ca_setMeta (om_setNamespace (ar_Namespace rollout) (ca_meta ca)) ca in
  let ca := ca_setSpec (cas_setClusterName "cloud" (ca_Spec ca)) ca in
  let robotValuesList := jsonSlice (λ r, robotValues (om_Name r)) robots in
  let '(vals, h) := h_new ∅ h in
  let! h := merge vals values h in
  let! h := merge vals cloudValues h in
  let! h := mergeKey vals "robots" robotValuesList h in
  let st := Tenant.Model.t_Status tenant in
  if negb (bool_decide (t_Name tenant = "")) then
    let! h := mergeKey vals "tenant" (JString (t_Name tenant)) h in
    let! h := mergeKey vals "tenant_gateway" (JString (Tenant.Model.ts_Gateway st)) h in
    let! h := mergeKey vals "tenant_domain" (JString (Tenant.Model.ts_TenantDomain st)) h in
    let! h := mergeKey vals "tenant_namespaces"
                (jsonSlice JString (Tenant.Model.ts_TenantNamespaces st)) h in
    let! h := mergeKey vals "tenant_main_namespace" (JString (TenantMainNamespace (t_Name tenant))) h in
    Ret (mkWantCA ca vals, h)
  else Ret (mkWantCA ca vals, h).

Definition newRobotChartAssignment (robot : Robot) (app : App) (rollout : AppRollout)
    (tenant : Tenant) (spec : AppRolloutSpecRobot) (values specValues : loc) (h : heap)
    : prog rop (wantCA * heap) :=
  let ca := newBaseChartAssignment app rollout (cmps_Robot (as_Components (app_Spec app))) in
  let ca := named (chartAssignmentName (ar_Name rollout) compTypeRobot (om_Name robot)) ca in
  let ca := ca_setMeta (om_setNamespace (ar_Namespace rollout) (ca_meta ca)) ca in
  let ca := ca_setMeta (setLabel (ca_meta ca) labelRobotName (om_Name robot)) ca in
  let ca := ca_setSpec (cas_setClusterName (om_Name robot) (ca_Spec ca)) ca in
  let ca := if negb (bool_decide (rr_Version spec = ""))
            then ca_setSpec (cas_setChart (ch_setVersion (rr_Version spec) (cas_Chart (ca_Spec ca)))
                               (ca_Spec ca)) ca
            else ca in
  let '(vals, h) := h_new ∅ h in
  let! h := merge vals values h in
  let! h := merge vals specValues h in
  let! h := mergeKey vals "robot" (robotValues (om_Name robot)) h in
  let st := Tenant.Model.t_Status tenant in
  if negb (bool_decide (t_Name tenant = "")) then
    let! h := mergeKey vals "tenant" (JString (t_Name tenant)) h in
    let! h := mergeKey vals "tenant_domain" (JString (Tenant.Model.ts_TenantDomain st)) h in
    let! h := mergeKey vals "tenant_namespaces"
                (jsonSlice JString (Tenant.Model.ts_TenantNamespaces st)) h in
    let! h := mergeKey vals "tenant_main_namespace" (JString (TenantMainNamespace (t_Name tenant))) h in
    Ret (mkWantCA ca vals, h)
  else Ret (mkWantCA ca vals, h).

(** A nil [sel] is dereferenced. *)
Definition matchingRobots (robots : list Robot) (sel : option RobotSelector)
    : prog rop (result (list Robot)) :=
  match sel with
  | None => Panic "nil selector"
  | Some sel =>
      if bool_decide (rsel_Any sel = Some true) then Ret (Ok robots)
      else match rsel_LabelSelector sel with
           | None => Ret (Ok [])
           | Some ls =>
               match LabelSelectorAsSelector L ls with
               | Err err => Ret (Err err)
               | Ok selector => Ret (Ok (filter (λ r, selector (om_Labels r) = true) robots))
               end
           end
  end.

(** The loops of [generateChartAssignments]. *)
Definition gstate : Type := gmap string Robot * list wantCA * heap.
Definition wanted (comp : AppComponent) : bool :=
  negb (bool_decide (cmp_Name comp = "")) || negb (bool_decide (cmp_Inline comp = "")).

Definition generate_robot (app : App) (rollout : AppRollout) (tenant : Tenant) (base : loc)
    (rcomp : AppRolloutSpecRobot) (vals : loc) (r : Robot) (s : gstate)
    : prog rop (error * heap + gstate) :=
  let '(selectedRobots, cas, h) := s in
  if is_some (selectedRobots !! om_Name r) then Ret (inl (ERobotSelectorOverlap (om_Name r), h))
  else
    let selectedRobots := <[om_Name r:=r]> selectedRobots in
    if wanted (cmps_Robot (as_Components (app_Spec app))) then
      let! '(ca, h) := newRobotChartAssignment r app rollout tenant rcomp base vals h in
      Ret (inr (selectedRobots, (cas ++ [ca])%list, h))
    else Ret (inr (selectedRobots, cas, h)).

Definition generate_spec (app : App) (rollout : AppRollout) (tenant : Tenant)
    (allRobots : list Robot) (base : loc) (rcomp : AppRolloutSpecRobot * loc) (s : gstate)
    : prog rop (error * heap + gstate) :=
  let! m := matchingRobots allRobots (rr_Selector rcomp.1) in
  match m with
  | Err err => Ret (inl (EWrap "select robots" err, s.2))
  | Ok robots => for_each (generate_robot app rollout tenant base rcomp.1 rcomp.2) robots s
  end.

(** The values of the rollout's spec, as decoded with it. *)
Fixpoint loadSpecs (specs : list AppRolloutSpecRobot) (h : heap)
    : list (AppRolloutSpecRobot * loc) * heap :=
  match specs with
  | [] => ([], h)
  | s :: specs =>
      let '(l, h) := loadValues (rr_Values s) h in
      let '(specs, h) := loadSpecs specs h in
      ((s, l) :: specs, h)
  end.

Definition w_Name (w : wantCA) : string := ca_Name (w_ca w).

Definition generateChartAssignments (app : App) (rollout : AppRollout) (tenant : Tenant)
    (allRobots : list Robot) (baseValues : loc) (h : heap)
    : prog rop (result (list wantCA) * heap) :=
  let '(cloudValues, h) := loadValues (ars_CloudValues (ar_Spec rollout)) h in
  let '(specs, h) := loadSpecs (ars_Robots (ar_Spec rollout)) h in
  let! s := for_each (generate_spec app rollout tenant allRobots baseValues) specs (∅, [], h) in
  match s with
  | inl (err, h) => Ret (Err err, h)
  | inr (selectedRobots, cas, h) =>
      if wanted (cmps_Cloud (as_Components (app_Spec app))) then
        let robots := sort_by om_Name (map_to_list selectedRobots).*2 in
        let! '(ca, h) := newCloudChartAssignment app rollout tenant baseValues cloudValues robots h in
        Ret (Ok (sort_by w_Name (cas ++ [ca])%list), h)
      else Ret (Ok (sort_by w_Name cas), h)
  end.
End generate.

(** ** The reconciler *)

Record Result := mkResult { rs_RequeueAfter : Z }.
(** What the process keeps: the maps [baseValues] refers to.  A reconciliation
    returns them as it leaves them. *)
Record Reconciler := mkReconciler { baseValues : loc }.
Abbreviation done h err := (Ret (mkResult 0, err, h)).

(** Serialisation of a chart assignment for the client. *)
Definition rendered (L : Libs) (h : heap) (w : wantCA) : option ChartAssignment :=
  v ← resolveValues (stackDepth L) h (w_values w);
  Some (ca_setSpec (cas_setChart (ch_setValues v (cas_Chart (ca_Spec (w_ca w)))) (ca_Spec (w_ca w)))
          (w_ca w)).
Definition render (L : Libs) (h : heap) (w : wantCA) : prog rop ChartAssignment :=
  match rendered L h w with
  | Some ca => Ret ca
  | None => Panic "stack overflow"
  end.

Definition updateErrorStatus (ar : AppRollout) (msg : string) : prog rop (option error) :=
  let! ar := setCondition ar AppRolloutConditionSettled ConditionFalse msg in
  let! u := call (K (KStatusUpdate KAppRollout ar)) in
  match u with
  | Err err => Ret (Some (EWrap "update status" err))
  | Ok _ => Ret None
  end.

Definition countCA (s : AppRolloutStatus) (ca : ChartAssignment) : AppRolloutStatus :=
  let '(mkAppRolloutStatus a b c settled ready failed) := s in
  let phase := cat_Phase (ca_Status ca) in
  if bool_decide (phase = ChartAssignmentPhaseReady)
  then mkAppRolloutStatus a b c (settled + 1) (ready + 1) failed
  else if bool_decide (phase = ChartAssignmentPhaseSettled)
  then mkAppRolloutStatus a b c (settled + 1) ready failed
  else if bool_decide (phase = ChartAssignmentPhaseFailed)
  then mkAppRolloutStatus a b c settled ready (failed + 1)
  else s.

Definition setStatus (ar : AppRollout) (numWantCAs : Z) (curCAs : list ChartAssignment)
    : prog rop AppRollout :=
  let '(mkAppRolloutStatus a b _ d e f) := ar_Status ar in
  let st := foldl countCA (mkAppRolloutStatus a b numWantCAs d e f) curCAs in
  let ar := ar_setStatus st ar in
  let want := art_Assignments st in
  let! ar :=
    if bool_decide (art_SettledAssignments st = want)
    then setCondition ar AppRolloutConditionSettled ConditionTrue ""
    else setCondition ar AppRolloutConditionSettled ConditionFalse
           (fmt_d (art_SettledAssignments st) ++ "/" ++ fmt_d want ++ " ChartAssignments settled") in
  if bool_decide (art_ReadyAssignments st = want)
  then setCondition ar AppRolloutConditionReady ConditionTrue ""
  else setCondition ar AppRolloutConditionReady ConditionFalse
         (fmt_d (art_ReadyAssignments st) ++ "/" ++ fmt_d want ++ " ChartAssignments ready").

Definition chartAssignmentChanged (L : Libs) (prev cur : ChartAssignment) : result bool :=
  if negb (bool_decide (om_Labels (ca_meta prev) = om_Labels (ca_meta cur))) then Ok true
  else if negb (bool_decide (om_Annotations (ca_meta prev) = om_Annotations (ca_meta cur))) then Ok true
  else match yamlMarshal L (ca_Spec prev) with
       | Err err => Err err
       | Ok prevSpec =>
           match yamlMarshal L (ca_Spec cur) with
           | Err err => Err err
           | Ok curSpec => Ok (negb (bool_decide (prevSpec = curSpec)))
           end
       end.

(** The owner reference of the rollout's assignments. *)
Definition ownerRef (ar : AppRollout) : OwnerReference :=
  mkOwnerReference (ar_APIVersion ar) (ar_Kind ar) (ar_Name ar) (om_UID (ar_meta ar))
    (Some true) (Some true).
Definition caName (ca : ChartAssignment) : string :=
  ca_Namespace ca ++ "/" ++ ca_Name ca.

(** Create or update one wanted assignment; the state is [dropCAs].
    Serialisation happens where the values are first read, and nothing writes
    to them in between. *)
Definition applyCA (L : Libs) (ar : AppRollout) (h : heap) (w : wantCA)
    (dropCAs : gmap string ChartAssignment)
    : prog rop (error + gmap string ChartAssignment) :=
  let! ca := render L h w in
  let ca := ca_setMeta (setOwnerReference (ca_meta ca) (ownerRef ar)) ca in
  let prev := dropCAs !! ca_Name ca in
  let dropCAs := base.delete (ca_Name ca) dropCAs in
  match prev with
  | None =>
      let! u := call (K (KCreate KChartAssignment ca)) in
      match u with
      | Err err => Ret (inl (EWrap ("create ChartAssignment " ++ caName ca) err))
      | Ok _ => Ret (inr dropCAs)
      end
  | Some prev =>
      match chartAssignmentChanged L prev ca with
      | Err err => Ret (inl (EWrap "check ChartAssignment changed" err))
      | Ok false => Ret (inr dropCAs)
      | Ok true =>
          let ca := ca_setMeta (om_setResourceVersion (om_ResourceVersion (ca_meta prev)) (ca_meta ca)) ca in
          let! u := call (K (KUpdate KChartAssignment ca)) in
          match u with
          | Err err => Ret (inl (EWrap ("update ChartAssignment " ++ caName ca) err))
          | Ok _ => Ret (inr dropCAs)
          end
      end
  end.

Definition deleteCA (kca : string * ChartAssignment) (_ : unit) : prog rop (error + unit) :=
  let! d := call (K (KDelete KChartAssignment kca.2)) in
  match d with
  | Some err => Ret (inl (EWrap ("delete ChartAssignment " ++ caName kca.2) err))
  | None => Ret (inr tt)
  end.

(** The part of [reconcile] that follows [generateChartAssignments]. *)
Definition applyWanted (L : Libs) (ar : AppRollout) (wantCAs : list wantCA)
    (curCAs : list ChartAssignment) (h : heap) : prog rop (Result * option error * heap) :=
  let dropCAs := foldl (λ m ca, <[ca_Name ca := ca]> m) ∅ curCAs in
  let! s := for_each (applyCA L ar h) wantCAs dropCAs in
  match s with
  | inl err => done h (Some err)
  | inr dropCAs =>
      let! order := call (RangeCAs dropCAs) in
      let! d := for_each deleteCA (`order) tt in
      match d with
      | inl err => done h (Some err)
      | inr _ =>
          let! ar := setStatus ar (Z.of_nat (length wantCAs)) curCAs in
          let! u := call (K (KStatusUpdate KAppRollout ar)) in
          match u with
          | Err err => done h (Some (EWrap "update status" err))
          | Ok _ => done h None
          end
      end
  end.

Definition resetStatus (ar : AppRollout) : AppRollout :=
  ar_setStatus (mkAppRolloutStatus (om_Generation (ar_meta ar)) (art_Conditions (ar_Status ar)) 0 0 0 0) ar.

(** The part of [reconcile] after the tenant was read. *)
Definition reconcileTenant (L : Libs) (r : Reconciler) (app : App) (ar : AppRollout)
    (curCAs : list ChartAssignment) (h : heap) (tenant : Tenant)
    : prog rop (Result * option error * heap) :=
  let! l := call (K (KList KRobot (InNamespace (ar_Namespace ar)))) in
  match l with
  | Err err => done h (Some (EWrap "list all Robots" err))
  | Ok robots =>
      let! '(w, h) := generateChartAssignments L app ar tenant robots (baseValues r) h in
      match w with
      | Err err =>
          match Cause err with
          | ERobotSelectorOverlap _ =>
              let! e := updateErrorStatus ar (error_text err) in done h e
          | _ => done h (Some (EWrap "generate ChartAssignments" err))
          end
      | Ok wantCAs => applyWanted L ar wantCAs curCAs h
      end
  end.

Definition reconcile (L : Libs) (r : Reconciler) (ar : AppRollout) (h : heap)
    : prog rop (Result * option error * heap) :=
  let ar := resetStatus ar in
  let! g := call (K (KGet KApp "" (ars_AppName (ar_Spec ar)))) in
  match g with
  | Err err => let! e := updateErrorStatus ar (error_text err) in done h e
  | Ok app =>
      let! l := call (K (KList KChartAssignment (MatchingFields fieldIndexOwners (om_UID (ar_meta ar))))) in
      match l with
      | Err err => done h (Some (EWrap ("list ChartAssignments for owner UID " ++ om_UID (ar_meta ar)) err))
      | Ok curCAs =>
          let tenantName := TrimPrefix (ar_Namespace ar) TenantPrefix in
          let! t := call (K (KGet KTenant "" tenantName)) in
          match t with
          | Ok tenant => reconcileTenant L r app ar curCAs h tenant
          | Err err =>
              if IsNotFound err then
                if bool_decide (ar_Namespace ar = "default")
                then reconcileTenant L r app ar curCAs h emptyTenant
                else done h (Some (EText ("Tenant " ++ tenantName ++ " not found")))
              else done h (Some (EWrap "get Tenant" err))
          end
      end
  end.

Definition Reconcile (L : Libs) (r : Reconciler) (ns name : string) (h : heap)
    : prog rop (Result * option error * heap) :=
  let! g := call (K (KGet KAppRollout ns name)) in
  match g with
  | Err err =>
      if IsNotFound err then done h None
      else done h (Some (EWrap ("get AppRollout " ++ fmt_q (ns ++ "/" ++ name)) err))
  | Ok ar => reconcile L r ar h
  end.

(** ** Events *)

Definition request : Type := string * string. (* namespace, name *)
Definition requestsOf (l : result (list AppRollout)) : list request :=
  match l with
  | Err _ => []
  | Ok items => (λ ar, (ar_Namespace ar, ar_Name ar)) <$> items
  end.
Definition enqueueForApp (appName : string) : prog rop (list request) :=
  let! l := call (K (KList KAppRollout (MatchingFields fieldIndexAppName appName))) in
  Ret (requestsOf l).
Definition enqueueForOwner (m : ObjectMeta) : list request :=
  (λ o, (om_Namespace m, or_Name o)) <$>
  filter (λ o, or_APIVersion o = "apps.cloudrobotics.com/v1alpha1" ∧ or_Kind o = "AppRollout")
    (om_OwnerReferences m).
Definition enqueueAll : prog rop (list request) :=
  let! l := call (K (KList KAppRollout All)) in
  Ret (requestsOf l).
Definition enqueueAllInNamespace (namespace : string) : prog rop (list request) :=
  let! l := call (K (KList KAppRollout (InNamespace namespace))) in
  Ret (requestsOf l).

(** The watches [Add] registers; a robot's deletion is handled three seconds
    later. *)
Inductive watchEvent :=
| RolloutEvent (m : ObjectMeta)
| AssignmentCreated (m : ObjectMeta)
| AssignmentUpdated (old new : ObjectMeta)
| AssignmentDeleted (m : ObjectMeta)
| RobotCreated (m : ObjectMeta)
| RobotUpdated (old new : ObjectMeta)
| RobotDeleted (m : ObjectMeta)
| AppEvent (m : ObjectMeta).
Definition after (delay : Z) (p : prog rop (list request)) : prog rop (Z * list request) :=
  let! l := p in Ret (delay, l).
Definition onEvent (e : watchEvent) : prog rop (Z * list request) :=
  match e with
  | RolloutEvent m => Ret (0%Z, [(om_Namespace m, om_Name m)])
  | AssignmentCreated _ => Ret (0%Z, [])
  | AssignmentUpdated _ m | AssignmentDeleted m => Ret (0%Z, enqueueForOwner m)
  | RobotCreated m => after 0 (enqueueAllInNamespace (om_Namespace m))
  | RobotUpdated old new =>
      let change := negb (bool_decide (om_Labels old = om_Labels new))
                    || negb (bool_decide (om_Name old = om_Name new)) in
      if change then after 0 (enqueueAllInNamespace (om_Namespace new)) else Ret (0%Z, [])
  | RobotDeleted m => after (3 * Second) (enqueueAllInNamespace (om_Namespace m))
  | AppEvent m => after 0 (enqueueForApp (om_Name m))
  end.

(** ** The validating webhook *)

Inductive Response := Allowed | Denied (msg : string) | Errored (code : Z) (e : error).

Definition has_key (k : string) (v : ConfigValues) : bool :=
  existsb (λ kv, bool_decide (kv.1 = k)) v.

Fixpoint validateRobots (i : Z) (l : list AppRolloutSpecRobot) : option error :=
  match l with
  | [] => None
  | r :: l =>
      if has_key "robot" (rr_Values r)
      then Some (EText ".spec.robots[].values.robot is a reserved field and must not be set")
      else match rr_Selector r with
           | None => Some (EText ("no selector provided for robots " ++ fmt_d i))
           | Some sel =>
               if negb (is_some (rsel_Any sel)) && negb (is_some (rsel_LabelSelector sel))
               then Some (EText ("empty selector for robots " ++ fmt_d i
                                 ++ " (matchLabels not specified?)"))
               else validateRobots (i + 1) l
           end
  end.

Definition validate (L : Libs) (cur : AppRollout) : option error :=
  if bool_decide (ars_AppName (ar_Spec cur) = "") then Some (EText "app name missing")
  else match NameIsDNSSubdomain L (ars_AppName (ar_Spec cur)) with
       | (_ :: _) as errs => Some (EText ("validate app name: " ++ Join errs ", "))
       | [] =>
           if has_key "robots" (ars_CloudValues (ar_Spec cur))
           then Some (EText ".spec.cloud.values.robots is a reserved field and must not be set")
           else validateRobots 0 (ars_Robots (ar_Spec cur))
       end.

(** [DecodeInto]'s answer is an argument. *)
Definition Handle (L : Libs) (decoded : result AppRollout) : Response :=
  match decoded with
  | Err err => Errored 400 err
  | Ok cur => match validate L cur with
              | Some err => Denied (error_text err)
              | None => Allowed
              end
  end.

End Model.

Import Values.

(** ** Facts about the heap of values *)

(** A heap without cycles: every table sits one level below the tables that
    refer to it, and no level exceeds [M]. *)
Record levelled (M : nat) (lv : loc → nat) (h : heap) : Prop := mkLevelled {
  lev_dom : ∀ l, is_Some (h_tables h !! l) → (l < h_next h)%nat;
  lev_child : ∀ l k l', h_get h l !! k = Some (CTable l') →
    (l' < h_next h)%nat ∧ lv l' = S (lv l) ∧ (lv l' ≤ M)%nat }.

(** What [MergeInto] leaves under a key. *)
Definition merged (d s : option cval) : option cval :=
  match s with
  | None => d
  | Some s => match d, s with Some (CTable d), CTable _ => Some (CTable d) | _, _ => Some s end
  end.

Lemma h_get_put_eq h l t : h_get (h_put l t h) l = t.
Proof. unfold h_get, h_put. cbn. by rewrite lookup_insert_eq. Qed.
Lemma h_get_put_ne h l l' t : l ≠ l' → h_get (h_put l t h) l' = h_get h l'.
Proof. intros ?. unfold h_get, h_put. cbn. by rewrite lookup_insert_ne. Qed.

Lemma levelled_put M lv h v t :
  levelled M lv h → (v < h_next h)%nat →
  (∀ k l', t !! k = Some (CTable l') → (l' < h_next h)%nat ∧ lv l' = S (lv v) ∧ (lv l' ≤ M)%nat) →
  levelled M lv (h_put v t h).
Proof.
  intros [Hd Hc] Hv Ht. split.
  - intros l. unfold h_put. cbn. destruct (decide (v = l)) as [->|?]; [done|].
    rewrite lookup_insert_ne by done. apply Hd.
  - intros l k l'. destruct (decide (v = l)) as [->|?].
    + rewrite h_get_put_eq. apply Ht.
    + rewrite h_get_put_ne by done. apply Hc.
Qed.

Section merge_facts.
Context (ord : order) (Hord : Ranges ord) (M : nat) (lv : loc → nat).

(** What a call of [MergeInto] on [v] does, with [kvs] the entries merged. *)
Definition merge_post (v : loc) (h : heap) (src : gmap string cval) (h' : heap) : Prop :=
  levelled M lv h' ∧ h_next h' = h_next h ∧
  (∀ l, (lv l ≤ lv v)%nat → l ≠ v → h_get h' l = h_get h l) ∧
  (∀ k, h_get h' v !! k = merged (h_get h v !! k) (src !! k)).

Definition child_ok (v : loc) (h : heap) (c : cval) : Prop :=
  match c with CTable l' => (l' < h_next h)%nat ∧ lv l' = S (lv v) ∧ (lv l' ≤ M)%nat | CVal _ => True end.

Lemma merge_fold_spec (rec : loc → loc → heap → option heap) v kvs h :
  (∀ d s h, levelled M lv h → (d < h_next h)%nat → (s < h_next h)%nat → lv d = S (lv v) →
     lv s = lv d → (lv d ≤ M)%nat → ∃ h', rec d s h = Some h' ∧ merge_post d h (h_get h s) h') →
  levelled M lv h → (v < h_next h)%nat → NoDup kvs.*1 → (∀ kv, kv ∈ kvs → child_ok v h kv.2) →
  ∃ h', foldl (merge_key rec v) (Some h) kvs = Some h' ∧ merge_post v h (list_to_map kvs) h'.
Proof.
  intros Hrec. revert h. induction kvs as [|[k c] kvs IH]; intros h Hlev Hv Hnd Hok.
  { exists h. split; [done|]. split_and!; try done. }
  cbn in Hnd. apply NoDup_cons in Hnd as [Hk Hnd].
  assert (∃ h1, merge_key rec v (Some h) (k, c) = Some h1 ∧ levelled M lv h1 ∧
    h_next h1 = h_next h ∧ (∀ l, (lv l ≤ lv v)%nat → l ≠ v → h_get h1 l = h_get h l) ∧
    (h_get h1 v = <[k := default c (merged (h_get h v !! k) (Some c))]> (h_get h v)))
    as (h1 & HE1 & Hl1 & Hn1 & Hf1 & Hg1).
  { pose proof (Hok (k, c) ltac:(by left)) as Hc. cbn in Hc. unfold merge_key. cbn.
    assert (∀ c', c' = c → child_ok v h c' → levelled M lv (h_put v (<[k:=c']> (h_get h v)) h)) as Hput.
    { intros c' -> Hc'. apply levelled_put; [done..|]. intros k' l'.
      destruct (decide (k = k')) as [->|?].
      - rewrite lookup_insert_eq. by intros [= ->].
      - rewrite lookup_insert_ne by done. by apply (lev_child _ _ _ Hlev). }
    destruct (h_get h v !! k) as [[d|j]|] eqn:Hd.
    - destruct c as [s|j]; cbn.
      + destruct (lev_child _ _ _ Hlev _ _ _ Hd) as (Hdn & Hdl & HdM). destruct Hc as (Hsn & Hsl & HsM).
        destruct (Hrec d s h) as (h1 & HE & (Hl1 & Hn1 & Hf1 & _)); [done..|lia|done|].
        exists h1. split_and!; try done.
        * intros l Hl Hlv. apply Hf1; [lia|]. intros ->. lia.
        * rewrite Hf1; [|lia|intros ->; lia]. by rewrite insert_id.
      + eexists. split; [done|]. split_and!; try done; [by apply Hput| |by rewrite h_get_put_eq].
        intros l _ ?. by rewrite h_get_put_ne.
    - eexists. split; [done|]. split_and!; try done; [by apply Hput| |by rewrite h_get_put_eq; destruct c].
      intros l _ ?. by rewrite h_get_put_ne.
    - eexists. split; [done|]. split_and!; try done; [by apply Hput| |by rewrite h_get_put_eq; destruct c].
      intros l _ ?. by rewrite h_get_put_ne. }
  destruct (IH h1) as (h2 & HE2 & Hl2 & Hn2 & Hf2 & Hg2); [done|by rewrite Hn1|done| |].
  { intros kv Hkv. specialize (Hok kv ltac:(by right)). unfold child_ok in *. by rewrite Hn1. }
  exists h2. cbn [foldl]. rewrite HE1. split; [done|]. split_and!.
  - done.
  - by rewrite Hn2.
  - intros l ??. rewrite Hf2 by done. by apply Hf1.
  - intros k'. rewrite Hg2, Hg1. cbn. destruct (decide (k = k')) as [->|?].
    + rewrite !lookup_insert_eq, (not_elem_of_list_to_map_1 kvs k') by done. cbn.
      by destruct (h_get h v !! k') as [[]|], c.
    + by rewrite !lookup_insert_ne.
Qed.

Lemma MergeInto_spec fuel v src h :
  levelled M lv h → (v < h_next h)%nat → (src < h_next h)%nat → lv src = lv v →
  (lv v ≤ M)%nat → (M < fuel + lv v)%nat →
  ∃ h', MergeInto ord fuel v src h = Some h' ∧ merge_post v h (h_get h src) h'.
Proof.
  revert v src h. induction fuel as [|fuel IH]; intros v src h Hlev Hv Hs Hls Hm Hf; [lia|].
  cbn [MergeInto]. pose proof (Hord h src) as Hp.
  destruct (merge_fold_spec (MergeInto ord fuel) v (ord h src) h) as (h' & HE & Hpost).
  - intros d s h0 ??? Hd ??. apply IH; try done. lia.
  - done.
  - done.
  - rewrite Hp. apply NoDup_fst_map_to_list.
  - intros [k c]. rewrite Hp, elem_of_map_to_list. cbn. intros Hk. destruct c as [l'|]; cbn; [|done].
    rewrite <-Hls. by apply (lev_child _ _ _ Hlev src k).
  - exists h'. split; [done|]. destruct Hpost as (?&?&?&Hg). split_and!; try done.
    intros k. rewrite Hg. f_equal. f_equal.
    rewrite (list_to_map_proper (ord h src) (map_to_list (h_get h src))); [|rewrite Hp; apply NoDup_fst_map_to_list|done].
    apply list_to_map_to_list.
Qed.
End merge_facts.

(** Levels of maps a JSON value nests. *)
Fixpoint jdepth (j : json) : nat :=
  match j with
  | JObj fields => S ((fix go (l : list (string * json)) :=
      match l with [] => O | (_, j) :: l => Nat.max (jdepth j) (go l) end) fields)
  | _ => O
  end.
Definition depth (v : ConfigValues) : nat := jdepth (JObj v).

(** The heap only grows, and keeps every map at the top level. *)
Record grows (lv : loc → nat) (h : heap) (lv' : loc → nat) (h' : heap) : Prop := mkGrows {
  gr_next : (h_next h ≤ h_next h')%nat;
  gr_lv : ∀ l, (l < h_next h)%nat → lv' l = lv l;
  gr_roots : ∀ l, (l < h_next h)%nat → lv l = O → h_get h' l = h_get h l }.

Lemma grows_refl lv h : grows lv h lv h.
Proof. split; [lia|done..]. Qed.
Lemma grows_trans lv1 h1 lv2 h2 lv3 h3 :
  grows lv1 h1 lv2 h2 → grows lv2 h2 lv3 h3 → grows lv1 h1 lv3 h3.
Proof.
  intros [Hn Hl Hr] [Hn' Hl' Hr']. split; [lia| |].
  - intros l ?. rewrite Hl' by lia. by apply Hl.
  - intros l ??. rewrite Hr'; [by apply Hr|lia|]. by rewrite Hl.
Qed.

Lemma h_new_spec M lv h n t :
  levelled M lv h →
  (∀ k l', t !! k = Some (CTable l') → (l' < h_next h)%nat ∧ lv l' = S n ∧ (lv l' ≤ M)%nat) →
  ∃ lv', levelled M lv' (h_new t h).2 ∧ grows lv h lv' (h_new t h).2 ∧
    (∀ l, (l < h_next h)%nat → h_get (h_new t h).2 l = h_get h l) ∧
    ((h_new t h).1 < h_next (h_new t h).2)%nat ∧ (h_next h ≤ (h_new t h).1)%nat ∧
    lv' (h_new t h).1 = n ∧ h_get (h_new t h).2 (h_new t h).1 = t.
Proof.
  intros [Hd Hc] Ht. unfold h_new. cbn.
  assert (∀ l, (l < h_next h)%nat →
    h_get (mkHeap (S (h_next h)) (<[h_next h:=t]> (h_tables h))) l = h_get h l) as Hold.
  { intros l ?. unfold h_get. cbn. rewrite lookup_insert_ne by lia. done. }
  assert (h_get (mkHeap (S (h_next h)) (<[h_next h:=t]> (h_tables h))) (h_next h) = t) as Hnew.
  { unfold h_get. cbn. by rewrite lookup_insert_eq. }
  exists (λ l, if decide (l = h_next h) then n else lv l). split_and!.
  - split; cbn.
    + intros l. destruct (decide (h_next h = l)) as [->|?]; [lia|].
      rewrite lookup_insert_ne by done. intros ?%Hd. lia.
    + intros l k l'. destruct (decide (l = h_next h)) as [->|Hne].
      * rewrite Hnew. intros (?&?&?)%Ht. rewrite decide_False by lia. split_and!; [lia|done..].
      * intros Hlk. assert (l < h_next h)%nat as Hlt.
        { destruct (decide (l < h_next h)%nat); [done|]. exfalso. revert Hlk. unfold h_get. cbn.
          rewrite lookup_insert_ne by done. destruct (h_tables h !! l) eqn:E; [|done].
          intros _. specialize (Hd l ltac:(by rewrite E)). lia. }
        rewrite Hold in Hlk by done. apply Hc in Hlk as (?&?&?). rewrite decide_False by lia. split_and!; [lia|done..].
  - split; cbn; [lia| |auto]. intros l ?. by rewrite decide_False by lia.
  - done.
  - lia.
  - lia.
  - by rewrite decide_True.
  - done.
Qed.

(** A value loaded at level [n] of the heap. *)
Definition at_level (lv : loc → nat) (h : heap) (n M : nat) (c : cval) : Prop :=
  match c with CTable l => (l < h_next h)%nat ∧ lv l = n ∧ (lv l ≤ M)%nat | CVal _ => True end.
Definition loaded (M n : nat) (lv : loc → nat) (h : heap) (r : cval * heap) : Prop :=
  ∃ lv', levelled M lv' r.2 ∧ grows lv h lv' r.2 ∧ at_level lv' r.2 n M r.1.

Lemma loadFields_spec M n fields :
  Forall (λ kj : string * json, ∀ h lv, levelled M lv h → (S n + jdepth kj.2 ≤ S M)%nat →
            loaded M (S n) lv h (load kj.2 h)) fields →
  ∀ h lv t, levelled M lv h → (n + jdepth (JObj fields) ≤ S M)%nat →
  (∀ k c, t !! k = Some c → at_level lv h (S n) M c) →
  ∃ lv', levelled M lv' (loadFields fields h t).2 ∧ grows lv h lv' (loadFields fields h t).2 ∧
    (∀ k c, (loadFields fields h t).1 !! k = Some c →
       at_level lv' (loadFields fields h t).2 (S n) M c).
Proof.
  induction 1 as [|[k j] fields Hj Hfs IH]; intros h lv t Hlev Hd Ht.
  { exists lv. split_and!; [done|apply grows_refl|done]. }
  change (loadFields ((k, j) :: fields) h t) with
    (let '(v, h) := load j h in loadFields fields h (<[k:=v]> t)).
  cbn in Hd, Hj. specialize (Hj h lv Hlev ltac:(lia)).
  destruct (load j h) as [v h1]. destruct Hj as (lv1 & Hlev1 & Hg1 & Hv). cbn in *.
  destruct (IH h1 lv1 (<[k:=v]> t)) as (lv2 & Hlev2 & Hg2 & Ht2); [done|cbn; lia| |].
  - intros k' c. destruct (decide (k = k')) as [->|?].
    + rewrite lookup_insert_eq. by intros [= ->].
    + rewrite lookup_insert_ne by done. intros Hc%Ht. destruct c as [l|]; cbn in *; [|done].
      destruct Hg1 as [Hn Hl _]. rewrite Hl by lia. split_and!; [lia|lia|lia].
  - exists lv2. split_and!; [done|by eapply grows_trans|done].
Qed.

Lemma load_spec M : ∀ j n h lv, levelled M lv h → (n + jdepth j ≤ S M)%nat →
  loaded M n lv h (load j h).
Proof.
  fix IH 1. intros j n h lv Hlev Hd.
  destruct j as [| | | |l|fields]; try (by exists lv; cbn; split_and!; [done|apply grows_refl|done]).
  change (load (JObj fields) h) with
    (let '(t, h) := loadFields fields h ∅ in let '(l, h) := h_new t h in (CTable l, h)).
  destruct (loadFields_spec M n fields) with (h := h) (lv := lv) (t := ∅ : gmap string cval)
    as (lv1 & Hlev1 & Hg1 & Ht1); [|done|done|done|].
  { clear Hd. induction fields as [|[k j] fields IHf]; constructor; [|done]. intros; by apply IH. }
  destruct (loadFields fields h ∅) as [t h1]. cbn in *.
  destruct (h_new_spec M lv1 h1 n t) as (lv2 & Hlev2 & Hg2 & _ & Hlt & _ & Hlvn & _); [done| |].
  { intros k l' Hk. destruct (Ht1 _ _ Hk) as (?&?&?). done. }
  exists lv2. cbn in Hlt, Hlvn, Hd. split; [done|]. split; [by eapply grows_trans|].
  cbn. rewrite Hlvn. split_and!; [lia|done|lia].
Qed.

Lemma loadValues_spec M v h lv : levelled M lv h → (depth v ≤ S M)%nat →
  ∃ lv', levelled M lv' (loadValues v h).2 ∧ grows lv h lv' (loadValues v h).2 ∧
    ((loadValues v h).1 < h_next (loadValues v h).2)%nat ∧ lv' (loadValues v h).1 = O.
Proof.
  intros Hlev Hd. pose proof (load_spec M (JObj v) 0 h lv Hlev Hd) as Hl.
  change (load (JObj v) h) with
    (let '(t, h) := loadFields v h ∅ in let '(l, h) := h_new t h in (CTable l, h)) in Hl.
  unfold loadValues. destruct (loadFields v h ∅) as [t h1]. destruct (h_new t h1) as [l h2].
  destruct Hl as (lv' & ? & ? & ? & ? & _). cbn in *. eauto.
Qed.

(** Serialising terminates, and shows what the top map holds. *)
Lemma resolve_total M lv h fuel c :
  levelled M lv h → (∀ l, c = CTable l → (lv l ≤ M)%nat ∧ (M < fuel + lv l)%nat) → is_Some (resolve fuel h c).
Proof.
  intros Hlev. revert c. induction fuel as [|fuel IH]; intros [l|j] Hl; cbn; [|done| |done].
  { destruct (Hl l) as [??]; [done|lia]. }
  apply fmap_is_Some, mapM_is_Some_2, Forall_forall. intros [k c].
  intros Hk%sort_by_elem%elem_of_map_to_list. apply fmap_is_Some, IH.
  intros l' Heq. cbn in Heq. subst c. destruct (lev_child _ _ _ Hlev _ _ _ Hk) as (_ & Hlv & ?). cbn.
  destruct (Hl l) as [??]; [done|]. lia.
Qed.

Lemma resolveValues_spec M lv h fuel l :
  levelled M lv h → lv l = O → (M < fuel)%nat →
  ∃ v, resolveValues fuel h l = Some v ∧ ∀ k j, h_get h l !! k = Some (CVal j) → (k, j) ∈ v.
Proof.
  intros Hlev Hl Hf. unfold resolveValues.
  destruct (resolve_total M lv h fuel (CTable l)) as [r Hr]; [done| |].
  { intros l' [= <-]. lia. }
  rewrite Hr. destruct fuel as [|fuel]; [done|]. cbn in Hr.
  destruct (mapM _ _) as [v|] eqn:Hv; [|done]. cbn in Hr. simplify_eq. exists v. split; [done|].
  intros k j Hk. apply mapM_Some_1 in Hv.
  apply elem_of_map_to_list in Hk. rewrite <-(sort_by_elem fst) in Hk.
  apply list_elem_of_lookup in Hk as [i Hi].
  destruct (Forall2_lookup_l _ _ _ _ _ Hv Hi) as (y & Hy & HE).
  cbn in HE. destruct fuel; cbn in HE; simplify_eq; by apply list_elem_of_lookup_2 with i.
Qed.

Import Model.

(** ** The values of an assignment under construction *)

(** The values a rollout may not set. *)
Definition robotReserved (tenant : Tenant) (robot : string) : list (string * json) :=
  ((if bool_decide (t_Name tenant = "") then [] else
     [("tenant", JString (t_Name tenant));
      ("tenant_domain", JString (Tenant.Model.ts_TenantDomain (Tenant.Model.t_Status tenant)));
      ("tenant_namespaces", jsonSlice JString (Tenant.Model.ts_TenantNamespaces (Tenant.Model.t_Status tenant)));
      ("tenant_main_namespace", JString (TenantMainNamespace (t_Name tenant)))])
  ++ [("robot", robotValues robot)])%list.
Definition cloudReserved (tenant : Tenant) (robots : list string) : list (string * json) :=
  ((if bool_decide (t_Name tenant = "") then [] else
     [("tenant", JString (t_Name tenant));
      ("tenant_gateway", JString (Tenant.Model.ts_Gateway (Tenant.Model.t_Status tenant)));
      ("tenant_domain", JString (Tenant.Model.ts_TenantDomain (Tenant.Model.t_Status tenant)));
      ("tenant_namespaces", jsonSlice JString (Tenant.Model.ts_TenantNamespaces (Tenant.Model.t_Status tenant)));
      ("tenant_main_namespace", JString (TenantMainNamespace (t_Name tenant)))])
  ++ [("robots", jsonSlice robotValues robots)])%list.

Section build.
Context (L : Libs) (M : nat) (A : ∀ o : rop, resp o → Prop) (G : rop → Prop) (E : string → Prop).
Hypothesis Hord : Ranges (rangeOrder L).
Hypothesis Hstack : (M < stackDepth L)%nat.

(** [vals] is a new top-level map of a heap grown from [lv0] and [h0]. *)
Record under (vals : loc) (lv0 : loc → nat) (h0 : heap) (lv : loc → nat) (h : heap) : Prop := mkUnder {
  un_lev : levelled M lv h;
  un_grows : grows lv0 h0 lv h;
  un_new : (h_next h0 ≤ vals < h_next h)%nat;
  un_root : lv vals = O }.
Definition holds (vals : loc) (kvs : list (string * json)) (h : heap) : Prop :=
  ∀ k j, (k, j) ∈ kvs → h_get h vals !! k = Some (CVal j).

Lemma under_new lv h : levelled M lv h →
  ∃ lv', under (h_new ∅ h).1 lv h lv' (h_new ∅ h).2.
Proof.
  intros Hlev. destruct (h_new_spec M lv h 0 ∅) as (lv' & ? & ? & _ & ? & ? & ? & _); [done| |].
  { intros ??. by rewrite lookup_empty. }
  exists lv'. by split.
Qed.

Lemma merge_under vals lv0 h0 lv h src :
  under vals lv0 h0 lv h → (src < h_next h0)%nat → lv0 src = O →
  wp A G E (merge L vals src h) (λ h', under vals lv0 h0 lv h').
Proof.
  intros [Hlev [Hn Hl Hr] Hv Hroot] Hs Hls. unfold merge.
  assert (lv src = O) as Hlsrc by (rewrite Hl; lia).
  destruct (MergeInto_spec (rangeOrder L) Hord M lv (stackDepth L) vals src h)
    as (h' & -> & (Hlev' & Hn' & Hf & _)); try done; try lia.
  cbn. split; [done| |lia|done]. split; [lia|done|].
  intros l ??. rewrite Hf; [by apply Hr|rewrite Hl by done; lia|lia].
Qed.

Lemma mergeKey_under vals lv0 h0 lv h kvs key val :
  under vals lv0 h0 lv h → holds vals kvs h → key ∉ kvs.*1 →
  wp A G E (mergeKey L vals key val h)
    (λ h', ∃ lv', under vals lv0 h0 lv' h' ∧ holds vals ((key, val) :: kvs) h').
Proof.
  intros [Hlev Hg Hv Hroot] Hh Hk. unfold mergeKey.
  destruct (h_new_spec M lv h 0 ({[key := CVal val]} : gmap string cval))
    as (lv1 & Hlev1 & [Hn1 Hl1 _] & Hold & Hs1 & Hs2 & Hls & Hgs); [done| |].
  { intros k l'. destruct (decide (k = key)) as [->|?].
    - by rewrite lookup_singleton_eq.
    - by rewrite lookup_singleton_ne. }
  destruct (h_new {[key := CVal val]} h) as [src h1]. cbn in *. unfold merge.
  assert (lv1 vals = O) as Hr1 by (rewrite Hl1; [done|lia]).
  destruct (MergeInto_spec (rangeOrder L) Hord M lv1 (stackDepth L) vals src h1)
    as (h' & -> & (Hlev' & Hn' & Hf & Hm)); try done; try lia.
  cbn. exists lv1. split.
  - destruct Hg as [Hn Hl Hr]. split; [done| |lia|done]. split; [lia| |].
    + intros l ?. rewrite Hl1 by lia. by apply Hl.
    + intros l ??. rewrite Hf, Hold; [by apply Hr|lia|rewrite Hl1, Hl by lia; lia|lia].
  - intros k j [[= -> ->]|Hin]%elem_of_cons.
    + rewrite Hm, Hgs, lookup_singleton_eq. cbn. by destruct (h_get h1 vals !! key) as [[]|].
    + rewrite Hm, Hgs, lookup_singleton_ne, Hold; [by apply Hh|lia|].
      intros <-. apply Hk. apply list_elem_of_fmap. by exists (key, j).
Qed.

(** What [new*ChartAssignment] returns. *)
Definition builds (lv0 : loc → nat) (h0 : heap) (P : ChartAssignment → Prop)
    (kvs : list (string * json)) (r : wantCA * heap) : Prop :=
  ∃ lv, under (w_values r.1) lv0 h0 lv r.2 ∧ holds (w_values r.1) kvs r.2 ∧ P (w_ca r.1).

(** The rest of both functions, once the two sets of values are merged. *)
Ltac merge_step :=
  apply wp_bind; eapply wp_mono; [|eapply mergeKey_under; [eassumption|eassumption|cbn; set_solver]];
  let h := fresh "h" in let lv := fresh "lv" in
  intros h (lv & ? & ?); cbn beta.
Ltac merge_src :=
  apply wp_bind; eapply wp_mono; [|eapply merge_under; [eassumption|eassumption|eassumption]];
  let h := fresh "h" in intros h ?; cbn beta.

Lemma newRobotChartAssignment_wp robot app rollout tenant spec base sv lv0 h0 :
  levelled M lv0 h0 → (base < h_next h0)%nat → lv0 base = O → (sv < h_next h0)%nat → lv0 sv = O →
  wp A G E (newRobotChartAssignment L robot app rollout tenant spec base sv h0)
    (builds lv0 h0 (λ ca, ca_Name ca = chartAssignmentName (ar_Name rollout) compTypeRobot (om_Name robot) ∧
       ca_Namespace ca = ar_Namespace rollout ∧ cas_ClusterName (ca_Spec ca) = om_Name robot ∧
       sm_get (om_Labels (ca_meta ca)) labelRobotName = om_Name robot)
       (robotReserved tenant (om_Name robot))).
Proof.
  intros Hlev Hb Hlb Hs Hls. unfold newRobotChartAssignment.
  set (ca := if negb _ then _ else _).
  assert (ca_Name ca = chartAssignmentName (ar_Name rollout) compTypeRobot (om_Name robot) ∧
    ca_Namespace ca = ar_Namespace rollout ∧ cas_ClusterName (ca_Spec ca) = om_Name robot ∧
    sm_get (om_Labels (ca_meta ca)) labelRobotName = om_Name robot) as Hca.
  { subst ca. unfold newBaseChartAssignment, named, setLabel.
    generalize (map_fold (λ k v m, if bool_decide (k = LastAppliedConfigAnnotation) then m
      else setAnnotation m k v)
      (map_fold (λ k v m, om_setLabels (sm_set (om_Labels m) k v) m) emptyMeta
         (default ∅ (om_Labels (ar_meta rollout)))) (default ∅ (om_Annotations (ar_meta rollout)))).
    intros []. destruct (negb (bool_decide (rr_Version _ = _)));
      (split_and!; [done..|apply sm_get_set_eq]). }
  clearbody ca. destruct (under_new lv0 h0 Hlev) as (lv1 & Hu). destruct (h_new ∅ h0) as [vals h1]. cbn in Hu.
  merge_src. merge_src.
  assert (holds vals [] h2) as Hh0 by (intros ?? []%not_elem_of_nil).
  merge_step. unfold robotReserved, t_Name.
  case_bool_decide; cbn [negb].
  - cbn. eexists. done.
  - do 3 merge_step.
    eapply wp_bind, wp_mono; [|eapply mergeKey_under; [eassumption|eassumption|cbn; set_solver]].
    intros h' (lv' & ? & Hh'). cbn. exists lv'. split_and!; [done| |apply Hca..].
    intros k j Hin. apply Hh'. set_solver.
Qed.

Lemma newCloudChartAssignment_wp app rollout tenant base cv robots lv0 h0 :
  levelled M lv0 h0 → (base < h_next h0)%nat → lv0 base = O → (cv < h_next h0)%nat → lv0 cv = O →
  wp A G E (newCloudChartAssignment L app rollout tenant base cv robots h0)
    (builds lv0 h0 (λ ca, ca_Name ca = chartAssignmentName (ar_Name rollout) compTypeCloud "" ∧
       ca_Namespace ca = ar_Namespace rollout ∧ cas_ClusterName (ca_Spec ca) = "cloud")
       (cloudReserved tenant (om_Name <$> robots))).
Proof.
  intros Hlev Hb Hlb Hs Hls. unfold newCloudChartAssignment.
  set (ca := ca_setSpec _ _).
  assert (ca_Name ca = chartAssignmentName (ar_Name rollout) compTypeCloud "" ∧
    ca_Namespace ca = ar_Namespace rollout ∧ cas_ClusterName (ca_Spec ca) = "cloud") as Hca.
  { subst ca. unfold newBaseChartAssignment, named. by destruct (map_fold _ (map_fold _ _ _) _). }
  clearbody ca. destruct (under_new lv0 h0 Hlev) as (lv1 & Hu). destruct (h_new ∅ h0) as [vals h1]. cbn in Hu.
  merge_src. merge_src.
  assert (holds vals [] h2) as Hh0 by (intros ?? []%not_elem_of_nil).
  replace (jsonSlice (λ r, robotValues (om_Name r)) robots)
    with (jsonSlice robotValues (om_Name <$> robots)) by (destruct robots; cbn; [done|by rewrite <-list_fmap_compose]).
  merge_step. unfold cloudReserved, t_Name.
  case_bool_decide; cbn [negb].
  - cbn. eexists. done.
  - do 4 merge_step.
    eapply wp_bind, wp_mono; [|eapply mergeKey_under; [eassumption|eassumption|cbn; set_solver]].
    intros h' (lv' & ? & Hh'). cbn. exists lv'. split_and!; [done| |apply Hca..].
    intros k j Hin. apply Hh'. set_solver.
Qed.

(** *** Generating the assignments of a rollout *)

Definition matches (robots : list Robot) (sel : RobotSelector) : result (list Robot) :=
  if bool_decide (rsel_Any sel = Some true) then Ok robots
  else match rsel_LabelSelector sel with
       | None => Ok []
       | Some ls => match LabelSelectorAsSelector L ls with
                    | Err err => Err err
                    | Ok selector => Ok (filter (λ r, selector (om_Labels r) = true) robots)
                    end
       end.
(** The robots a list of entries selects, entry by entry. *)
Definition selects (robots : list Robot) (s : AppRolloutSpecRobot) (ms : list Robot) : Prop :=
  ∃ sel, rr_Selector s = Some sel ∧ matches robots sel = Ok ms.

Definition robot_ok (rollout : AppRollout) (tenant : Tenant) (h : heap) (robot : string) (w : wantCA) : Prop :=
  ca_Name (w_ca w) = chartAssignmentName (ar_Name rollout) compTypeRobot robot ∧
  ca_Namespace (w_ca w) = ar_Namespace rollout ∧ cas_ClusterName (ca_Spec (w_ca w)) = robot ∧
  sm_get (om_Labels (ca_meta (w_ca w))) labelRobotName = robot ∧
  holds (w_values w) (robotReserved tenant robot) h.
Definition cloud_ok (rollout : AppRollout) (tenant : Tenant) (h : heap) (robots : list string) (w : wantCA) : Prop :=
  ca_Name (w_ca w) = chartAssignmentName (ar_Name rollout) compTypeCloud "" ∧
  ca_Namespace (w_ca w) = ar_Namespace rollout ∧ cas_ClusterName (ca_Spec (w_ca w)) = "cloud" ∧
  holds (w_values w) (cloudReserved tenant robots) h.

Definition live (lv : loc → nat) (h : heap) (w : wantCA) : Prop :=
  (w_values w < h_next h)%nat ∧ lv (w_values w) = O.

Lemma holds_grows lv h lv' h' w kvs : grows lv h lv' h' → live lv h w →
  holds (w_values w) kvs h → holds (w_values w) kvs h'.
Proof. intros Hg [Hn Hl] Hh k j Hin. rewrite (gr_roots _ _ _ _ Hg) by done. by apply Hh. Qed.
Lemma live_grows lv h lv' h' w : grows lv h lv' h' → live lv h w → live lv' h' w.
Proof. intros [Hn Hl _] [??]. split; [lia|by rewrite Hl]. Qed.

Context (app : App) (rollout : AppRollout) (tenant : Tenant) (robots : list Robot) (base : loc).
Context (lv0 : loc → nat) (h0 : heap).
Hypothesis Hbase : (base < h_next h0)%nat ∧ lv0 base = O.
Definition robotsWanted : bool := wanted (cmps_Robot (as_Components (app_Spec app))).
Definition cloudWanted : bool := wanted (cmps_Cloud (as_Components (app_Spec app))).

(** The state of the loops after the robots [sel] were selected. *)
Definition ginv (sel : list string) (s : gstate) : Prop :=
  let '(selected, cas, h) := s in
  ∃ lv, levelled M lv h ∧ grows lv0 h0 lv h ∧ NoDup sel ∧ dom selected = list_to_set sel ∧
    (∀ n r, selected !! n = Some r → om_Name r = n) ∧
    Forall2 (λ n w, robot_ok rollout tenant h n w ∧ live lv h w) (if robotsWanted then sel else []) cas.

Lemma generate_robot_wp rcomp sv r sel s :
  (sv < h_next h0)%nat → lv0 sv = O → ginv sel s →
  wp A G E (generate_robot L app rollout tenant base rcomp sv r s)
    (λ x, match x with
          | inl (e, h') => e = ERobotSelectorOverlap (om_Name r) ∧ om_Name r ∈ sel ∧
              ∃ lv', levelled M lv' h' ∧ grows lv0 h0 lv' h'
          | inr s' => ginv (sel ++ [om_Name r])%list s'
          end).
Proof.
  intros Hsv Hlsv. destruct s as [[selected cas] h]. intros (lv & Hlev & Hg & Hnd & Hdom & Hnm & Hcas).
  unfold generate_robot. destruct (selected !! om_Name r) as [r'|] eqn:Hr; cbn [is_some].
  { cbn. split; [done|]. split; [|eauto].
    rewrite <-(elem_of_list_to_set (C := gset string)), <-Hdom. apply elem_of_dom. eauto. }
  assert (om_Name r ∉ sel) as Hnew.
  { rewrite <-(elem_of_list_to_set (C := gset string)), <-Hdom. by apply not_elem_of_dom. }
  assert (NoDup (sel ++ [om_Name r])) as Hnd' by (apply NoDup_app; split_and!; [done|set_solver|apply NoDup_singleton]).
  assert (dom (<[om_Name r:=r]> selected) = list_to_set (sel ++ [om_Name r])%list) as Hdom'.
  { rewrite dom_insert_L, Hdom, list_to_set_app_L. set_solver. }
  assert (∀ n r', <[om_Name r:=r]> selected !! n = Some r' → om_Name r' = n) as Hnm'.
  { intros n r'. destruct (decide (om_Name r = n)) as [<-|?].
    - rewrite lookup_insert_eq. by intros [= ->].
    - rewrite lookup_insert_ne by done. apply Hnm. }
  fold robotsWanted. unfold ginv. destruct robotsWanted eqn:Hw.
  - destruct Hbase as [Hb Hlb]. apply wp_bind. eapply wp_mono; [|apply newRobotChartAssignment_wp with (lv0 := lv)].
    + intros [w h'] (lv' & [Hlev' Hg' Hv' Hr'] & Hh & Hca). cbn in *. exists lv'.
      split_and!; [done|by eapply grows_trans|done..|].
      apply Forall2_app; [|repeat constructor; try done; [apply Hca..|lia]].
      eapply Forall2_impl; [exact Hcas|]. intros n w' [(?&?&?&?&?) Hlive].
      split; [|by eapply live_grows]. split_and!; try done. by eapply holds_grows.
    + done.
    + apply Hg in Hb. destruct Hg; lia.
    + destruct Hg as [? Hl _]. by rewrite Hl.
    + destruct Hg; lia.
    + destruct Hg as [? Hl _]. by rewrite Hl.
  - cbn. exists lv. by split_and!.
Qed.

Hypothesis HE : Exists (λ s, rr_Selector s = None) (ars_Robots (ar_Spec rollout)) → E "nil selector".

(** Why a selection failed: a bad selector, or a robot selected twice. *)
Definition heap_ok (h : heap) : Prop := ∃ lv, levelled M lv h ∧ grows lv0 h0 lv h.
Definition bad_selector (specs : list AppRolloutSpecRobot) (e : error) : Prop :=
  ∃ s sel err, s ∈ specs ∧ rr_Selector s = Some sel ∧ matches robots sel = Err err ∧
    e = EWrap "select robots" err.
Definition overlap (specs : list AppRolloutSpecRobot) (e : error) : Prop :=
  ∃ pre post mss n, specs = (pre ++ post)%list ∧ Forall2 (selects robots) pre mss ∧
    ¬ NoDup (om_Name <$> concat mss) ∧ n ∈ (om_Name <$> concat mss) ∧ e = ERobotSelectorOverlap n.

Lemma generate_robots_wp rcomp sv ms sel s :
  (sv < h_next h0)%nat → lv0 sv = O → ginv sel s →
  wp A G E (for_each (generate_robot L app rollout tenant base rcomp sv) ms s)
    (λ x, match x with
          | inl (e, h') => heap_ok h' ∧ ∃ n, e = ERobotSelectorOverlap n ∧
              n ∈ (sel ++ (om_Name <$> ms))%list ∧ ¬ NoDup (sel ++ (om_Name <$> ms))%list
          | inr s' => ginv (sel ++ (om_Name <$> ms))%list s'
          end).
Proof.
  intros Hsv Hlsv Hs.
  apply (wp_for_each_prefix _ _ _ _ ms (λ pre, ginv (sel ++ (om_Name <$> pre))%list) _ []); [|done|done|].
  - intros pre r post s' Hms Hs'. eapply wp_mono; [|by apply generate_robot_wp].
    intros [[e h']|s''].
    + intros (-> & Hin & Hh). split; [exact Hh|]. eexists. split; [done|].
      rewrite <-Hms, fmap_app, fmap_cons, (assoc_L (++)). split; [set_solver|].
      intros (_ & Hd & _)%NoDup_app. apply (Hd (om_Name r)); [done|set_solver].
    + by rewrite fmap_app, (assoc_L (++)).
  - by rewrite app_nil_r.
Qed.

Lemma generate_spec_wp rcomp sv sel s :
  rcomp ∈ ars_Robots (ar_Spec rollout) → (sv < h_next h0)%nat → lv0 sv = O → ginv sel s →
  wp A G E (generate_spec L app rollout tenant robots base (rcomp, sv) s)
    (λ x, match x with
          | inl (e, h') => heap_ok h' ∧
              ((∃ rs err, rr_Selector rcomp = Some rs ∧ matches robots rs = Err err ∧
                  e = EWrap "select robots" err) ∨
               (∃ ms n, selects robots rcomp ms ∧ e = ERobotSelectorOverlap n ∧
                  n ∈ (sel ++ (om_Name <$> ms))%list ∧ ¬ NoDup (sel ++ (om_Name <$> ms))%list))
          | inr s' => ∃ ms, selects robots rcomp ms ∧ ginv (sel ++ (om_Name <$> ms))%list s'
          end).
Proof.
  intros Hin Hsv Hlsv Hs. unfold generate_spec. cbn [fst snd].
  destruct (rr_Selector rcomp) as [rs|] eqn:Hrs; cbn [matchingRobots prog_bind wp].
  2: { apply HE, Exists_exists. eauto. }
  assert (matchingRobots L robots (Some rs) = Ret (matches robots rs)) as Hm.
  { cbn. unfold matches. case_bool_decide; [done|]. destruct (rsel_LabelSelector rs) as [ls|]; [|done].
    by destruct (LabelSelectorAsSelector L ls). }
  cbn [matchingRobots] in Hm. rewrite Hm. cbn [prog_bind].
  destruct (matches robots rs) as [ms|err] eqn:Hms.
  - eapply wp_mono; [|by apply generate_robots_wp with (sel := sel)].
    assert (selects robots rcomp ms) by (by exists rs).
    intros [[e h']|s'].
    + intros (Hh & n & -> & ?). split; [done|]. right. eauto.
    + eauto.
  - cbn. destruct s as [[? ?] h]. destruct Hs as (lv & ? & ? & _). split; [by exists lv|]. left. eauto 6.
Qed.

Lemma generate_specs_wp specs s0 :
  specs.*1 = ars_Robots (ar_Spec rollout) →
  (∀ s, s ∈ specs → (s.2 < h_next h0)%nat ∧ lv0 s.2 = O) → ginv [] s0 →
  wp A G E (for_each (generate_spec L app rollout tenant robots base) specs s0)
    (λ x, match x with
          | inl (e, h') => heap_ok h' ∧
              (bad_selector (ars_Robots (ar_Spec rollout)) e ∨ overlap (ars_Robots (ar_Spec rollout)) e)
          | inr s' => ∃ mss, Forall2 (selects robots) (ars_Robots (ar_Spec rollout)) mss ∧
              ginv (om_Name <$> concat mss) s'
          end).
Proof.
  intros Hspecs Hlive H0. rewrite <-Hspecs.
  apply (wp_for_each_prefix _ _ _ _ specs (λ pre s, ∃ mss, Forall2 (selects robots) pre.*1 mss ∧
    ginv (om_Name <$> concat mss) s) _ []); [|done|done|by exists []].
  intros pre [rcomp sv] post s Hpre (mss & Hmss & Hs).
  destruct (Hlive (rcomp, sv)) as [Hsv Hlsv]; [rewrite <-Hpre; set_solver|].
  assert (rcomp ∈ ars_Robots (ar_Spec rollout)) as Hin.
  { rewrite <-Hspecs, <-Hpre, fmap_app. cbn. set_solver. }
  eapply wp_mono; [|by apply (generate_spec_wp rcomp sv (om_Name <$> concat mss) s)].
  intros [[e h']|s'].
  - intros [Hh [(rs & err & ? & ? & ->)|(ms & n & Hms & -> & Hn & Hdup)]]; (split; [done|]).
    + left. exists rcomp, rs, err. by rewrite Hspecs.
    + right. exists (pre.*1 ++ [rcomp])%list, post.*1, (mss ++ [ms])%list, n.
      rewrite concat_app, fmap_app. cbn [concat]. rewrite app_nil_r. split_and!; try done.
      * by rewrite <-Hpre, fmap_app, <-(assoc_L (++)).
      * apply Forall2_app; [done|]. by repeat constructor.
  - intros (ms & Hms & Hg). exists (mss ++ [ms])%list. rewrite fmap_app, concat_app, fmap_app. cbn.
    rewrite app_nil_r. split; [|done]. apply Forall2_app; [done|]. by repeat constructor.
Qed.
End build.

(** The values of all entries, loaded. *)
Lemma loadSpecs_spec M specs lv h :
  levelled M lv h → Forall (λ s, (depth (rr_Values s) ≤ S M)%nat) specs →
  ∃ lv', levelled M lv' (loadSpecs specs h).2 ∧ grows lv h lv' (loadSpecs specs h).2 ∧
    (loadSpecs specs h).1.*1 = specs ∧
    ∀ s, s ∈ (loadSpecs specs h).1 → (s.2 < h_next (loadSpecs specs h).2)%nat ∧ lv' s.2 = O.
Proof.
  intros Hlev Hf. revert lv h Hlev. induction Hf as [|s specs Hs Hf IH]; intros lv h Hlev.
  { exists lv. split_and!; [done|apply grows_refl|done|]. intros ? []%not_elem_of_nil. }
  cbn. destruct (loadValues_spec M (rr_Values s) h lv) as (lv1 & Hl1 & Hg1 & Hn1 & Hr1); [done|done|].
  destruct (loadValues (rr_Values s) h) as [l h1]. cbn in *.
  destruct (IH lv1 h1 Hl1) as (lv2 & Hl2 & Hg2 & Hsp & Hlive).
  destruct (loadSpecs specs h1) as [sp h2]. cbn in *. exists lv2.
  split_and!; [done|by eapply grows_trans|by rewrite Hsp|].
  intros x [->|Hx]%elem_of_cons; [|by apply Hlive]. cbn. destruct Hg2. split; [lia|].
  by rewrite gr_lv0.
Qed.

(** The level bound a rollout's values need. *)
Definition fits (M : nat) (rollout : AppRollout) : Prop :=
  (depth (ars_CloudValues (ar_Spec rollout)) ≤ S M)%nat ∧
  Forall (λ s, (depth (rr_Values s) ≤ S M)%nat) (ars_Robots (ar_Spec rollout)).

(** What [generateChartAssignments] returns when it succeeds: the names
    selected, and one assignment for each of them and for the cloud. *)
Definition generated (L : Libs) (app : App) (rollout : AppRollout) (tenant : Tenant)
    (robots : list Robot) (ws : list wantCA) (h : heap) : Prop :=
  ∃ mss lv, Forall2 (selects L robots) (ars_Robots (ar_Spec rollout)) mss ∧
    let names := om_Name <$> concat mss in
    NoDup names ∧ Forall (live lv h) ws ∧
    ∃ rws cws, ws ≡ₚ (rws ++ cws)%list ∧
      Forall2 (robot_ok rollout tenant h) (if robotsWanted app then names else []) rws ∧
      Forall2 (λ _ w, ∃ sorted, sorted ≡ₚ names ∧ cloud_ok rollout tenant h sorted w)
        (if cloudWanted app then [tt] else []) cws.

Lemma generateChartAssignments_wp L M A G E app rollout tenant robots base lv0 h0 :
  Ranges (rangeOrder L) → (M < stackDepth L)%nat →
  (Exists (λ s, rr_Selector s = None) (ars_Robots (ar_Spec rollout)) → E "nil selector") →
  levelled M lv0 h0 → (base < h_next h0)%nat → lv0 base = O → fits M rollout →
  wp A G E (generateChartAssignments L app rollout tenant robots base h0)
    (λ r, (∃ lv, levelled M lv r.2 ∧ grows lv0 h0 lv r.2 ∧
            match r.1 with Ok ws => Forall (live lv r.2) ws | Err _ => True end) ∧
      match r.1 with
      | Ok ws => generated L app rollout tenant robots ws r.2 ∧ StronglySorted (key_le w_Name) ws
      | Err e => bad_selector L robots (ars_Robots (ar_Spec rollout)) e ∨
                 overlap L robots (ars_Robots (ar_Spec rollout)) e
      end).
Proof.
  intros Hord Hstack HE Hlev Hb Hlb [Hc Hr]. unfold generateChartAssignments.
  destruct (loadValues_spec M (ars_CloudValues (ar_Spec rollout)) h0 lv0) as (lv1 & Hl1 & Hg1 & Hn1 & Hr1); [done|done|].
  destruct (loadValues _ h0) as [cv h1]. cbn in *.
  destruct (loadSpecs_spec M _ lv1 h1 Hl1 Hr) as (lv2 & Hl2 & Hg2 & Hsp & Hlive).
  destruct (loadSpecs _ h1) as [specs h2]. cbn in *.
  assert (grows lv0 h0 lv2 h2) as Hg by (by eapply grows_trans).
  assert ((base < h_next h2)%nat ∧ lv2 base = O) as Hb2.
  { destruct Hg. split; [lia|]. by rewrite gr_lv0. }
  assert ((cv < h_next h2)%nat ∧ lv2 cv = O) as [Hcv Hlcv].
  { destruct Hg2. split; [lia|]. by rewrite gr_lv0. }
  apply wp_bind. eapply wp_mono; [|apply (generate_specs_wp L M A G E Hord Hstack app rollout tenant robots base lv2 h2 Hb2 HE specs); try done].
  2: { exists lv2. split_and!; [done|apply grows_refl|constructor|by rewrite dom_empty_L| |].
       - intros n r. by rewrite lookup_empty.
       - by destruct (robotsWanted app). }
  intros [[e h3]|[[selected cas] h3]].
  { intros [(lv3 & ? & ?) Hbad]. cbn. split; [|done]. exists lv3. split_and!; [done|by eapply grows_trans|done]. }
  intros (mss & Hmss & lv3 & Hl3 & Hg3 & Hnd & Hdom & Hnm & Hcas). cbv beta iota.
  fold (cloudWanted app). destruct (cloudWanted app) eqn:Hcw.
  2: { cbn. assert (Forall (live lv3 h3) cas) as Hlv.
       { eapply Forall2_Forall_r; [exact Hcas|]. apply Forall_forall. by intros ??? [??]. }
       assert (Forall (live lv3 h3) (sort_by w_Name cas)) as Hlv' by (by rewrite sort_by_perm).
       split; [exists lv3; split_and!; [done|by eapply grows_trans|done]|].
       split; [|apply sort_by_sorted]. exists mss, lv3. split; [done|]. cbv zeta. split; [done|]. split; [done|].
       exists cas, []. rewrite app_nil_r, sort_by_perm, Hcw. split; [done|]. split; [|done].
       eapply Forall2_impl; [exact Hcas|]. by intros ?? [??]. }
  apply wp_bind. destruct Hb2 as [Hb2 Hlb2], Hg3 as [Hn3 Hlv3 Hr3].
  eapply wp_mono; [|apply (newCloudChartAssignment_wp L M A G E Hord Hstack) with (lv0 := lv3);
    [done|lia|by rewrite Hlv3|lia|by rewrite Hlv3]].
  intros [w h4] (lv4 & [Hl4 Hg4 Hv4 Hrt4] & Hh4 & Hca). cbn in *.
  assert (Forall2 (λ n w, robot_ok rollout tenant h4 n w ∧ live lv4 h4 w)
    (if robotsWanted app then om_Name <$> concat mss else []) cas) as Hcas'.
  { eapply Forall2_impl; [exact Hcas|]. intros n w' [(?&?&?&?&?) Hw]. split; [|by eapply live_grows].
    split_and!; try done. by eapply holds_grows. }
  assert (Forall (live lv4 h4) (sort_by w_Name (cas ++ [w])%list)) as Hlv.
  { rewrite sort_by_perm. apply Forall_app. split; [|repeat constructor; [lia|done]].
    eapply Forall2_Forall_r; [exact Hcas'|]. apply Forall_forall. by intros ??? [??]. }
  split. { exists lv4. split_and!; [done| |done]. eapply grows_trans; [exact Hg|].
    eapply grows_trans; [|exact Hg4]. by split. }
  split; [|apply sort_by_sorted]. exists mss, lv4. split; [done|]. cbv zeta. split; [done|]. split; [done|].
  exists cas, [w]. rewrite sort_by_perm, Hcw. split; [done|]. split.
  - eapply Forall2_impl; [exact Hcas'|]. by intros ?? [??].
  - repeat constructor. eexists. split; [|split_and!; [apply Hca..|exact Hh4]].
    rewrite sort_by_perm.
    assert (om_Name <$> (map_to_list selected).*2 = (map_to_list selected).*1) as ->.
    { rewrite <-!list_fmap_compose. apply list_fmap_ext. intros i [n r] Hi. cbn.
      apply list_elem_of_lookup_2, elem_of_map_to_list in Hi. by apply Hnm. }
    apply NoDup_Permutation; [apply NoDup_fst_map_to_list|done|]. intros n.
    rewrite <-(elem_of_list_to_set (C := gset string) n (om_Name <$> concat mss)), <-Hdom, elem_of_dom.
    split.
    + intros ([n' r] & -> & Hi%elem_of_map_to_list)%list_elem_of_fmap. eauto.
    + intros [r Hi]. apply list_elem_of_fmap. exists (n, r). by rewrite elem_of_map_to_list.
Qed.

(** ** Names *)

Lemma chartAssignmentName_inj rollout typ a b :
  chartAssignmentName rollout typ a = chartAssignmentName rollout typ b → a = b.
Proof.
  unfold chartAssignmentName. repeat case_bool_decide; subst; try done; intros Heq.
  - apply (f_equal String.length) in Heq. rewrite !app_length_s in Heq. cbn in Heq. lia.
  - apply (f_equal String.length) in Heq. rewrite !app_length_s in Heq. cbn in Heq. lia.
  - by do 4 (apply app_inj_l in Heq).
Qed.
Lemma chartAssignmentName_typ rollout robot :
  chartAssignmentName rollout compTypeRobot robot ≠ chartAssignmentName rollout compTypeCloud "".
Proof.
  unfold chartAssignmentName. case_bool_decide; cbn [bool_decide]; intros Heq; by apply app_inj_l in Heq.
Qed.

(** The assignments generated for one rollout have different names. *)
Lemma generated_names L app rollout tenant robots ws h :
  generated L app rollout tenant robots ws h → NoDup (w_Name <$> ws).
Proof.
  intros (mss & lv & _ & Hnd & _ & rws & cws & -> & Hr & Hc). rewrite fmap_app.
  assert (∃ ns, w_Name <$> rws = chartAssignmentName (ar_Name rollout) compTypeRobot <$> ns ∧ NoDup ns)
    as (ns & Hns & Hnd').
  { exists (if robotsWanted app then om_Name <$> concat mss else []). split.
    - clear Hnd. induction Hr as [|n w ns ws' (Hn & _) Hr IH]; cbn; [done|]. by rewrite IH, <-Hn.
    - destruct (robotsWanted app); [done|constructor]. }
  assert (∀ n, n ∈ (w_Name <$> cws) → n = chartAssignmentName (ar_Name rollout) compTypeCloud "") as Hcl.
  { intros n (w & -> & Hw)%list_elem_of_fmap. apply list_elem_of_lookup in Hw as [i Hi].
    destruct (Forall2_lookup_r _ _ _ _ _ Hc Hi) as (? & _ & (sorted & _ & (? & _))). done. }
  apply NoDup_app. split_and!.
  - rewrite Hns. apply NoDup_fmap_2; [|done]. intros ??. apply chartAssignmentName_inj.
  - intros n Hn ?%Hcl. subst n. rewrite Hns in Hn. apply list_elem_of_fmap in Hn as (r & Hr' & _).
    by apply (chartAssignmentName_typ (ar_Name rollout) r).
  - destruct (cloudWanted app); inversion Hc as [|??? cws' _ Hc']; subst; [|constructor].
    inversion Hc'. subst. apply NoDup_singleton.
Qed.

(** ** Carrying out the difference *)

(** The writes a list of calls contains. *)
Definition is_write_op (o : rop) : bool :=
  match o with K o => is_write o | RangeCAs _ => false end.
Definition writes (t : list (event rop)) : list rop :=
  filter (λ o, is_write_op o = true) ((λ e, projT1 e) <$> t).
Lemma writes_app t1 t2 : writes (t1 ++ t2) = (writes t1 ++ writes t2)%list.
Proof. unfold writes. by rewrite fmap_app, filter_app. Qed.

Definition byName (cas : list ChartAssignment) : gmap string ChartAssignment :=
  foldl (λ m ca, <[ca_Name ca := ca]> m) ∅ cas.
Definition owned (ar : AppRollout) (ca : ChartAssignment) : ChartAssignment :=
  ca_setMeta (setOwnerReference (ca_meta ca) (ownerRef ar)) ca.
(** What a rollout's controller does about one wanted assignment. *)
Definition plan (L : Libs) (ar : AppRollout) (cur : gmap string ChartAssignment)
    (ca : ChartAssignment) : list rop :=
  let ca := owned ar ca in
  match cur !! ca_Name ca with
  | None => [K (KCreate KChartAssignment ca)]
  | Some prev =>
      match chartAssignmentChanged L prev ca with
      | Ok true => [K (KUpdate KChartAssignment
          (ca_setMeta (om_setResourceVersion (om_ResourceVersion (ca_meta prev)) (ca_meta ca)) ca))]
      | _ => []
      end
  end.

Lemma owned_name ar ca : ca_Name (owned ar ca) = ca_Name ca.
Proof. by destruct ca as [?? [] ??]. Qed.
Lemma rendered_name L h w ca : rendered L h w = Some ca → ca_Name ca = w_Name w.
Proof.
  unfold rendered, w_Name. destruct (resolveValues _ _ _); [|done]. cbn. intros [= <-].
  by destruct (w_ca w).
Qed.

Lemma applyCA_loop_exec L ar h want drop t drop' :
  NoDup (w_Name <$> want) →
  exec (for_each (applyCA L ar h) want drop) t (Done (inr drop')) →
  ∃ cas, mapM (rendered L h) want = Some cas ∧
    writes t = concat (plan L ar drop <$> cas) ∧
    drop' = filter (λ kca, kca.1 ∉ (w_Name <$> want)) drop.
Proof.
  revert drop t. induction want as [|w want IH]; intros drop t Hnd HE.
  { destruct HE as [-> [= ->]]. exists []. split_and!; [done|done|].
    symmetry. apply map_filter_id. intros ??? []%not_elem_of_nil. }
  cbn in Hnd. apply NoDup_cons in Hnd as [Hw Hnd].
  cbn [for_each] in HE. apply exec_bind in HE as [(m & _ & ?)|(t1 & t2 & s & -> & HE1 & HE2)]; [done|].
  destruct s as [e|s]; [by destruct HE2 as [_ ?]|].
  unfold applyCA, render in HE1. destruct (rendered L h w) as [ca|] eqn:Hca; [|by destruct HE1 as [_ ?]].
  cbn [prog_bind] in HE1. fold (owned ar ca) in HE1. rewrite owned_name, (rendered_name _ _ _ _ Hca) in HE1.
  assert (writes t1 = plan L ar drop ca ∧ s = base.delete (w_Name w) drop) as [Hw1 ->].
  { unfold plan. rewrite owned_name, (rendered_name _ _ _ _ Hca).
    destruct (drop !! w_Name w) as [prev|].
    - destruct (chartAssignmentChanged L prev (owned ar ca)) as [[|]|e].
      + destruct HE1 as (u & t' & -> & HE1). destruct u; destruct HE1 as [-> [=]]; by subst.
      + destruct HE1 as [-> [=]]; by subst.
      + by destruct HE1 as [-> [=]].
    - destruct HE1 as (u & t' & -> & HE1). destruct u; destruct HE1 as [-> [=]]; by subst. }
  apply IH in HE2 as (cas & Hcas & Hw2 & ->); [|done].
  exists (ca :: cas). cbn [mapM mret option_ret]. rewrite Hca. cbn. rewrite Hcas. split; [done|]. split.
  - rewrite writes_app, Hw1, Hw2. cbn. f_equal. f_equal. apply list_fmap_ext. intros i ca' Hi.
    apply mapM_Some_1 in Hcas. destruct (Forall2_lookup_r _ _ _ _ _ Hcas Hi) as (w' & Hw' & Hr').
    unfold plan. rewrite owned_name, (rendered_name _ _ _ _ Hr'), lookup_delete_ne; [done|].
    intros Heq. apply Hw. rewrite Heq. apply list_elem_of_fmap. exists w'.
    split; [done|by apply list_elem_of_lookup_2 with i].
  - apply map_eq. intros k. apply option_eq. intros x. rewrite !map_lookup_filter_Some. cbn.
    rewrite lookup_delete_Some. set_solver.
Qed.

Lemma deleteCA_loop_exec l t u :
  exec (for_each deleteCA l tt) t (Done (inr u)) →
  writes t = (λ kca, K (KDelete KChartAssignment kca.2)) <$> l.
Proof.
  revert t. induction l as [|kca l IH]; intros t HE.
  { by destruct HE as [-> _]. }
  cbn [for_each] in HE. apply exec_bind in HE as [(m & _ & ?)|(t1 & t2 & s & -> & HE1 & HE2)]; [done|].
  destruct s as [e|[]]; [by destruct HE2 as [_ ?]|].
  destruct HE1 as (d & t' & -> & HE1). destruct d; destruct HE1 as [-> [=]].
  apply (IH t2) in HE2. cbn. by f_equal.
Qed.

(** *** The status *)

Definition phaseIn (l : list string) (ca : ChartAssignment) : Prop := cat_Phase (ca_Status ca) ∈ l.
#[export] Instance phaseIn_dec l ca : Decision (phaseIn l ca).
Proof. unfold phaseIn. apply _. Defined.
Definition count (l : list string) (cas : list ChartAssignment) : Z :=
  Z.of_nat (length (filter (phaseIn l) cas)).

Lemma bool_decide_in (p : string) l `{!Decision (p ∈ l)} : bool_decide (p ∈ l) = existsb (String.eqb p) l.
Proof.
  apply eq_true_iff_eq. rewrite bool_decide_eq_true, existsb_exists. setoid_rewrite String.eqb_eq.
  setoid_rewrite <-list_elem_of_In. naive_solver.
Qed.
Lemma countCA_fold cas s :
  foldl countCA s cas = mkAppRolloutStatus (art_ObservedGeneration s) (art_Conditions s) (art_Assignments s)
    (art_SettledAssignments s + count [ChartAssignmentPhaseReady; ChartAssignmentPhaseSettled] cas)
    (art_ReadyAssignments s + count [ChartAssignmentPhaseReady] cas)
    (art_FailedAssignments s + count [ChartAssignmentPhaseFailed] cas).
Proof.
  revert s. induction cas as [|ca cas IH]; intros [a b c d e f]; cbn [foldl].
  { unfold count. cbn. f_equal; lia. }
  assert (∀ l, count l (ca :: cas) = (if bool_decide (phaseIn l ca) then 1 else 0) + count l cas)%Z as Hc.
  { intros l. unfold count. rewrite filter_cons. case_bool_decide; case_decide; try done. cbn. lia. }
  rewrite IH, !Hc. clear IH Hc. unfold countCA, phaseIn. destruct ca as [? ? ? ? [g p cs]]. cbn [ca_Status cat_Phase].
  destruct (decide (p = ChartAssignmentPhaseReady)) as [H1|H1]; [|destruct (decide (p = ChartAssignmentPhaseSettled)) as [H2|H2];
    [|destruct (decide (p = ChartAssignmentPhaseFailed)) as [H3|H3]]].
  - rewrite (bool_decide_eq_true_2 _ H1), !bool_decide_in. subst p. cbn -[Z.add count]. f_equal; lia.
  - rewrite (bool_decide_eq_false_2 _ H1), (bool_decide_eq_true_2 _ H2), !bool_decide_in. subst p. cbn -[Z.add count]. f_equal; lia.
  - rewrite (bool_decide_eq_false_2 _ H1), (bool_decide_eq_false_2 _ H2), (bool_decide_eq_true_2 _ H3), !bool_decide_in.
    subst p. cbn -[Z.add count]. f_equal; lia.
  - rewrite !bool_decide_eq_false_2 by (rewrite ?elem_of_cons, ?elem_of_nil; tauto). done.
Qed.

(** The status [setStatus] stores. *)
Definition status_of (ar : AppRollout) (n : Z) (cas : list ChartAssignment) (ar' : AppRollout) : Prop :=
  let settled := (art_SettledAssignments (ar_Status ar)
    + count [ChartAssignmentPhaseReady; ChartAssignmentPhaseSettled] cas)%Z in
  let ready := (art_ReadyAssignments (ar_Status ar) + count [ChartAssignmentPhaseReady] cas)%Z in
  ar_meta ar' = ar_meta ar ∧ ar_Spec ar' = ar_Spec ar ∧
  art_ObservedGeneration (ar_Status ar') = art_ObservedGeneration (ar_Status ar) ∧
  art_Assignments (ar_Status ar') = n ∧
  art_SettledAssignments (ar_Status ar') = settled ∧
  art_ReadyAssignments (ar_Status ar') = ready ∧
  art_FailedAssignments (ar_Status ar') =
    (art_FailedAssignments (ar_Status ar) + count [ChartAssignmentPhaseFailed] cas)%Z ∧
  condition_of AppRolloutConditionSettled (art_Conditions (ar_Status ar')) =
    Some (if bool_decide (settled = n) then (ConditionTrue, "")
          else (ConditionFalse, fmt_d settled ++ "/" ++ fmt_d n ++ " ChartAssignments settled")) ∧
  condition_of AppRolloutConditionReady (art_Conditions (ar_Status ar')) =
    Some (if bool_decide (ready = n) then (ConditionTrue, "")
          else (ConditionFalse, fmt_d ready ++ "/" ++ fmt_d n ++ " ChartAssignments ready")).

Lemma setStatus_wp A E ar n cas :
  wp A (λ o, o = K KNow) E (setStatus ar n cas) (status_of ar n cas).
Proof.
  unfold setStatus. destruct ar as [a b m sp [og conds asg stl rdy fl]]. cbn [ar_Status].
  rewrite countCA_fold. cbn [art_SettledAssignments art_ReadyAssignments art_Assignments art_ObservedGeneration
    art_Conditions art_FailedAssignments ar_setStatus].
  unfold status_of. cbn -[count fmt_d AppRolloutConditionSettled AppRolloutConditionReady
    upsertCondition condition_of wp prog_bind].
  do 2 case_bool_decide; cbn -[count fmt_d condition_of upsertCondition];
    (split; [done|]); intros now _; (split; [done|]); intros now' _;
    rewrite condition_of_upsert_ne, !condition_of_upsert by done; done.
Qed.

(** ** Every call of a reconciliation *)

Lemma generated_each L app rollout tenant robots ws h w :
  generated L app rollout tenant robots ws h → w ∈ ws →
  (∃ robot, robot_ok rollout tenant h robot w) ∨ (∃ names, cloud_ok rollout tenant h names w).
Proof.
  intros (mss & lv & _ & _ & _ & rws & cws & Hp & Hr & Hc). rewrite Hp, elem_of_app.
  intros [Hw|Hw]; apply list_elem_of_lookup in Hw as [i Hi].
  - destruct (Forall2_lookup_r _ _ _ _ _ Hr Hi) as (n & _ & ?). eauto.
  - destruct (Forall2_lookup_r _ _ _ _ _ Hc Hi) as (n & _ & (names & _ & ?)). eauto.
Qed.

(** The tenant whose information goes into a rollout's assignments. *)
Definition tenant_for (ar : AppRollout) (tenant : Tenant) : Prop :=
  t_Name tenant = TrimPrefix (ar_Namespace ar) TenantPrefix ∨
  (ar_Namespace ar = "default" ∧ tenant = emptyTenant).
(** An assignment as the API server gets it. *)
Definition assignment_ok (ar : AppRollout) (ca : ChartAssignment) : Prop :=
  ca_Namespace ca = ar_Namespace ar ∧ ownerRef ar ∈ om_OwnerReferences (ca_meta ca) ∧
  ∃ tenant, tenant_for ar tenant ∧
    ((∃ robot, ca_Name ca = chartAssignmentName (ar_Name ar) compTypeRobot robot ∧
        cas_ClusterName (ca_Spec ca) = robot ∧ sm_get (om_Labels (ca_meta ca)) labelRobotName = robot ∧
        ∀ kv, kv ∈ robotReserved tenant robot → kv ∈ ch_Values (cas_Chart (ca_Spec ca))) ∨
     (∃ robots, ca_Name ca = chartAssignmentName (ar_Name ar) compTypeCloud "" ∧
        cas_ClusterName (ca_Spec ca) = "cloud" ∧
        ∀ kv, kv ∈ cloudReserved tenant robots → kv ∈ ch_Values (cas_Chart (ca_Spec ca)))).
(** [cur] are the assignments that the API server listed for the rollout. *)
Definition call_ok (ar : AppRollout) (cur : ChartAssignment → Prop) (o : rop) : Prop :=
  match o with
  | RangeCAs _ => True
  | K o =>
      match o with
      | KNow => True
      | KGet k ns n => match k with
          | KApp => ns = "" ∧ n = ars_AppName (ar_Spec ar)
          | KTenant => ns = "" ∧ n = TrimPrefix (ar_Namespace ar) TenantPrefix
          | _ => False
          end
      | KList k sel => match k with
          | KChartAssignment => sel = MatchingFields fieldIndexOwners (om_UID (ar_meta ar))
          | KRobot => sel = InNamespace (ar_Namespace ar)
          | _ => False
          end
      | KCreate KChartAssignment ca | KUpdate KChartAssignment ca => assignment_ok ar ca
      | KDelete KChartAssignment ca => cur ca
      | KStatusUpdate KAppRollout ar' => ar_meta ar' = ar_meta ar ∧ ar_Spec ar' = ar_Spec ar
      | _ => False
      end
  end.

Lemma call_ok_reset ar cur o : call_ok (resetStatus ar) cur o ↔ call_ok ar cur o.
Proof. by destruct ar. Qed.

Lemma upsertOwner_elem ref l : ref ∈ upsertOwner ref l.
Proof. induction l as [|o l IH]; cbn; [by left|]. case_bool_decide; [by left|by right]. Qed.

Section confined.
Context (L : Libs) (M : nat) (ar : AppRollout) (own : ChartAssignment → Prop).
Hypothesis Hord : Ranges (rangeOrder L).
Hypothesis Hstack : (M < stackDepth L)%nat.
Context (A : ∀ o : rop, resp o → Prop).

Lemma applyCA_wp app tenant robots ws lv h w drop :
  levelled M lv h → tenant_for ar tenant → generated L app ar tenant robots ws h → w ∈ ws →
  live lv h w → wp A (call_ok ar own) no_panic (applyCA L ar h w drop)
    (λ r, match r with inl _ => True | inr drop' => ∀ k ca, drop' !! k = Some ca → drop !! k = Some ca end).
Proof.
  intros Hlev Ht Hgen Hw [Hlt Hlw]. unfold applyCA, render.
  destruct (resolveValues_spec M lv h (stackDepth L) (w_values w)) as (v & Hv & Hin); [done..|].
  unfold rendered. rewrite Hv. cbn [mbind option_bind prog_bind].
  set (ca := ca_setMeta _ _).
  assert (assignment_ok ar ca) as Hok.
  { subst ca. destruct (w_ca w) as [a b m [cl nsn [rp nm vr il vs]] st] eqn:Hwca.
    pose proof (upsertOwner_elem (ownerRef ar) (om_OwnerReferences m)) as Hown.
    destruct (generated_each _ _ _ _ _ _ _ _ Hgen Hw)
      as [(n & Hn & Hns & Hc & Hl & Hh)|(names & Hn & Hns & Hc & Hh)]; rewrite Hwca in Hn, Hns, Hc;
      destruct m; (split; [done|]); (split; [done|]); exists tenant; (split; [done|]).
    - left. exists n. rewrite Hwca in Hl. split_and!; [done..|]. intros [k j] Hk. cbn. by apply Hin, Hh.
    - right. exists names. split_and!; [done..|]. intros [k j] Hk. cbn. by apply Hin, Hh. }
  clearbody ca.
  assert (∀ k x, base.delete (ca_Name ca) drop !! k = Some x → drop !! k = Some x) as Hdel
    by (intros k x; rewrite lookup_delete_Some; by intros [_ ?]).
  destruct (drop !! ca_Name ca) as [prev|].
  - destruct (chartAssignmentChanged L prev ca) as [[|]|e]; [|done..].
    cbn. split; [by destruct ca as [?? [] ??]|]. by intros [] _.
  - cbn. split; [done|]. by intros [] _.
Qed.

Lemma setStatus_calls n cas :
  wp A (call_ok ar own) no_panic (setStatus ar n cas) (λ ar', ar_meta ar' = ar_meta ar ∧ ar_Spec ar' = ar_Spec ar).
Proof.
  eapply wp_weaken_call; [|eapply wp_mono; [|apply setStatus_wp]].
  - intros o ->. done.
  - intros ar' (?&?&_). done.
Qed.

Lemma dropped_elem (cur : list ChartAssignment) k ca :
  foldl (λ m ca, <[ca_Name ca := ca]> m) (∅ : gmap string ChartAssignment) cur !! k = Some ca → ca ∈ cur.
Proof.
  assert (∀ m : gmap string ChartAssignment,
    foldl (λ m ca, <[ca_Name ca := ca]> m) m cur !! k = Some ca → m !! k = Some ca ∨ ca ∈ cur) as H.
  { induction cur as [|c cur IH]; intros m Hm; cbn in Hm; [by left|].
    apply IH in Hm as [[[_ <-]|[_ Hm]]%lookup_insert_Some|Hm]; [right; by left|by left|right; by right]. }
  intros Hk. by destruct (H ∅ Hk).
Qed.
Lemma applyWanted_wp app tenant robots ws cur lv h :
  levelled M lv h → tenant_for ar tenant → generated L app ar tenant robots ws h →
  Forall (live lv h) ws → (∀ ca, ca ∈ cur → own ca) →
  wp A (call_ok ar own) no_panic (applyWanted L ar ws cur h) (λ r, r.2 = h).
Proof.
  intros Hlev Ht Hgen Hlive Hcur. unfold applyWanted. apply wp_bind.
  apply (wp_for_each _ _ _ _ _ (λ drop : gmap string ChartAssignment, ∀ k ca, drop !! k = Some ca → own ca)).
  { intros w s Hw Hs. eapply wp_mono; [|eapply applyCA_wp; [exact Hlev|exact Ht|exact Hgen|exact Hw|]].
    - intros [e|s']; [done|]. intros Hsub k ca Hk. by eapply Hs, Hsub.
    - by eapply Forall_forall in Hlive. }
  2: { intros k ca Hk. by eapply Hcur, dropped_elem. }
  intros drop Hdrop. cbn. split; [done|]. intros [order Hp] _. apply wp_bind. cbn [proj1_sig].
  apply (wp_for_each _ _ _ _ _ (λ _, True)); [|intros [] _|done].
  { intros [k ca] [] Hk _. cbn. split; [|by intros [] _]. rewrite Hp in Hk.
    apply elem_of_map_to_list in Hk. by eapply Hdrop. }
  apply wp_bind. eapply wp_mono; [|apply setStatus_calls]. intros ar' Har'. cbn.
  split; [done|]. by intros [] _.
Qed.

Lemma updateErrorStatus_wp msg :
  wp A (call_ok ar own) no_panic (updateErrorStatus ar msg) (λ _, True).
Proof.
  unfold updateErrorStatus, setCondition. cbn. split; [done|]. intros now _.
  split; [by destruct ar as [????[]]|]. by intros [] _.
Qed.
End confined.

(** Answers to a read of a tenant carry its name. *)
Definition tenant_named (o : rop) : resp o → Prop :=
  match o with
  | K (KGet KTenant _ n) => λ r, match r with Ok t => t_Name t = n | Err _ => True end
  | _ => λ _, True
  end.

(** The assignments that a trace lists for an owner, and answers that list only those. *)
Definition lists_own (own : ChartAssignment → Prop) (o : rop) : resp o → Prop :=
  match o return resp o → Prop with
  | K (KList KChartAssignment _) => λ a, match a with Ok l => ∀ ca, ca ∈ l → own ca | Err _ => True end
  | _ => λ _, True
  end.
Definition listed_for (ar : AppRollout) (t : list (event rop)) (ca : ChartAssignment) : Prop :=
  ∃ l, existT (K (KList KChartAssignment (MatchingFields fieldIndexOwners (om_UID (ar_meta ar))))) (Ok l) ∈ t ∧ ca ∈ l.

Lemma validate_selectors L ar : validate L ar = None →
  ¬ Exists (λ s, rr_Selector s = None) (ars_Robots (ar_Spec ar)).
Proof.
  unfold validate. repeat case_match; try done. clear. generalize 0%Z.
  induction (ars_Robots (ar_Spec ar)) as [|s l IH]; intros i; cbn; [by intros _ ?%Exists_nil|].
  repeat case_match; try done. intros Hv [Hn|Hn]%Exists_cons; [congruence|]. by eapply IH.
Qed.

Lemma lists_own_any t : answers (lists_own (λ _, True)) t.
Proof. induction t as [|[o a] t IH]; [done|]. split; [|exact IH]. destruct o as [[]|]; try exact I. destruct k; try exact I. by destruct a. Qed.
(** The only list of assignments is the rollout's. *)
Lemma lists_own_listed ar own t : calls (call_ok ar own) t → answers (lists_own (listed_for ar t)) t.
Proof.
  intros Hc. assert (∀ t', (∀ e, e ∈ t' → e ∈ t) → answers (lists_own (listed_for ar t)) t') as H; [|by apply H].
  induction t' as [|[o a] t' IH]; intros Hsub; [done|]. split; [|apply IH; intros; apply Hsub; by right].
  pose proof (Hsub _ (list_elem_of_here _ _)) as Hin. pose proof (answers_elem _ _ _ _ Hc Hin) as Ho.
  destruct o as [[]|]; try exact I. destruct k; try exact I. cbn in Ho |- *. subst. destruct a as [l|e]; [|done].
  intros ca Hca. by exists l.
Qed.

Lemma reconcile_wp L M r ar lv h own :
  Ranges (rangeOrder L) → (M < stackDepth L)%nat → levelled M lv h →
  (baseValues r < h_next h)%nat → lv (baseValues r) = O → fits M ar →
  ¬ Exists (λ s, rr_Selector s = None) (ars_Robots (ar_Spec ar)) →
  wp (λ o a, tenant_named o a ∧ lists_own own o a) (call_ok ar own) no_panic (reconcile L r ar h)
    (λ x, ∃ lv', levelled M lv' x.2 ∧ grows lv h lv' x.2).
Proof.
  intros Hord Hstack Hlev Hb Hlb Hfit Hsel. unfold reconcile.
  assert (fits M (resetStatus ar)) as Hfit' by (by destruct ar).
  assert (¬ Exists (λ s, rr_Selector s = None) (ars_Robots (ar_Spec (resetStatus ar)))) as Hsel' by (by destruct ar).
  apply (wp_weaken_call _ (call_ok (resetStatus ar) own)); [apply call_ok_reset|].
  generalize dependent (resetStatus ar). clear ar Hfit Hsel. intros ar Hfit Hsel. cbv zeta.
  assert (∃ lv', levelled M lv' h ∧ grows lv h lv' h) as H0 by (exists lv; split; [done|apply grows_refl]).
  cbn [prog_bind call wp]. split; [done|]. intros [app|err] _.
  2: { apply wp_bind. eapply wp_mono; [|apply updateErrorStatus_wp]. by intros e _. }
  cbn [prog_bind call wp]. split; [done|]. intros [cur|err] [_ Hcur]; [|done].
  cbn [prog_bind call wp]. split; [done|].
  assert (∀ tenant, tenant_for ar tenant → wp (λ o a, tenant_named o a ∧ lists_own own o a) (call_ok ar own) no_panic
    (reconcileTenant L r app ar cur h tenant) (λ x, ∃ lv', levelled M lv' x.2 ∧ grows lv h lv' x.2)) as Hcont.
  { intros tenant Ht. unfold reconcileTenant. cbn [prog_bind call wp]. split; [done|]. intros [robots|err] _; [|done].
    apply wp_bind. eapply wp_mono.
    2: { apply (wp_weaken_call _ (λ _, False)); [done|].
         eapply (generateChartAssignments_wp L M _ _ no_panic app ar tenant robots (baseValues r) lv h); done. }
    intros [w h1] [(lv1 & Hl1 & Hg1 & Hlive) Hres]. cbn [fst snd] in *.
    destruct w as [ws|err].
    - destruct Hres as [Hgen _]. eapply wp_mono; [|eapply applyWanted_wp; done].
      cbn. intros [res h2] Heq. cbn in *. subst. eauto.
    - assert (∃ lv', levelled M lv' h1 ∧ grows lv h lv' h1) by eauto.
      destruct (Cause err); try done.
      apply wp_bind. eapply wp_mono; [|apply updateErrorStatus_wp]. by intros e _. }
  intros [tenant|err] [Ht _]; [apply Hcont; by left|].
  destruct (IsNotFound err); [|done]. case_bool_decide; [|done]. apply Hcont. by right.
Qed.

(** ** A concrete rollout

    The controller's parameters hold a table [cfg]; the rollout gives the
    robots labelled [a] and [b] each their own [cfg.mode]. *)

Definition demoLibs : Libs :=
  mkLibs (λ ls, Ok (λ m, bool_decide (map_Forall (λ k v, sm_get m k = v) (ls_MatchLabels ls))))
    (λ s, Ok (cas_ClusterName s)) (λ _, []) (λ h l, map_to_list (h_get h l)) 10.
Definition demoHeap : heap := (loadValues [("cfg", JObj [("mode", JString "base")])] (mkHeap 0 ∅)).2.
Definition demoLevel (l : loc) : nat := if decide (l = 0) then 1 else 0.
Definition demoBase : loc := 1.
Definition demoSpec (group mode : string) : AppRolloutSpecRobot :=
  mkAppRolloutSpecRobot
    (Some (mkRobotSelector (Some (mkLabelSelector {["group" := group]} [])) None))
    [("cfg", JObj [("mode", JString mode)])] "".
Definition demoRollout : AppRollout :=
  mkAppRollout "apps.cloudrobotics.com/v1alpha1" "AppRollout"
    (mkObjectMeta "nav" "default" "uid-1" "7" 3 0 None None None [] [])
    (mkAppRolloutSpec "nav" [] [demoSpec "a" "one"; demoSpec "b" "two"])
    (mkAppRolloutStatus 0 [] 0 0 0 0).
Definition demoApp : App :=
  mkApp (namedMeta "" "nav")
    (mkAppSpec "repo" "1.0" (mkAppComponents (mkAppComponent "" "") (mkAppComponent "nav-robot" ""))).
Definition demoRobot (name group : string) : Robot := om_setLabels (Some {["group" := group]}) (namedMeta "default" name).
Definition demoRobots : list Robot := [demoRobot "r2" "b"; demoRobot "r1" "a"].
Definition demoOld : ChartAssignment := named "nav-robot-gone" emptyChartAssignment.

Definition demoKube (o : kop rkind) : option (resp o) :=
  match o with
  | KNow => Some 0%Z
  | KGet k _ _ => match k with
      | KApp => Some (Ok demoApp)
      | KAppRollout => Some (Ok demoRollout)
      | _ => Some (Err (EStatus 404 "NotFound" "not found"))
      end
  | KList k _ => match k with
      | KChartAssignment => Some (Ok [demoOld])
      | KRobot => Some (Ok demoRobots)
      | _ => Some (Ok [])
      end
  | KCreate _ o | KUpdate _ o | KStatusUpdate _ o => Some (Ok o)
  | KDelete _ _ | KDeleteAllOf _ _ => Some None
  end.
Definition demoAPI (o : rop) (s : unit) : option (resp o * unit) :=
  match o with
  | K o => (λ r, (r, tt)) <$> demoKube o
  | RangeCAs m => Some (exist _ (map_to_list m) (Permutation_refl _), tt)
  end.
Definition demoRun := run demoAPI (reconcile demoLibs (mkReconciler demoBase) demoRollout demoHeap) tt.

Lemma demo_ranges : Ranges (rangeOrder demoLibs).
Proof. intros h l. done. Qed.
Lemma demo_levelled : levelled 1 demoLevel demoHeap.
Proof.
  split.
  - intros l. unfold demoHeap. cbn. intros [t Ht].
    destruct (decide (l = 0)) as [->|?]; [lia|]. destruct (decide (l = 1)) as [->|?]; [lia|].
    by rewrite !lookup_insert_ne in Ht by done.
  - intros l k l'. unfold demoHeap, h_get. cbn.
    destruct (decide (l = 1)) as [->|?].
    + rewrite lookup_insert_eq. cbn. destruct (decide (k = "cfg")) as [->|?].
      * rewrite lookup_insert_eq. intros [= <-]. vm_compute. lia.
      * by rewrite lookup_insert_ne.
    + rewrite lookup_insert_ne by done. destruct (decide (l = 0)) as [->|?].
      * rewrite lookup_insert_eq. cbn. destruct (decide (k = "mode")) as [->|?].
        -- by rewrite lookup_insert_eq.
        -- by rewrite lookup_insert_ne.
      * by rewrite lookup_insert_ne.
Qed.
Lemma demo_fits : fits 1 demoRollout.
Proof. split; [cbn; lia|]. repeat constructor; cbn; lia. Qed.
Lemma demoRollout_exec : ∃ out, exec (reconcile demoLibs (mkReconciler demoBase) demoRollout demoHeap)
  (trace_of demoRun) out.
Proof.
  destruct (run_exec_some demoAPI (reconcile demoLibs (mkReconciler demoBase) demoRollout demoHeap) tt)
    as (out & _ & HE); [vm_compute; reflexivity|eauto].
Qed.

(** The values of the assignments a trace creates. *)
Definition created (t : list (event rop)) : list (string * ConfigValues) :=
  omap (λ o, match o with
             | K (KCreate KChartAssignment ca) => Some (ca_Name ca, ch_Values (cas_Chart (ca_Spec ca)))
             | _ => None
             end) ((λ e, projT1 e) <$> t).

(** ** Properties *)

(** C10: every call of a reconciliation stays in the rollout's scope, and the
    values it must not lose are there. For every rollout the validating webhook
    admits and every answer of the API server, the reconciler reads only the
    app, the rollout's own assignments, the tenant and the robots of the
    rollout's namespace; it deletes only assignments that the API server listed
    for the rollout's UID; every assignment it creates or updates is in that
    namespace, owned by the rollout, named after the rollout and its robot, and
    carries the controller's values for the robot and the tenant whatever the
    base values and the rollout say; it writes no other status, and never
    panics (no nil selector is dereferenced, merging and serialising the values
    terminate). The invariant of the shared values it needs holds again
    afterwards, so it holds for the controller's whole life. *)
Theorem reconcile_confined (L : Libs) (M : nat) (r : Reconciler) (ar : AppRollout)
    (lv : loc → nat) (h : heap) t out :
  Ranges (rangeOrder L) → (M < stackDepth L)%nat →
  levelled M lv h → (baseValues r < h_next h)%nat → lv (baseValues r) = O → fits M ar →
  validate L ar = None → answers tenant_named t →
  exec (reconcile L r ar h) t out →
  calls (call_ok ar (listed_for ar t)) t ∧
  ∃ res h' lv', out = Done (res, h') ∧ levelled M lv' h' ∧
    (baseValues r < h_next h')%nat ∧ lv' (baseValues r) = O.
Proof.
  intros Hord Hstack Hlev Hb Hlb Hfit Hval Ht HE.
  pose proof HE as Hcalls. eapply wp_exec in Hcalls as [Hcalls _];
    [|eapply (reconcile_wp L M r ar lv h (λ _, True)); eauto using validate_selectors|
     apply answers_both; [done|apply lists_own_any]].
  eapply wp_exec in HE; [|eapply (reconcile_wp L M r ar lv h (listed_for ar t)); eauto using validate_selectors|].
  2: { apply answers_both; [done|]. by eapply lists_own_listed. }
  destruct HE as [Hc Hout]. split; [done|]. destruct out as [[res h']|]; [|done].
  destruct Hout as (lv' & ? & [Hn Hl _]). exists res, h', lv'. cbn in *.
  split_and!; [done|done|lia|by rewrite Hl].
Qed.

Lemma reconcile_confined_witness : calls (call_ok demoRollout (listed_for demoRollout (trace_of demoRun))) (trace_of demoRun).
Proof.
  destruct demoRollout_exec as [out HE].
  refine (proj1 (reconcile_confined demoLibs 1 (mkReconciler demoBase) demoRollout demoLevel demoHeap
    (trace_of demoRun) out demo_ranges _ demo_levelled _ _ demo_fits _ _ HE)).
  - cbn. lia.
  - vm_compute. lia.
  - reflexivity.
  - reflexivity.
  - apply run_answers. intros [[]|] []; cbn; try done; destruct k; intros ?? [=]; by subst.
Defined.

Lemma selects_fun L robots specs m m' :
  Forall2 (selects L robots) specs m → Forall2 (selects L robots) specs m' → m = m'.
Proof.
  intros Hm. revert m'. induction Hm as [|s x specs m (sel & Hs & Hx) _ IH]; intros m' Hm'.
  - by inversion Hm'.
  - inversion Hm' as [|? y ? m'' (sel' & Hs' & Hy) Hm'']; subst. f_equal; [congruence|by apply IH].
Qed.

(** C13: what is generated. [generateChartAssignments] makes no call and always
    returns. It succeeds exactly when every selector is valid and no robot name
    is selected twice (across entries, or twice within one); the assignments
    are then sorted by name, all names differ, there is one per selected robot
    when the app has a robot component, and one for the cloud, listing exactly
    the selected robots, when it has a cloud component. Otherwise the error
    names the first bad selector or an overlapping robot. *)
Theorem generateChartAssignments_spec (L : Libs) (M : nat) app (ar : AppRollout) tenant robots base
    (lv : loc → nat) (h : heap) t out :
  Ranges (rangeOrder L) → (M < stackDepth L)%nat →
  levelled M lv h → (base < h_next h)%nat → lv base = O → fits M ar → validate L ar = None →
  exec (generateChartAssignments L app ar tenant robots base h) t out →
  t = [] ∧ ∃ r h', out = Done (r, h') ∧
    match r with
    | Ok ws =>
        generated L app ar tenant robots ws h' ∧ StronglySorted (key_le w_Name) ws ∧
        NoDup (w_Name <$> ws) ∧
        ¬ (∃ e, overlap L robots (ars_Robots (ar_Spec ar)) e) ∧
        ¬ (∃ e, bad_selector L robots (ars_Robots (ar_Spec ar)) e)
    | Err e => bad_selector L robots (ars_Robots (ar_Spec ar)) e ∨
               overlap L robots (ars_Robots (ar_Spec ar)) e
    end.
Proof.
  intros Hord Hstack Hlev Hb Hlb Hfit Hval HE.
  eapply (wp_exec_any (λ _, False) no_panic) in HE; [|eapply generateChartAssignments_wp; try done;
    intros Hn; by eapply validate_selectors].
  destruct HE as [Hc Hout]. split; [by destruct t as [|? ?]; [|destruct Hc]|].
  destruct out as [[r h']|]; [|done]. destruct Hout as [_ Hr]. exists r, h'. split; [done|].
  destruct r as [ws|e]; [|done]. destruct Hr as [Hgen Hsort]. split_and!; [done|done|by eapply generated_names| |].
  - destruct Hgen as (mss & _ & Hsel & Hnd & _). intros (e & pre & post & mss' & n & Hspecs & Hpre & Hdup & _).
    apply Hdup. clear Hdup. rewrite Hspecs in Hsel. apply Forall2_app_inv_l in Hsel as (m1 & m2 & H1 & _ & ->).
    assert (m1 = mss') as -> by (by eapply selects_fun).
    rewrite concat_app, fmap_app in Hnd. by apply NoDup_app in Hnd as [? _].
  - destruct Hgen as (mss & _ & Hsel & _). intros (e & s & sel & err & Hs & Hrs & Hm & _).
    apply list_elem_of_lookup in Hs as [i Hi]. destruct (Forall2_lookup_l _ _ _ _ _ Hsel Hi) as (ms & _ & sel' & Hs' & Hm').
    congruence.
Qed.

Lemma generateChartAssignments_spec_witness :
  ∃ ws h', outcome_of (run demoAPI (generateChartAssignments demoLibs demoApp demoRollout emptyTenant
             demoRobots demoBase demoHeap) tt) = Some (Done (Ok ws, h')) ∧
    NoDup (w_Name <$> ws).
Proof.
  destruct (run_exec_some demoAPI (generateChartAssignments demoLibs demoApp demoRollout emptyTenant
    demoRobots demoBase demoHeap) tt) as (out & Hout & HE); [vm_compute; reflexivity|].
  destruct (generateChartAssignments_spec demoLibs 1 demoApp demoRollout emptyTenant demoRobots demoBase
    demoLevel demoHeap _ out demo_ranges ltac:(cbn; lia) demo_levelled ltac:(vm_compute; lia)
    eq_refl demo_fits eq_refl HE) as (_ & r & h' & -> & Hr).
  destruct r as [ws|e].
  - exists ws, h'. split; [done|]. apply Hr.
  - exfalso. apply (f_equal (λ o, match o with Some (Done (Err _, _)) => true | _ => false end)) in Hout.
    vm_compute in Hout. done.
Defined.

(** C12: the difference is carried out exactly. When [reconcile] gets past
    generating, and ends without an error, its writes are, in order: for each
    wanted assignment, in order, a creation if the rollout had none of that
    name, an update (with the old resource version) if labels, annotations or
    serialised spec changed, and nothing otherwise; then the deletion of
    exactly the rollout's assignments whose name is not wanted; then the status,
    with the number of wanted assignments, the counts of the assignments' phases
    and the two conditions that compare them. *)
Theorem applyWanted_reconciles (L : Libs) (ar : AppRollout) want cur h t res h' :
  NoDup (w_Name <$> want) →
  exec (applyWanted L ar want cur h) t (Done (res, None, h')) →
  ∃ cas drops ar',
    mapM (rendered L h) want = Some cas ∧
    drops ≡ₚ map_to_list (filter (λ kca, kca.1 ∉ (w_Name <$> want)) (byName cur)) ∧
    status_of ar (Z.of_nat (length want)) cur ar' ∧
    writes t = (concat (plan L ar (byName cur) <$> cas)
      ++ ((λ kca, K (KDelete KChartAssignment kca.2)) <$> drops)
      ++ [K (KStatusUpdate KAppRollout ar')])%list ∧ h' = h.
Proof.
  intros Hnd HE. unfold applyWanted in HE. cbv zeta in HE. fold (byName cur) in HE.
  apply exec_bind in HE as [(m & _ & ?)|(t1 & t2 & s & -> & HE1 & HE)]; [done|].
  destruct s as [e|drop]; [by destruct HE as [_ [=]]|].
  apply applyCA_loop_exec in HE1 as (cas & Hcas & Hw1 & ->); [|done].
  cbn [exec prog_bind call] in HE. destruct HE as ([drops Hp] & t3 & -> & HE). cbn [proj1_sig] in HE.
  apply exec_bind in HE as [(m & _ & ?)|(t4 & t5 & s & -> & HE1 & HE)]; [done|].
  destruct s as [e|u]; [by destruct HE as [_ [=]]|]. apply deleteCA_loop_exec in HE1.
  apply exec_bind in HE as [(m & _ & ?)|(t6 & t7 & ar' & -> & HE2 & HE)]; [done|].
  eapply (wp_exec_any _ no_panic) in HE2 as [Hc Hst]; [|apply setStatus_wp].
  cbn [exec prog_bind call] in HE. destruct HE as (u' & t8 & -> & HE).
  destruct u'; destruct HE as [-> [=]]; subst.
  exists cas, drops, ar'. split_and!; [done|done|done| |done].
  rewrite writes_app, Hw1. change (?x :: ?y) with ([x] ++ y)%list. rewrite !writes_app, HE1.
  assert (writes t6 = []) as ->.
  { clear -Hc. induction t6 as [|[o r] t IH]; [done|]. destruct Hc as [Ho Hc]. cbn in Ho. subst o. by apply IH. }
  done.
Qed.

Lemma applyWanted_reconciles_witness :
  let want := [mkWantCA (named "nav-robot-r1" emptyChartAssignment) demoBase] in
  let t := trace_of (run demoAPI (applyWanted demoLibs demoRollout want [demoOld] demoHeap) tt) in
  ∃ cas (drops : list (string * ChartAssignment)), mapM (rendered demoLibs demoHeap) want = Some cas ∧
    writes t = (concat (plan demoLibs demoRollout (byName [demoOld]) <$> cas)
      ++ ((λ kca, K (KDelete KChartAssignment kca.2)) <$> drops)
      ++ drop (length (writes t) - 1) (writes t))%list.
Proof.
  intros want t.
  destruct (run_exec_some demoAPI (applyWanted demoLibs demoRollout want [demoOld] demoHeap) tt)
    as (out & Hout & HE); [vm_compute; reflexivity|].
  assert (out = Done (mkResult 0, None, demoHeap)) as ->.
  { apply (inj Some). rewrite <-Hout. vm_compute. reflexivity. }
  destruct (applyWanted_reconciles demoLibs demoRollout want [demoOld] demoHeap t _ _
    ltac:(apply NoDup_singleton) HE) as (cas & drops & ar' & Hcas & _ & _ & Hw & _).
  exists cas, drops. split; [done|]. rewrite Hw at 1. do 2 f_equal. rewrite Hw.
  rewrite (assoc_L (++)), length_app, Nat.add_sub. symmetry. apply drop_app_length.
Defined.

(** the base values are not isolated. With a nested table in the
    controller's parameters, an assignment's values are merged into that table
    itself, not into a copy: robot [r1], whose entry sets [cfg.mode] to [one],
    is created with the value of the entry of robot [r2], and the table stays
    changed for every later rollout. *)
Theorem base_values_leak :
  created (trace_of demoRun) =
    [("nav-robot-r1", [("cfg", JObj [("mode", JString "two")]); ("robot", robotValues "r1")]);
     ("nav-robot-r2", [("cfg", JObj [("mode", JString "two")]); ("robot", robotValues "r2")])] ∧
  ∃ res h', outcome_of demoRun = Some (Done (res, h')) ∧
    resolveValues 10 demoHeap demoBase = Some [("cfg", JObj [("mode", JString "base")])] ∧
    resolveValues 10 h' demoBase = Some [("cfg", JObj [("mode", JString "two")])].
Proof.
  split; [vm_compute; reflexivity|].
  assert (match outcome_of demoRun with
          | Some (Done (_, h')) => resolveValues 10 h' demoBase = Some [("cfg", JObj [("mode", JString "two")])]
          | _ => False
          end) as Hrun by (vm_compute; reflexivity).
  destruct (outcome_of demoRun) as [[[res h']|]|]; [|done..].
  exists res, h'. split; [done|]. split; [vm_compute; reflexivity|done].
Qed.

(** merging terminates and does what its comment says. On values without
    cycles whose nesting fits the stack, [MergeInto] returns; every key of the
    source replaces the target's value, except where both are maps: there the
    target keeps its own map, into which the source's is merged. No other map at
    the target's level or above changes, so a fresh target protects the maps it
    was filled from at the top level, and only there. *)
Theorem MergeInto_merges (ord : order) (M fuel : nat) (lv : loc → nat) (h : heap) v src :
  Ranges ord → levelled M lv h → (v < h_next h)%nat → (src < h_next h)%nat →
  lv src = lv v → (lv v ≤ M)%nat → (M < fuel + lv v)%nat →
  ∃ h', MergeInto ord fuel v src h = Some h' ∧ levelled M lv h' ∧
    (∀ l, (lv l ≤ lv v)%nat → l ≠ v → h_get h' l = h_get h l) ∧
    ∀ k, h_get h' v !! k =
      match h_get h src !! k with
      | None => h_get h v !! k
      | Some (CVal j) => Some (CVal j)
      | Some (CTable s) => match h_get h v !! k with
                           | Some (CTable d) => Some (CTable d)
                           | _ => Some (CTable s)
                           end
      end.
Proof.
  intros Hord Hlev Hv Hs Hls Hm Hf.
  destruct (MergeInto_spec ord Hord M lv fuel v src h) as (h' & HE & Hl & _ & Hfr & Hk); try done.
  exists h'. split_and!; try done. intros k. rewrite Hk. unfold merged.
  by destruct (h_get h src !! k) as [[s|j]|], (h_get h v !! k) as [[d|j']|].
Qed.

Lemma MergeInto_merges_witness :
  is_some (MergeInto (rangeOrder demoLibs) 10 demoBase demoBase demoHeap) = true.
Proof.
  destruct (MergeInto_merges (rangeOrder demoLibs) 1 10 demoLevel demoHeap demoBase demoBase)
    as (h' & -> & _); [apply demo_ranges|apply demo_levelled|vm_compute; lia..|done].
Defined.

(** names of assignments. Within a rollout the name tells the robot, and no
    robot's assignment has the cloud assignment's name; but a robot named
    [robot-x] of one rollout and robot [x] of the rollout whose name ends in
    [-robot] share a name in their namespace. *)
Theorem chartAssignmentName_spec (rollout a b : string) :
  (chartAssignmentName rollout compTypeRobot a = chartAssignmentName rollout compTypeRobot b ↔ a = b) ∧
  chartAssignmentName rollout compTypeRobot a ≠ chartAssignmentName rollout compTypeCloud "" ∧
  (a ≠ "" → chartAssignmentName rollout compTypeRobot ("robot-" ++ a) =
            chartAssignmentName (rollout ++ "-robot") compTypeRobot a).
Proof.
  split_and!.
  - split; [apply chartAssignmentName_inj|by intros ->].
  - apply chartAssignmentName_typ.
  - intros Ha. unfold chartAssignmentName. rewrite !bool_decide_eq_false_2 by done.
    by rewrite app_assoc_s.
Qed.

Lemma chartAssignmentName_spec_witness :
  chartAssignmentName "nav" compTypeRobot "robot-7" = chartAssignmentName "nav-robot" compTypeRobot "7".
Proof. apply (chartAssignmentName_spec "nav" "7" ""). done. Defined.

(** assignments lead back to their rollout. Adding the rollout's reference
    keeps the other owners, replaces an older reference with the same UID, and
    leaves an assignment that the owner index finds under the rollout's UID and
    whose updates and deletion enqueue the rollout. *)
Theorem assignments_lead_back (ar : AppRollout) (ca : ChartAssignment) :
  ar_APIVersion ar = "apps.cloudrobotics.com/v1alpha1" → ar_Kind ar = "AppRollout" →
  ca_Namespace ca = ar_Namespace ar →
  let ca' := owned ar ca in
  om_UID (ar_meta ar) ∈ indexOwnerReferences ca' ∧
  (∀ o, o ∈ om_OwnerReferences (ca_meta ca) → or_UID o ≠ om_UID (ar_meta ar) →
        o ∈ om_OwnerReferences (ca_meta ca')) ∧
  (NoDup (indexOwnerReferences ca) → NoDup (indexOwnerReferences ca')) ∧
  ∀ old t out, exec (onEvent (AssignmentUpdated old (ca_meta ca'))) t out ∨
               exec (onEvent (AssignmentDeleted (ca_meta ca'))) t out →
    ∃ l, out = Done (0%Z, l) ∧ (ar_Namespace ar, ar_Name ar) ∈ l.
Proof.
  intros Ha Hk Hns ca'.
  assert (om_OwnerReferences (ca_meta ca') = upsertOwner (ownerRef ar) (om_OwnerReferences (ca_meta ca))) as Ho
    by (subst ca'; by destruct ca as [?? [] ??]).
  assert (om_Namespace (ca_meta ca') = ar_Namespace ar) as Hns' by (subst ca'; by destruct ca as [?? [] ??]).
  assert (Hin : ownerRef ar ∈ om_OwnerReferences (ca_meta ca')) by (rewrite Ho; apply upsertOwner_elem).
  unfold indexOwnerReferences. split_and!.
  - apply list_elem_of_fmap. by exists (ownerRef ar).
  - rewrite Ho. intros o. generalize (om_OwnerReferences (ca_meta ca)). induction l as [|x l IH]; [set_solver|].
    intros Hin' Hne. cbn. case_bool_decide as Hu; apply elem_of_cons in Hin' as [->|?].
    + by rewrite <-Hu in Hne.
    + by right.
    + by left.
    + right. by apply IH.
  - rewrite Ho. assert (∀ l, or_UID <$> upsertOwner (ownerRef ar) l =
      if bool_decide (om_UID (ar_meta ar) ∈ (or_UID <$> l)) then or_UID <$> l
      else ((or_UID <$> l) ++ [om_UID (ar_meta ar)])%list) as Hup.
    { induction l as [|x l IH]; [done|]. cbn [upsertOwner].
      destruct (decide (or_UID (ownerRef ar) = or_UID x)) as [Hu|Hu];
        [rewrite (bool_decide_eq_true_2 _ Hu)|rewrite (bool_decide_eq_false_2 _ Hu)].
      - cbn in Hu. rewrite bool_decide_eq_true_2; [by cbn; f_equal|]. cbn. rewrite <-Hu. by left.
      - rewrite !fmap_cons, IH. cbn. cbn in Hu. repeat case_bool_decide; set_solver. }
    rewrite Hup. case_bool_decide; [done|]. intros Hnd. apply NoDup_app.
    split_and!; [done|set_solver|apply NoDup_singleton].
  - intros old t out HE. exists (enqueueForOwner (ca_meta ca')).
    split; [destruct HE as [[_ ?]|[_ ?]]; done|]. unfold enqueueForOwner. rewrite Hns'.
    apply list_elem_of_fmap. exists (ownerRef ar). split; [done|]. by apply list_elem_of_filter.
Qed.

Lemma assignments_lead_back_witness :
  ("default", "nav") ∈ enqueueForOwner (ca_meta (owned demoRollout (ca_setMeta (namedMeta "default" "nav-cloud") emptyChartAssignment))).
Proof.
  destruct (assignments_lead_back demoRollout (ca_setMeta (namedMeta "default" "nav-cloud") emptyChartAssignment))
    as (_ & _ & _ & H); [reflexivity..|].
  destruct (H emptyMeta _ _ (or_introl (conj eq_refl eq_refl))) as (l & [= <-] & Hl). exact Hl.
Defined.

(** the webhook admits exactly the rollouts the reconciler can handle: the
    app name is a DNS name, the cloud values leave [robots] and the robots'
    values [robot] to the controller, and every entry has a selector with [any]
    or a label selector; a rollout that does not decode is a bad request. *)
Theorem webhook_admits_iff (L : Libs) (decoded : result AppRollout) :
  Handle L decoded = Allowed ↔
  ∃ ar, decoded = Ok ar ∧
    ars_AppName (ar_Spec ar) ≠ "" ∧ NameIsDNSSubdomain L (ars_AppName (ar_Spec ar)) = [] ∧
    (∀ v, ("robots", v) ∉ ars_CloudValues (ar_Spec ar)) ∧
    Forall (λ s, (∀ v, ("robot", v) ∉ rr_Values s) ∧
      ∃ sel, rr_Selector s = Some sel ∧ (is_Some (rsel_Any sel) ∨ is_Some (rsel_LabelSelector sel)))
      (ars_Robots (ar_Spec ar)).
Proof.
  assert (Hkey : ∀ k v, has_key k v = false ↔ ∀ j, (k, j) ∉ v).
  { intros k v. unfold has_key. induction v as [|[k' j] v IH]; cbn; [set_solver|].
    rewrite orb_false_iff, bool_decide_eq_false, IH. set_solver. }
  assert (Hrobots : ∀ l i, validateRobots i l = None ↔
    Forall (λ s, (∀ v, ("robot", v) ∉ rr_Values s) ∧
      ∃ sel, rr_Selector s = Some sel ∧ (is_Some (rsel_Any sel) ∨ is_Some (rsel_LabelSelector sel))) l).
  { induction l as [|s l IH]; intros i; cbn; [split; [constructor|done]|]. rewrite Forall_cons.
    destruct (has_key "robot" (rr_Values s)) eqn:Hk.
    { split; [done|]. intros [[Hno _] _]. apply (proj2 (Hkey _ _)) in Hno. congruence. }
    pose proof (proj1 (Hkey _ _) Hk) as Hk'. clear Hk. destruct (rr_Selector s) as [[ls any]|].
    - destruct any as [any|], ls as [ls|]; cbn; rewrite ?IH; try naive_solver;
        (split; [done|]); intros [(_ & sel & [= <-] & [[? [=]]|[? [=]]]) _].
    - split; [done|]. intros [(_ & sel & ? & _) _]. done. }
  destruct decoded as [ar|e]; cbn; [|split; [done|intros (? & ? & _); done]].
  unfold validate. transitivity (ars_AppName (ar_Spec ar) ≠ "" ∧ NameIsDNSSubdomain L (ars_AppName (ar_Spec ar)) = [] ∧
    has_key "robots" (ars_CloudValues (ar_Spec ar)) = false ∧ validateRobots 0 (ars_Robots (ar_Spec ar)) = None).
  - case_bool_decide; [naive_solver|]. destruct (NameIsDNSSubdomain L _); [|naive_solver].
    destruct (has_key _ _); [naive_solver|]. destruct (validateRobots _ _); naive_solver.
  - rewrite Hkey, Hrobots. naive_solver.
Qed.
