(* ===== verification/ChartAssign.v ===== *)
(** * src/go/pkg/controller/chartassignment: installing chart assignments

    [Module Release] translates release.go: the cache of releases and the
    worker goroutine each release runs its installations on.  [Module Model]
    translates controller.go.  [Module System] runs them side by side. *)
From stdpp Require Import prelude strings gmap list sorting pretty relations.
From Stdlib Require Import Ascii ZArith.
From S2P Require Import Prelude GoErr GoStr Kube Coretools Tenant Apps Synk Rollout.

Open Scope string_scope.
Open Scope prog_scope.

Module Release.

(** ** Loading a chart *)

(** [filepath.Ext]: the suffix from the last dot of the last path element. *)
Fixpoint Ext (path : string) : string :=
  match path with
  | EmptyString => ""
  | String c rest =>
      if bool_decide (c = "."%char) && negb (Contains rest ".") && negb (Contains rest "/")
      then path else Ext rest
  end.

(** The Helm library: archives, requirements, values, rendering, and the
    decoding of a rendered file into its documents, up to the first that does
    not decode. *)
Inductive Archive := Base64 (inline : string) | Fetched (content : string).
Record Libs := mkLibs {
  Chart : Type;
  LoadArchive : Archive → result Chart;
  (** [None] is [ErrRequirementsNotFound]. *)
  LoadRequirements : Chart → result (option string);
  CheckDependencies : Chart → string → option error;
  ReadValues : Chart → result ConfigValues;
  YAML : ConfigValues → result string;
  Render : Chart → string → string → string → result (gmap string string);
  DecodeDocuments : string → list Synk.Model.Unstructured * option error;
  rangeOrder : Values.order;
  stackDepth : nat }.

(** What the worker goroutine of a release does: it reads and writes the
    release's status under its mutex, records events, downloads charts and
    calls synk. *)
Inductive wop : Type :=
| GetPhase
| SetPhase (p : string)
| SetFailed (err : error) (retry : bool)
| ResetGeneration
| Event (warning : bool) (reason msg : string)
| FetchChartTar (repoURL name version : string)
| RangeManifests (m : gmap string string)
| SynkApply (name : string) (opts : Synk.Model.ApplyOptions) (resources : list Synk.Model.Unstructured)
| SynkDelete (name : string).
#[export] Instance wop_effect : Effect wop := λ o,
  match o with
  | GetPhase => string
  | SetPhase _ | SetFailed _ _ | ResetGeneration | Event _ _ _ => unit
  | FetchChartTar _ _ _ => result string
  | RangeManifests m => {l : list (string * string) | l ≡ₚ map_to_list m}
  | SynkApply _ _ _ | SynkDelete _ => option error
  end.

Section load.
Context (L : Libs).

(** The merge of the assignment's values into the chart's, both decoded
    afresh. *)
Definition mergeValues (vals cspecValues : ConfigValues) : option ConfigValues :=
  let '(v, h) := Values.loadValues vals (Values.mkHeap 0 ∅) in
  let '(src, h) := Values.loadValues cspecValues h in
  h ← Values.MergeInto (rangeOrder L) (stackDepth L) v src h;
  Values.resolveValues (stackDepth L) h v.

Definition loadChart_archive (archive : Archive) (cspec : AssignedChart)
    : prog wop (result (Chart L * string)) :=
  match LoadArchive L archive with
  | Err err => Ret (Err (EWrap "load chart archive" err))
  | Ok c =>
      let cont :=
        match ReadValues L c with
        | Err err => Ret (Err (EWrap "reading chart values" err))
        | Ok vals =>
            match mergeValues vals (ch_Values cspec) with
            | None => Panic "stack overflow"
            | Some vals =>
                match YAML L vals with
                | Err err => Ret (Err (EWrap "encode values" err))
                | Ok valsRaw => Ret (Ok (c, valsRaw))
                end
            end
        end in
      match LoadRequirements L c with
      | Err err => Ret (Err (EWrap "load chart requirements" err))
      | Ok None => cont
      | Ok (Some req) =>
          match CheckDependencies L c req with
          | Some err => Ret (Err (EWrap "check chart dependencies" err))
          | None => cont
          end
      end
  end.

Definition loadChart (cspec : AssignedChart) : prog wop (result (Chart L * string)) :=
  if negb (bool_decide (ch_Inline cspec = "")) then loadChart_archive (Base64 (ch_Inline cspec)) cspec
  else
    let! f := call (FetchChartTar (ch_Repository cspec) (ch_Name cspec) (ch_Version cspec)) in
    match f with
    | Err err => Ret (Err (EWrap "retrieve chart" err))
    | Ok content => loadChart_archive (Fetched content) cspec
    end.

Definition manifestExt (k : string) : bool :=
  bool_decide (Ext k = ".json") || bool_decide (Ext k = ".yml") || bool_decide (Ext k = ".yaml").

Fixpoint decodeManifests_loop (l : list (string * string)) (res : list Synk.Model.Unstructured)
    : result (list Synk.Model.Unstructured) :=
  match l with
  | [] => Ok res
  | (k, v) :: l =>
      if manifestExt k then
        let '(docs, err) := DecodeDocuments L v in
        match err with
        | Some err => Err (EWrap ("decode manifest " ++ fmt_d (Z.of_nat (length docs)) ++ " in " ++ fmt_q k) err)
        | None => decodeManifests_loop l (res ++ docs)%list
        end
      else decodeManifests_loop l res
  end.
Definition decodeManifests (manifests : gmap string string)
    : prog wop (result (list Synk.Model.Unstructured)) :=
  let! l := call (RangeManifests manifests) in
  Ret (decodeManifests_loop (`l) []).

(** The resources, or the error and whether to retry. *)
Definition loadAndExpandChart (as_ : ChartAssignment)
    : prog wop (list Synk.Model.Unstructured + bool * error) :=
  let! c := loadChart (cas_Chart (ca_Spec as_)) in
  match c with
  | Err err => Ret (inr (true, err))
  | Ok (c, values) =>
      match Render L c values (ca_Name as_) (cas_NamespaceName (ca_Spec as_)) with
      | Err err => Ret (inr (false, EWrap "render chart" err))
      | Ok manifests =>
          let! res := decodeManifests manifests in
          match res with
          | Err err => Ret (inr (false, err))
          | Ok res => Ret (inl res)
          end
      end
  end.

(** ** The worker's functions *)

Definition releaseName (as_ : ChartAssignment) : string := ca_Namespace as_ ++ "." ++ ca_Name as_.

(** Version and log function of the options are filled in by synk. *)
Definition applyOptions (as_ : ChartAssignment) : Synk.Model.ApplyOptions :=
  Synk.Model.mkApplyOptions "" 0 (cas_NamespaceName (ca_Spec as_)) true true.

Definition update (as_ : ChartAssignment) : prog wop unit :=
  let! _ := call (SetPhase ChartAssignmentPhaseLoadingChart) in
  let! l := loadAndExpandChart as_ in
  match l with
  | inr (retry, err) =>
      let! _ := call (Event true "Failure" (error_text err)) in
      call (SetFailed err retry)
  | inl resources =>
      let! _ := call (SetPhase ChartAssignmentPhaseUpdating) in
      let! _ := call (Event false "UpdateChart" "update chart") in
      let! e := call (SynkApply (releaseName as_) (applyOptions as_) resources) in
      match e with
      | Some err =>
          let! _ := call (Event true "Failure" (error_text err)) in
          call (SetFailed err (Synk.Model.IsTransientErr err))
      | None =>
          let! _ := call (Event false "Success" "chart updated successfully") in
          call (SetPhase ChartAssignmentPhaseSettled)
      end
  end.

(** A failure is recorded, and the function goes on. *)
Definition delete (as_ : ChartAssignment) : prog wop unit :=
  let! currentPhase := call GetPhase in
  if bool_decide (currentPhase = ChartAssignmentPhaseDeleted) then Ret tt
  else
    let! _ := call (SetPhase ChartAssignmentPhaseDeleting) in
    let! _ := call (Event false "DeleteChart" "deleting chart") in
    let! e := call (SynkDelete (releaseName as_)) in
    let! _ :=
      match e with
      | Some err =>
          let! _ := call (Event true "Failure" (error_text err)) in
          call (SetFailed (EWrap "delete release" err) (Synk.Model.IsTransientErr err))
      | None => Ret tt
      end in
    let! _ := call (Event false "Success" "chart deleted successfully") in
    let! _ := call (SetPhase ChartAssignmentPhaseDeleted) in
    call ResetGeneration.
End load.

(** ** The cache of releases *)

Record releaseStatus := mkReleaseStatus { st_phase : string; st_err : option error; st_retry : bool }.
(** The worker: its goroutine has not reached the channel, waits at it, or runs
    a function. *)
Inductive worker := Starting | Waiting | Running (p : prog wop unit).
Record release := mkRelease { rl_status : releaseStatus; rl_generation : Z; rl_worker : worker }.
Abbreviation releases := (gmap string release).

Definition newRelease : release :=
  mkRelease (mkReleaseStatus ChartAssignmentPhaseAccepted None false) 0 Starting.
Definition add (n : string) (rs : releases) : releases :=
  match rs !! n with Some _ => rs | None => <[n:=newRelease]> rs end.
Definition status (n : string) (rs : releases) : option releaseStatus := rl_status <$> rs !! n.
Definition generation (n : string) (rs : releases) : Z := default 0%Z (rl_generation <$> rs !! n).
Definition setGeneration (n : string) (g : Z) (rs : releases) : releases :=
  alter (λ r, mkRelease (rl_status r) g (rl_worker r)) n rs.
(** [start] hands the function over only when the worker waits for one. *)
Definition start (n : string) (f : prog wop unit) (rs : releases) : bool * releases :=
  match rs !! n with
  | Some (mkRelease st g Waiting) => (true, <[n := mkRelease st g (Running f)]> rs)
  | _ => (false, rs)
  end.

Definition setPhase (p : string) (s : releaseStatus) : releaseStatus := mkReleaseStatus p None false.
Definition setFailed (err : error) (retry : bool) (s : releaseStatus) : releaseStatus :=
  mkReleaseStatus (if retry then st_phase s else ChartAssignmentPhaseFailed) (Some err) retry.

(** The effect of a worker's operation on its release. *)
Definition workerOp (o : wop) (sg : releaseStatus * Z) : releaseStatus * Z :=
  match o with
  | SetPhase p => (setPhase p sg.1, sg.2)
  | SetFailed err retry => (setFailed err retry sg.1, sg.2)
  | ResetGeneration => (sg.1, 0%Z)
  | _ => sg
  end.
Definition workerAnswer (o : wop) (s : releaseStatus) : resp o → Prop :=
  match o with GetPhase => λ r, r = st_phase s | _ => λ _, True end.

End Release.

Module Model.
Import Release.

Definition defaultServiceAccountDeadline : Z := Minute.
Definition fieldIndexNamespace := "spec.namespaceName".
Definition finalizer := "helm.apps.cloudrobotics.com".
Definition requeueFast : Z := (3 * Second)%Z.
Definition requeueSlow : Z := (3 * Minute)%Z.

Inductive ckind := KChartAssignment | KNamespace | KSecret | KServiceAccount | KPod.
#[export] Instance ckinds : Kinds ckind := λ k,
  match k with
  | KChartAssignment => ChartAssignment
  | KNamespace => Namespace
  | KSecret => Secret
  | KServiceAccount => ServiceAccount
  | KPod => Pod
  end.

(** The API client, and the operations on the cache of releases, each under
    its mutex; a function handed to a worker is named by the assignment it was
    given a copy of. *)
Inductive task := TUpdate (as_ : ChartAssignment) | TDelete (as_ : ChartAssignment).
Inductive cop : Type :=
| K (o : kop ckind)
| RAdd (n : string)
| RStatus (n : string)
| RGeneration (n : string)
| RStart (n : string) (t : task)
| RSetGeneration (n : string) (g : Z).
#[export] Instance cop_effect : Effect cop := λ o,
  match o with
  | K o => resp o
  | RAdd _ | RSetGeneration _ _ => unit
  | RStatus _ => option releaseStatus
  | RGeneration _ => Z
  | RStart _ _ => bool
  end.

Record Reconciler := mkReconciler { r_cluster : string; r_copyPullSecret : bool }.
Record Result := mkResult { rs_Requeue : bool; rs_RequeueAfter : Z }.
Definition requeue (after : Z) : Result := mkResult true after.
Definition noResult : Result := mkResult false 0.

(** ** The cache, as the controller uses it *)

Definition ensureUpdated (as_ : ChartAssignment) : prog cop bool :=
  let n := releaseName as_ in
  let! _ := call (RAdd n) in
  let! st := call (RStatus n) in
  let! g := call (RGeneration n) in
  let retry := match st with Some st => st_retry st | None => false end in
  if bool_decide (g = om_Generation (ca_meta as_)) && negb retry then Ret true
  else
    let! started := call (RStart n (TUpdate as_)) in
    if (started : bool) then
      let! _ := call (RSetGeneration n (om_Generation (ca_meta as_))) in Ret true
    else Ret false.

Definition releases_ensureDeleted (as_ : ChartAssignment) : prog cop bool :=
  let n := releaseName as_ in
  let! _ := call (RAdd n) in
  call (RStart n (TDelete as_)).

(** ** Helpers *)

Definition condition (b : bool) : ConditionStatus := if b then ConditionTrue else ConditionFalse.

Definition inCondition (as_ : ChartAssignment) (c : string) : bool :=
  existsb (λ cond, bool_decide (cd_Type cond = c) && bool_decide (cd_Status cond = ConditionTrue))
    (cat_Conditions (ca_Status as_)).

Definition setCondition (as_ : ChartAssignment) (t : string) (v : ConditionStatus) (msg : string)
    : prog cop ChartAssignment :=
  let! now := call (K KNow) in
  Ret (ca_setConditions (upsertCondition now t v msg (cat_Conditions (ca_Status as_))) as_).

Definition setLabel (o : ObjectMeta) (k v : string) : ObjectMeta :=
  om_setLabels (sm_set (om_Labels o) k v) o.

Definition targetNs (as_ : ChartAssignment) : string := cas_NamespaceName (ca_Spec as_).

(** ** The steps *)

Definition ensureNamespace (as_ : ChartAssignment) : prog cop (result Namespace) :=
  let! g := call (K (KGet KNamespace "" (targetNs as_))) in
  match g with
  | Err err =>
      if IsNotFound err then
        let m := setLabel (om_setName (targetNs as_) emptyMeta) "app" (ca_Name as_) in
        call (K (KCreate KNamespace (mkNamespace m)))
      else Ret (Err (EText ("getting Namespace " ++ fmt_q (targetNs as_) ++ " failed: " ++ error_text err)))
  | Ok ns =>
      match om_DeletionTimestamp (ns_meta ns) with
      | Some ts => Ret (Err (ENamespaceDeletion ("namespace " ++ fmt_q (targetNs as_)
          ++ " was marked for deletion at " ++ fmt_d ts ++ ", skipping")))
      | None =>
          let m := setLabel (om_setName (targetNs as_) (ns_meta ns)) "app" (ca_Name as_) in
          call (K (KUpdate KNamespace (mkNamespace m)))
      end
  end.

(** The pull secret of the namespace: an error of the first read other than
    not-found is dropped. *)
Definition ensurePullSecret (ns : Namespace) (as_ : ChartAssignment) : prog cop (option error) :=
  let! g := call (K (KGet KSecret (targetNs as_) ImagePullSecret)) in
  match g with
  | Err err =>
      if IsNotFound err then
        let! g := call (K (KGet KSecret "default" ImagePullSecret)) in
        match g with
        | Err err =>
            if IsNotFound err
            then Ret (Some (EText ("failed to get Secret " ++ dq ("default:" ++ ImagePullSecret))))
            else Ret (Some (EText ("getting Secret " ++ dq ("default:" ++ ImagePullSecret)
                                   ++ " failed: " ++ error_text err)))
        | Ok secret =>
            let secret := mkSecret (namedMeta (om_Name (ns_meta ns)) ImagePullSecret)
                            (sec_Data secret) (sec_Type secret) in
            let! c := call (K (KCreate KSecret secret)) in
            match c with
            | Err err => Ret (Some (EText ("creating Secret " ++ dq (targetNs as_ ++ ":" ++ ImagePullSecret)
                                           ++ " failed: " ++ error_text err)))
            | Ok _ => Ret None
            end
        end
      else Ret None
  | Ok _ => Ret None
  end.

Definition ensureDefaultAccount (ns : Namespace) (as_ : ChartAssignment) : prog cop (option error) :=
  let! g := call (K (KGet KServiceAccount (targetNs as_) "default")) in
  match g with
  | Err err =>
      let failed := EText ("getting ServiceAccount " ++ dq (targetNs as_ ++ ":default")
                           ++ " failed: " ++ error_text err) in
      if IsNotFound err then
        let! now := call (K KNow) in
        if (now - om_CreationTimestamp (ns_meta ns) <? defaultServiceAccountDeadline)%Z
        then Ret (Some (EMissingServiceAccount
               ("ServiceAccount " ++ dq (om_Name (ns_meta ns) ++ ":default") ++ " not yet created")))
        else Ret (Some failed)
      else Ret (Some failed)
  | Ok sa =>
      let secrets := sa_ImagePullSecrets sa in
      let secrets := if stringsContain secrets ImagePullSecret then secrets
                     else (secrets ++ [ImagePullSecret])%list in
      let! u := call (K (KUpdate KServiceAccount (mkServiceAccount (sa_meta sa) secrets))) in
      match u with Ok _ => Ret None | Err err => Ret (Some err) end
  end.

Definition ensureServiceAccount (r : Reconciler) (ns : Namespace) (as_ : ChartAssignment)
    : prog cop (option error) :=
  if negb (r_copyPullSecret r) then Ret None
  else
    let! e := ensurePullSecret ns as_ in
    match e with
    | Some err => Ret (Some err)
    | None => ensureDefaultAccount ns as_
    end.

Definition podReady (p : Pod) : bool :=
  bool_decide (pod_Phase p = "Running") || bool_decide (pod_Phase p = "Succeeded").
Definition countReady (pods : list Pod) : Z := Z.of_nat (length (filter (λ p, podReady p = true) pods)).

Definition storeStatus (as_ : ChartAssignment) : prog cop (option error * ChartAssignment) :=
  let! u := call (K (KStatusUpdate KChartAssignment as_)) in
  match u with
  | Ok as_ => Ret (None, as_)
  | Err err => Ret (Some err, as_)
  end.

Definition setStatus (as_ : ChartAssignment) : prog cop (option error * ChartAssignment) :=
  let! st := call (RStatus (releaseName as_)) in
  match st with
  | None => Ret (None, as_)
  | Some status =>
      if bool_decide (st_phase status = ChartAssignmentPhaseDeleted) then Ret (None, as_)
      else
        let as_ := ca_setObservedGeneration (om_Generation (ca_meta as_)) as_ in
        let as_ := ca_setPhase (st_phase status) as_ in
        let settled := bool_decide (st_phase status = ChartAssignmentPhaseSettled) in
        let! as_ := setCondition as_ ChartAssignmentConditionSettled (condition settled)
                      (match st_err status with None => "" | Some err => error_text err end) in
        let! g := call (K (KGet KNamespace "" (targetNs as_))) in
        match g with
        | Err err =>
            if IsNotFound err then
              let! as_ := setCondition as_ ChartAssignmentConditionReady (condition false)
                            "waiting for namespace creation" in
              storeStatus as_
            else Ret (Some (EWrap "get namespace" err), as_)
        | Ok _ =>
            let! l := call (K (KList KPod (InNamespace (targetNs as_)))) in
            match l with
            | Err err => Ret (Some (EWrap "list pods" err), as_)
            | Ok pods =>
                let ready := countReady pods in
                let total := Z.of_nat (length pods) in
                if negb settled then
                  let! as_ := setCondition as_ ChartAssignmentConditionReady ConditionFalse
                                "Release not settled yet" in
                  storeStatus as_
                else
                  let as_ := if bool_decide (ready = total)
                             then ca_setPhase ChartAssignmentPhaseReady as_ else as_ in
                  let! as_ := setCondition as_ ChartAssignmentConditionReady
                                (condition (bool_decide (ready = total)))
                                (fmt_d ready ++ "/" ++ fmt_d total ++ " pods are running or succeeded") in
                  storeStatus as_
            end
        end
  end.

Definition ca_setFinalizers (l : list string) (as_ : ChartAssignment) : ChartAssignment :=
  ca_setMeta (om_setFinalizers l (ca_meta as_)) as_.
Definition ca_Finalizers (as_ : ChartAssignment) : list string := om_Finalizers (ca_meta as_).

Definition removeFinalizer (as_ : ChartAssignment) : prog cop (option error * ChartAssignment) :=
  let as_ := ca_setFinalizers (stringsDelete (ca_Finalizers as_) finalizer) as_ in
  let! u := call (K (KUpdate KChartAssignment as_)) in
  match u with
  | Err err => Ret (Some (EText ("update failed: " ++ error_text err)), as_)
  | Ok as_ => Ret (None, as_)
  end.

Definition ensureDeleted (as_ : ChartAssignment) : prog cop (option error * ChartAssignment) :=
  let! _ := releases_ensureDeleted as_ in
  let! st := call (RStatus (releaseName as_)) in
  match st with
  | None => Ret (Some (EText "release status not found"), as_)
  | Some status =>
      if negb (bool_decide (st_phase status = ChartAssignmentPhaseDeleted)) then Ret (None, as_)
      else if negb (stringsContain (ca_Finalizers as_) finalizer) then Ret (None, as_)
      else
        let! g := call (K (KGet KNamespace "" (targetNs as_))) in
        match g with
        | Err err =>
            if IsNotFound err then removeFinalizer as_
            else Ret (Some (EText ("getting Namespace " ++ fmt_q (targetNs as_)
                                   ++ " failed: " ++ error_text err)), as_)
        | Ok ns =>
            let! d := call (K (KDelete KNamespace ns)) in
            match d with
            | Some err => Ret (Some (EText ("delete namespace failed: " ++ error_text err)), as_)
            | None => removeFinalizer as_
            end
        end
  end.

(** ** The reconciler *)

Definition reconcileDeleted (as_ : ChartAssignment) : prog cop (Result * option error) :=
  let! '(e, as_) := ensureDeleted as_ in
  match e with
  | Some err => Ret (noResult, Some (EText ("ensure deleted: " ++ error_text err)))
  | None =>
      let! '(e, as_) := setStatus as_ in
      match e with
      | Some err => Ret (noResult, Some (EText ("set status: " ++ error_text err)))
      | None => Ret (requeue requeueFast, None)
      end
  end.

Definition addFinalizer (as_ : ChartAssignment) : prog cop (option error * ChartAssignment) :=
  if stringsContain (ca_Finalizers as_) finalizer then Ret (None, as_)
  else
    let as_ := ca_setFinalizers (ca_Finalizers as_ ++ [finalizer])%list as_ in
    let! u := call (K (KUpdate KChartAssignment as_)) in
    match u with
    | Err err => Ret (Some (EWrap "add finalizer" err), as_)
    | Ok as_ => Ret (None, as_)
    end.

Definition reconcileInstalled (as_ : ChartAssignment) : prog cop (Result * option error) :=
  let! '(e, as_) := addFinalizer as_ in
  match e with
  | Some err => Ret (noResult, Some err)
  | None =>
      let! _ := ensureUpdated as_ in
      let! '(e, as_) := setStatus as_ in
      match e with
      | Some err =>
          if IsConflict err then Ret (noResult, None)
          else Ret (noResult, Some (EWrap "update status" err))
      | None =>
          let phase := cat_Phase (ca_Status as_) in
          if bool_decide (phase = ChartAssignmentPhaseReady) || bool_decide (phase = ChartAssignmentPhaseFailed)
          then Ret (requeue requeueSlow, None)
          else Ret (requeue requeueFast, None)
      end
  end.

Definition reconcile (r : Reconciler) (as_ : ChartAssignment) : prog cop (Result * option error) :=
  match om_DeletionTimestamp (ca_meta as_) with
  | Some _ => reconcileDeleted as_
  | None =>
      let! n := ensureNamespace as_ in
      match n with
      | Err err =>
          match err with
          | ENamespaceDeletion _ => Ret (requeue requeueFast, None)
          | _ => Ret (noResult, Some (EText ("ensure namespace: " ++ error_text err)))
          end
      | Ok ns =>
          let! e := ensureServiceAccount r ns as_ in
          match e with
          | Some (EMissingServiceAccount _) => Ret (requeue requeueFast, None)
          | Some err => Ret (noResult, Some (EText ("ensure service-account: " ++ error_text err)))
          | None => reconcileInstalled as_
          end
      end
  end.

Definition Reconcile (r : Reconciler) (ns name : string) : prog cop (Result * option error) :=
  let! g := call (K (KGet KChartAssignment ns name)) in
  match g with
  | Err err =>
      if IsNotFound err then Ret (noResult, None)
      else Ret (noResult, Some (EText ("getting ChartAssignment " ++ fmt_q (ns ++ "/" ++ name)
                                       ++ " failed: " ++ error_text err)))
  | Ok as_ =>
      if negb (bool_decide (cas_ClusterName (ca_Spec as_) = r_cluster r)) then Ret (noResult, None)
      else reconcile r as_
  end.

(** Pods of a namespace concern the assignments that target it. *)
Definition indexNamespace (as_ : ChartAssignment) : list string := [targetNs as_].
Definition enqueueForPod (namespace : string) : prog cop (list (string * string)) :=
  let! l := call (K (KList KChartAssignment (MatchingFields fieldIndexNamespace namespace))) in
  match l with
  | Err _ => Ret []
  | Ok cas => Ret ((λ ca, (ca_Namespace ca, ca_Name ca)) <$> cas)
  end.

(** ** The validating webhook *)

Inductive Response := Allowed | Denied (msg : string) | Errored (code : Z) (e : error).
(** The validator's cluster ("" on the cloud), and the name checks of
    [k8s.io/apimachinery/pkg/api/validation]. *)
Record Validator := mkValidator {
  v_clusterName : string;
  ValidateNamespaceName : string → list string;
  ValidateClusterName : string → list string }.

Definition validateChart (c : AssignedChart) : option error :=
  if negb (bool_decide (ch_Inline c = "")) then
    if negb (bool_decide (ch_Repository c = "")) || negb (bool_decide (ch_Name c = ""))
       || negb (bool_decide (ch_Version c = ""))
    then Some (EText "chart repository, name, and version must be empty for inline charts")
    else None
  else if bool_decide (ch_Repository c = "") || bool_decide (ch_Name c = "") || bool_decide (ch_Version c = "")
  then Some (EText "non-inline chart must be fully specified")
  else None.

Definition validateChange (cur : ChartAssignment) (old : option ChartAssignment) : option error :=
  match old with
  | None => None
  | Some old =>
      if negb (bool_decide (targetNs cur = targetNs old))
      then Some (EText "target namespace name must not be changed")
      else if negb (bool_decide (cas_ClusterName (ca_Spec cur) = cas_ClusterName (ca_Spec old)))
      then Some (EText "target cluster name must not be changed")
      else None
  end.

Definition validate (v : Validator) (cur : ChartAssignment) (old : option ChartAssignment) : option error :=
  let cluster := cas_ClusterName (ca_Spec cur) in
  if bool_decide (cluster = "") then Some (EText "cluster name missing")
  else if negb (bool_decide (v_clusterName v = "")) && negb (bool_decide (cluster = v_clusterName v))
  then Some (EText ("invalid cluster name " ++ fmt_q cluster ++ ", expected " ++ fmt_q (v_clusterName v)))
  else if bool_decide (targetNs cur = "") then Some (EText "namespace name missing")
  else match ValidateNamespaceName v (targetNs cur) with
  | (_ :: _) as errs =>
      Some (EText ("invalid namespace name " ++ fmt_q (targetNs cur) ++ ": " ++ Join errs ", "))
  | [] =>
      match ValidateClusterName v cluster with
      | (_ :: _) as errs => Some (EText ("invalid cluster name " ++ fmt_q cluster ++ ": " ++ Join errs ", "))
      | [] =>
          match validateChange cur old with
          | Some err => Some err
          | None => validateChart (cas_Chart (ca_Spec cur))
          end
      end
  end.

(** The decoded objects are arguments; [None] is a request without an old
    object. *)
Definition Handle (v : Validator) (cur : result ChartAssignment) (old : option (result ChartAssignment))
    : Response :=
  match cur with
  | Err err => Errored 400 err
  | Ok cur =>
      let answer (old : option ChartAssignment) :=
        match validate v cur old with Some err => Denied (error_text err) | None => Allowed end in
      match old with
      | Some (Err err) => Errored 400 err
      | Some (Ok old) => answer (Some old)
      | None => answer None
      end
  end.

End Model.

(** ** The controller and its workers, side by side *)
Module System.
Import Release Model.

Section system.
Context (L : Libs).

Definition taskProg (t : task) : prog wop unit :=
  match t with TUpdate as_ => update L as_ | TDelete as_ => delete as_ end.

(** What the cache answers, and how it changes; the API server may answer
    anything. *)
Definition answered (o : cop) (rs : releases) : resp o → releases → Prop :=
  match o with
  | K _ => λ _ rs', rs' = rs
  | RAdd n => λ _ rs', rs' = add n rs
  | RStatus n => λ r rs', r = status n rs ∧ rs' = rs
  | RGeneration n => λ r rs', r = generation n rs ∧ rs' = rs
  | RStart n t => λ r rs', (r, rs') = start n (taskProg t) rs
  | RSetGeneration n g => λ _ rs', rs' = setGeneration n g rs
  end.

(** One step of a worker's goroutine. *)
Inductive worker_step : release → release → Prop :=
| step_ready st g :
    worker_step (mkRelease st g Starting) (mkRelease st g Waiting)
| step_op st g o k r :
    workerAnswer o st r →
    worker_step (mkRelease st g (Running (Vis o k)))
      (mkRelease (workerOp o (st, g)).1 (workerOp o (st, g)).2 (Running (k r)))
| step_done st g u :
    worker_step (mkRelease st g (Running (Ret u))) (mkRelease st g Starting).
Inductive workers_step : releases → releases → Prop :=
| step_worker n r r' rs :
    rs !! n = Some r → worker_step r r' → workers_step rs (<[n:=r']> rs).

(** The controller runs one reconciliation after another; between any two of
    its operations the workers may run. *)
Definition sys : Type := releases * prog cop (Result * option error).
Inductive sys_step (c : Reconciler) : sys → sys → Prop :=
| sys_worker rs rs' p : workers_step rs rs' → sys_step c (rs, p) (rs', p)
| sys_op rs rs' o k r : answered o rs r rs' → sys_step c (rs, Vis o k) (rs', k r)
| sys_next rs res ns name : sys_step c (rs, Ret res) (rs, Reconcile c ns name).
Definition sys_init (s : sys) : Prop := ∃ res, s = (∅, Ret res).
Definition reachable (c : Reconciler) (s : sys) : Prop := ∃ s0, sys_init s0 ∧ rtc (sys_step c) s0 s.

End system.
End System.

Import Release Model System.

(** ** The invariant of the cache *)

(** An installation was carried through or is flagged for retry. *)
Definition attended (st : releaseStatus) : Prop :=
  st_phase st = ChartAssignmentPhaseSettled ∨ st_phase st = ChartAssignmentPhaseFailed ∨ st_retry st = true.
(** What holds of a release no function runs for. *)
Definition resting (sg : releaseStatus * Z) : Prop :=
  attended sg.1 ∨
  ((st_phase sg.1 = ChartAssignmentPhaseAccepted ∨ st_phase sg.1 = ChartAssignmentPhaseDeleted) ∧ sg.2 = 0%Z).

(** [fin Q p sg]: whenever the rest [p] of a worker's function ends, started
    with status and generation [sg], they satisfy [Q]. *)
Fixpoint fin (Q : releaseStatus * Z → Prop) (p : prog wop unit) (sg : releaseStatus * Z) : Prop :=
  match p with
  | Ret _ => Q sg
  | Panic _ => True
  | Vis o k => ∀ r, workerAnswer o sg.1 r → fin Q (k r) (workerOp o sg)
  end.
Definition good (Q : releaseStatus * Z → Prop) (r : release) : Prop :=
  match rl_worker r with
  | Running p => fin Q p (rl_status r, rl_generation r)
  | _ => Q (rl_status r, rl_generation r)
  end.
Definition cache_ok (rs : releases) : Prop := map_Forall (λ _ r, good resting r) rs.
(** The release [n] runs, or has run, an update. *)
Definition updating (n : string) (rs : releases) : Prop :=
  ∃ r, rs !! n = Some r ∧ good (λ sg, attended sg.1) r.

Lemma fin_mono (Q Q' : releaseStatus * Z → Prop) p sg : (∀ x, Q x → Q' x) → fin Q p sg → fin Q' p sg.
Proof. intros HQ. revert sg. induction p as [u|o k IH|m]; intros sg; cbn; auto. Qed.
Lemma fin_bind {T} Q (p : prog wop T) (f : T → prog wop unit) sg :
  (∀ a sg', fin Q (f a) sg') → fin Q (prog_bind f p) sg.
Proof. intros Hf. revert sg. induction p as [u|o k IH|m]; intros sg; cbn; auto. Qed.
Lemma fin_generation p st g g' :
  fin (λ sg, attended sg.1) p (st, g) → fin (λ sg, attended sg.1) p (st, g').
Proof.
  assert (Hp : ∀ sg sg', sg.1 = sg'.1 → fin (λ sg, attended sg.1) p sg → fin (λ sg, attended sg.1) p sg').
  { induction p as [u|o k IH|m]; intros [st1 g1] [st2 g2] Heq; cbn in *; [by subst| |done].
    subst. intros Hk r Hr. eapply IH; [|by apply Hk]. by destruct o. }
  by apply Hp.
Qed.

Lemma update_fin L as_ sg : fin (λ sg, attended sg.1) (update L as_) sg.
Proof.
  unfold update. cbn. intros _ _. apply fin_bind. intros [resources|[retry err]] sg'; cbn; intros _ _ _ _.
  - intros [err|] _; cbn; intros _ _ [] _; unfold attended; cbn; [|by left].
    destruct (Synk.Model.IsTransientErr err); auto.
  - unfold attended. cbn. destruct retry; auto.
Qed.

Lemma delete_fin as_ sg : resting sg → fin resting (delete as_) sg.
Proof.
  intros Hrest. unfold delete. cbn. intros p ->. case_bool_decide; [done|].
  cbn. intros _ _ _ _ [err|] _; cbn; intros; unfold resting; cbn; auto.
Qed.

Lemma good_step Q r r' : worker_step r r' → good Q r → good Q r'.
Proof.
  destruct 1 as [st g|st g o k r Hr|st g u]; unfold good; cbn; [done| |done].
  intros Hk. specialize (Hk r Hr). by destruct (workerOp o (st, g)).
Qed.
Lemma cache_ok_steps rs rs' : rtc workers_step rs rs' → cache_ok rs → cache_ok rs'.
Proof.
  induction 1 as [|rs rs1 rs2 [n r r' rs' Hr Hs] _ IH]; [done|]. intros Hok. apply IH.
  apply map_Forall_insert_2; [|done]. eapply good_step; [done|]. by apply Hok in Hr.
Qed.
Lemma updating_steps n rs rs' : rtc workers_step rs rs' → updating n rs → updating n rs'.
Proof.
  induction 1 as [|rs rs1 rs2 [m r r' rs' Hr Hs] _ IH]; [done|]. intros (r0 & Hr0 & Hg). apply IH.
  destruct (decide (m = n)) as [->|?].
  - exists r'. rewrite lookup_insert_eq. split; [done|]. simplify_eq. by eapply good_step.
  - exists r0. by rewrite lookup_insert_ne.
Qed.

Lemma cache_ok_add n rs : cache_ok rs → cache_ok (add n rs).
Proof.
  intros Hok. unfold add. destruct (rs !! n); [done|]. apply map_Forall_insert_2; [|done].
  right. cbn. auto.
Qed.
Lemma start_Some n p rs rs' : (true, rs') = start n p rs →
  ∃ st g, rs !! n = Some (mkRelease st g Waiting) ∧ rs' = <[n := mkRelease st g (Running p)]> rs.
Proof.
  unfold start. destruct (rs !! n) as [[st g [| |q]]|]; intros [=]; subst; eauto.
Qed.
Lemma start_false n p rs rs' : (false, rs') = start n p rs → rs' = rs.
Proof. unfold start. destruct (rs !! n) as [[st g [| |q]]|]; intros [=]; by subst. Qed.
Lemma cache_ok_setGeneration n g rs : cache_ok rs → updating n rs → cache_ok (setGeneration n g rs).
Proof.
  intros Hok (r & Hr & Hg) m r' Hm. unfold setGeneration in Hm. destruct (decide (n = m)) as [<-|?].
  - rewrite lookup_alter_eq, Hr in Hm. cbn in Hm. simplify_eq. unfold good in *. cbn.
    destruct (rl_worker r) as [| |p]; [by left|by left|]. eapply fin_mono; [|by eapply fin_generation].
    intros sg ?. by left.
  - rewrite lookup_alter_ne in Hm by done. by apply Hok in Hm.
Qed.

(** *** Rely and guarantee

    [rg p Φ rs]: run from the cache [rs] with the workers interfering between
    its operations, [p] keeps the invariant, and ends with [Φ]. *)
Section rg.
Context (L : Libs).

Fixpoint rg {T} (p : prog cop T) (Φ : T → releases → Prop) (rs : releases) : Prop :=
  match p with
  | Ret a => Φ a rs
  | Panic _ => True
  | Vis o k => ∀ rs1 r rs2, rtc workers_step rs rs1 → answered L o rs1 r rs2 →
      cache_ok rs2 ∧ rg (k r) Φ rs2
  end.

Lemma rg_bind {T U} (p : prog cop T) (f : T → prog cop U) Φ rs :
  rg p (λ a, rg (f a) Φ) rs → rg (prog_bind f p) Φ rs.
Proof. revert rs. induction p as [a|o k IH|m]; intros rs; cbn; [done| |done]. naive_solver. Qed.
Lemma rg_mono {T} (p : prog cop T) (Φ Ψ : T → releases → Prop) rs :
  (∀ a rs, Φ a rs → Ψ a rs) → rg p Φ rs → rg p Ψ rs.
Proof. intros HΦ. revert rs. induction p as [a|o k IH|m]; intros rs; cbn; [auto| |done]. naive_solver. Qed.

(** Operations that only read the cache or add to it. *)
Definition quiet (o : cop) : Prop :=
  match o with RStart _ _ | RSetGeneration _ _ => False | _ => True end.
Lemma answered_quiet o rs r rs' : quiet o → answered L o rs r rs' → cache_ok rs → cache_ok rs'.
Proof.
  destruct o; cbn; try done.
  - by intros _ ->.
  - intros _ ->. apply cache_ok_add.
  - by intros _ [_ ->].
  - by intros _ [_ ->].
Qed.
Lemma rg_quiet {T} E (p : prog cop T) Φ rs :
  wp any_answer quiet E p Φ → cache_ok rs → rg p (λ a rs, Φ a ∧ cache_ok rs) rs.
Proof.
  revert rs. induction p as [a|o k IH|m]; intros rs; cbn; [done| |done].
  intros [Ho Hk] Hok rs1 r rs2 Hs Ha.
  assert (cache_ok rs2) by (eapply answered_quiet; [done|done|by eapply cache_ok_steps]).
  split; [done|]. by apply IH; [apply Hk|].
Qed.

Lemma ensureUpdated_rg as_ rs : cache_ok rs → rg (ensureUpdated as_) (λ _, cache_ok) rs.
Proof.
  intros Hok. unfold ensureUpdated. cbn.
  intros rs1 _ rs2 Hs1 ->. assert (cache_ok (add (releaseName as_) rs1)) as Hok2
    by (apply cache_ok_add; by eapply cache_ok_steps). split; [done|].
  intros rs3 st rs4 Hs2 [_ ->]. assert (cache_ok rs3) as Hok3 by (by eapply cache_ok_steps). split; [done|].
  intros rs5 g rs6 Hs3 [_ ->]. assert (cache_ok rs5) as Hok5 by (by eapply cache_ok_steps). split; [done|].
  destruct (_ && _); cbn; [done|]. intros rs7 [|] rs8 Hs4 Hst.
  - apply start_Some in Hst as (st' & g' & Hn & ->).
    assert (cache_ok rs7) as Hok7 by (by eapply cache_ok_steps).
    assert (cache_ok (<[releaseName as_:=mkRelease st' g' (Running (update L as_))]> rs7)) as Hok8.
    { apply map_Forall_insert_2; [|done]. change (fin resting (update L as_) (st', g')).
      eapply fin_mono; [|apply update_fin]. intros ??. by left. }
    split; [done|]. cbn. intros rs9 _ rs10 Hs5 ->.
    assert (cache_ok (setGeneration (releaseName as_) (om_Generation (ca_meta as_)) rs9)) as Hok10.
    { apply cache_ok_setGeneration; [by eapply cache_ok_steps|]. eapply updating_steps; [done|].
      eexists. rewrite lookup_insert_eq. split; [done|]. exact (update_fin L as_ (st', g')). }
    by split.
  - apply start_false in Hst as ->. split; [by eapply cache_ok_steps|]. cbn. by eapply cache_ok_steps.
Qed.

Lemma ensureDeleted_rg as_ rs : cache_ok rs → rg (releases_ensureDeleted as_) (λ _, cache_ok) rs.
Proof.
  intros Hok. unfold releases_ensureDeleted. cbn. intros rs1 _ rs2 Hs1 ->.
  assert (cache_ok (add (releaseName as_) rs1)) as Hok2
    by (apply cache_ok_add; by eapply cache_ok_steps). split; [done|].
  intros rs7 [|] rs8 Hs4 Hst.
  - apply start_Some in Hst as (st' & g' & Hn & ->).
    assert (cache_ok rs7) as Hok7 by (by eapply cache_ok_steps).
    assert (cache_ok (<[releaseName as_:=mkRelease st' g' (Running (delete as_))]> rs7)); [|done].
    apply map_Forall_insert_2; [|done]. change (fin resting (delete as_) (st', g')).
    apply delete_fin. by apply Hok7 in Hn.
  - apply start_false in Hst as ->. assert (cache_ok rs7) by (by eapply cache_ok_steps). done.
Qed.
End rg.

(** Symbolic execution of a handler with every answer. *)
Ltac wp_go :=
  repeat (cbn; match goal with
  | |- True => exact I
  | |- _ ∧ _ => split
  | |- ∀ _, _ => intro
  | |- context [match ?x with _ => _ end] => first [is_var x; destruct x | destruct x eqn:?]
  end).

Lemma reconcile_rg L c as_ rs : cache_ok rs → rg L (reconcile c as_) (λ _, cache_ok) rs.
Proof.
  intros Hok. unfold reconcile.
  assert (Hset : ∀ a f rs, (∀ x, wp any_answer quiet any_panic (f x) (λ _ : Result * option error, True)) →
    cache_ok rs → rg L (prog_bind f (setStatus a)) (λ _, cache_ok) rs).
  { intros a f rs' Hf Hok'. eapply rg_mono; [|apply (rg_quiet L any_panic _ (λ _, True)); [|done]].
    { by intros ?? [_ ?]. }
    apply wp_bind. apply (wp_mono _ _ _ _ (λ _, True)); [intros x _; apply Hf|]. unfold setStatus, setCondition, storeStatus. wp_go. }
  destruct (om_DeletionTimestamp (ca_meta as_)).
  - unfold reconcileDeleted. apply rg_bind. unfold ensureDeleted. apply rg_bind.
    eapply rg_mono; [|by apply ensureDeleted_rg]. cbn beta. intros _ rs1 Hok1.
    eapply rg_mono; [|apply (rg_quiet L any_panic _ (λ _, True)); [|done]].
    + intros [[err|] a] rs2 [_ Hok2]; [done|]. apply Hset; [|done]. intros [[err|] a']; wp_go.
    + unfold removeFinalizer. wp_go.
  - apply rg_bind. eapply rg_mono; [|apply (rg_quiet L any_panic _ (λ _, True)); [|done]].
    2: { unfold ensureNamespace. wp_go. }
    cbn beta. intros [ns|err] rs1 [_ Hok1]; [|by destruct err].
    apply rg_bind. eapply rg_mono; [|apply (rg_quiet L any_panic _ (λ _, True)); [|done]].
    2: { unfold ensureServiceAccount, ensurePullSecret, ensureDefaultAccount. wp_go. }
    cbn beta. intros [err|] rs2 [_ Hok2]; [by destruct err|].
    unfold reconcileInstalled. apply rg_bind.
    eapply rg_mono; [|apply (rg_quiet L any_panic _ (λ _, True)); [|done]].
    2: { unfold addFinalizer. wp_go. }
    cbn beta. intros [[err|] a] rs3 [_ Hok3]; [done|].
    apply rg_bind. eapply rg_mono; [|by apply ensureUpdated_rg]. cbn beta. intros _ rs4 Hok4.
    apply Hset; [|done]. intros [[err|] a']; wp_go.
Qed.

Lemma Reconcile_rg L c ns name rs : cache_ok rs → rg L (Reconcile c ns name) (λ _, cache_ok) rs.
Proof.
  intros Hok. unfold Reconcile. cbn. intros rs1 g rs2 Hs ->.
  assert (cache_ok rs1) as Hok1 by (by eapply cache_ok_steps). split; [done|].
  destruct g as [a|err]; [|by destruct (IsNotFound err)].
  destruct (negb _); [done|]. by apply reconcile_rg.
Qed.

Lemma rg_steps {T} L (p : prog cop T) rs rs' :
  rtc workers_step rs rs' → rg L p (λ _, cache_ok) rs → rg L p (λ _, cache_ok) rs'.
Proof.
  intros Hs. destruct p as [a|o k|m]; cbn; [by apply cache_ok_steps| |done].
  intros Hp rs1 r rs2 Hs1. apply Hp. by etrans.
Qed.

Lemma sys_steps_ok L c s s' : rtc (sys_step L c) s s' →
  cache_ok s.1 → rg L s.2 (λ _, cache_ok) s.1 → cache_ok s'.1 ∧ rg L s'.2 (λ _, cache_ok) s'.1.
Proof.
  induction 1 as [s|s s1 s2 Hs _ IH]; [done|]. intros Hok Hrg.
  destruct Hs as [rs rs' p Hw|rs rs' o k r Ha|rs res ns name]; cbn in *.
  - pose proof (rtc_once _ _ Hw) as Hws. apply IH; [exact (cache_ok_steps _ _ Hws Hok)|exact (rg_steps _ _ _ _ Hws Hrg)].
  - destruct (Hrg rs r rs' (rtc_refl _ _) Ha). by apply IH.
  - apply IH; [done|]. by apply Reconcile_rg.
Qed.

(** ** The calls of a reconciliation *)

(** The API server gives back the object it was asked for: the name read, and
    what was written except the status fields. *)
Definition same_assignment (a b : ChartAssignment) : Prop :=
  ca_Name a = ca_Name b ∧ ca_Namespace a = ca_Namespace b ∧ ca_Spec a = ca_Spec b ∧
  om_DeletionTimestamp (ca_meta a) = om_DeletionTimestamp (ca_meta b).
Definition echo (o : cop) : resp o → Prop :=
  match o with
  | K o =>
      match o return resp o → Prop with
      | KGet k ns n => match k with
          | KNamespace => λ r, match r with Ok ns => om_Name (ns_meta ns) = n | Err _ => True end
          | KServiceAccount => λ r, match r with
              | Ok sa => om_Namespace (sa_meta sa) = ns ∧ om_Name (sa_meta sa) = n
              | Err _ => True
              end
          | _ => λ _, True
          end
      | KCreate k o | KUpdate k o | KStatusUpdate k o => match k return obj k → result (obj k) → Prop with
          | KChartAssignment => λ o r, match r with
              | Ok a => same_assignment a o ∧ ca_Finalizers a = ca_Finalizers o
              | Err _ => True
              end
          | KNamespace => λ o r, match r with Ok ns => om_Name (ns_meta ns) = om_Name (ns_meta o) | Err _ => True end
          | _ => λ _ _, True
          end o
      | _ => λ _, True
      end
  | _ => λ _, True
  end.

(** What the reconciliation of assignment [a] may do. *)
Definition concerns (a : ChartAssignment) (o : cop) : Prop :=
  match o with
  | K o =>
      match o with
      | KNow => True
      | KGet k ns n => match k with
          | KNamespace => n = targetNs a
          | KSecret => (ns = targetNs a ∨ ns = "default") ∧ n = ImagePullSecret
          | KServiceAccount => ns = targetNs a ∧ n = "default"
          | _ => False
          end
      | KList k sel => k = KPod ∧ sel = InNamespace (targetNs a)
      | KCreate k o => match k return obj k → Prop with
          | KNamespace => λ ns, om_Name (ns_meta ns) = targetNs a ∧
                          sm_get (om_Labels (ns_meta ns)) "app" = ca_Name a
          | KSecret => λ s, om_Namespace (sec_meta s) = targetNs a ∧ om_Name (sec_meta s) = ImagePullSecret
          | _ => λ _, False
          end o
      | KUpdate k o => match k return obj k → Prop with
          | KNamespace => λ ns, om_Name (ns_meta ns) = targetNs a ∧
                          sm_get (om_Labels (ns_meta ns)) "app" = ca_Name a
          | KServiceAccount => λ sa, om_Namespace (sa_meta sa) = targetNs a ∧ om_Name (sa_meta sa) = "default" ∧
                               ImagePullSecret ∈ sa_ImagePullSecrets sa
          | KChartAssignment => λ a', same_assignment a' a
          | _ => λ _, False
          end o
      | KStatusUpdate k o => match k return obj k → Prop with
          | KChartAssignment => λ a', same_assignment a' a
          | _ => λ _, False
          end o
      | KDelete k o => match k return obj k → Prop with
          | KNamespace => λ ns, om_Name (ns_meta ns) = targetNs a ∧ om_DeletionTimestamp (ca_meta a) ≠ None
          | _ => λ _, False
          end o
      | KDeleteAllOf _ _ => False
      end
  | RAdd n | RStatus n | RGeneration n => n = releaseName a
  | RSetGeneration n _ => n = releaseName a
  | RStart n t => n = releaseName a ∧
      match t with
      | TUpdate b => same_assignment b a ∧ om_DeletionTimestamp (ca_meta a) = None ∧ finalizer ∈ ca_Finalizers b
      | TDelete b => same_assignment b a ∧ om_DeletionTimestamp (ca_meta a) ≠ None
      end
  end.

Lemma same_refl a : same_assignment a a.
Proof. done. Qed.
Lemma same_trans a b c : same_assignment a b → same_assignment b c → same_assignment a c.
Proof. intros (?&?&?&?) (?&?&?&?). split_and!; congruence. Qed.
Lemma same_name a b : same_assignment a b → releaseName a = releaseName b ∧ targetNs a = targetNs b.
Proof. intros (Hn&Hs&Hsp&_). unfold releaseName, targetNs. by rewrite Hn, Hs, Hsp. Qed.
Lemma same_conditions l a : same_assignment (ca_setConditions l a) a.
Proof. by destruct a as [????[]]. Qed.
Lemma same_phase p a : same_assignment (ca_setPhase p a) a.
Proof. by destruct a as [????[]]. Qed.
Lemma same_generation g a : same_assignment (ca_setObservedGeneration g a) a.
Proof. by destruct a as [????[]]. Qed.
Lemma same_finalizers l a : same_assignment (ca_setFinalizers l a) a.
Proof. by destruct a as [??[]??]. Qed.
Lemma finalizers_set l a : ca_Finalizers (ca_setFinalizers l a) = l.
Proof. by destruct a as [??[]??]. Qed.
#[export] Hint Resolve same_refl same_conditions same_phase same_generation same_finalizers : kube.
(** Strip the setters off an assignment. *)
Ltac same := repeat (done || (eapply same_trans; [solve [eauto with kube nocore]|])).

Section calls.
Context (a : ChartAssignment).
Abbreviation cwp := (wp echo (concerns a) no_panic).

Lemma setCondition_cwp b t v msg : same_assignment b a →
  cwp (setCondition b t v msg) (λ b', same_assignment b' a).
Proof. intros Hb. cbn. split; [done|]. intros now _. by eapply same_trans; [apply same_conditions|]. Qed.
Lemma storeStatus_cwp b : same_assignment b a →
  cwp (storeStatus b) (λ r, same_assignment r.2 a).
Proof.
  intros Hb. cbn. split; [done|]. intros [b'|err] Hr; cbn in *; [|done]. by eapply same_trans; [apply Hr|].
Qed.

Lemma setStatus_cwp b : same_assignment b a →
  cwp (setStatus b) (λ r, same_assignment r.2 a).
Proof.
  intros Hb. destruct (same_name _ _ Hb) as [Hrel Hns]. unfold setStatus. cbn [prog_bind call wp].
  split; [done|]. intros [st|] _; [|done]. case_bool_decide; [done|].
  set (b1 := ca_setPhase _ _).
  assert (same_assignment b1 a) as Hb1.
  { subst b1. eapply same_trans; [apply same_phase|]. by eapply same_trans; [apply same_generation|]. }
  clearbody b1. cbv zeta. apply wp_bind. eapply wp_mono; [|by apply setCondition_cwp].
  intros b2 Hb2. destruct (same_name _ _ Hb2) as [_ Hns2]. cbn [prog_bind call wp]. split; [done|].
  intros [ns|err] _.
  - cbn [prog_bind call wp]. split; [by rewrite Hns2|]. intros [pods|err] _; [|done]. cbv zeta.
    destruct (negb _).
    + apply wp_bind. eapply wp_mono; [|by apply setCondition_cwp]. intros b3 Hb3. by apply storeStatus_cwp.
    + apply wp_bind. eapply wp_mono; [|apply setCondition_cwp].
      * intros b3 Hb3. by apply storeStatus_cwp.
      * case_bool_decide; [|done]. by eapply same_trans; [apply same_phase|].
  - destruct (IsNotFound err); [|done]. apply wp_bind. eapply wp_mono; [|by apply setCondition_cwp].
    intros b3 Hb3. by apply storeStatus_cwp.
Qed.

Lemma ensureNamespace_cwp : cwp (ensureNamespace a)
  (λ r, match r with Ok ns => om_Name (ns_meta ns) = targetNs a | Err _ => True end).
Proof.
  unfold ensureNamespace. cbn [prog_bind call wp]. split; [done|]. intros [ns|err] Hn.
  - destruct (om_DeletionTimestamp (ns_meta ns)); [done|]. destruct ns as [[]]. cbn.
    split; [split; [done|first [apply sm_get_set_eq | by rewrite lookup_insert_eq]]|]. intros [ns'|]; [|done]. by intros ->.
  - destruct (IsNotFound err); [|done]. cbn. split; [split; [done|first [apply sm_get_set_eq | by rewrite lookup_insert_eq]]|].
    intros [ns'|]; [|done]. by intros ->.
Qed.

Lemma ensureServiceAccount_cwp r ns : om_Name (ns_meta ns) = targetNs a →
  cwp (ensureServiceAccount r ns a) (λ _, True).
Proof.
  intros Hns. unfold ensureServiceAccount. destruct (negb _); [done|].
  apply wp_bind. eapply (wp_mono _ _ _ _ (λ _, True)).
  - intros [err|] _; [done|]. unfold ensureDefaultAccount. cbn [prog_bind call wp]. split; [done|].
    intros [sa|err] Hsa.
    + destruct Hsa as [Hsns Hsn]. cbn [prog_bind call wp]. split; [|by intros [] _].
      assert (ImagePullSecret ∈ if stringsContain (sa_ImagePullSecrets sa) ImagePullSecret then sa_ImagePullSecrets sa
        else (sa_ImagePullSecrets sa ++ [ImagePullSecret])%list) as Hin.
      { destruct (stringsContain _ _) eqn:Hc; [by apply stringsContain_iff|apply elem_of_app; right; by left]. }
      exact (conj Hsns (conj Hsn Hin)).
    + destruct (IsNotFound err); [|done]. cbn [prog_bind call wp]. split; [done|]. intros now _. by case_match.
  - unfold ensurePullSecret. cbn [prog_bind call wp]. split; [by cbn; auto|]. intros [s|err] _; [done|].
    destruct (IsNotFound err); [|done]. cbn [prog_bind call wp]. split; [by cbn; auto|].
    intros [s|err'] _; [|by destruct (IsNotFound err')]. cbn. split; [done|]. by intros [] _.
Qed.

Lemma reconcile_cwp r : cwp (reconcile r a) (λ _, True).
Proof.
  unfold reconcile. destruct (om_DeletionTimestamp (ca_meta a)) as [ts|] eqn:Hdel.
  - unfold reconcileDeleted. apply wp_bind. apply (wp_mono _ _ _ _ (λ r, same_assignment r.2 a)).
    { intros [[err|] b] Hb; [done|]. apply wp_bind. eapply wp_mono; [|by apply setStatus_cwp].
      by intros [[err|] b'] _. }
    unfold ensureDeleted, releases_ensureDeleted. cbn [prog_bind call wp].
    split; [done|]. intros [] _. split; [split; [done|]; split; [done|cbn; congruence]|]. intros _ _. split; [done|].
    intros [st|] _; [|done]. destruct (negb _); [done|]. destruct (negb _); [done|].
    assert (cwp (removeFinalizer a) (λ r, same_assignment r.2 a)) as Hrem.
    { unfold removeFinalizer. cbn. split; [apply same_finalizers|]. intros [b|err] Hb; cbn; [|apply same_finalizers].
      eapply same_trans; [apply Hb|apply same_finalizers]. }
    cbn [prog_bind call wp]. split; [done|]. intros [ns|err] Hns; [|by destruct (IsNotFound err)].
    cbn [prog_bind call wp]. split; [cbn; split; [exact Hns|congruence]|]. by intros [err|] _.
  - apply wp_bind. eapply wp_mono; [|apply ensureNamespace_cwp].
    intros [ns|err] Hns; [|by destruct err].
    apply wp_bind. eapply wp_mono; [|by apply ensureServiceAccount_cwp]. intros [err|] _; [by destruct err|].
    unfold reconcileInstalled. apply wp_bind.
    apply (wp_mono _ _ _ _ (λ r, same_assignment r.2 a ∧ (r.1 = None → finalizer ∈ ca_Finalizers r.2))).
    + intros [[err|] b] [Hb Hf]; [done|]. specialize (Hf eq_refl). cbn in Hb, Hf.
      destruct (same_name _ _ Hb) as [Hrel _].
      apply wp_bind. apply (wp_mono _ _ _ _ (λ _, True)).
      { intros _ _. apply wp_bind. eapply wp_mono; [|by apply setStatus_cwp].
        intros [[err|] b'] _; [by destruct (IsConflict err)|]. cbv zeta. by destruct (_ || _). }
      unfold ensureUpdated. cbn [prog_bind call wp].
      split; [done|]. intros [] _. split; [done|]. intros st _. split; [done|]. intros g _.
      destruct (_ && _); [done|]. cbn [prog_bind call wp]. split; [done|]. intros [] _; [|done].
      cbn. by split.
    + unfold addFinalizer. destruct (stringsContain _ _) eqn:Hc.
      { cbn. split; [done|]. intros _. by apply stringsContain_iff. }
      cbn. split; [apply same_finalizers|]. intros [b|err] Hb; cbn; [|split; [apply same_finalizers|done]].
      destruct Hb as [Hb Hfin]. split; [eapply same_trans; [apply Hb|apply same_finalizers]|].
      intros _. rewrite Hfin, finalizers_set. apply elem_of_app. right. by left.
Qed.
End calls.

(** ** Finalizers *)

(** The call stores an assignment without the finalizer. *)
Definition drops_finalizer (o : cop) : Prop :=
  match o with K (KUpdate KChartAssignment b) => finalizer ∉ ca_Finalizers b | _ => False end.
(** In [h], the release reported its deletion, and the target namespace was
    missing, or the deletion of what was read under its name was accepted. *)
Definition cleaned (a : ChartAssignment) (h : list (event cop)) : Prop :=
  (∃ st, existT (RStatus (releaseName a)) (Some st) ∈ h ∧ st_phase st = ChartAssignmentPhaseDeleted) ∧
  ((∃ err, existT (K (KGet KNamespace "" (targetNs a))) (Err err) ∈ h ∧ IsNotFound err = true) ∨
   (∃ ns, existT (K (KGet KNamespace "" (targetNs a))) (Ok ns) ∈ h ∧ existT (K (KDelete KNamespace ns)) None ∈ h)).
Definition guarded (a : ChartAssignment) (h : list (event cop)) (o : cop) : Prop :=
  drops_finalizer o → cleaned a h.

(** Calls that never drop it. *)
Definition keeps (o : cop) : Prop := ¬ drops_finalizer o.
Lemma hwp_keeps {T} a h (p : prog cop T) (Φ : list (event cop) → T → Prop) (Ψ : T → Prop) :
  wp any_answer keeps any_panic p Ψ → (∀ t x, Ψ x → Φ (h ++ t)%list x) →
  hwp any_answer (guarded a) any_panic h p Φ.
Proof.
  intros Hwp HΦ. eapply hwp_wp; [exact Hwp| |]; [|by intros t x _ _ ?; apply HΦ].
  intros t o _ Ho Hd. by destruct Ho.
Qed.

Lemma setStatus_keeps b : wp any_answer keeps any_panic (setStatus b) (λ _, True).
Proof. unfold setStatus, setCondition, storeStatus. wp_go; by intros []. Qed.

Lemma reconcileDeleted_guarded a :
  hwp any_answer (guarded a) any_panic [] (reconcileDeleted a) (λ _ _, True).
Proof.
  unfold reconcileDeleted. apply hwp_bind. apply (hwp_mono _ _ _ _ _ (λ _ _, True)).
  { intros h [[err|] b] _; [done|]. apply hwp_bind. eapply hwp_keeps; [apply setStatus_keeps|].
    by intros t [[err|] b'] _. }
  unfold ensureDeleted, releases_ensureDeleted. cbn [prog_bind call hwp].
  split; [by intros ?|]. intros [] _. split; [by intros ?|]. intros started _. split; [by intros ?|].
  intros [st|] _; [|done]. case_bool_decide as Hst; cbn [negb]; [|done].
  destruct (negb _); [done|]. cbn [prog_bind call hwp]. split; [by intros ?|].
  intros [ns|err] _.
  - cbn [prog_bind call hwp]. split; [by intros ?|]. intros [err|] _; [done|].
    unfold removeFinalizer. cbn [prog_bind call hwp]. split.
    + intros _. split; [exists st; split; [set_solver|done]|]. right. exists ns. split; set_solver.
    + by intros [] _.
  - destruct (IsNotFound err) eqn:Herr; [|done].
    unfold removeFinalizer. cbn [prog_bind call hwp]. split.
    + intros _. split; [exists st; split; [set_solver|done]|]. left. exists err. split; [set_solver|done].
    + by intros [] _.
Qed.

(** ** A concrete assignment *)

Definition demoLibs : Release.Libs :=
  Release.mkLibs unit (λ _, Ok tt) (λ _, Ok None) (λ _ _, None) (λ _, Ok [("a", JString "chart"); ("b", JString "chart")])
    (λ _, Ok "values") (λ _ _ _ _, Ok {["x.yaml" := "kind: A"]}) (λ _, ([], None))
    (λ h l, map_to_list (Values.h_get h l)) 10.
Definition demoAssignment (deleted : bool) : ChartAssignment :=
  mkChartAssignment "apps.cloudrobotics.com/v1alpha1" "ChartAssignment"
    (mkObjectMeta "nav" "default" "uid-2" "3" 1 0 (if deleted then Some 5%Z else None) None None [] [finalizer])
    (mkChartAssignmentSpec "robot-1" "app-nav" (mkAssignedChart "" "" "" "chart" [("b", JString "mine")]))
    (mkChartAssignmentStatus 0 "" []).
Definition demoKube (deleted : bool) (o : kop ckind) : option (resp o) :=
  match o with
  | KNow => Some 0%Z
  | KGet k ns n => match k with
      | KChartAssignment => Some (Ok (demoAssignment deleted))
      | KNamespace => Some (Ok (mkNamespace (namedMeta "" n)))
      | KServiceAccount => Some (Ok (mkServiceAccount (namedMeta ns n) []))
      | _ => Some (Err (EStatus 404 "NotFound" "not found"))
      end
  | KList k _ => Some (Ok [])
  | KCreate _ o | KUpdate _ o | KStatusUpdate _ o => Some (Ok o)
  | KDelete _ _ | KDeleteAllOf _ _ => Some None
  end.
Definition demoAPI (deleted : bool) (o : cop) (s : unit) : option (resp o * unit) :=
  match o with
  | K o => (λ r, (r, tt)) <$> demoKube deleted o
  | RAdd _ | RSetGeneration _ _ => Some (tt, tt)
  | RStatus _ => Some (Some (mkReleaseStatus (if deleted then ChartAssignmentPhaseDeleted
                                              else ChartAssignmentPhaseSettled) None false), tt)
  | RGeneration _ => Some (0%Z, tt)
  | RStart _ _ => Some (true, tt)
  end.
Definition demoTrace (deleted : bool) {A} (p : prog cop A) : list (event cop) :=
  trace_of (run (demoAPI deleted) p tt).
Lemma demoAssignment_exec deleted {A} (p : prog cop A) :
  is_some (outcome_of (run (demoAPI deleted) p tt)) = true →
  ∃ out, outcome_of (run (demoAPI deleted) p tt) = Some out ∧ exec p (demoTrace deleted p) out.
Proof. apply run_exec_some. Qed.
Lemma demo_echo deleted {A} (p : prog cop A) : answers echo (demoTrace deleted p).
Proof.
  apply run_answers. intros [[]|?|?|?|? ?|? ?] []; cbn; try done; destruct k; intros ?? [=]; by subst.
Qed.

(** ** Properties *)

(** C18: a cluster's controller touches only what its assignments concern. An
    assignment for another cluster, or none, causes no call after the read. For
    its own, the controller creates or updates only the target namespace
    (labelled with the assignment's name), the pull secret and the default
    service account in it, and the assignment itself; it deletes only that
    namespace, and only for an assignment being deleted. It starts an
    installation only for an assignment not being deleted whose stored object
    carries the finalizer, a removal only for one being deleted, and never
    panics. *)
Theorem assignment_confined (r : Reconciler) ns name t out :
  exec (Reconcile r ns name) t out → answers echo t →
  ∃ g t' res, t = existT (K (KGet KChartAssignment ns name)) g :: t' ∧ out = Done res ∧
    match g with
    | Ok a => if bool_decide (cas_ClusterName (ca_Spec a) = r_cluster r)
              then calls (concerns a) t' else t' = []
    | Err _ => t' = []
    end.
Proof.
  intros (g & t' & -> & HE) [_ Ht]. destruct g as [a|err].
  - cbn [exec prog_bind call] in HE.
    destruct (decide (cas_ClusterName (ca_Spec a) = r_cluster r)) as [Hc|Hc];
      [rewrite (bool_decide_eq_true_2 _ Hc) in HE|rewrite (bool_decide_eq_false_2 _ Hc) in HE]; cbn [negb] in HE.
    + destruct (wp_exec _ _ _ _ _ _ _ (reconcile_cwp a r) HE Ht) as [Hcalls Hout].
      destruct out as [res|]; [|done]. exists (Ok a), t', res. split; [done|]. split; [done|].
      by rewrite bool_decide_eq_true_2.
    + destruct HE as [-> ->]. eexists (Ok a), [], _. split; [done|]. split; [done|].
      by rewrite bool_decide_eq_false_2.
  - cbn [exec prog_bind call] in HE. exists (Err err), t'. destruct (IsNotFound err); destruct HE as [-> ->]; eauto.
Qed.

Lemma assignment_confined_witness :
  calls (concerns (demoAssignment false))
    (tail (demoTrace false (Reconcile (mkReconciler "robot-1" true) "default" "nav"))).
Proof.
  destruct (demoAssignment_exec false (Reconcile (mkReconciler "robot-1" true) "default" "nav"))
    as (out & _ & HE); [vm_compute; reflexivity|].
  destruct (assignment_confined _ _ _ _ _ HE (demo_echo _ _)) as (g & t' & res & Ht & _ & Hg).
  pose proof (f_equal (λ t, match t with
    | existT o r :: _ => match o return resp o → option (result ChartAssignment) with
                         | K (KGet KChartAssignment _ _) => Some
                         | _ => λ _, None
                         end r
    | [] => None
    end) Ht) as Hh. cbn in Hh. apply (inj Some) in Hh. subst g.
  rewrite Ht. exact Hg.
Defined.

(** C17: the finalizer guards the release. While an assignment is being deleted,
    the controller stores it without its finalizer only after the release
    reported that its resources were removed, and after the target namespace
    was found missing or its deletion was accepted. *)
Theorem finalizer_dropped_after_cleanup (a : ChartAssignment) t out pre o r post :
  exec (reconcileDeleted a) t out → t = (pre ++ existT o r :: post)%list →
  drops_finalizer o → cleaned a pre.
Proof.
  intros HE Ht Hd. pose proof (hwp_exec _ _ _ _ _ _ _ _ (reconcileDeleted_guarded a) HE) as Hx.
  assert (answers any_answer t) as Ha by (clear; induction t; cbn; [done|by split]).
  destruct (Hx Ha) as [Hg _]. by apply (Hg pre (existT o r) post Ht).
Qed.

Lemma finalizer_dropped_after_cleanup_witness :
  let t := demoTrace true (reconcileDeleted (demoAssignment true)) in
  cleaned (demoAssignment true) (take 5 t).
Proof.
  intros t. destruct (demoAssignment_exec true (reconcileDeleted (demoAssignment true))) as (out & _ & HE);
    [vm_compute; reflexivity|].
  destruct (drop 5 t) as [|[o r] post] eqn:Hd; [vm_compute in Hd; discriminate|].
  apply (finalizer_dropped_after_cleanup (demoAssignment true) t out (take 5 t) o r post HE).
  - pose proof (take_drop 5 t) as Htd. rewrite Hd in Htd. exact (eq_sym Htd).
  - assert (head ((λ e, projT1 e) <$> drop 5 t) = Some (K (KUpdate KChartAssignment
      (ca_setFinalizers [] (demoAssignment true))))) as Ho by reflexivity.
    rewrite Hd in Ho. cbn in Ho. apply (inj Some) in Ho. subst o. cbn. apply not_elem_of_nil.
Defined.

(** C11: no update is lost. In every state the controller and its workers can
    reach, however their steps interleave, a release whose worker is idle is
    settled, failed for good, or flagged for retry, unless it is new or deleted
    and has generation 0. So when [ensureUpdated] decides there is nothing to do
    for an assignment (whose generation is at least 1), no installation runs
    only if the one for that generation settled or failed for good. *)
Theorem releases_attended (L : Release.Libs) (c : Reconciler) rs p n r :
  reachable L c (rs, p) → rs !! n = Some r → (∀ q, rl_worker r ≠ Running q) →
  (attended (rl_status r) ∨
   ((st_phase (rl_status r) = ChartAssignmentPhaseAccepted ∨
     st_phase (rl_status r) = ChartAssignmentPhaseDeleted) ∧ rl_generation r = 0%Z)) ∧
  ∀ as_, releaseName as_ = n → (0 < om_Generation (ca_meta as_))%Z →
    rl_generation r = om_Generation (ca_meta as_) → st_retry (rl_status r) = false →
    st_phase (rl_status r) = ChartAssignmentPhaseSettled ∨
    st_phase (rl_status r) = ChartAssignmentPhaseFailed.
Proof.
  intros (s0 & (res & ->) & Hs) Hr Hidle.
  destruct (sys_steps_ok L c _ _ Hs) as [Hok _]; [apply map_Forall_empty|cbn; apply map_Forall_empty|].
  apply Hok in Hr. cbn in Hr. unfold good in Hr.
  assert (resting (rl_status r, rl_generation r)) as Hrest.
  { destruct (rl_worker r) as [| |q]; [done|done|by destruct (Hidle q)]. }
  split; [exact Hrest|]. intros as_ _ Hpos Hgen Hret.
  destruct Hrest as [[?|[?|?]]|[_ ?]]; cbn in *; [by left|by right|congruence|lia].
Qed.

Lemma releases_attended_witness :
  let c := mkReconciler "robot-1" false in
  ∃ rs p, reachable demoLibs c (rs, p) ∧ is_some (rs !! "default.nav") = true ∧
    ∀ r, rs !! "default.nav" = Some r → (∀ q, rl_worker r ≠ Running q) →
    attended (rl_status r) ∨
    ((st_phase (rl_status r) = ChartAssignmentPhaseAccepted ∨
      st_phase (rl_status r) = ChartAssignmentPhaseDeleted) ∧ rl_generation r = 0%Z).
Proof.
  intros c.
  assert (∃ p, reachable demoLibs c (add "default.nav" ∅, p)) as [p Hp].
  { eexists. exists (∅, Ret (noResult, None)). split; [by eexists|].
    eapply rtc_l; [apply (sys_next _ _ _ _ "default" "nav")|].
    eapply rtc_l; [apply (sys_op demoLibs c ∅ ∅ (K (KGet KChartAssignment "default" "nav")) _ (Ok (demoAssignment true))); reflexivity|].
    eapply rtc_l; [|apply rtc_refl].
    apply (sys_op demoLibs c ∅ (add "default.nav" ∅) (RAdd "default.nav") _ tt). reflexivity. }
  exists (add "default.nav" ∅), p. split; [done|]. split; [vm_compute; reflexivity|].
  intros r Hr Hidle. apply (releases_attended demoLibs c _ p "default.nav" r Hp Hr Hidle).
Defined.

(** *** What a worker's function leaves behind *)

(** A trace whose answers agree with the status it builds up. *)
Fixpoint consistent (t : list (event wop)) (sg : releaseStatus * Z) : Prop :=
  match t with
  | [] => True
  | e :: t => workerAnswer (projT1 e) sg.1 (projT2 e) ∧ consistent t (workerOp (projT1 e) sg)
  end.
Definition replay (t : list (event wop)) (sg : releaseStatus * Z) : releaseStatus * Z :=
  foldl (λ sg e, workerOp (projT1 e) sg) sg t.
Lemma replay_app t1 t2 sg : replay (t1 ++ t2) sg = replay t2 (replay t1 sg).
Proof. apply foldl_app. Qed.

(** C27: a failed removal is reported as done. Whatever [synk.Delete] answers, an
    error included, [release.delete] goes on to record the event that the chart
    was deleted successfully, overwrites the failure it had recorded, and leaves
    phase [Deleted] without an error, the state that makes the controller drop
    the namespace and the finalizer. *)
Theorem delete_reports_success (as_ : ChartAssignment) t out sg :
  exec (delete as_) t out → consistent t sg → st_phase sg.1 ≠ ChartAssignmentPhaseDeleted →
  out = Done tt ∧
  (∃ e, existT (SynkDelete (releaseName as_)) e ∈ t) ∧
  existT (Event false "Success" "chart deleted successfully") tt ∈ t ∧
  replay t sg = (mkReleaseStatus ChartAssignmentPhaseDeleted None false, 0%Z).
Proof.
  intros HE Hc Hp. unfold delete in HE. cbn [exec prog_bind call] in HE.
  destruct HE as (ph & t1 & -> & HE). destruct Hc as [Hph Hc]. cbn in Hph. subst ph.
  rewrite (bool_decide_eq_false_2 _ Hp) in HE. cbn [exec prog_bind call] in HE.
  destruct HE as ([] & t2 & -> & [] & t3 & -> & e & t4 & -> & HE). clear Hc.
  destruct e as [err|]; cbn [exec prog_bind call] in HE.
  - destruct HE as ([] & t5 & -> & [] & t6 & -> & [] & t7 & -> & [] & t8 & -> & [] & t9 & -> & [-> ->]).
    split_and!; [done|exists (Some err); set_solver|set_solver|done].
  - destruct HE as ([] & t7 & -> & [] & t8 & -> & [] & t9 & -> & [-> ->]).
    split_and!; [done|exists None; set_solver|set_solver|done].
Qed.

Definition demoWorker (o : wop) (s : releaseStatus * Z) : option (resp o * (releaseStatus * Z)) :=
  match o with
  | GetPhase => Some (st_phase s.1, s)
  | SetPhase _ | SetFailed _ _ | ResetGeneration | Event _ _ _ => Some (tt, workerOp o s)
  | FetchChartTar _ _ _ => Some (Ok "", s)
  | RangeManifests m => Some (exist _ (map_to_list m) (Permutation_refl _), s)
  | SynkApply _ _ _ => Some (None, s)
  | SynkDelete _ => Some (Some (EText "connection refused"), s)
  end.
Lemma demoWorker_consistent {A} (p : prog wop A) sg : consistent (trace_of (run demoWorker p sg)) sg.
Proof.
  revert sg. induction p as [u|o k IH|m]; intros sg; cbn; [done| |done].
  destruct (demoWorker o sg) as [[r sg']|] eqn:Ho; [|done]. specialize (IH r sg').
  destruct (run demoWorker (k r) sg') as [[[t out] sg'']|]; [|done]. cbn in *.
  assert (workerAnswer o sg.1 r ∧ sg' = workerOp o sg) as [? ->]
    by (destruct o; cbn in *; by simplify_eq). done.
Qed.

Lemma delete_reports_success_witness :
  let sg := (mkReleaseStatus ChartAssignmentPhaseSettled None false, 4%Z) in
  let t := trace_of (run demoWorker (delete (demoAssignment true)) sg) in
  existT (SynkDelete "default.nav") (Some (EText "connection refused")) ∈ t ∧
  replay t sg = (mkReleaseStatus ChartAssignmentPhaseDeleted None false, 0%Z).
Proof.
  intros sg t. split; [vm_compute; do 3 right; by left|].
  destruct (run_exec_some demoWorker (delete (demoAssignment true)) sg) as (out & _ & HE);
    [vm_compute; reflexivity|].
  apply (delete_reports_success (demoAssignment true) t out sg HE); [apply demoWorker_consistent|done].
Defined.

(** Loading touches neither the status nor the cluster. *)
Definition load_op (o : wop) : Prop :=
  match o with FetchChartTar _ _ _ | RangeManifests _ => True | _ => False end.
Lemma loadAndExpandChart_calls L as_ :
  wp any_answer load_op any_panic (loadAndExpandChart L as_) (λ _, True).
Proof.
  unfold loadAndExpandChart. apply wp_bind. apply (wp_mono _ _ _ _ (λ _, True)).
  - intros [[c values]|err] _; [|done]. destruct (Render L c _ _ _); [|done].
    cbn. split; [done|]. intros l _. by case_match.
  - unfold loadChart. destruct (negb _).
    + unfold loadChart_archive. repeat case_match; done.
    + cbn. split; [done|]. intros [content|err] _; [|done]. unfold loadChart_archive. repeat case_match; done.
Qed.
Lemma replay_load t sg : calls load_op t → replay t sg = sg.
Proof.
  revert sg. induction t as [|[o r] t IH]; intros sg; [done|]. intros [Ho Ht]. cbn in *.
  replace (workerOp o sg) with sg by (by destruct o). by apply IH.
Qed.

(** what an installation leaves behind. A run of [release.update] that ends
    leaves the generation alone and either failed before reaching synk, or
    called [synk.Apply] with the release's name and the target namespace
    enforced. The release is then settled without an error exactly when
    [Apply] succeeded; an error is kept, and unless it is transient (then the
    release is flagged for retry in the phase it was in) the phase is
    [Failed]. *)
Theorem update_outcome (L : Release.Libs) (as_ : ChartAssignment) t sg :
  exec (update L as_) t (Done tt) →
  (replay t sg).2 = sg.2 ∧
  ((∃ err retry, (replay t sg).1 =
      mkReleaseStatus (if (retry : bool) then ChartAssignmentPhaseLoadingChart else ChartAssignmentPhaseFailed)
        (Some err) retry ∧ ∀ n o rs e, existT (SynkApply n o rs) e ∉ t) ∨
   (∃ resources e, existT (SynkApply (releaseName as_)
        (Synk.Model.mkApplyOptions "" 0 (cas_NamespaceName (ca_Spec as_)) true true) resources) e ∈ t ∧
      (replay t sg).1 = match e with
        | None => mkReleaseStatus ChartAssignmentPhaseSettled None false
        | Some err => if Synk.Model.IsTransientErr err
                      then mkReleaseStatus ChartAssignmentPhaseUpdating (Some err) true
                      else mkReleaseStatus ChartAssignmentPhaseFailed (Some err) false
        end)).
Proof.
  intros HE. unfold update in HE. cbn [exec prog_bind call] in HE.
  destruct HE as ([] & t1 & -> & HE).
  apply exec_bind in HE as [(m & _ & ?)|(t2 & t3 & l & -> & HE1 & HE)]; [done|].
  destruct (wp_exec_any _ _ _ _ _ _ (loadAndExpandChart_calls L as_) HE1) as [Hl _]. clear HE1.
  change (?e :: t2 ++ t3) with ([e] ++ t2 ++ t3)%list.
  rewrite !replay_app, (replay_load t2) by done.
  destruct l as [resources|[retry err]]; cbn [exec prog_bind call] in HE.
  - destruct HE as ([] & t4 & -> & [] & t5 & -> & e & t6 & -> & HE).
    destruct e as [err|]; cbn [exec prog_bind call] in HE.
    + destruct HE as ([] & t7 & -> & [] & t8 & -> & -> & _). split; [done|]. right.
      exists resources, (Some err). split; [set_solver|]. cbn. unfold setFailed. cbn.
      by destruct (Synk.Model.IsTransientErr err).
    + destruct HE as ([] & t7 & -> & [] & t8 & -> & -> & _). split; [done|]. right.
      exists resources, None. split; [set_solver|done].
  - destruct HE as ([] & t4 & -> & [] & t5 & -> & -> & _). split; [done|]. left.
    exists err, retry. split; [by destruct retry|]. intros n o rs e Hin.
    rewrite !elem_of_app, !elem_of_cons in Hin.
    destruct Hin as [[Hin|Hin]|[Hin|[Hin|[Hin|Hin]]]];
      try (by apply not_elem_of_nil in Hin);
      try (apply (f_equal projT1) in Hin; cbn in Hin; discriminate).
    by apply (answers_elem _ _ _ _ Hl) in Hin.
Qed.

Lemma update_outcome_witness :
  let sg := (mkReleaseStatus ChartAssignmentPhaseAccepted None false, 0%Z) in
  let t := trace_of (run demoWorker (update demoLibs (demoAssignment false)) sg) in
  (replay t sg).1 = mkReleaseStatus ChartAssignmentPhaseSettled None false ∧ (replay t sg).2 = 0%Z.
Proof.
  intros sg t. split; [vm_compute; reflexivity|].
  destruct (run_exec_some demoWorker (update demoLibs (demoAssignment false)) sg) as (out & Hout & HE);
    [vm_compute; reflexivity|].
  assert (out = Done tt) as ->.
  { apply (inj Some). rewrite <-Hout. vm_compute. reflexivity. }
  apply (update_outcome demoLibs (demoAssignment false) t sg HE).
Defined.

(** *** Values *)

Definition scalar (j : json) : Prop := match j with JObj _ => False | _ => True end.

Lemma loadFields_lookup fields h t k :
  NoDup fields.*1 →
  (k ∉ fields.*1 → (Values.loadFields fields h t).1 !! k = t !! k) ∧
  (∀ j, (k, j) ∈ fields → scalar j → (Values.loadFields fields h t).1 !! k = Some (Values.CVal j)).
Proof.
  revert h t. induction fields as [|[k' j'] fields IH]; intros h t; [intros _; split; [done|]; intros j []%not_elem_of_nil|].
  cbn [fmap list_fmap fst]. intros [Hk Hnd]%NoDup_cons.
  change (Values.loadFields ((k', j') :: fields) h t) with
    (let '(v, h) := Values.load j' h in Values.loadFields fields h (<[k':=v]> t)).
  destruct (Values.load j' h) as [v h1] eqn:Hload.
  destruct (IH h1 (<[k':=v]> t) Hnd) as [Hno Hyes]. split.
  - intros Hnk. rewrite Hno by set_solver. rewrite lookup_insert_ne by set_solver. done.
  - intros j [[= -> ->]|Hin]%elem_of_cons Hj; [|by apply Hyes].
    rewrite Hno by done. rewrite lookup_insert_eq. by destruct j'; cbn in Hload; simplify_eq.
Qed.
Lemma loadValues_table v h :
  Values.h_get (Values.loadValues v h).2 (Values.loadValues v h).1 = (Values.loadFields v h ∅).1.
Proof.
  unfold Values.loadValues. destruct (Values.loadFields v h ∅) as [t h1]. cbn.
  unfold Values.h_get. cbn. by rewrite lookup_insert_eq.
Qed.

(** an assignment's values override the chart's. For values whose nesting
    fits the stack, merging returns; a plain value the assignment sets is in the
    result whatever the chart says, and a chart's default stays where the
    assignment has no value of that name. *)
Theorem mergeValues_overrides (L : Release.Libs) (M : nat) (vals mine : ConfigValues) :
  Values.Ranges (Release.rangeOrder L) → (M < Release.stackDepth L)%nat →
  (depth vals ≤ S M)%nat → (depth mine ≤ S M)%nat → NoDup vals.*1 → NoDup mine.*1 →
  ∃ v, mergeValues L vals mine = Some v ∧
    (∀ k j, (k, j) ∈ mine → scalar j → (k, j) ∈ v) ∧
    (∀ k j, (k, j) ∈ vals → k ∉ mine.*1 → scalar j → (k, j) ∈ v).
Proof.
  intros Hord Hst Hdv Hdm Hnv Hnm. unfold mergeValues.
  assert (levelled M (λ _, 0) (Values.mkHeap 0 ∅)) as Hlev.
  { split; cbn; [intros l [? Hl]; by rewrite lookup_empty in Hl|].
    intros l k l'. unfold Values.h_get. cbn. by rewrite lookup_empty. }
  destruct (loadValues_spec M vals _ _ Hlev Hdv) as (lv1 & Hl1 & _ & Hlt1 & Hr1).
  pose proof (loadValues_table vals (Values.mkHeap 0 ∅)) as Ht1.
  destruct (Values.loadValues vals _) as [a h1]. cbn [fst snd] in *.
  destruct (loadValues_spec M mine _ _ Hl1 Hdm) as (lv2 & Hl2 & [Hn2 Ha2 Hk2] & Hlt2 & Hr2).
  pose proof (loadValues_table mine h1) as Ht2.
  destruct (Values.loadValues mine h1) as [b h2]. cbn [fst snd] in *.
  assert (lv2 a = 0) as Hra by (by rewrite Ha2).
  destruct (MergeInto_spec (Release.rangeOrder L) Hord M lv2 (Release.stackDepth L) a b h2)
    as (h3 & -> & (Hl3 & Hn3 & _ & Hm)); [done|lia|done|lia|lia|lia|].
  cbn [mbind option_bind].
  destruct (resolveValues_spec M lv2 h3 (Release.stackDepth L) a Hl3 Hra Hst) as (v & Hv & Hin).
  exists v. split; [done|].
  rewrite Hk2 in Hm by done. rewrite Ht1, Ht2 in Hm. split.
  - intros k j Hk Hj. apply Hin. rewrite Hm. destruct (loadFields_lookup mine h1 ∅ k Hnm) as [_ Hy].
    rewrite (Hy j Hk Hj). unfold merged. by repeat case_match.
  - intros k j Hk Hno Hj. apply Hin. rewrite Hm. destruct (loadFields_lookup mine h1 ∅ k Hnm) as [Hn _].
    rewrite (Hn Hno), lookup_empty. cbn.
    destruct (loadFields_lookup vals (Values.mkHeap 0 ∅) ∅ k Hnv) as [_ Hy]. by apply Hy.
Qed.

Lemma mergeValues_overrides_witness :
  ∃ v, mergeValues demoLibs [("a", JString "chart"); ("b", JString "chart")] [("b", JString "mine")] = Some v ∧
    ("a", JString "chart") ∈ v ∧ ("b", JString "mine") ∈ v.
Proof.
  destruct (mergeValues_overrides demoLibs 0 [("a", JString "chart"); ("b", JString "chart")] [("b", JString "mine")])
    as (v & Hv & Hm & Hd).
  - intros h l. done.
  - vm_compute. lia.
  - vm_compute. lia.
  - vm_compute. lia.
  - cbn. repeat constructor; set_solver.
  - cbn. repeat constructor; set_solver.
  - exists v. split; [done|]. split; [apply Hd|apply Hm]; cbn; set_solver.
Defined.

(** *** The status *)

(** The reads of [setStatus], answered with [st], [g] and [pods]. *)
Definition reads (st : option releaseStatus) (g : result Namespace) (pods : list Pod) (o : cop) : resp o → Prop :=
  match o with
  | RStatus _ => λ r, r = st
  | K o => match o return resp o → Prop with
           | KGet k _ _ => match k with KNamespace => λ r, r = g | _ => λ _, True end
           | KList k _ => match k with KPod => λ r, r = Ok pods | _ => λ _, True end
           | _ => λ _, True
           end
  | _ => λ _, True
  end.
Definition missingNs (g : result Namespace) : bool := match g with Ok _ => false | Err err => IsNotFound err end.
(** The assignment stored says what was read. *)
Definition tells (a : ChartAssignment) (st : option releaseStatus) (g : result Namespace)
    (pods : list Pod) (o : cop) : Prop :=
  match o with
  | K (KStatusUpdate k b) => match k return obj k → Prop with
      | KChartAssignment => λ b, ∃ s, st = Some s ∧ st_phase s ≠ ChartAssignmentPhaseDeleted ∧
          let settled := bool_decide (st_phase s = ChartAssignmentPhaseSettled) in
          let allReady := bool_decide (countReady pods = Z.of_nat (length pods)) in
          (is_ok g || missingNs g) = true ∧
          cat_ObservedGeneration (ca_Status b) = om_Generation (ca_meta a) ∧
          cat_Phase (ca_Status b) =
            (if is_ok g && settled && allReady then ChartAssignmentPhaseReady else st_phase s) ∧
          condition_of ChartAssignmentConditionSettled (cat_Conditions (ca_Status b)) =
            Some (condition settled, match st_err s with None => "" | Some err => error_text err end) ∧
          condition_of ChartAssignmentConditionReady (cat_Conditions (ca_Status b)) =
            Some (condition (is_ok g && settled && allReady),
                  if negb (is_ok g) then "waiting for namespace creation"
                  else if negb settled then "Release not settled yet"
                  else fmt_d (countReady pods) ++ "/" ++ fmt_d (Z.of_nat (length pods))
                       ++ " pods are running or succeeded")
      | _ => λ _, False
      end b
  | _ => True
  end.

Lemma ready_after_settled now now' v v' msg msg' conds :
  condition_of ChartAssignmentConditionSettled
    (upsertCondition now ChartAssignmentConditionReady v msg
       (upsertCondition now' ChartAssignmentConditionSettled v' msg' conds)) = Some (v', msg') ∧
  condition_of ChartAssignmentConditionReady
    (upsertCondition now ChartAssignmentConditionReady v msg
       (upsertCondition now' ChartAssignmentConditionSettled v' msg' conds)) = Some (v, msg).
Proof. split; [rewrite condition_of_upsert_ne by done|]; apply condition_of_upsert. Qed.

(** the status tells the truth. When [setStatus] stores a status, it is the
    one of the release it read, for the assignment's current generation: the
    phase is the release's, raised to [Ready] only if the release is settled, the
    target namespace exists and every pod in it runs or has succeeded; the two
    conditions say the same, the first with the release's error. Nothing is
    stored for an unknown or deleted release, nor when a read fails for a reason
    other than a missing namespace. *)
Theorem setStatus_truthful (a : ChartAssignment) st g pods t out :
  exec (setStatus a) t out → answers (reads st g pods) t →
  calls (tells a st g pods) t.
Proof.
  intros HE Ha. assert (wp (reads st g pods) (tells a st g pods) any_panic (setStatus a) (λ _, True)) as Hwp;
    [|by destruct (wp_exec _ _ _ _ _ _ _ Hwp HE Ha)]. clear HE Ha.
  unfold setStatus. cbn [prog_bind call wp]. split; [done|]. intros r Hr. cbn in Hr. subst r.
  destruct st as [s|]; [|done].
  destruct (decide (st_phase s = ChartAssignmentPhaseDeleted)) as [Hd|Hd];
    [by rewrite (bool_decide_eq_true_2 _ Hd)|rewrite (bool_decide_eq_false_2 _ Hd)].
  destruct a as [av k m sp [og ph conds]]. unfold setCondition. cbn [prog_bind call wp].
  split; [done|]. intros now _. cbn [prog_bind call wp]. split; [done|]. intros g' Hg. cbn in Hg. subst g'.
  destruct g as [ns|err].
  - cbn [prog_bind call wp]. split; [done|]. intros l Hl. cbn in Hl. subst l.
    destruct (bool_decide (st_phase s = ChartAssignmentPhaseSettled)) eqn:Hs; cbn [negb].
    + destruct (bool_decide (countReady pods = Z.of_nat (length pods))) eqn:Hr;
        cbn [prog_bind call wp storeStatus ca_setPhase ca_setConditions]; (split; [done|]); intros now' _;
        (split; [|by intros []]); cbn [tells]; exists s; (split; [done|]); (split; [done|]);
        cbv zeta; rewrite Hs, Hr; (split_and!; [done..|apply ready_after_settled|apply ready_after_settled]).
    + cbn [prog_bind call wp storeStatus]. split; [done|]. intros now' _. split; [|by intros []].
      exists s. split; [done|]. split; [done|]. cbv zeta. rewrite Hs.
      split_and!; [done..|apply ready_after_settled|apply ready_after_settled].
  - destruct (IsNotFound err) eqn:Herr; [|done].
    cbn [prog_bind call wp storeStatus]. split; [done|]. intros now' _. split; [|by intros []].
    exists s. split; [done|]. split; [done|]. cbv zeta.
    split_and!; [done..|apply ready_after_settled|apply ready_after_settled].
Qed.

Lemma setStatus_truthful_witness :
  calls (tells (demoAssignment false) (Some (mkReleaseStatus ChartAssignmentPhaseSettled None false))
    (Ok (mkNamespace (namedMeta "" "app-nav"))) []) (demoTrace false (setStatus (demoAssignment false))).
Proof.
  destruct (demoAssignment_exec false (setStatus (demoAssignment false))) as (out & _ & HE); [vm_compute; reflexivity|].
  apply (setStatus_truthful _ _ _ _ _ _ HE). vm_compute. repeat split.
Defined.

(** *** The webhook *)

(** the webhook admits an assignment exactly when it names its cluster (the
    validator's own, if it has one) and a valid target namespace, keeps both on
    an update, and gives either an inline chart alone or a fully specified
    chart reference; objects that do not decode are bad requests. *)
Theorem assignment_admitted_iff (v : Validator) cur old :
  Handle v cur old = Allowed ↔
  ∃ a, cur = Ok a ∧
    cas_ClusterName (ca_Spec a) ≠ "" ∧ (v_clusterName v = "" ∨ cas_ClusterName (ca_Spec a) = v_clusterName v) ∧
    targetNs a ≠ "" ∧ ValidateNamespaceName v (targetNs a) = [] ∧
    ValidateClusterName v (cas_ClusterName (ca_Spec a)) = [] ∧
    match old with
    | None => True
    | Some (Err _) => False
    | Some (Ok b) => targetNs a = targetNs b ∧ cas_ClusterName (ca_Spec a) = cas_ClusterName (ca_Spec b)
    end ∧
    let c := cas_Chart (ca_Spec a) in
    if bool_decide (ch_Inline c = "") then ch_Repository c ≠ "" ∧ ch_Name c ≠ "" ∧ ch_Version c ≠ ""
    else ch_Repository c = "" ∧ ch_Name c = "" ∧ ch_Version c = "".
Proof.
  assert (Hchart : ∀ c, validateChart c = None ↔
    if bool_decide (ch_Inline c = "") then ch_Repository c ≠ "" ∧ ch_Name c ≠ "" ∧ ch_Version c ≠ ""
    else ch_Repository c = "" ∧ ch_Name c = "" ∧ ch_Version c = "").
  { intros c. unfold validateChart. destruct (bool_decide (ch_Inline c = "")); cbn [negb];
      repeat case_bool_decide; cbn; naive_solver. }
  assert (Hval : ∀ a o, validate v a o = None ↔ cas_ClusterName (ca_Spec a) ≠ "" ∧
    (v_clusterName v = "" ∨ cas_ClusterName (ca_Spec a) = v_clusterName v) ∧ targetNs a ≠ "" ∧
    ValidateNamespaceName v (targetNs a) = [] ∧ ValidateClusterName v (cas_ClusterName (ca_Spec a)) = [] ∧
    validateChange a o = None ∧ validateChart (cas_Chart (ca_Spec a)) = None).
  { intros a o. unfold validate.
    destruct (ValidateNamespaceName v _), (ValidateClusterName v _), (validateChange a o),
      (validateChart (cas_Chart (ca_Spec a))); repeat case_bool_decide; cbn; naive_solver. }
  destruct cur as [a|e]; [|split; [done|intros (? & ? & _); done]].
  destruct old as [[b|e]|]; cbn [Handle].
  - transitivity (validate v a (Some b) = None); [by destruct (validate v a (Some b))|].
    rewrite Hval, Hchart. unfold validateChange. split.
    + intros (?&?&?&?&?&Hc&?). exists a.
      destruct (bool_decide (targetNs a = targetNs b)) eqn:Hn; cbn in Hc; [|done].
      destruct (bool_decide (cas_ClusterName (ca_Spec a) = cas_ClusterName (ca_Spec b))) eqn:Hcl; cbn in Hc; [|done].
      apply bool_decide_eq_true in Hn, Hcl. by split_and!.
    + intros (a' & [= <-] & ? & ? & ? & ? & ? & [Hn Hc] & ?).
      rewrite (bool_decide_eq_true_2 _ Hn), (bool_decide_eq_true_2 _ Hc). by split_and!.
  - split; [done|]. by intros (a' & _ & _ & _ & _ & _ & _ & [] & _).
  - transitivity (validate v a None = None); [by destruct (validate v a None)|].
    rewrite Hval, Hchart. naive_solver.
Qed.

(** A sequence of updates the webhook let through, each with its predecessor as
    the old object. *)
Fixpoint admitted (v : Validator) (a : ChartAssignment) (l : list ChartAssignment) : Prop :=
  match l with
  | [] => True
  | b :: l => Handle v (Ok b) (Some (Ok a)) = Allowed ∧ admitted v b l
  end.

Lemma Handle_target v a b : Handle v (Ok b) (Some (Ok a)) = Allowed →
  targetNs b = targetNs a ∧ cas_ClusterName (ca_Spec b) = cas_ClusterName (ca_Spec a).
Proof.
  cbn. unfold validate, validateChange. repeat case_match; try done. intros _.
  repeat match goal with H : negb (bool_decide _) = false |- _ =>
    apply negb_false_iff, bool_decide_eq_true in H end. done.
Qed.

(** an assignment never moves. Along any sequence of admitted updates the
    target namespace and the cluster stay what they were, so the release that
    the finalizer stands for is the one that was installed. *)
Theorem target_immutable (v : Validator) a l :
  admitted v a l →
  Forall (λ b, targetNs b = targetNs a ∧ cas_ClusterName (ca_Spec b) = cas_ClusterName (ca_Spec a)) l.
Proof.
  revert a. induction l as [|b l IH]; intros a; [constructor|]. intros [Hb Hl].
  apply Handle_target in Hb as [Hn Hc]. constructor; [done|].
  eapply Forall_impl; [by apply IH|]. intros c [? ?]. split; congruence.
Qed.

Lemma target_immutable_witness :
  Forall (λ b, targetNs b = "app-nav" ∧ cas_ClusterName (ca_Spec b) = "robot-1") [demoAssignment true].
Proof.
  apply (target_immutable (mkValidator "robot-1" (λ _, []) (λ _, [])) (demoAssignment false) [demoAssignment true]).
  split; [reflexivity|done].
Defined.
