(* ===== verification/CrSyncer.v ===== *)
(** * src/go/cmd/cr-syncer: synchronising custom resources between clusters

    [Module Model] translates syncer.go and the loop over CRDs of main.go: the
    spec of a resource flows from its upstream to its downstream cluster, the
    status the other way.  The properties follow. *)
From stdpp Require Import prelude strings gmap list sorting pretty.
From Stdlib Require Import Ascii ZArith.
From S2P Require Import Prelude GoErr GoStr Kube Synk Apps.

Open Scope string_scope.
Open Scope prog_scope.

Module Model.

(** ** Data *)

Definition annotationStatusSubtree := "cr-syncer.cloudrobotics.com/status-subtree".
Definition annotationFilterByRobotName := "cr-syncer.cloudrobotics.com/filter-by-robot-name".
Definition annotationSpecSource := "cr-syncer.cloudrobotics.com/spec-source".
Definition labelRobotName := "cloudrobotics.com/robot-name".
Definition annotationResourceVersion := "cr-syncer.cloudrobotics.com/remote-resource-version".
Definition cloudClusterName := "cloud".

Abbreviation Unstructured := Synk.Model.Unstructured.
Abbreviation mkU := Synk.Model.mkU.
Abbreviation u_APIVersion := Synk.Model.u_APIVersion.
Abbreviation u_Kind := Synk.Model.u_Kind.
Abbreviation u_meta := Synk.Model.u_meta.
Abbreviation u_body := Synk.Model.u_body.
Abbreviation u_Name := Synk.Model.u_Name.
Abbreviation u_Namespace := Synk.Model.u_Namespace.
Abbreviation u_setMeta := Synk.Model.u_setMeta.
(** [&unstructured.Unstructured{Object: make(map[string]interface{})}]. *)
Definition emptyObject : Unstructured := mkU false "" "" emptyMeta [].
Definition u_ResourceVersion (u : Unstructured) : string := om_ResourceVersion (u_meta u).

(** Fields of [Object]: a missing one reads as nil. *)
Definition field (l : list (string * json)) (k : string) : json := default JNull (Synk.Model.json_field l k).
Fixpoint setField (k : string) (v : json) (l : list (string * json)) : list (string * json) :=
  match l with
  | [] => [(k, v)]
  | (k', v') :: l => if bool_decide (k' = k) then (k, v) :: l else (k', v') :: setField k v l
  end.
Definition deleteField (k : string) (l : list (string * json)) : list (string * json) :=
  filter (λ kv, kv.1 ≠ k) l.
Definition u_setBody (l : list (string * json)) (u : Unstructured) : Unstructured :=
  mkU (Synk.Model.u_nil u) (u_APIVersion u) (u_Kind u) (u_meta u) l.
Definition getStatus (u : Unstructured) : json := field (u_body u) "status".
Definition setStatus (j : json) (u : Unstructured) : Unstructured := u_setBody (setField "status" j (u_body u)) u.
Definition getSpec (u : Unstructured) : json := field (u_body u) "spec".
Definition setSpec (j : json) (u : Unstructured) : Unstructured := u_setBody (setField "spec" j (u_body u)) u.

(** The parts of a CustomResourceDefinition that are read. *)
Record CRDVersion := mkCRDVersion { cv_Name : string; cv_Storage : bool; cv_StatusSubresource : bool }.
Record CRD := mkCRD {
  crd_Name : string; crd_Annotations : strmap; crd_Group : string; crd_Plural : string;
  crd_Namespaced : bool; crd_Versions : list CRDVersion }.

(** The two ends of a syncer. Queues and informers carry the side their events
    come from. *)
Inductive side := Up | Down.
#[export] Instance side_eq_dec : EqDecision side.
Proof. solve_decision. Defined.

(** Which cluster's dynamic client, for which resource and namespace. *)
Record client := mkClient { cl_remote : bool; cl_resource : string * string * string; cl_namespace : string }.
Inductive rateLimiter := DefaultControllerRateLimiter | ItemFastSlowRateLimiter.
Record crSyncer := mkCrSyncer {
  s_clusterName : string; s_crd : CRD; s_upstream : client; s_downstream : client;
  s_labelSelector : string; s_subtree : string; s_versionIx : nat;
  s_upstreamLimiter : rateLimiter; s_downstreamLimiter : rateLimiter }.

(** The calls: the informers' caches, the two clusters, the work queues, the
    fields of the syncer its two goroutines share, and the informers. *)
Inductive crop : Type :=
| GetByKey (c : side) (key : string)
| Create (c : side) (u : Unstructured)
| Update (c : side) (u : Unstructured)
| UpdateStatus (c : side) (u : Unstructured)
| Delete (c : side) (name : string)
| QueueGet (q : side)
| QueueAdd (q : side) (key : string)
| AddRateLimited (q : side) (key : string)
| Forget (q : side) (key : string)
| QueueDone (q : side) (key : string)
| ReadConflicts
| SetConflicts (n : Z)
| ReadInfDone
| SetInfDone (b : bool)
| CloseInfDone
| StartWorker (q : side)
| AwaitDone
| ShutDownQueue (q : side)
| NewInformer (c : side)
| RunInformer (c : side)
| WaitForCacheSync (c : side)
| AddEventHandler (c : side).
#[export] Instance crop_effect : Effect crop := λ o,
  match o with
  | GetByKey _ _ => result (option Unstructured)
  | Create _ _ | Update _ _ | UpdateStatus _ _ => result Unstructured
  | Delete _ _ => option error
  | QueueGet _ => option string
  | ReadConflicts => Z
  | ReadInfDone | WaitForCacheSync _ => bool
  | _ => unit
  end.

(** ** Helpers *)

Definition isNotFoundError (err : error) : bool :=
  match err with EStatus code _ _ => bool_decide (code = 404%Z) | _ => false end.

Definition newAPIError (o : Unstructured) (msg : string) : error :=
  EText (u_Kind o ++ " " ++ u_Namespace o ++ "/" ++ u_Name o ++ " @ " ++ u_ResourceVersion o ++ ": " ++ msg).

Definition u_Annotations (u : Unstructured) : strmap := om_Annotations (u_meta u).
Definition u_setAnnotations (a : strmap) (u : Unstructured) : Unstructured :=
  u_setMeta (om_setAnnotations a (u_meta u)) u.
Definition setAnnotation (o : Unstructured) (key value : string) : Unstructured :=
  u_setAnnotations (sm_set (u_Annotations o) key value) o.
Definition deleteAnnotation (o : Unstructured) (key : string) : Unstructured :=
  match u_Annotations o with
  | None => u_setAnnotations None o
  | Some a =>
      let a := base.delete key a in
      u_setAnnotations (if bool_decide (a = ∅) then None else Some a) o
  end.

(** The key of an object, and of an informer's tombstone for one. *)
Inductive delivered := Object (u : Unstructured) | DeletedFinalStateUnknown (key : string).
Definition MetaNamespaceKey (u : Unstructured) : string :=
  if bool_decide (u_Namespace u = "") then u_Name u else u_Namespace u ++ "/" ++ u_Name u.
Definition keyFunc (e : delivered) : string :=
  match e with Object u => MetaNamespaceKey u | DeletedFinalStateUnknown key => key end.

(** ** Creating a syncer *)

Fixpoint storageIndex (l : list CRDVersion) (ix : nat) : option nat :=
  match l with
  | [] => None
  | v :: l => if cv_Storage v then Some ix else storageIndex l (S ix)
  end.
Definition getStorageVersionIndex (crd : CRD) : result nat :=
  match storageIndex (crd_Versions crd) 0 with
  | Some ix => Ok ix
  | None => Err (EText ("invalid Custom Resource " ++ crd_Name crd ++ ": no version with stored=true set"))
  end.

(** [strconv.ParseBool]; [None] is its error. *)
Definition ParseBool (s : string) : option bool :=
  if bool_decide (s ∈ ["1"; "t"; "T"; "true"; "TRUE"; "True"]) then Some true
  else if bool_decide (s ∈ ["0"; "f"; "F"; "false"; "FALSE"; "False"]) then Some false
  else None.

Definition newCRSyncer (namespace : string) (crd : CRD) (robotName : string) : result crSyncer :=
  let filterByRobot :=
    let v := sm_get (crd_Annotations crd) annotationFilterByRobotName in
    if negb (bool_decide (v = "")) then default false (ParseBool v) else false in
  match getStorageVersionIndex crd with
  | Err err => Err (EWrap "Bad crd passed to newCRSyncer" err)
  | Ok versionIx =>
      match crd_Versions crd !! versionIx with
      | None => Err (EText "index out of range")
      | Some v =>
          let gvr := (crd_Group crd, cv_Name v, crd_Plural crd) in
          let ns := if crd_Namespaced crd then namespace else "" in
          let remote := mkClient true gvr ns in
          let local := mkClient false gvr ns in
          let subtree := sm_get (crd_Annotations crd) annotationStatusSubtree in
          let selector := if filterByRobot && negb (bool_decide (robotName = ""))
                          then labelRobotName ++ "=" ++ robotName else "" in
          let src := sm_get (crd_Annotations crd) annotationSpecSource in
          if bool_decide (src = "robot") then
            Ok (mkCrSyncer cloudClusterName crd local remote selector subtree versionIx
                  ItemFastSlowRateLimiter DefaultControllerRateLimiter)
          else if bool_decide (src = "cloud") then
            Ok (mkCrSyncer ("robot-" ++ robotName) crd remote local selector subtree versionIx
                  DefaultControllerRateLimiter ItemFastSlowRateLimiter)
          else Err (EText ("unknown spec source " ++ fmt_q src))
      end
  end.

(** ** Finalizers of older versions *)

Definition clusterFinalizer (clusterName : string) : string :=
  clusterName ++ ".synced.cr-syncer.cloudrobotics.com".
(** [obj] as the function leaves it; the update's failure is only logged. *)
Definition removeFinalizer (c : side) (obj : Unstructured) (clusterName : string) : prog crop Unstructured :=
  let finalizers := om_Finalizers (u_meta obj) in
  if negb (stringsContain finalizers (clusterFinalizer clusterName)) then Ret obj
  else
    let obj := u_setMeta (om_setFinalizers (stringsDelete finalizers (clusterFinalizer clusterName))
                            (u_meta obj)) obj in
    let! _ := call (Update c obj) in
    Ret obj.

(** ** Synchronisation *)

Definition statusIsSubresource (s : crSyncer) : bool :=
  match crd_Versions (s_crd s) !! s_versionIx s with
  | Some v => cv_StatusSubresource v
  | None => false
  end.

(** [s.conflictErrors += 1] and the test of [k8serrors.IsConflict]. *)
Definition countConflict (counts : bool) (err : error) : prog crop unit :=
  if IsConflict err && counts then
    let! n := call ReadConflicts in call (SetConflicts (n + 1))
  else Ret tt.
Definition resetConflicts (counts : bool) : prog crop unit :=
  if counts then call (SetConflicts 0) else Ret tt.

Definition failedKey (key : string) (err : error) : error :=
  EText ("failed to retrieve resource for key " ++ key ++ ": " ++ error_text err).

(** A missing status is replaced by an empty one. *)
Definition nonNull (j : json) : json := match j with JNull => JObj [] | _ => j end.

(** The status of [dst] after copying, or the error. *)
Definition copyStatus (s : crSyncer) (src dst : Unstructured) : result Unstructured :=
  if bool_decide (s_subtree s = "") then Ok (setStatus (getStatus src) dst)
  else match getStatus src with
  | JNull => Ok dst
  | JObj srcStatus =>
      match nonNull (getStatus dst) with
      | JObj dstStatus =>
          match field srcStatus (s_subtree s) with
          | JNull => Ok (setStatus (JObj (deleteField (s_subtree s) dstStatus)) dst)
          | v => Ok (setStatus (JObj (setField (s_subtree s) v dstStatus)) dst)
          end
      | _ => Err (EText ("expected status of " ++ u_Name src ++ " in upstream cluster to be a dict"))
      end
  | _ => Err (EText ("expected status of " ++ u_Name src ++ " in downstream cluster to be a dict"))
  end.

Definition deleteOrphan (src : Unstructured) : prog crop (option error) :=
  match om_DeletionTimestamp (u_meta src) with
  | Some _ => Ret None
  | None =>
      let! d := call (Delete Down (u_Name src)) in
      match d with
      | Some err => if isNotFoundError err then Ret None
                    else Ret (Some (EText ("delete resource: " ++ error_text err)))
      | None => Ret None
      end
  end.

Definition storeStatus (s : crSyncer) (dst : Unstructured) : prog crop (option error) :=
  let counts := negb (bool_decide (s_clusterName s = cloudClusterName)) in
  let dst := if statusIsSubresource s
             then (match getStatus dst with JNull => setStatus (JObj []) dst | _ => dst end) else dst in
  let! u := (if statusIsSubresource s then call (UpdateStatus Up dst) else call (Update Up dst)) in
  match u with
  | Err err =>
      let! _ := countConflict counts err in
      Ret (Some (newAPIError dst ((if statusIsSubresource s then "update status failed: "
                                   else "update failed: ") ++ error_text err)))
  | Ok _ => let! _ := resetConflicts counts in Ret None
  end.

Definition syncDownstream (s : crSyncer) (key : string) : prog crop (option error) :=
  let! g := call (GetByKey Down key) in
  match g with
  | Err err => Ret (Some (failedKey key err))
  | Ok None => let! _ := call (QueueAdd Up key) in Ret None
  | Ok (Some src) =>
      let! src := removeFinalizer Down src (s_clusterName s) in
      let! g := call (GetByKey Up key) in
      match g with
      | Err err => Ret (Some (failedKey key err))
      | Ok None => deleteOrphan src
      | Ok (Some dst) =>
          match copyStatus s src dst with
          | Err err => Ret (Some err)
          | Ok dst => storeStatus s (setAnnotation dst annotationResourceVersion (u_ResourceVersion src))
          end
      end
  end.

Definition deleteDownstream (name : string) (dst : Unstructured) : prog crop (option error) :=
  let! d := call (Delete Down name) in
  match d with
  | Some err => if isNotFoundError err then Ret None
                else Ret (Some (newAPIError dst ("downstream delete failed: " ++ error_text err)))
  | None => Ret None
  end.

(** [dst] with the labels, annotations and spec of [src], without the
    annotation that [syncDownstream] sets. *)
Definition copySpec (src dst : Unstructured) : Unstructured :=
  let dst := u_setMeta (om_setLabels (om_Labels (u_meta src)) (u_meta dst)) dst in
  let dst := u_setAnnotations (u_Annotations src) dst in
  let dst := setSpec (getSpec src) dst in
  deleteAnnotation dst annotationResourceVersion.
(** The base fields of a new object. *)
Definition newObject (src o : Unstructured) : Unstructured :=
  let m := om_setName (u_Name src) (om_setNamespace (u_Namespace src) (u_meta o)) in
  setStatus (getStatus src) (mkU (Synk.Model.u_nil o) (u_APIVersion src) (u_Kind src) m (u_body o)).

Definition syncUpstream (s : crSyncer) (key : string) : prog crop (option error) :=
  let counts := bool_decide (s_clusterName s = cloudClusterName) in
  let! g := call (GetByKey Up key) in
  match g with
  | Err err => Ret (Some (failedKey key err))
  | Ok srcObj =>
      let! srcObj :=
        match srcObj with
        | Some src => let! src := removeFinalizer Up src (s_clusterName s) in Ret (Some src)
        | None => Ret None
        end in
      let! g := call (GetByKey Down key) in
      match g with
      | Err err => Ret (Some (failedKey key err))
      | Ok dstObj =>
          match srcObj, dstObj with
          | None, None => Ret None
          | None, Some dst => deleteDownstream (u_Name dst) dst
          | Some src, _ =>
              let dst := default emptyObject dstObj in
              match om_DeletionTimestamp (u_meta src) with
              | Some _ => deleteDownstream (u_Name src) dst
              | None =>
                  let dst := copySpec src dst in
                  let dst := if is_some dstObj then dst else newObject src dst in
                  let! u := (if is_some dstObj then call (Update Down dst) else call (Create Down dst)) in
                  match u with
                  | Err err =>
                      let! _ := countConflict counts err in
                      Ret (Some (newAPIError dst ("failed to create or update downstream: " ++ error_text err)))
                  | Ok _ => let! _ := resetConflicts counts in Ret None
                  end
              end
          end
      end
  end.

(** ** Informers and queues *)

Definition startInformers (s : crSyncer) : prog crop (option error) :=
  let! infDone := call ReadInfDone in
  if (infDone : bool) then Ret (Some (EText ("informer for " ++ crd_Name (s_crd s) ++ " already started")))
  else
    let! _ := call (SetInfDone true) in
    let! _ := call (RunInformer Up) in
    let! _ := call (RunInformer Down) in
    let! ok := call (WaitForCacheSync Up) in
    if negb ok then Ret (Some (EText ("stopped while syncing upstream informer for " ++ crd_Name (s_crd s))))
    else
      let! ok := call (WaitForCacheSync Down) in
      if negb ok then Ret (Some (EText ("stopped while syncing downstream informer for " ++ crd_Name (s_crd s))))
      else
        let! _ := call (AddEventHandler Up) in
        let! _ := call (AddEventHandler Down) in
        Ret None.
(** [CloseInfDone] is Go's [close(infDone)].  Closing a closed channel panics: in
    this model it is a call that gets no answer (as in [channel] below), so the
    theorems about one worker are about the runs in which it is open; that two
    workers may close it twice is [restart_once_safe_twice_not]. *)
Definition stopInformers : prog crop unit :=
  let! infDone := call ReadInfDone in
  if (infDone : bool) then let! _ := call CloseInfDone in call (SetInfDone false) else Ret tt.
Definition restartInformers (s : crSyncer) : prog crop (option error) :=
  let! _ := stopInformers in
  let! _ := call (NewInformer Up) in
  let! _ := call (NewInformer Down) in
  startInformers s.

(** [run]; its deferred calls come last, the second one first.  A worker is a
    goroutine that calls [processNextWorkItem] until it returns [false]. *)
Definition shutDownQueues : prog crop unit :=
  let! _ := call (ShutDownQueue Down) in call (ShutDownQueue Up).
Definition runSyncer (s : crSyncer) : prog crop unit :=
  let! err := startInformers s in
  match err with
  | Some _ => shutDownQueues
  | None =>
      let! _ := call (StartWorker Up) in
      let! _ := call (StartWorker Down) in
      let! _ := call AwaitDone in
      let! infDone := call ReadInfDone in
      let! _ := (if (infDone : bool) then call CloseInfDone else Ret tt) in
      shutDownQueues
  end.

(** An informer's event: the object is cast to [*unstructured.Unstructured]
    before its key is derived. *)
Definition receive (q : side) (e : delivered) : prog crop unit :=
  match e with
  | Object _ => call (AddRateLimited q (keyFunc e))
  | DeletedFinalStateUnknown _ => Panic "interface conversion"
  end.

Definition syncItem (q : side) (key : string) (syncf : string → prog crop (option error)) : prog crop unit :=
  let! err := syncf key in
  match err with
  | None => call (Forget q key)
  | Some _ => call (AddRateLimited q key)
  end.
(** [false] when the queue was shut down. *)
Definition processNextWorkItem (s : crSyncer) (conflictErrorLimit : Z) (q : side)
    (syncf : string → prog crop (option error)) : prog crop bool :=
  let! k := call (QueueGet q) in
  match k with
  | None => Ret false
  | Some key =>
      let! n := call ReadConflicts in
      let! proceed :=
        if (conflictErrorLimit <=? n)%Z then
          let! err := restartInformers s in
          match err with
          | Some _ => let! _ := call (AddRateLimited q key) in Ret false
          | None => let! _ := call (SetConflicts 0) in Ret true
          end
        else Ret true in
      let! _ := (if (proceed : bool) then syncItem q key syncf else Ret tt) in
      let! _ := call (QueueDone q key) in
      Ret true
  end.

(** ** The loop over CRDs *)

Inductive EventType := Added | Modified | Deleted.
Record CrdChange := mkCrdChange { ch_Type : EventType; ch_CRD : CRD }.
Inductive effect := Stop (s : crSyncer) | Run (s : crSyncer).
(** One change: the map of syncers and what is stopped and started. *)
Definition onCrdChange (namespace robotName : string) (c : CrdChange)
    (st : gmap string crSyncer * list effect) : gmap string crSyncer * list effect :=
  let '(syncers, log) := st in
  let name := crd_Name (ch_CRD c) in
  let '(syncers, log) :=
    match syncers !! name with
    | Some cur => (base.delete name syncers, log ++ [Stop cur])%list
    | None => (syncers, log)
    end in
  match ch_Type c with
  | Deleted => (syncers, log)
  | Added | Modified =>
      match newCRSyncer namespace (ch_CRD c) robotName with
      | Err _ => (syncers, log)
      | Ok s => (<[name:=s]> syncers, log ++ [Run s])%list
      end
  end.
Definition crdLoop (namespace robotName : string) (changes : list CrdChange)
    : gmap string crSyncer * list effect :=
  foldl (λ st c, onCrdChange namespace robotName c st) (∅, []) changes.

End Model.

Import Model.

(** ** Facts about fields and annotations *)

Lemma json_field_set_eq k v l : Synk.Model.json_field (setField k v l) k = Some v.
Proof.
  unfold Synk.Model.json_field. induction l as [|[k' v'] l IH]; cbn; [by rewrite decide_True|].
  case_bool_decide as Hk; cbn; [by rewrite decide_True|]. by rewrite decide_False.
Qed.
Lemma json_field_set_ne k k' v l : k ≠ k' → Synk.Model.json_field (setField k v l) k' = Synk.Model.json_field l k'.
Proof.
  intros Hne. unfold Synk.Model.json_field. induction l as [|[k1 v1] l IH]; cbn; [by rewrite decide_False|].
  case_bool_decide as Hk; cbn; subst; [by rewrite !decide_False|]. case_decide; done.
Qed.
Lemma field_set_eq k v l : field (setField k v l) k = v.
Proof. unfold field. by rewrite json_field_set_eq. Qed.
Lemma field_set_ne k k' v l : k ≠ k' → field (setField k v l) k' = field l k'.
Proof. intros ?. unfold field. by rewrite json_field_set_ne. Qed.
(** Storing what is there changes nothing. *)
Lemma setField_same k v l : Synk.Model.json_field l k = Some v → setField k v l = l.
Proof.
  unfold Synk.Model.json_field. induction l as [|[k' v'] l IH]; cbn; [done|].
  case_bool_decide as Hk; cbn; subst.
  - rewrite decide_True by done. cbn. by intros [= ->].
  - rewrite decide_False by done. intros ?. by rewrite IH.
Qed.
Lemma setField_twice k v w l : setField k v (setField k w l) = setField k v l.
Proof.
  induction l as [|[k' v'] l IH]; cbn; [by rewrite bool_decide_eq_true_2|].
  case_bool_decide as Hk; cbn; [by rewrite bool_decide_eq_true_2|].
  by rewrite bool_decide_eq_false_2, IH.
Qed.
Lemma deleteField_twice k l : deleteField k (deleteField k l) = deleteField k l.
Proof. unfold deleteField. rewrite list_filter_filter. apply list_filter_iff. tauto. Qed.
Lemma deleteField_set k v l : deleteField k (setField k v l) = deleteField k l.
Proof.
  unfold deleteField. induction l as [|[k' v'] l IH]; cbn; [by rewrite decide_False by naive_solver|].
  case_bool_decide as Hk; subst; rewrite !filter_cons; cbn; [by rewrite !decide_False by naive_solver|].
  by rewrite !decide_True, IH by done.
Qed.

Lemma getStatus_set j u : getStatus (setStatus j u) = j.
Proof. unfold getStatus, setStatus. destruct u. cbn. apply field_set_eq. Qed.
Lemma getSpec_setStatus j u : getSpec (setStatus j u) = getSpec u.
Proof. unfold getSpec, setStatus, u_setBody. cbn. by apply field_set_ne. Qed.
Lemma setStatus_same u j : Synk.Model.json_field (u_body u) "status" = Some j → setStatus j u = u.
Proof.
  intros Hj. unfold setStatus, u_setBody. rewrite setField_same by done. by destruct u.
Qed.
Lemma setStatus_twice j j' u : setStatus j (setStatus j' u) = setStatus j u.
Proof. unfold setStatus, u_setBody. cbn. by rewrite setField_twice. Qed.
Lemma setStatus_body j u : Synk.Model.json_field (u_body (setStatus j u)) "status" = Some j.
Proof. apply json_field_set_eq. Qed.

(** The annotations that flow downstream. *)
Definition forwarded (a : strmap) : strmap :=
  match a with
  | None => None
  | Some a => let a := base.delete annotationResourceVersion a in if bool_decide (a = ∅) then None else Some a
  end.
Lemma forwarded_set a v : forwarded (sm_set a annotationResourceVersion v) = forwarded a.
Proof.
  unfold forwarded, sm_set. rewrite delete_insert_eq. destruct a as [a|]; [done|]. cbn.
  by rewrite delete_empty.
Qed.
Lemma forwarded_idemp a : forwarded (forwarded a) = forwarded a.
Proof.
  destruct a as [a|]; [|done]. unfold forwarded. cbn zeta. case_bool_decide as Ha; [done|].
  rewrite delete_delete_eq. by rewrite bool_decide_eq_false_2.
Qed.

(** [copySpec] written out. *)
Lemma copySpec_eq src dst :
  copySpec src dst = mkU (Synk.Model.u_nil dst) (u_APIVersion dst) (u_Kind dst)
    (om_setAnnotations (forwarded (u_Annotations src)) (om_setLabels (om_Labels (u_meta src)) (u_meta dst)))
    (setField "spec" (getSpec src) (u_body dst)).
Proof.
  destruct src as [sn sa sk sm sb], dst as [dn da dk dm db]. destruct sm, dm.
  unfold copySpec, deleteAnnotation, u_setAnnotations, u_Annotations, setSpec, u_setBody, forwarded, u_setMeta,
    Synk.Model.u_setMeta. cbn. by destruct om_Annotations.
Qed.
(** Copying again from an object with the same spec, labels and forwarded
    annotations changes nothing. *)
Lemma copySpec_again src src' dst :
  om_Labels (u_meta src') = om_Labels (u_meta src) →
  forwarded (u_Annotations src') = forwarded (u_Annotations src) →
  getSpec src' = getSpec src →
  copySpec src' (copySpec src dst) = copySpec src dst.
Proof.
  intros Hl Ha Hs. rewrite !copySpec_eq. cbn. rewrite Hl, Ha, Hs, setField_twice.
  by destruct (u_meta dst).
Qed.

(** Copying the status again changes nothing. *)
Lemma copyStatus_again s src dst dst' :
  copyStatus s src dst = Ok dst' → copyStatus s src dst' = Ok dst'.
Proof.
  unfold copyStatus. case_bool_decide as Hsub.
  - intros [= <-]. by rewrite setStatus_twice.
  - destruct (getStatus src) as [| | | | |ss]; try done.
    destruct (nonNull (getStatus dst)) as [| | | | |ds]; try done.
    destruct (field ss (s_subtree s)) eqn:Hf; intros [= <-]; rewrite getStatus_set; cbn;
      rewrite setStatus_twice, ?setField_twice, ?deleteField_twice; done.
Qed.
(** It reads only the status of the source. *)
Lemma copyStatus_frame s src dst dst' : copyStatus s src dst = Ok dst' →
  u_meta dst' = u_meta dst ∧ getSpec dst' = getSpec dst ∧ dst' = setStatus (getStatus dst') dst ∨ dst' = dst.
Proof.
  assert (∀ j, u_meta (setStatus j dst) = u_meta dst ∧ getSpec (setStatus j dst) = getSpec dst ∧
    setStatus j dst = setStatus (getStatus (setStatus j dst)) dst) as Hset.
  { intros j. split_and!; [done| |by rewrite getStatus_set].
    unfold getSpec, setStatus, u_setBody. cbn. by apply field_set_ne. }
  unfold copyStatus. repeat case_match; intros [= <-]; auto.
Qed.

(** ** Two clusters

    An API server keeps one object per cluster for the key at hand.  A write
    based on an old version is refused; one that changes nothing keeps the
    version; with the status subresource, the object and its status are written
    apart.  Objects have no finalizers, so a deletion removes them.  The
    informers' caches are up to date. *)
#[export] Instance ObjectMeta_eq_dec : EqDecision ObjectMeta.
Proof. solve_decision. Defined.
#[export] Instance Unstructured_eq_dec : EqDecision Unstructured.
Proof. solve_decision. Defined.

Record world := mkWorld { w_up : option Unstructured; w_down : option Unstructured }.
Definition w_get (c : side) (w : world) : option Unstructured :=
  match c with Up => w_up w | Down => w_down w end.
Definition w_set (c : side) (u : option Unstructured) (w : world) : world :=
  match c with Up => mkWorld u (w_down w) | Down => mkWorld (w_up w) u end.
Definition setVersion (v : string) (u : Unstructured) : Unstructured :=
  u_setMeta (om_setResourceVersion v (u_meta u)) u.

Section clusters.
Context (subresource : bool) (next : string → string).

Definition put (old new : Unstructured) : Unstructured :=
  if bool_decide (new = old) then old else setVersion (next (u_ResourceVersion old)) new.
Definition keepStatus (old new : Unstructured) : Unstructured :=
  if subresource && negb (bool_decide (getStatus new = getStatus old))
  then setStatus (getStatus old) new else new.
Definition created (u : Unstructured) : Unstructured :=
  setVersion "1" (if subresource then u_setBody (deleteField "status" (u_body u)) u else u).
Definition stale : error := EStatus 409 "Conflict" "the object has been modified".
Definition gone : error := EStatus 404 "NotFound" "not found".
Definition write (c : side) (u : Unstructured) (f : Unstructured → Unstructured) (w : world)
    : option (result Unstructured * world) :=
  match w_get c w with
  | None => Some (Err gone, w)
  | Some old =>
      if bool_decide (u_ResourceVersion u = u_ResourceVersion old)
      then Some (Ok (put old (f old)), w_set c (Some (put old (f old))) w)
      else Some (Err stale, w)
  end.
Definition cluster (o : crop) (w : world) : option (resp o * world) :=
  match o with
  | GetByKey c _ => Some (Ok (w_get c w), w)
  | Update c u => write c u (λ old, keepStatus old u) w
  | UpdateStatus c u => write c u (setStatus (getStatus u)) w
  | Create c u => match w_get c w with
      | Some _ => Some (Err (EStatus 409 "AlreadyExists" "exists"), w)
      | None => Some (Ok (created u), w_set c (Some (created u)) w)
      end
  | Delete c _ => match w_get c w with
      | Some _ => Some (None, w_set c None w)
      | None => Some (Some gone, w)
      end
  | ReadConflicts => Some (0%Z, w)
  | ReadInfDone | WaitForCacheSync _ => Some (true, w)
  | QueueGet _ => Some (None, w)
  | QueueAdd _ _ | AddRateLimited _ _ | Forget _ _ | QueueDone _ _ | SetConflicts _
  | SetInfDone _ | CloseInfDone | StartWorker _ | AwaitDone | ShutDownQueue _ | NewInformer _ | RunInformer _ | AddEventHandler _ => Some (tt, w)
  end.
End clusters.

(** No deletion is in progress, and no old finalizer is left. *)
Definition plain (u : Unstructured) : Prop :=
  om_DeletionTimestamp (u_meta u) = None ∧ om_Finalizers (u_meta u) = [].
Definition plain_world (w : world) : Prop :=
  (∀ u, w_up w = Some u → plain u) ∧ (∀ d, w_down w = Some d → plain d).

(** A status as the subresource stores it. *)
Definition stored_status (s : crSyncer) (j : json) : json :=
  if statusIsSubresource s then nonNull j else j.
(** The two objects agree: spec and labels as upstream, status as downstream. *)
Definition in_sync (s : crSyncer) (w : world) : Prop :=
  match w_up w, w_down w with
  | None, None => True
  | Some u, Some d =>
      om_Labels (u_meta d) = om_Labels (u_meta u) ∧
      u_Annotations d = forwarded (u_Annotations u) ∧ getSpec d = getSpec u ∧
      ∃ u', copyStatus s d u = Ok u' ∧ getStatus u = stored_status s (getStatus u')
  | _, _ => False
  end.

Section converge.
Context (s : crSyncer) (key : string) (next : string → string).
Abbreviation go := (run (cluster (statusIsSubresource s) next)).
Abbreviation kput := (put next).

Lemma removeFinalizer_plain c u cn : plain u → removeFinalizer c u cn = Ret u.
Proof. intros [_ Hf]. unfold removeFinalizer. by rewrite Hf. Qed.
Lemma go_resetConflicts b w : ∃ t, go (resetConflicts b) w = Some (t, Done tt, w).
Proof. destruct b; eexists; reflexivity. Qed.

Lemma put_same u : kput u u = u.
Proof. unfold put. by rewrite bool_decide_eq_true_2. Qed.
Lemma copySpec_status src dst : getStatus (copySpec src dst) = getStatus dst.
Proof. rewrite copySpec_eq. unfold getStatus. cbn. by apply field_set_ne. Qed.
Lemma keepStatus_copySpec src dst : keepStatus (statusIsSubresource s) dst (copySpec src dst) = copySpec src dst.
Proof.
  unfold keepStatus. rewrite copySpec_status, bool_decide_eq_true_2 by done. by rewrite andb_false_r.
Qed.

(** The upstream half, on existing objects. *)
Lemma syncUpstream_update u d : plain u →
  ∃ t, go (syncUpstream s key) (mkWorld (Some u) (Some d)) =
    Some (t, Done None, mkWorld (Some u) (Some (kput d (copySpec u d)))).
Proof.
  intros Hu. unfold syncUpstream. cbn [run cluster prog_bind call w_get w_up w_down].
  rewrite removeFinalizer_plain by done. cbn [run cluster prog_bind call w_get w_up w_down]. destruct Hu as [-> _].
  cbn [is_some default prog_bind run call cluster]. unfold write. cbn [w_get w_down].
  rewrite bool_decide_eq_true_2 by (rewrite copySpec_eq; by destruct d as [? ? ? [] ?]).
  rewrite keepStatus_copySpec. cbn [w_set w_up].
  edestruct (go_resetConflicts (bool_decide (s_clusterName s = cloudClusterName))) as [t Ht].
  eexists. erewrite run_bind; [reflexivity|exact Ht|reflexivity].
Qed.

Lemma syncUpstream_create u : plain u →
  ∃ t, go (syncUpstream s key) (mkWorld (Some u) None) =
    Some (t, Done None, mkWorld (Some u) (Some (created (statusIsSubresource s) (newObject u (copySpec u emptyObject))))).
Proof.
  intros Hu. unfold syncUpstream. cbn [run cluster prog_bind call w_get w_up w_down].
  rewrite removeFinalizer_plain by done. cbn [run cluster prog_bind call w_get w_up w_down]. destruct Hu as [-> _].
  cbn [is_some default prog_bind run call cluster w_get w_down w_set w_up].
  edestruct (go_resetConflicts (bool_decide (s_clusterName s = cloudClusterName))) as [t Ht].
  eexists. erewrite run_bind; [reflexivity|exact Ht|reflexivity].
Qed.

(** The downstream half. *)
Definition statusWrite (u u' : Unstructured) (rv : string) : Unstructured :=
  if statusIsSubresource s then kput u (setStatus (stored_status s (getStatus u')) u)
  else kput u (setAnnotation u' annotationResourceVersion rv).

Lemma syncDownstream_update u d u' : plain d → copyStatus s d u = Ok u' →
  ∃ t, go (syncDownstream s key) (mkWorld (Some u) (Some d)) =
    Some (t, Done None, mkWorld (Some (statusWrite u u' (u_ResourceVersion d))) (Some d)).
Proof.
  intros Hd Hc. unfold syncDownstream. cbn [run cluster prog_bind call w_get w_up w_down].
  rewrite removeFinalizer_plain by done. cbn [run cluster prog_bind call w_get w_up w_down]. rewrite Hc.
  assert (u_ResourceVersion u' = u_ResourceVersion u) as Hrv.
  { destruct (copyStatus_frame _ _ _ _ Hc) as [(Hm & _)| ->]; [|done]. unfold u_ResourceVersion. by rewrite Hm. }
  assert (∀ v, u_ResourceVersion (setAnnotation u' annotationResourceVersion v) = u_ResourceVersion u) as Hrva.
  { intros v. rewrite <-Hrv. by destruct u' as [? ? ? [] ?]. }
  unfold storeStatus, statusWrite, stored_status.
  destruct (statusIsSubresource s) eqn:Hsub.
  - set (dst := match getStatus _ with JNull => _ | _ => _ end).
    assert (getStatus dst = nonNull (getStatus u') ∧
      u_ResourceVersion dst = u_ResourceVersion u) as [Hst Hrvd].
    { subst dst. change (getStatus (setAnnotation u' annotationResourceVersion (u_ResourceVersion d)))
        with (getStatus u'). destruct (getStatus u') eqn:Hg; rewrite ?getStatus_set; split; try done; apply Hrva. }
    clearbody dst. cbn [prog_bind run call cluster]. unfold write. cbn [w_get w_up].
    rewrite bool_decide_eq_true_2 by done. rewrite Hst. cbn [w_set w_down].
    edestruct go_resetConflicts as [t Ht]. rewrite Hsub in Ht.
    eexists. erewrite run_bind; [reflexivity|exact Ht|reflexivity].
  - cbn [prog_bind run call cluster]. unfold write. cbn [w_get w_up].
    rewrite bool_decide_eq_true_2 by apply Hrva. unfold keepStatus. cbn [andb w_set w_down].
    edestruct go_resetConflicts as [t Ht]. rewrite Hsub in Ht.
    eexists. erewrite run_bind; [reflexivity|exact Ht|reflexivity].
Qed.

Lemma syncDownstream_failed u d err : plain d → copyStatus s d u = Err err →
  ∃ t, go (syncDownstream s key) (mkWorld (Some u) (Some d)) = Some (t, Done (Some err), mkWorld (Some u) (Some d)).
Proof.
  intros Hd Hc. unfold syncDownstream. cbn [run cluster prog_bind call w_get w_up w_down].
  rewrite removeFinalizer_plain by done. cbn [run cluster prog_bind call w_get w_up w_down]. rewrite Hc.
  by eexists.
Qed.

(** What a write keeps. *)
Lemma put_or old new : kput old new = new ∧ new = old ∨ kput old new = setVersion (next (u_ResourceVersion old)) new.
Proof. unfold put. case_bool_decide; subst; auto. Qed.
Lemma put_frame old new : let p := kput old new in
  u_body p = u_body new ∧ getStatus p = getStatus new ∧ om_Labels (u_meta p) = om_Labels (u_meta new) ∧
  u_Annotations p = u_Annotations new ∧ getSpec p = getSpec new ∧
  om_DeletionTimestamp (u_meta p) = om_DeletionTimestamp (u_meta new) ∧
  om_Finalizers (u_meta p) = om_Finalizers (u_meta new).
Proof. intros p. subst p. destruct (put_or old new) as [[-> _]| ->]; [done|]. by destruct new as [? ? ? [] ?]. Qed.

(** [copyStatus] in terms of the two statuses: [None] for an error, [Some
    None] when nothing is written. *)
Definition copied (js jd : json) : option (option json) :=
  if bool_decide (s_subtree s = "") then Some (Some js)
  else match js with
  | JNull => Some None
  | JObj ss =>
      match nonNull jd with
      | JObj ds => Some (Some (JObj (match field ss (s_subtree s) with
                                     | JNull => deleteField (s_subtree s) ds
                                     | v => setField (s_subtree s) v ds
                                     end)))
      | _ => None
      end
  | _ => None
  end.
Definition with_status (o : option json) (u : Unstructured) : Unstructured :=
  match o with Some j => setStatus j u | None => u end.
Lemma copyStatus_copied src dst :
  match copied (getStatus src) (getStatus dst) with
  | Some o => copyStatus s src dst = Ok (with_status o dst)
  | None => ∃ err, copyStatus s src dst = Err err
  end.
Proof. unfold copied, copyStatus. repeat case_match; try done; simplify_eq; eauto. Qed.
Lemma copied_again js jd o :
  copied js jd = Some o → copied js (stored_status s (default jd o)) = Some o ∧
    stored_status s (default (stored_status s (default jd o)) o) = stored_status s (default jd o).
Proof.
  unfold copied. case_bool_decide.
  { intros [= <-]. split; [done|]. cbn. unfold stored_status. by destruct (statusIsSubresource s). }
  destruct js; try done.
  { intros [= <-]. split; [done|]. cbn. unfold stored_status. destruct (statusIsSubresource s); [|done]. by destruct jd. }
  destruct (nonNull jd); try done. intros [= <-]. cbn. unfold stored_status.
  destruct (statusIsSubresource s); cbn; split; try done;
    destruct (field _ (s_subtree s)); by rewrite ?setField_twice, ?deleteField_twice.
Qed.
Lemma getStatus_with o u : getStatus (with_status o u) = default (getStatus u) o.
Proof. destruct o; [apply getStatus_set|done]. Qed.
Lemma getSpec_with o u : getSpec (with_status o u) = getSpec u.
Proof. destruct o; [|done]. unfold getSpec. by apply field_set_ne. Qed.

(** One status write: the objects still agree, and writing again changes
    nothing. *)
Lemma status_settles u d u' : copySpec u d = d → plain u → copyStatus s d u = Ok u' →
  let u1 := statusWrite u u' (u_ResourceVersion d) in
  copySpec u1 d = d ∧ plain u1 ∧
  ∃ u1', copyStatus s d u1 = Ok u1' ∧ getStatus u1 = stored_status s (getStatus u1') ∧
    statusWrite u1 u1' (u_ResourceVersion d) = u1.
Proof.
  intros Hd Hu Hc u1. pose proof (copyStatus_copied d u) as Hj.
  destruct (copied (getStatus d) (getStatus u)) as [o|] eqn:Ho; [|destruct Hj; congruence].
  rewrite Hc in Hj. injection Hj as ->. destruct (copied_again _ _ _ Ho) as [Ho1 Hst].
  assert (getStatus u1 = stored_status s (default (getStatus u) o) ∧
    om_Labels (u_meta u1) = om_Labels (u_meta u) ∧ forwarded (u_Annotations u1) = forwarded (u_Annotations u) ∧
    getSpec u1 = getSpec u ∧ om_DeletionTimestamp (u_meta u1) = om_DeletionTimestamp (u_meta u) ∧
    om_Finalizers (u_meta u1) = om_Finalizers (u_meta u)) as (Hst1 & Hl & Ha & Hs & Hdel & Hfin).
  { subst u1. unfold statusWrite, stored_status. rewrite getStatus_with.
    destruct (statusIsSubresource s);
      (match goal with |- context [kput u ?x] => destruct (put_frame u x) as (_ & -> & -> & -> & -> & -> & ->) end);
      split_and!; try first [by rewrite getStatus_set | by destruct o; destruct u as [? ? ? [] ?]
            | unfold getSpec; apply field_set_ne; done].
    - destruct o; [|done]. unfold getStatus at 1. cbn. by rewrite field_set_eq.
    - etrans; [|by eapply (forwarded_set _ (u_ResourceVersion d))]. by destruct o; destruct u as [? ? ? [] ?].
    - destruct o; [|done]. unfold getSpec. cbn. by apply field_set_ne. }
  split_and!.
  - rewrite <-Hd. by apply copySpec_again.
  - unfold plain. by rewrite Hdel, Hfin.
  - pose proof (copyStatus_copied d u1) as Hj. rewrite Hst1, Ho1 in Hj. eexists. split; [exact Hj|].
    rewrite getStatus_with, Hst1. split; [done|].
    unfold statusWrite. destruct (statusIsSubresource s) eqn:Hsub.
    + rewrite getStatus_with, Hst1, Hst, setStatus_same; [apply put_same|].
      subst u1. unfold statusWrite. rewrite Hsub, getStatus_with.
      match goal with |- context [kput u ?x] => destruct (put_frame u x) as (-> & _) end. apply setStatus_body.
    + assert (setAnnotation (with_status o u1) annotationResourceVersion (u_ResourceVersion d) = u1) as ->;
        [|apply put_same].
      subst u1. unfold statusWrite. rewrite Hsub.
      assert (∀ v u, setAnnotation (with_status o (setAnnotation (with_status o u) annotationResourceVersion v))
        annotationResourceVersion v = setAnnotation (with_status o u) annotationResourceVersion v) as Hagain.
      { intros v x. destruct x as [? ? ? [] b]. destruct o; unfold with_status, setStatus, setAnnotation,
          u_setAnnotations, u_setBody, u_Annotations, sm_set; cbn; rewrite ?insert_insert_eq, ?setField_twice; reflexivity. }
      destruct (put_or u (setAnnotation (with_status o u) annotationResourceVersion (u_ResourceVersion d)))
        as [[-> _]| ->]; [apply Hagain|].
      rewrite <-(Hagain _ u) at 2. set (w := setAnnotation (with_status o u) _ _). destruct w as [? ? ? [] ?].
      by destruct o.
Qed.

(** *** Rounds *)

(** One round: the upstream event, then the downstream event. *)
Definition sync_round : prog crop (option error) :=
  let! e := syncUpstream s key in
  match e with Some err => Ret (Some err) | None => syncDownstream s key end.
Lemma go_round w t1 w1 t2 out w2 :
  go (syncUpstream s key) w = Some (t1, Done None, w1) → go (syncDownstream s key) w1 = Some (t2, out, w2) →
  go sync_round w = Some ((t1 ++ t2)%list, out, w2).
Proof. intros H1 H2. unfold sync_round. by eapply run_bind. Qed.

Lemma in_sync_of u u' d : copySpec u d = d → copyStatus s d u = Ok u' →
  getStatus u = stored_status s (getStatus u') → in_sync s (mkWorld (Some u) (Some d)).
Proof.
  intros Hd Hc Hst. unfold in_sync. cbn. rewrite <-Hd at 1 2 3. rewrite copySpec_eq. split_and!; [| | |by eauto].
  - by destruct (u_meta d).
  - unfold u_Annotations. cbn. by destruct (u_meta d).
  - unfold getSpec. cbn. apply field_set_eq.
Qed.

(** From two objects that agree on the spec. *)
Lemma round_of_agreeing u d : plain u → plain d → copySpec u d = d →
  ∃ t e w', go (syncDownstream s key) (mkWorld (Some u) (Some d)) = Some (t, Done e, w') ∧
    match e with
    | None => in_sync s w' ∧ plain_world w' ∧ ∃ t', go sync_round w' = Some (t', Done None, w')
    | Some err => w' = mkWorld (Some u) (Some d) ∧ copyStatus s d u = Err err
    end.
Proof.
  intros Hu Hd Ha. destruct (copyStatus s d u) as [u'|err] eqn:Hc.
  - destruct (syncDownstream_update u d u' Hd Hc) as [t Ht].
    destruct (status_settles u d u' Ha Hu Hc) as (Ha1 & Hu1 & u1' & Hc1 & Hst1 & Hw1).
    set (u1 := statusWrite u u' (u_ResourceVersion d)) in *.
    exists t, None, (mkWorld (Some u1) (Some d)). split; [exact Ht|]. split_and!.
    + by eapply in_sync_of.
    + split; cbn; intros ? [= <-]; done.
    + destruct (syncUpstream_update u1 d Hu1) as [t1 Ht1]. rewrite Ha1, put_same in Ht1.
      destruct (syncDownstream_update u1 d u1' Hd Hc1) as [t2 Ht2]. rewrite Hw1 in Ht2.
      eexists. by apply (go_round _ _ _ _ _ _ Ht1 Ht2).
  - destruct (syncDownstream_failed u d err Hd Hc) as [t Ht].
    by exists t, (Some err), (mkWorld (Some u) (Some d)).
Qed.

Lemma copySpec_put u d : copySpec u (kput d (copySpec u d)) = kput d (copySpec u d).
Proof.
  destruct (put_or d (copySpec u d)) as [[-> _]| ->]; [by apply copySpec_again|].
  set (v := next _). rewrite !copySpec_eq. unfold setVersion, u_setMeta, Synk.Model.u_setMeta. cbn.
  rewrite setField_twice. by destruct (u_meta d).
Qed.
Lemma copySpec_created u : let d := created (statusIsSubresource s) (newObject u (copySpec u emptyObject)) in
  copySpec u d = d ∧ plain d.
Proof.
  cbn zeta. rewrite !copySpec_eq. unfold created, newObject, setStatus, u_setBody, setVersion, u_setMeta, plain,
    Synk.Model.u_setMeta. by destruct (statusIsSubresource s).
Qed.
Lemma plain_put u d : plain d → plain (kput d (copySpec u d)).
Proof.
  unfold plain. intros [? ?]. destruct (put_frame d (copySpec u d)) as (_ & _ & _ & _ & _ & -> & ->).
  rewrite copySpec_eq. cbn. by destruct (u_meta d).
Qed.

Lemma round_of_missing : ∃ t, go sync_round (mkWorld None None) = Some (t, Done None, mkWorld None None).
Proof. eexists. reflexivity. Qed.
Lemma round_of_orphan d : ∃ t, go sync_round (mkWorld None (Some d)) = Some (t, Done None, mkWorld None None).
Proof. eexists. reflexivity. Qed.

End converge.

(** C19: The controller converges, where nothing is being deleted.  Let the two
    objects at a key be any, or missing, but neither marked for deletion nor
    with finalizers, and let the informers' caches be current.  Then one round
    of [syncUpstream] and [syncDownstream] ends without a panic.  If it reports
    no error, the two objects agree (both gone; or the same labels, spec and
    forwarded annotations downstream as upstream and upstream the status of
    downstream) and a further round changes nothing, not even a version.  It
    reports an error only if the two statuses cannot be merged; then the
    upstream object was not touched. *)
Theorem sync_converges (s : crSyncer) (key : string) (next : string → string) (w : world) :
  plain_world w →
  ∃ t e w', run (cluster (statusIsSubresource s) next) (sync_round s key) w = Some (t, Done e, w') ∧
    match e with
    | None => in_sync s w' ∧ plain_world w' ∧
        ∃ t', run (cluster (statusIsSubresource s) next) (sync_round s key) w' = Some (t', Done None, w')
    | Some err => w_up w' = w_up w ∧
        ∃ u d, w_up w' = Some u ∧ w_down w' = Some d ∧ copyStatus s d u = Err err
    end.
Proof.
  destruct w as [[u|] [d|]]; intros [Hu Hd]; cbn in Hu, Hd.
  - specialize (Hu _ eq_refl). specialize (Hd _ eq_refl).
    destruct (syncUpstream_update s key next u d Hu) as [t1 Ht1].
    destruct (round_of_agreeing s key next u _ Hu (plain_put next u d Hd) (copySpec_put next u d))
      as (t2 & e & w' & Ht2 & He).
    eexists _, e, w'. split; [by eapply go_round|]. destruct e as [err|]; [|done].
    destruct He as [-> He]. split; [done|]. by eexists _, _.
  - specialize (Hu _ eq_refl). destruct (syncUpstream_create s key next u Hu) as [t1 Ht1].
    destruct (copySpec_created s u) as [Ha Hpd].
    destruct (round_of_agreeing s key next u _ Hu Hpd Ha) as (t2 & e & w' & Ht2 & He).
    eexists _, e, w'. split; [by eapply go_round|]. destruct e as [err|]; [|done].
    destruct He as [-> He]. split; [done|]. by eexists _, _.
  - destruct (round_of_orphan s key next d) as [t Ht]. destruct (round_of_missing s key next) as [t' Ht'].
    eexists _, None, _. split; [exact Ht|]. split_and!; [done|done|by eauto].
  - destruct (round_of_missing s key next) as [t Ht]. eexists _, None, _. split; [exact Ht|].
    split_and!; [done|done|by eauto].
Qed.

Example shared_syncer : crSyncer :=
  mkCrSyncer "robot-r1" (mkCRD "apps.example.org" None "example.org" "apps" true [mkCRDVersion "v1" true true])
    (mkClient true ("example.org", "v1", "apps") "default") (mkClient false ("example.org", "v1", "apps") "default")
    "" "" 0 DefaultControllerRateLimiter ItemFastSlowRateLimiter.
Example app_up : Unstructured :=
  mkU false "example.org/v1" "App"
    (om_setResourceVersion "7" (om_setNamespace "default" (om_setName "a" emptyMeta)))
    [("spec", JObj [("n", JString "2")]); ("status", JString "ready")].
Example app_down : Unstructured :=
  mkU false "example.org/v1" "App"
    (om_setResourceVersion "3" (om_setNamespace "default" (om_setName "a" emptyMeta)))
    [("spec", JObj [("n", JString "1")]); ("status", JString "busy")].
Lemma sync_converges_witness : ∃ t e w',
  run (cluster true (λ v, v ++ "'")) (sync_round shared_syncer "default/a") (mkWorld (Some app_up) (Some app_down))
    = Some (t, Done e, w') ∧ e = None ∧ in_sync shared_syncer w'.
Proof.
  destruct (sync_converges shared_syncer "default/a" (λ v, v ++ "'") (mkWorld (Some app_up) (Some app_down)))
    as (t & e & w' & Hr & He).
  { split; cbn; by intros ? [= <-]. }
  exists t, e, w'. split; [exact Hr|]. assert (e = None) as ->.
  { vm_compute in Hr. congruence. }
  split; [done|apply He].
Defined.

(** A recreated resource loses its status.  When the downstream object is
    missing, the CRD has a status subresource and no status subtree is
    configured, one round creates it and then overwrites the upstream status
    with an empty one: the status copied on creation is ignored by the API
    server, and the missing status of the new object flows back. *)
Theorem recreate_loses_status (s : crSyncer) (key : string) (next : string → string) (u : Unstructured) :
  plain u → statusIsSubresource s = true → s_subtree s = "" →
  ∃ t w' u', run (cluster true next) (sync_round s key) (mkWorld (Some u) None) = Some (t, Done None, w') ∧
    w_up w' = Some u' ∧ getStatus u' = JObj [].
Proof.
  intros Hu Hsub Htree. destruct (syncUpstream_create s key next u Hu) as [t1 Ht1].
  destruct (copySpec_created s u) as [_ Hpd]. set (d := created _ _) in *.
  assert (getStatus d = JNull) as Hd.
  { subst d. unfold created, newObject. rewrite Hsub. unfold getStatus, field. cbn. rewrite copySpec_eq. done. }
  destruct (syncDownstream_update s key next u d (setStatus JNull u) Hpd) as [t2 Ht2].
  { unfold copyStatus. by rewrite Htree, bool_decide_eq_true_2, Hd. }
  pose proof (go_round _ _ _ _ _ _ _ _ _ Ht1 Ht2) as Hr. rewrite Hsub in Hr.
  eexists _, _, _. split; [exact Hr|]. split; [reflexivity|].
  unfold statusWrite, stored_status. rewrite Hsub, getStatus_set. cbn.
  match goal with |- context [put next u ?x] => destruct (put_frame next u x) as (_ & -> & _) end.
  apply getStatus_set.
Qed.
Lemma recreate_loses_status_witness : ∃ t w' u',
  run (cluster true (λ v, v ++ "'")) (sync_round shared_syncer "default/a") (mkWorld (Some app_up) None)
    = Some (t, Done None, w') ∧ w_up w' = Some u' ∧ getStatus u' = JObj [] ∧ getStatus app_up = JString "ready".
Proof.
  destruct (recreate_loses_status shared_syncer "default/a" (λ v, v ++ "'") app_up) as (t & w' & u' & H); [done..|].
  exists t, w', u'. destruct H as (? & ? & ?). done.
Defined.

(** ** What the two directions write *)

Definition cached (h : list (event crop)) (c : side) (key : string) (o : option Unstructured) : Prop :=
  existT (GetByKey c key) (Ok o) ∈ h.
(** A write that the cluster [c] answered with [r]. *)
Definition wrote (h : list (event crop)) (c : side) (r : result Unstructured) : Prop :=
  ∃ u, existT (Create c u) r ∈ h ∨ existT (Update c u) r ∈ h ∨ existT (UpdateStatus c u) r ∈ h.
(** The removal of an old finalizer. *)
Definition finalizerRemoved (s : crSyncer) (h : list (event crop)) (c : side) (key : string) (u : Unstructured) : Prop :=
  ∃ u0, cached h c key (Some u0) ∧ clusterFinalizer (s_clusterName s) ∈ om_Finalizers (u_meta u0) ∧
    u = u_setMeta (om_setFinalizers (stringsDelete (om_Finalizers (u_meta u0)) (clusterFinalizer (s_clusterName s)))
          (u_meta u0)) u0.
(** The counter of consecutive conflicts on writes to [c]. *)
Definition counted (h : list (event crop)) (c : side) (n : Z) : Prop :=
  (n = 0%Z ∧ ∃ u, wrote h c (Ok u)) ∨
  (∃ m err, n = (m + 1)%Z ∧ existT ReadConflicts m ∈ h ∧ wrote h c (Err err) ∧ IsConflict err = true).
(** The spec side of [src]. *)
Definition carries (src u : Unstructured) : Prop :=
  om_Labels (u_meta u) = om_Labels (u_meta src) ∧ u_Annotations u = forwarded (u_Annotations src) ∧
  getSpec u = getSpec src.

Definition upstream_scope (s : crSyncer) (key : string) (h : list (event crop)) (o : crop) : Prop :=
  match o with
  | GetByKey _ k => k = key
  | Update Up u => finalizerRemoved s h Up key u
  | Create Down u => ∃ src, cached h Up key (Some src) ∧ cached h Down key None ∧
      om_DeletionTimestamp (u_meta src) = None ∧ carries src u ∧ getStatus u = getStatus src ∧
      u_Name u = u_Name src ∧ u_Namespace u = u_Namespace src ∧ u_Kind u = u_Kind src ∧
      u_APIVersion u = u_APIVersion src
  | Update Down u => ∃ src dst, cached h Up key (Some src) ∧ cached h Down key (Some dst) ∧
      om_DeletionTimestamp (u_meta src) = None ∧ carries src u ∧ getStatus u = getStatus dst ∧
      u_ResourceVersion u = u_ResourceVersion dst ∧ u_Name u = u_Name dst ∧ u_Namespace u = u_Namespace dst
  | Delete Down name =>
      (cached h Up key None ∧ ∃ dst, cached h Down key (Some dst) ∧ name = u_Name dst) ∨
      (∃ src ts, cached h Up key (Some src) ∧ om_DeletionTimestamp (u_meta src) = Some ts ∧ name = u_Name src)
  | ReadConflicts => s_clusterName s = cloudClusterName
  | SetConflicts n => s_clusterName s = cloudClusterName ∧ counted h Down n
  | _ => False
  end.
Definition downstream_scope (s : crSyncer) (key : string) (h : list (event crop)) (o : crop) : Prop :=
  let status_write u := ∃ src dst dst', cached h Down key (Some src) ∧ cached h Up key (Some dst) ∧
    copyStatus s src dst = Ok dst' ∧ getStatus u = stored_status s (getStatus dst') ∧ getSpec u = getSpec dst ∧
    u_meta u = om_setAnnotations (sm_set (u_Annotations dst) annotationResourceVersion (u_ResourceVersion src)) (u_meta dst)
  in
  match o with
  | GetByKey _ k => k = key
  | QueueAdd Up k => k = key ∧ cached h Down key None
  | Update Down u => finalizerRemoved s h Down key u
  | Delete Down name => cached h Up key None ∧ ∃ src, cached h Down key (Some src) ∧ name = u_Name src ∧
      om_DeletionTimestamp (u_meta src) = None
  | UpdateStatus Up u => statusIsSubresource s = true ∧ status_write u
  | Update Up u => statusIsSubresource s = false ∧ status_write u
  | ReadConflicts => s_clusterName s ≠ cloudClusterName
  | SetConflicts n => s_clusterName s ≠ cloudClusterName ∧ counted h Up n
  | _ => False
  end.

Section confined.
Context (s : crSyncer) (key : string).
Abbreviation hw G := (hwp (@any_answer crop _) G no_panic).
Ltac in_hist := unfold cached, wrote; repeat (rewrite elem_of_app || rewrite elem_of_cons);
  intuition (auto; try done).

Lemma hwp_removeFinalizer G h c u0 Φ :
  cached h c key (Some u0) →
  (∀ h u, finalizerRemoved s h c key u → G h (Update c u)) →
  (∀ h' l, h `prefix_of` h' → Φ h' (u_setMeta (om_setFinalizers l (u_meta u0)) u0)) →
  hw G h (removeFinalizer c u0 (s_clusterName s)) Φ.
Proof.
  intros Hc HG HΦ. unfold removeFinalizer. destruct (stringsContain _ _) eqn:Hf; cbn.
  - split.
    + apply HG. exists u0. split; [done|]. split; [|done]. by apply stringsContain_iff.
    + intros r _. apply HΦ. by eexists.
  - replace u0 with (u_setMeta (om_setFinalizers (om_Finalizers (u_meta u0)) (u_meta u0)) u0) at 1;
      [by apply HΦ|]. by destruct u0 as [? ? ? [] ?].
Qed.
Lemma cached_prefix h h' c o : h `prefix_of` h' → cached h c key o → cached h' c key o.
Proof. intros [k ->]. unfold cached. rewrite elem_of_app. auto. Qed.
Lemma cached_app h k c o : cached h c key o → cached (h ++ k) c key o.
Proof. apply cached_prefix. by exists k. Qed.
Lemma cached_last h c o : cached (h ++ [existT (GetByKey c key) (Ok o)]) c key o.
Proof. apply elem_of_app. right. by left. Qed.
Lemma hwp_conflicts (G : list (event crop) → crop → Prop) h counts c err Φ :
  wrote h c (Err err) →
  (∀ h, counts = true → G h ReadConflicts) → (∀ h n, counts = true → counted h c n → G h (SetConflicts n)) →
  (∀ h, Φ h tt) → hw G h (countConflict counts err) Φ.
Proof.
  intros Hw HR HS HΦ. unfold countConflict. destruct (IsConflict err) eqn:Hc, counts; cbn; auto.
  split; [auto|]. intros n _. split; [|intros [] _; apply HΦ]. apply HS; [done|]. right. exists n, err.
  split_and!; [done|by apply elem_of_app; right; left| |done].
  destruct Hw as (u & Hw). exists u. rewrite !elem_of_app. tauto.
Qed.
Lemma hwp_reset (G : list (event crop) → crop → Prop) h (counts : bool) c u Φ :
  wrote h c (Ok u) → (∀ h n, counts = true → counted h c n → G h (SetConflicts n)) →
  (∀ h, Φ h tt) → hw G h (resetConflicts counts) Φ.
Proof.
  intros Hw HS HΦ. destruct counts; cbn; [|apply HΦ]. split; [|intros [] _; apply HΦ].
  apply HS; [done|]. left. eauto.
Qed.

Lemma hwp_deleteDownstream (G : list (event crop) → crop → Prop) h name dst Φ :
  G h (Delete Down name) → (∀ h e, Φ h e) → hw G h (deleteDownstream name dst) Φ.
Proof.
  intros HG HΦ. unfold deleteDownstream. cbn. split; [done|]. intros [err|] _; [|apply HΦ].
  by case_match; apply HΦ.
Qed.
Lemma carries_copySpec src f dst :
  om_Labels (u_meta (f src)) = om_Labels (u_meta src) → u_Annotations (f src) = u_Annotations src →
  u_body (f src) = u_body src → carries src (copySpec (f src) dst) ∧ getStatus (copySpec (f src) dst) = getStatus dst ∧
    u_ResourceVersion (copySpec (f src) dst) = u_ResourceVersion dst ∧
    u_Name (copySpec (f src) dst) = u_Name dst ∧ u_Namespace (copySpec (f src) dst) = u_Namespace dst.
Proof.
  intros Hl Ha Hb. rewrite copySpec_eq. unfold carries, u_Annotations, getSpec, getStatus in *. cbn.
  rewrite Hl, Ha, Hb, field_set_eq, field_set_ne by done.
  by destruct dst as [? ? ? [] ?].
Qed.
Lemma carries_newObject src src' o : carries src o → carries src (newObject src' o).
Proof.
  unfold carries, newObject. intros (<- & <- & <-). split_and!; rewrite ?getSpec_setStatus; by destruct o as [? ? ? [] ?].
Qed.
End confined.

Section directions.
Context (s : crSyncer) (key : string).
Abbreviation hw G := (hwp (@any_answer crop _) G no_panic).

Lemma hwp_syncUpstream h : hw (upstream_scope s key) h (syncUpstream s key) (λ _ _, True).
Proof.
  unfold syncUpstream. cbn [prog_bind call hwp]. split; [done|]. intros [src|err] _; [|done].
  set (h1 := (h ++ _)%list). assert (cached h1 Up key src) as Hsrc by apply cached_last.
  clearbody h1. destruct src as [src|]; cycle 1.
  { cbn [prog_bind call hwp]. split; [done|]. intros [[dst|]|err] _; [|done|done].
    apply hwp_deleteDownstream; [|done]. left. split; [by apply cached_app|].
    exists dst. split; [apply cached_last|done]. }
  cbn [prog_bind]. apply hwp_bind, hwp_bind. eapply hwp_removeFinalizer; [done|by intros; cbn|].
  intros h2 fin Hpre. pose proof (cached_prefix _ _ _ _ _ Hpre Hsrc) as Hsrc2. clear Hpre Hsrc h1 h.
  set (src' := u_setMeta _ src). cbn [prog_bind call hwp]. split; [done|]. intros [dst|err] _; [|done].
  set (h3 := (h2 ++ _)%list). assert (cached h3 Down key dst) as Hdst by apply cached_last.
  assert (cached h3 Up key (Some src)) as Hsrc by by apply cached_app.
  clearbody h3. clear h2 Hsrc2.
  assert (om_DeletionTimestamp (u_meta src') = om_DeletionTimestamp (u_meta src)) as Hd by (by destruct src as [? ? ? [] ?]).
  rewrite Hd. destruct (om_DeletionTimestamp (u_meta src)) eqn:Hts.
  { apply hwp_deleteDownstream; [|done]. right. exists src. eexists. split_and!; [done|done|]. by destruct src as [? ? ? [] ?]. }
  pose proof (carries_copySpec src (λ u, u_setMeta (om_setFinalizers fin (u_meta u)) u) (default emptyObject dst)) as Hcar.
  cbn beta in Hcar. fold src' in Hcar.
  destruct Hcar as (Hcar & Hst & Hrv & Hn & Hns); [by destruct src as [? ? ? [] ?]..|].
  destruct dst as [dst|]; cbn [is_some default] in *; cbn [prog_bind call hwp].
  - split; [by exists src, dst|]. intros [u|err] _; apply hwp_bind.
    + eapply (hwp_reset _ _ _ Down u); [eexists; right; left; apply elem_of_app; right; by left| |done].
      intros h' n Hc. rewrite bool_decide_eq_true in Hc. done.
    + eapply (hwp_conflicts _ _ _ Down err); [eexists; right; left; apply elem_of_app; right; by left| | |done];
        intros h'; [|intros n]; intros Hc; rewrite bool_decide_eq_true in Hc; done.
  - split.
    { exists src. split_and!; try done; try by destruct src as [? ? ? [] ?].
      - by apply carries_newObject.
      - apply getStatus_set.
      - by destruct src as [? ? ? [] ?], (copySpec src' emptyObject) as [? ? ? [] ?].
      - by destruct src as [? ? ? [] ?], (copySpec src' emptyObject) as [? ? ? [] ?]. }
    intros [u|err] _; apply hwp_bind.
    + eapply (hwp_reset _ _ _ Down u); [eexists; left; apply elem_of_app; right; by left| |done].
      intros h' n Hc. rewrite bool_decide_eq_true in Hc. done.
    + eapply (hwp_conflicts _ _ _ Down err); [eexists; left; apply elem_of_app; right; by left| | |done];
        intros h'; [|intros n]; intros Hc; rewrite bool_decide_eq_true in Hc; done.
Qed.
Lemma hwp_storeStatus h src dst dst' (G := downstream_scope s key) :
  cached h Down key (Some src) → cached h Up key (Some dst) → copyStatus s src dst = Ok dst' →
  hw G h (storeStatus s (setAnnotation dst' annotationResourceVersion (u_ResourceVersion src))) (λ _ _, True).
Proof.
  intros Hsrc Hdst Hc. set (rv := u_ResourceVersion src).
  assert (u_meta (setAnnotation dst' annotationResourceVersion rv) =
    om_setAnnotations (sm_set (u_Annotations dst) annotationResourceVersion rv) (u_meta dst) ∧
    getSpec (setAnnotation dst' annotationResourceVersion rv) = getSpec dst) as [Hm Hs].
  { unfold setAnnotation, u_setAnnotations, u_Annotations.
    destruct (copyStatus_frame _ _ _ _ Hc) as [(-> & <- & _)| ->]; done. }
  unfold storeStatus. destruct (statusIsSubresource s) eqn:Hsub; cbn [prog_bind call hwp].
  - set (u := match getStatus _ with JNull => _ | _ => _ end).
    assert (u_meta u = u_meta (setAnnotation dst' annotationResourceVersion rv) ∧
      getSpec u = getSpec (setAnnotation dst' annotationResourceVersion rv) ∧ getStatus u = nonNull (getStatus dst')) as (Hmu & Hsu & Hst).
    { subst u. change (getStatus (setAnnotation dst' annotationResourceVersion rv)) with (getStatus dst').
      destruct (getStatus dst') eqn:Hg; rewrite ?getStatus_set, ?getSpec_setStatus; done. }
    clearbody u. rewrite Hm in Hmu. rewrite Hs in Hsu.
    split; [split; [done|]; exists src, dst, dst'; unfold stored_status; rewrite Hsub; done|].
    intros [x|err] _; apply hwp_bind.
    + eapply (hwp_reset _ _ _ Up x); [eexists; right; right; apply elem_of_app; right; by left| |done].
      intros h' n Hn. rewrite negb_true_iff, bool_decide_eq_false in Hn. done.
    + eapply (hwp_conflicts _ _ _ Up err); [eexists; right; right; apply elem_of_app; right; by left| | |done];
        intros h'; [|intros n]; intros Hn; rewrite negb_true_iff, bool_decide_eq_false in Hn; done.
  - split; [split; [done|]; exists src, dst, dst'; unfold stored_status; rewrite Hsub; done|].
    intros [x|err] _; apply hwp_bind.
    + eapply (hwp_reset _ _ _ Up x); [eexists; right; left; apply elem_of_app; right; by left| |done].
      intros h' n Hn. rewrite negb_true_iff, bool_decide_eq_false in Hn. done.
    + eapply (hwp_conflicts _ _ _ Up err); [eexists; right; left; apply elem_of_app; right; by left| | |done];
        intros h'; [|intros n]; intros Hn; rewrite negb_true_iff, bool_decide_eq_false in Hn; done.
Qed.

Lemma hwp_syncDownstream h : hw (downstream_scope s key) h (syncDownstream s key) (λ _ _, True).
Proof.
  unfold syncDownstream. cbn [prog_bind call hwp]. split; [done|]. intros [[src|]|err] _; [| |done]; cycle 1.
  { cbn [prog_bind call hwp]. split; [|done]. split; [done|apply cached_last]. }
  set (h1 := (h ++ _)%list). assert (cached h1 Down key (Some src)) as Hsrc by apply cached_last.
  clearbody h1. apply hwp_bind. eapply hwp_removeFinalizer; [done|by intros; cbn|].
  intros h2 fin Hpre. pose proof (cached_prefix _ _ _ _ _ Hpre Hsrc) as Hsrc2. clear Hpre Hsrc h1 h.
  set (src' := u_setMeta _ src). cbn [prog_bind call hwp]. split; [done|]. intros [dst|err] _; [|done].
  set (h3 := (h2 ++ _)%list). assert (cached h3 Up key dst) as Hdst by apply cached_last.
  assert (cached h3 Down key (Some src)) as Hsrc by by apply cached_app.
  clearbody h3. clear h2 Hsrc2. destruct dst as [dst|]; cycle 1.
  { unfold deleteOrphan.
    assert (om_DeletionTimestamp (u_meta src') = om_DeletionTimestamp (u_meta src)) as -> by (by destruct src as [? ? ? [] ?]).
    destruct (om_DeletionTimestamp (u_meta src)) eqn:Hts; [done|]. cbn [prog_bind call hwp]. split.
    - split; [done|]. exists src. split_and!; [done| |done]. by destruct src as [? ? ? [] ?].
    - intros [err|] _; [by case_match|done]. }
  change (copyStatus s src' dst) with (copyStatus s (u_setMeta (u_meta src') src) dst).
  assert (copyStatus s (u_setMeta (u_meta src') src) dst = copyStatus s src dst) as -> by (by destruct src as [? ? ? [] ?]).
  destruct (copyStatus s src dst) as [dst'|err] eqn:Hc; [|done].
  assert (u_ResourceVersion src' = u_ResourceVersion src) as -> by (by destruct src as [? ? ? [] ?]).
  by eapply hwp_storeStatus.
Qed.
End directions.

Lemma answers_any {Op : Type} `{Effect Op} (t : list (event Op)) : answers any_answer t.
Proof. induction t; cbn; [done|]. by split. Qed.

(** C20: [syncUpstream] is confined.  In every execution it ends normally, and
    whatever the answers, each call is in its scope given the calls before
    it: it creates or updates the downstream object only from an upstream
    object it read that is not being deleted, with exactly its labels, spec
    and annotations (but the recorded version), and otherwise the fields of
    the object it replaces; it deletes downstream only when the upstream
    object is gone or being deleted; upstream it only drops its old finalizer;
    and it counts conflicts only when it writes to the cloud. *)
Theorem syncUpstream_confined (s : crSyncer) (key : string) t out :
  exec (syncUpstream s key) t out →
  (∀ pre e post, t = (pre ++ e :: post)%list → upstream_scope s key pre (projT1 e)) ∧ ∃ err, out = Done err.
Proof.
  intros HE. destruct (hwp_exec _ _ _ [] _ _ _ _ (hwp_syncUpstream s key []) HE (answers_any t)) as [HG Hout].
  split; [exact HG|]. destruct out; [by eexists|done].
Qed.

(** [syncDownstream] is confined.  It never panics, and each call is in its
    scope: upstream it writes only the status computed from the two objects
    read and the annotation with the downstream version, through the status
    subresource exactly when the CRD has one, keeping spec, labels and the
    version it read; it deletes downstream only an object not already being
    deleted whose upstream object is gone; a missing downstream object is
    queued for [syncUpstream]. *)
Theorem syncDownstream_confined (s : crSyncer) (key : string) t out :
  exec (syncDownstream s key) t out →
  (∀ pre e post, t = (pre ++ e :: post)%list → downstream_scope s key pre (projT1 e)) ∧ ∃ err, out = Done err.
Proof.
  intros HE. destruct (hwp_exec _ _ _ [] _ _ _ _ (hwp_syncDownstream s key []) HE (answers_any t)) as [HG Hout].
  split; [exact HG|]. destruct out; [by eexists|done].
Qed.

Example shared_cluster := cluster true (λ v, v ++ "'").
Example shared_world := mkWorld (Some app_up) (Some app_down).
Lemma syncUpstream_confined_witness : ∃ t out, exec (syncUpstream shared_syncer "default/a") t out ∧
  (length t = 3)%nat ∧ ∀ pre e post, t = (pre ++ e :: post)%list → upstream_scope shared_syncer "default/a" pre (projT1 e).
Proof.
  destruct (run_exec_some shared_cluster (syncUpstream shared_syncer "default/a") shared_world) as (out & _ & HE);
    [by vm_compute|].
  eexists _, out. split; [exact HE|]. split; [by vm_compute|].
  by apply (syncUpstream_confined shared_syncer "default/a" _ out).
Defined.
Lemma syncDownstream_confined_witness : ∃ t out, exec (syncDownstream shared_syncer "default/a") t out ∧
  (length t = 4)%nat ∧ ∀ pre e post, t = (pre ++ e :: post)%list → downstream_scope shared_syncer "default/a" pre (projT1 e).
Proof.
  destruct (run_exec_some shared_cluster (syncDownstream shared_syncer "default/a") shared_world) as (out & _ & HE);
    [by vm_compute|].
  eexists _, out. split; [exact HE|]. split; [by vm_compute|].
  by apply (syncDownstream_confined shared_syncer "default/a" _ out).
Defined.

(** ** The work queues *)

(** The calls that take and settle items, and the restart of informers. *)
Definition queueCall (o : crop) : bool :=
  match o with AddRateLimited _ _ | Forget _ _ | QueueDone _ _ | QueueGet _ => true | _ => false end.
Definition restarts (o : crop) : bool := match o with NewInformer _ => true | _ => false end.
Definition queueCalls (t : list (event crop)) : list crop := filter (λ o, queueCall o = true) (projT1 <$> t).
Definition restarted (t : list (event crop)) : bool := existsb (λ e, restarts (projT1 e)) t.

Lemma queueCalls_app t1 t2 : queueCalls (t1 ++ t2) = (queueCalls t1 ++ queueCalls t2)%list.
Proof. unfold queueCalls. by rewrite fmap_app, filter_app. Qed.
Lemma queueCalls_none t : calls (λ o, queueCall o = false) t → queueCalls t = [].
Proof.
  induction t as [|e t IH]; [done|]. intros [He Ht]. unfold queueCalls in *. cbn in *.
  rewrite decide_False by (rewrite He; done). by apply IH.
Qed.
Lemma restarted_app t1 t2 : restarted (t1 ++ t2) = restarted t1 || restarted t2.
Proof. apply existsb_app. Qed.
Lemma restarted_none t : calls (λ o, restarts o = false) t → restarted t = false.
Proof. induction t as [|e t IH]; [done|]. intros [He Ht]. cbn. rewrite He. by apply IH. Qed.

Definition syncOf (s : crSyncer) (q : side) : string → prog crop (option error) :=
  match q with Up => syncUpstream s | Down => syncDownstream s end.
(** A synchronisation settles no item and leaves the informers alone. *)
Lemma exec_syncOf s q key t out : exec (syncOf s q key) t out →
  queueCalls t = [] ∧ restarted t = false ∧ ∃ e, out = Done e.
Proof.
  intros HE. assert ((∀ e, e ∈ t → queueCall (projT1 e) = false ∧ restarts (projT1 e) = false) ∧ ∃ e, out = Done e)
    as [Hs Hout].
  { destruct q; cbn [syncOf] in HE.
    - destruct (hwp_exec _ _ _ [] _ _ _ _ (hwp_syncUpstream s key []) HE (answers_any t)) as [HG Hout].
      split; [|destruct out; [by eexists|done]]. intros e (pre & post & ->)%list_elem_of_split.
      specialize (HG pre e post eq_refl). cbn in HG. by destruct (projT1 e); cbn in *.
    - destruct (hwp_exec _ _ _ [] _ _ _ _ (hwp_syncDownstream s key []) HE (answers_any t)) as [HG Hout].
      split; [|destruct out; [by eexists|done]]. intros e (pre & post & ->)%list_elem_of_split.
      specialize (HG pre e post eq_refl). cbn in HG. by destruct (projT1 e); cbn in *. }
  clear HE. split_and!; [| |done].
  - apply queueCalls_none. induction t; cbn; [done|]. split; [apply Hs; by left|]. apply IHt. intros. apply Hs. by right.
  - apply restarted_none. induction t; cbn; [done|]. split; [apply Hs; by left|]. apply IHt. intros. apply Hs. by right.
Qed.
Lemma exec_restartInformers s t out : exec (restartInformers s) t out →
  queueCalls t = [] ∧ restarted t = true ∧ ∃ e, out = Done e.
Proof.
  intros HE.
  assert (calls (λ o, queueCall o = false) t ∧ match out with Done _ => True | Panicked m => no_panic m end) as [Hc Hout].
  { eapply (wp_exec_any _ _ _ (λ _, True)); [|exact HE]. unfold restartInformers, stopInformers, startInformers.
    cbn. repeat (split; [done|]; intros []; cbn). all: repeat (split; [done|]; intros []; cbn); done. }
  split_and!; [by apply queueCalls_none| |destruct out; [by eexists|done]].
  unfold restartInformers, stopInformers in HE. cbn in HE. destruct HE as (b & t1 & -> & HE).
  destruct b; cbn in HE.
  - destruct HE as (x & t2 & -> & x' & t3 & -> & y & t4 & -> & HE). done.
  - destruct HE as (y & t3 & -> & HE). done.
Qed.

(** How an item is settled. *)
Definition settle (q : side) (key : string) (e : option error) : crop :=
  match e with None => Forget q key | Some _ => AddRateLimited q key end.
Lemma exec_syncItem s q key t out : exec (syncItem q key (syncOf s q)) t out →
  ∃ e t1 r, out = Done tt ∧ exec (syncOf s q key) t1 (Done e) ∧ t = (t1 ++ [existT (settle q key e) r])%list ∧
    queueCalls t = [settle q key e] ∧ restarted t = false.
Proof.
  unfold syncItem. intros HE.
  apply exec_bind in HE as [(m & HE & ->)|(t1 & t2 & e & -> & HE & HE2)].
  { apply exec_syncOf in HE as (_ & _ & e & ?). done. }
  destruct (exec_syncOf _ _ _ _ _ HE) as (Hq & Hr & _). exists e, t1.
  rewrite queueCalls_app, restarted_app, Hq, Hr.
  destruct e as [err|]; cbn in HE2; destruct HE2 as ([] & t3 & -> & -> & ->); exists tt; done.
Qed.

(** Synchronising and marking done, after the calls [t0]. *)
Lemma exec_sync_done s q key t0 t2 (restart : bool) out :
  queueCalls t0 = [] → restarted t0 = restart →
  exec (prog_bind (λ _, let! _ := call (QueueDone q key) in Ret true) (syncItem q key (syncOf s q))) t2 out →
  ∃ e t3, out = Done true ∧ queueCalls (t0 ++ t2) = [settle q key e; QueueDone q key] ∧
    (e = None → ∃ pre post, (t0 ++ t2)%list = (pre ++ t3 ++ post)%list ∧ exec (syncOf s q key) t3 (Done None)) ∧
    restarted (t0 ++ t2) = restart.
Proof.
  intros Hq Hr HE.
  apply exec_bind in HE as [(m & HE & ->)|(t3 & t4 & [] & -> & HE & HE2)].
  { apply exec_syncItem in HE as (? & ? & ? & ? & _). done. }
  apply exec_syncItem in HE as (e & t5 & r & _ & HE & Ht3 & Hq3 & Hr3).
  cbn in HE2. destruct HE2 as ([] & t6 & -> & -> & ->). exists e, t5.
  rewrite !queueCalls_app, !restarted_app, Hq, Hq3, Hr, Hr3. split_and!; [done|done| |by rewrite orb_false_r].
  intros ->. exists t0, ([existT (settle q key None) r] ++ [existT (QueueDone q key) tt])%list.
  split; [|done]. subst t3. by rewrite <-!(assoc_L (++)).
Qed.

(** C21: No item is lost.  Either the queue was shut down and the loop ends, or
    the key taken is settled exactly once before it is marked done, and the
    loop goes on: it is forgotten only after a synchronisation of it without
    error, and otherwise queued again.  The informers are restarted exactly
    when the counter of conflicts has reached the limit. *)
Theorem item_settled (s : crSyncer) (conflictErrorLimit : Z) (q : side) t out :
  exec (processNextWorkItem s conflictErrorLimit q (syncOf s q)) t out →
  (out = Done false ∧ t = [existT (QueueGet q) None]) ∨
  (∃ key n e t1, out = Done true ∧ t = existT (QueueGet q) (Some key) :: existT ReadConflicts n :: t1 ∧
    queueCalls t = [QueueGet q; settle q key e; QueueDone q key] ∧
    (e = None → ∃ pre t2 post, t1 = (pre ++ t2 ++ post)%list ∧ exec (syncOf s q key) t2 (Done None)) ∧
    restarted t = (conflictErrorLimit <=? n)%Z).
Proof.
  intros HE. unfold processNextWorkItem in HE. cbn [exec prog_bind call] in HE.
  destruct HE as ([key|] & t0 & -> & HE); [right|left; by destruct HE as [-> ->]].
  cbn [exec prog_bind call] in HE. destruct HE as (n & t1 & -> & HE).
  destruct (conflictErrorLimit <=? n)%Z eqn:Hn; cbn [prog_bind] in HE.
  - apply exec_bind in HE as [(m & HE & ->)|(t2 & t3 & b & -> & HE & HE2)].
    { apply exec_bind in HE as [(m' & HE & [= ->])|(t2 & t3 & e & -> & HE & HE2)].
      { apply exec_restartInformers in HE as (_ & _ & e & ?). done. }
      destruct e; cbn in HE2; by destruct HE2 as ([] & t4 & -> & _ & [=]). }
    apply exec_bind in HE as [(m & HE & [=])|(t4 & t5 & r & -> & HE & HE3)].
    destruct (exec_restartInformers _ _ _ HE) as (Hq & Hr & _). destruct r as [err|]; cbn in HE3.
    + destruct HE3 as ([] & t6 & -> & -> & [= ->]). cbn in HE2. destruct HE2 as ([] & t6 & -> & -> & ->).
      exists key, n, (Some err), (t4 ++ [existT (AddRateLimited q key) tt] ++ [existT (QueueDone q key) tt])%list.
      split_and!; [done|by rewrite (assoc_L (++))| |done|].
      * change (queueCalls ([existT (QueueGet q) (Some key)] ++ [existT ReadConflicts n] ++
          ((t4 ++ [existT (AddRateLimited q key) tt]) ++ [existT (QueueDone q key) tt])) =
          [QueueGet q; AddRateLimited q key; QueueDone q key]).
        by rewrite !queueCalls_app, Hq.
      * cbn. by rewrite !restarted_app, Hr.
    + destruct HE3 as ([] & t6 & -> & -> & [= ->]).
      destruct (exec_sync_done s q key (t4 ++ [existT (SetConflicts 0) tt])%list t3 true out)
        as (e & t5 & -> & Hqs & Hok & Hrs); [by rewrite queueCalls_app, Hq|by rewrite restarted_app, Hr|done|].
      exists key, n, e, ((t4 ++ [existT (SetConflicts 0) tt]) ++ t3)%list. split_and!; [done|done| | |].
      * change (queueCalls ([existT (QueueGet q) (Some key)] ++ [existT ReadConflicts n] ++
          ((t4 ++ [existT (SetConflicts 0) tt]) ++ t3)) = [QueueGet q; settle q key e; QueueDone q key]).
        rewrite queueCalls_app, queueCalls_app, Hqs. done.
      * intros He. destruct (Hok He) as (pre & post & Heq & Hex). by exists pre, t5, post.
      * by rewrite Hn.
  - destruct (exec_sync_done s q key [] t1 false out) as (e & t5 & -> & Hqs & Hok & Hrs); [done..|exact HE|].
    exists key, n, e, t1. split_and!; [done|done| | |].
    + change (queueCalls ([existT (QueueGet q) (Some key)] ++ [existT ReadConflicts n] ++ t1) =
        [QueueGet q; settle q key e; QueueDone q key]).
      rewrite queueCalls_app, queueCalls_app. change ([] ++ t1)%list with t1 in Hqs. by rewrite Hqs.
    + intros He. destruct (Hok He) as (pre & post & Heq & Hex). by exists pre, t5, post.
    + by rewrite Hn.
Qed.

Example busy_cluster (o : crop) (w : world) : option (resp o * world) :=
  match o with
  | QueueGet _ => Some (Some "default/a", w)
  | ReadConflicts => Some (5%Z, w)
  | ReadInfDone => Some (false, w)
  | o => shared_cluster o w
  end.
Lemma item_settled_witness : ∃ t out,
  exec (processNextWorkItem shared_syncer 5 Up (syncOf shared_syncer Up)) t out ∧ out = Done true ∧
  ∃ key e, queueCalls t = [QueueGet Up; settle Up key e; QueueDone Up key] ∧ restarted t = true.
Proof.
  destruct (run_exec_some busy_cluster (processNextWorkItem shared_syncer 5 Up (syncOf shared_syncer Up)) shared_world)
    as (out & Hout & HE); [by vm_compute|].
  assert (out = Done true) as Ho. { vm_compute in Hout. congruence. }
  eexists _, out. split; [exact HE|]. split; [exact Ho|].
  destruct (item_settled shared_syncer 5 Up _ out HE) as [[Hf _]|(key & n & e & t1 & _ & Ht & Hq & _ & Hr)].
  { congruence. }
  exists key, e. split; [exact Hq|]. by vm_compute.
Defined.

(** ** Creating syncers *)

Lemma storageIndex_spec l ix k : storageIndex l k = Some ix ↔
  ∃ v j, l !! j = Some v ∧ ix = (k + j)%nat ∧ cv_Storage v = true ∧
    ∀ i w, (i < j)%nat → l !! i = Some w → cv_Storage w = false.
Proof.
  revert k. induction l as [|x l IH]; intros k; cbn.
  { split; [done|]. intros (? & ? & ? & _). done. }
  destruct (cv_Storage x) eqn:Hx.
  - split.
    + intros [= <-]. exists x, 0%nat. split_and!; [done|lia|done|]. lia.
    + intros (v & [|j] & Hl & -> & Hv & Hi); [f_equal; lia|].
      specialize (Hi 0%nat x ltac:(lia) eq_refl). congruence.
  - rewrite IH. split.
    + intros (v & j & Hl & -> & Hv & Hi). exists v, (S j). split_and!; [done|lia|done|].
      intros [|i] w Hij Hw; [by injection Hw as ->|]. apply (Hi i); [lia|done].
    + intros (v & [|j] & Hl & -> & Hv & Hi); [injection Hl as ->; congruence|].
      exists v, j. split_and!; [done|lia|done|]. intros i w Hij Hw. apply (Hi (S i)); [lia|done].
Qed.

Lemma storageIndex_none l k : storageIndex l k = None → ∀ v, v ∈ l → cv_Storage v = false.
Proof.
  revert k. induction l as [|x l IH]; intros k; cbn; [by intros _ v ?%elem_of_nil|].
  destruct (cv_Storage x) eqn:Hx; [done|]. intros Hk v [->|Hv]%elem_of_cons; [done|by eapply IH].
Qed.

(** The limiter of the queue whose items lead to writes to the cluster [c]. *)
Definition limiterTo (s : crSyncer) (remote : bool) : list rateLimiter :=
  (if Bool.eqb (cl_remote (s_downstream s)) remote then [s_upstreamLimiter s] else []) ++
  (if Bool.eqb (cl_remote (s_upstream s)) remote then [s_downstreamLimiter s] else []).

(** A syncer is created exactly for a CRD with a storage version and a
    known spec source.  It uses the first storage version and connects the two
    clusters with each other; the spec source is the upstream; the queue whose
    items are written to the cloud has the limiter for unreliable networks,
    the other the default one; conflicts are counted for writes to the cloud;
    objects are filtered by robot exactly when that was asked for and the
    robot has a name. *)
Theorem newCRSyncer_spec (namespace : string) (crd : CRD) (robotName : string) :
  match newCRSyncer namespace crd robotName with
  | Ok s =>
      s_crd s = crd ∧
      (∃ v, crd_Versions crd !! s_versionIx s = Some v ∧ cv_Storage v = true ∧
        ∀ i w, (i < s_versionIx s)%nat → crd_Versions crd !! i = Some w → cv_Storage w = false) ∧
      cl_remote (s_upstream s) = bool_decide (sm_get (crd_Annotations crd) annotationSpecSource = "cloud") ∧
      cl_remote (s_downstream s) = negb (cl_remote (s_upstream s)) ∧
      cl_resource (s_upstream s) = cl_resource (s_downstream s) ∧
      cl_namespace (s_upstream s) = cl_namespace (s_downstream s) ∧
      limiterTo s true = [ItemFastSlowRateLimiter] ∧ limiterTo s false = [DefaultControllerRateLimiter] ∧
      (bool_decide (s_clusterName s = cloudClusterName) = cl_remote (s_downstream s)) ∧
      (s_labelSelector s ≠ "" ↔ robotName ≠ "" ∧
        ParseBool (sm_get (crd_Annotations crd) annotationFilterByRobotName) = Some true)
  | Err _ =>
      (∀ v, v ∈ crd_Versions crd → cv_Storage v = false) ∨
      sm_get (crd_Annotations crd) annotationSpecSource ∉ ["robot"; "cloud"]
  end.
Proof.
  unfold newCRSyncer, getStorageVersionIndex. destruct (storageIndex (crd_Versions crd) 0) as [ix|] eqn:Hix; cycle 1.
  { left. by eapply storageIndex_none. }
  apply storageIndex_spec in Hix as (v & j & Hv & -> & Hs & Hi). cbn [Nat.add]. rewrite Hv.
  set (src := sm_get (crd_Annotations crd) annotationSpecSource).
  assert (∀ f, (if f && negb (bool_decide (robotName = "")) then labelRobotName ++ "=" ++ robotName else "") ≠ "" ↔
    robotName ≠ "" ∧ f = true) as Hsel.
  { intros f. destruct f; cbn; [|naive_solver]. case_bool_decide; cbn; naive_solver. }
  assert ((if negb (bool_decide (sm_get (crd_Annotations crd) annotationFilterByRobotName = ""))
     then default false (ParseBool (sm_get (crd_Annotations crd) annotationFilterByRobotName)) else false) = true ↔
    ParseBool (sm_get (crd_Annotations crd) annotationFilterByRobotName) = Some true) as Hf.
  { destruct (decide (sm_get (crd_Annotations crd) annotationFilterByRobotName = "")) as [He|He].
    - rewrite bool_decide_eq_true_2 by done. cbn. by rewrite He.
    - rewrite bool_decide_eq_false_2 by done. cbn. by destruct (ParseBool _) as [[]|]. }
  destruct (decide (src = "robot")) as [Hr|Hr].
  - rewrite (bool_decide_eq_true_2 (src = "robot")) by done. cbn. rewrite Hsel, Hf, Hr.
    split_and!; try done; try tauto. by exists v.
  - rewrite (bool_decide_eq_false_2 (src = "robot")) by done. destruct (decide (src = "cloud")) as [Hc|Hc].
    + rewrite (bool_decide_eq_true_2 (src = "cloud")) by done. cbn. rewrite Hsel, Hf.
      split_and!; try done; try tauto. by exists v.
    + rewrite (bool_decide_eq_false_2 (src = "cloud")) by done. right. rewrite !elem_of_cons, elem_of_nil. tauto.
Qed.

(** ** The set of syncers *)

#[export] Instance CRDVersion_eq_dec : EqDecision CRDVersion.
Proof. solve_decision. Defined.
#[export] Instance CRD_eq_dec : EqDecision CRD.
Proof. solve_decision. Defined.
#[export] Instance client_eq_dec : EqDecision client.
Proof. solve_decision. Defined.
#[export] Instance rateLimiter_eq_dec : EqDecision rateLimiter.
Proof. solve_decision. Defined.
#[export] Instance crSyncer_eq_dec : EqDecision crSyncer.
Proof. solve_decision. Defined.

(** Replaying the log of what was stopped and started: a syncer is started for
    a CRD only when none runs for it, and stopped only when it runs. *)
Fixpoint replay (log : list effect) (running : gmap string crSyncer) : option (gmap string crSyncer) :=
  match log with
  | [] => Some running
  | Run s :: log =>
      match running !! crd_Name (s_crd s) with
      | Some _ => None
      | None => replay log (<[crd_Name (s_crd s) := s]> running)
      end
  | Stop s :: log =>
      match running !! crd_Name (s_crd s) with
      | Some s' => if bool_decide (s = s') then replay log (base.delete (crd_Name (s_crd s)) running) else None
      | None => None
      end
  end.
Lemma log_replay_app l1 l2 m : replay (l1 ++ l2) m = (replay l1 m ≫= replay l2).
Proof.
  revert m. induction l1 as [|[s|s] l1 IH]; intros m; cbn; [done|..]; repeat case_match; auto.
Qed.
Lemma newCRSyncer_crd ns crd robot s : newCRSyncer ns crd robot = Ok s → s_crd s = crd.
Proof. unfold newCRSyncer. repeat case_match; by intros [= <-]. Qed.

(** What the last change of a CRD asks for. *)
Definition wanted (namespace robotName : string) (changes : list CrdChange) (name : string) : option crSyncer :=
  match last (filter (λ c, crd_Name (ch_CRD c) = name) changes) with
  | Some (mkCrdChange Deleted _) | None => None
  | Some (mkCrdChange _ crd) =>
      match newCRSyncer namespace crd robotName with Ok s => Some s | Err _ => None end
  end.

Lemma wanted_snoc ns robot changes c name : wanted ns robot (changes ++ [c]) name =
  if decide (crd_Name (ch_CRD c) = name) then
    match c with
    | mkCrdChange Deleted _ => None
    | mkCrdChange _ crd => match newCRSyncer ns crd robot with Ok s => Some s | Err _ => None end
    end
  else wanted ns robot changes name.
Proof.
  unfold wanted. rewrite filter_app, filter_cons, filter_nil. case_decide; [by rewrite last_snoc|].
  by rewrite app_nil_r.
Qed.

(** One syncer per CRD.  After any sequence of changes, the map holds for
    each name exactly the syncer that the last change of that CRD asks for
    (none after a deletion or when the CRD cannot be synchronised), and
    replaying what was stopped and started shows that these are the running
    ones: no syncer was started while another one ran for its CRD, and only
    running ones were stopped. *)
Theorem crdLoop_one_syncer (namespace robotName : string) (changes : list CrdChange) :
  let '(syncers, log) := crdLoop namespace robotName changes in
  (∀ name, syncers !! name = wanted namespace robotName changes name) ∧ replay log ∅ = Some syncers.
Proof.
  unfold crdLoop. induction changes as [|c changes IH] using rev_ind; [done|].
  rewrite foldl_app. cbn [foldl]. destruct (foldl _ _ changes) as [syncers log]. destruct IH as [Hw Hr].
  assert (∀ name s, syncers !! name = Some s → crd_Name (s_crd s) = name) as Hname.
  { intros name s Hs. rewrite Hw in Hs. unfold wanted in Hs.
    destruct (last _) as [[ty crd]|] eqn:Hl; [|done]. apply last_Some_elem_of, list_elem_of_filter in Hl as [Hn _].
    cbn in Hn. destruct ty; try done; destruct (newCRSyncer _ _ _) eqn:Hnew; simplify_eq;
      by rewrite (newCRSyncer_crd _ _ _ _ Hnew). }
  unfold onCrdChange. set (name := crd_Name (ch_CRD c)).
  assert (∃ syncers' log', match syncers !! name with
      | Some cur => (base.delete name syncers, log ++ [Stop cur])%list
      | None => (syncers, log) end = (syncers', log') ∧ syncers' = base.delete name syncers ∧ replay log' ∅ = Some syncers')
    as (syncers' & log' & -> & -> & Hr').
  { destruct (syncers !! name) as [cur|] eqn:Hcur; eexists _, _; split; try reflexivity; split; try done.
    - rewrite log_replay_app, Hr. cbn. rewrite (Hname _ _ Hcur), Hcur, bool_decide_eq_true_2; done.
    - by rewrite delete_id. }
  assert (∀ n, base.delete name syncers !! n = if decide (name = n) then None else wanted namespace robotName changes n) as Hdel.
  { intros n. case_decide; subst; [by rewrite lookup_delete_eq|by rewrite lookup_delete_ne]. }
  assert (∀ s, newCRSyncer namespace (ch_CRD c) robotName = Ok s →
    (∀ n, <[name:=s]> (base.delete name syncers) !! n = if decide (name = n) then Some s else wanted namespace robotName changes n) ∧
    replay (log' ++ [Run s]) ∅ = Some (<[name:=s]> (base.delete name syncers))) as Hins.
  { intros s Hs. split.
    - intros n. case_decide; subst; [by rewrite lookup_insert_eq|]. rewrite lookup_insert_ne by done.
      rewrite Hdel, decide_False; done.
    - rewrite log_replay_app, Hr'. cbn. rewrite (newCRSyncer_crd _ _ _ _ Hs). fold name. by rewrite lookup_delete_eq. }
  destruct c as [ty crd]. cbn [ch_Type ch_CRD] in *.
  destruct ty; [| |by split; [intros n; rewrite wanted_snoc; apply Hdel|done]];
    (destruct (newCRSyncer namespace crd robotName) as [s|err] eqn:Hnew;
      [destruct (Hins s eq_refl) as [Hi Hr1]; split; [intros n; rewrite wanted_snoc, Hi; cbn; by rewrite Hnew|done]
      |split; [intros n; rewrite wanted_snoc, Hdel; cbn; by rewrite Hnew|done]]).
Qed.

(** ** The informers' channel

    [infDone] is a channel: absent, open or closed.  Closing a closed channel
    (or an absent one) panics. *)
Inductive chan := NoChan | OpenChan | ClosedChan.
Definition channel (o : crop) (c : chan) : option (resp o * chan) :=
  match o with
  | ReadInfDone => Some (match c with NoChan => false | _ => true end, c)
  | SetInfDone b => Some (tt, if b then OpenChan else NoChan)
  | CloseInfDone => match c with OpenChan => Some (tt, ClosedChan) | _ => None end
  | WaitForCacheSync _ => Some (match c with OpenChan => true | _ => false end, c)
  | RunInformer _ | NewInformer _ | AddEventHandler _ | StartWorker _ | AwaitDone | ShutDownQueue _ => Some (tt, c)
  | ReadConflicts => Some (0%Z, c)
  | _ => None
  end.
(** Two goroutines interleaved by a schedule ([false] is the first one); the
    state that is reached, or [None] once a call panics. *)
Fixpoint interleave {A : Type} (sched : list bool) (p1 p2 : prog crop A) (c : chan) : option chan :=
  match sched with
  | [] => Some c
  | b :: sched =>
      match (if b then p2 else p1) with
      | Vis o k =>
          match channel o c with
          | Some (r, c) => if b then interleave sched p1 (k r) c else interleave sched (k r) p2 c
          | None => None
          end
      | _ => interleave sched p1 p2 c
      end
  end.

(** One worker restarts the informers safely, two do not.  Restarting from
    an absent or open channel never closes a channel twice, ends without an
    error and leaves it open.  But the two workers of a syncer share the
    channel without a lock: when both have seen the limit of conflicts, there
    is a schedule in which the second closes the channel that the first has
    just closed, which panics. *)
Theorem restart_once_safe_twice_not (s : crSyncer) :
  (∀ c, c ≠ ClosedChan → ∃ t, run channel (restartInformers s) c = Some (t, Done None, OpenChan)) ∧
  (∃ sched, interleave sched (restartInformers s) (restartInformers s) OpenChan = None).
Proof.
  split.
  - intros [] Hc; [..|done]; eexists; reflexivity.
  - by exists [false; true; false; true].
Qed.
Lemma restart_once_safe_twice_not_witness :
  (∃ t, run channel (restartInformers shared_syncer) OpenChan = Some (t, Done None, OpenChan)) ∧
  interleave [false; true; false; true] (restartInformers shared_syncer) (restartInformers shared_syncer) OpenChan = None.
Proof.
  destruct (restart_once_safe_twice_not shared_syncer) as [H _]. split; [by apply H|by vm_compute].
Defined.
(** A deletion that the watch missed arrives as a tombstone, which has a key,
    but the handler panics on it. *)
Lemma receive_tombstone (q : side) (key : string) :
  keyFunc (DeletedFinalStateUnknown key) = key ∧ receive q (DeletedFinalStateUnknown key) = Panic "interface conversion".
Proof. done. Qed.
