(* ===== verification/HttpRelay.v ===== *)
(** * src/go/cmd/http-relay-server: relaying requests to clients behind a firewall

    [Module Model] translates broker.go and the handlers of main.go.  The
    goroutines run concurrently: the second part gives the semantics of a pool
    of them over the broker's mutex, maps and channels. *)
From stdpp Require Import prelude strings gmap list.
From Stdlib Require Import Ascii ZArith.
From S2P Require Import Prelude GoErr GoStr.

Open Scope string_scope.
Open Scope prog_scope.

Module Model.

(** ** Messages (proto/http-relay): optional fields are pointers *)

Record HttpHeader := mkHttpHeader { h_Name : option string; h_Value : option string }.
Record HttpRequest := mkHttpRequest {
  rq_Id : option string; rq_Method : option string; rq_Host : option string; rq_Url : option string;
  rq_Header : list HttpHeader; rq_Body : string }.
Record HttpResponse := mkHttpResponse {
  rs_Id : option string; rs_StatusCode : option Z; rs_Header : list HttpHeader; rs_Body : string;
  rs_Eof : option bool }.
Definition GetEof (r : HttpResponse) : bool := default false (rs_Eof r).

(** ** Channels

    A channel is known by a number; a response channel carries the ID of the
    request it was made for, which only the specification uses. *)
Record chan := mkChan { c_owner : string; c_num : nat }.
#[export] Instance chan_eq_dec : EqDecision chan.
Proof. solve_decision. Defined.
#[export] Instance chan_countable : Countable chan.
Proof. apply (inj_countable' (λ c, (c_owner c, c_num c)) (λ p, mkChan p.1 p.2)). by intros []. Defined.

Record pendingResponse := mkPending {
  requestStream : chan; responseStream : chan; lastActivity : Z; startTime : Z; server : string }.
Definition touch (now : Z) (pr : pendingResponse) : pendingResponse :=
  mkPending (requestStream pr) (responseStream pr) now (startTime pr) (server pr).

(** The calls: the broker's mutex and maps, channels, the clock and the random
    source, the response writer (a write is flushed at once) and the request's body. *)
Inductive rop : Type :=
| Lock | Unlock
| GetReq (server : string) | SetReq (server : string) (c : chan)
| GetResp (id : string) | SetResp (id : string) (pr : pendingResponse) | DelResp (id : string)
| RangeResp
| MakeChan (owner : string)
| SendReq (c : chan) (rq : HttpRequest)      (* 10 seconds *)
| RecvReq (c : chan)                         (* 30 seconds *)
| SendBytes (c : chan) (data : string)
| RecvBytes (c : chan)                       (* 30 seconds *)
| SendResp (c : chan) (r : HttpResponse)
| RecvResp (c : chan)
| CloseChan (c : chan)
| Now
| RandRead (n : nat)
| ReadAll
| Error (msg : string) (code : Z)
| HeaderSet (k v : string)
| WriteHeader (code : Z)
| Write (data : string)
| Hijack
| GoRequestPump (id : string)
| HijackedRead
| HijackedWrite (data : string).
#[export] Instance rop_effect : Effect rop := λ o,
  match o with
  | GetReq _ => option chan
  | GetResp _ => option pendingResponse
  | RangeResp => list (string * pendingResponse)
  | MakeChan _ => chan
  | SendReq _ _ => bool                      (* false: timeout *)
  | RecvReq _ => option HttpRequest          (* None: timeout *)
  | RecvBytes _ => option string             (* None: timeout; closed: "" *)
  | RecvResp _ => option HttpResponse        (* None: closed *)
  | Now => Z
  | RandRead _ => string
  | ReadAll | HijackedRead => result string
  | Hijack => result unit
  | _ => unit
  end.

(** ** broker.go *)

(** [*p] *)
Definition deref {A B} (p : option A) (f : A → prog rop B) : prog rop B :=
  match p with Some a => f a | None => Panic "nil pointer dereference" end.

Definition ensureReq (server : string) : prog rop chan :=
  let! c := call (GetReq server) in
  match c with
  | Some c => Ret c
  | None =>
      let! c := call (MakeChan "") in
      let! _ := call (SetReq server c) in
      Ret c
  end.

Definition RelayRequest (server : string) (request : HttpRequest) : prog rop (result chan) :=
  deref (rq_Id request) (λ id,
    let! _ := call Lock in
    let! reqChan := ensureReq server in
    let! pr := call (GetResp id) in
    match pr with
    | Some _ => Ret (Err (EText ("Multiple clients trying to handle request ID " ++ id ++ " on server " ++ server)))
    | None =>
        let! ts := call Now in
        let! requestStream := call (MakeChan id) in
        let! respChan := call (MakeChan id) in
        let! _ := call (SetResp id (mkPending requestStream respChan ts ts server)) in
        let! _ := call Unlock in
        let! ok := call (SendReq reqChan request) in
        if (ok : bool) then Ret (Ok respChan)
        else Ret (Err (EText ("Timeout waiting for relay client to accept request for " ++ server)))
    end).

Definition GetRequest (server : string) : prog rop (result HttpRequest) :=
  let! _ := call Lock in
  let! reqChan := ensureReq server in
  let! _ := call Unlock in
  let! req := call (RecvReq reqChan) in
  match req with
  | Some req => Ret (Ok req)
  | None => Ret (Err (EText "No request received within timeout"))
  end.

Definition lookupResp (id : string) : prog rop (option pendingResponse) :=
  let! _ := call Lock in
  let! pr := call (GetResp id) in
  let! _ := call Unlock in
  Ret pr.

(** [None] is [ok=false]. *)
Definition GetRequestStream (id : string) : prog rop (option string) :=
  let! pr := lookupResp id in
  match pr with
  | None => Ret None
  | Some pr =>
      let! req := call (RecvBytes (requestStream pr)) in
      Ret (Some (default "" req))
  end.

Definition PutRequestStream (id : string) (data : string) : prog rop bool :=
  let! pr := lookupResp id in
  match pr with
  | None => Ret false
  | Some pr => let! _ := call (SendBytes (requestStream pr) data) in Ret true
  end.

Definition SendResponse (resp : HttpResponse) : prog rop (option error) :=
  deref (rs_Id resp) (λ id,
    let! _ := call Lock in
    let! pr := call (GetResp id) in
    match pr with
    | None =>
        let! _ := call Unlock in
        Ret (Some (EText ("Duplicate or invalid request ID " ++ id)))
    | Some pr =>
        let! _ :=
          if GetEof resp then call (DelResp id)
          else let! now := call Now in call (SetResp id (touch now pr)) in
        let! _ := call Unlock in
        let! _ := call Now in
        let! _ := call (SendResp (responseStream pr) resp) in
        let! _ := (if GetEof resp then call (CloseChan (responseStream pr)) else Ret tt) in
        Ret None
    end).

(** The closing of the channels is deferred: it comes after [Unlock], the last
    deferred call first. *)
Definition reapOne (threshold : Z) (kv : string * pendingResponse) (deferred : list chan) : prog rop (list chan) :=
  if (lastActivity kv.2 <? threshold)%Z then
    let! _ := call (DelResp kv.1) in
    Ret (responseStream kv.2 :: requestStream kv.2 :: deferred)
  else Ret deferred.
Definition ReapInactiveRequests (threshold : Z) : prog rop unit :=
  let! _ := call Lock in
  let! l := call RangeResp in
  let! deferred := loop (reapOne threshold) l [] in
  let! _ := call Unlock in
  loop (λ c _, call (CloseChan c)) deferred tt.

(** ** main.go *)

(** An [http.Header], in the order in which [range] visits it. *)
Definition Header : Type := list (string * list string).
Definition marshalHeader (h : Header) : list HttpHeader :=
  flat_map (λ kvs : string * list string, (λ v, mkHttpHeader (Some kvs.1) (Some v)) <$> kvs.2) h.
Definition unmarshalHeader (protoHeader : list HttpHeader) : prog rop unit :=
  loop (λ h _, deref (h_Name h) (λ k, deref (h_Value h) (λ v, call (HeaderSet k v)))) protoHeader tt.

Definition hexDigit (n : nat) : ascii := Ascii.ascii_of_nat (if n <? 10 then 48 + n else 87 + n)%nat.
Fixpoint hexEncode (s : string) : string :=
  match s with
  | "" => ""
  | String c s =>
      let n := Ascii.nat_of_ascii c in
      String (hexDigit (n / 16)) (String (hexDigit (n mod 16)) (hexEncode s))
  end.
Definition createId : prog rop string := let! u := call (RandRead 16) in Ret (hexEncode u).

Definition StatusOK : Z := 200.
Definition StatusSwitchingProtocols : Z := 101.
Definition StatusBadRequest : Z := 400.
Definition StatusRequestTimeout : Z := 408.
Definition StatusGone : Z := 410.
Definition StatusInternalServerError : Z := 500.

(** [f] on the body of one message after the other, until the channel is
    closed; at most [fuel] messages. *)
Fixpoint forResponses (fuel : nat) (c : chan) (f : string → prog rop unit) : prog rop unit :=
  match fuel with
  | O => Ret tt
  | S fuel =>
      let! r := call (RecvResp c) in
      match r with
      | None => Ret tt
      | Some r => let! _ := f (rs_Body r) in forResponses fuel c f
      end
  end.
(** The channel of body parts: a first part, and the bodies of the messages
    that still come. *)
Record bodyChan := mkBody { b_first : string; b_rest : option chan }.
Definition forBody (fuel : nat) (body : bodyChan) (f : string → prog rop unit) : prog rop unit :=
  let! _ := f (b_first body) in
  match b_rest body with Some c => forResponses fuel c f | None => Ret tt end.

(** A nil header is [None]. *)
Definition responseFilter (fuel : nat) (c : chan) : prog rop (option (list HttpHeader) * Z * bodyChan) :=
  let! firstMessage := call (RecvResp c) in
  match firstMessage with
  | None => Ret (None, StatusInternalServerError, mkBody "Received no response from relay client" None)
  | Some firstMessage =>
      match rs_StatusCode firstMessage with
      | None =>
          let! _ := forResponses fuel c (λ _, Ret tt) in
          Ret (None, StatusInternalServerError, mkBody "Received no header from relay client" None)
      | Some code => Ret (Some (rs_Header firstMessage), code, mkBody (rs_Body firstMessage) (Some c))
      end
  end.

Record URL := mkURL { u_Scheme : string; u_Host : string; u_Path : string; u_RawQuery : string; u_Fragment : string }.
(** The parts of an [http.Request] the handlers read. *)
Record Request := mkRequest { r_Method : string; r_Host : string; r_URL : URL; r_Header : Header }.
Definition clientPrefix : string := "/client/".

Section handlers.
(** [url.URL.String], [url.Values] of the query, and the generated codec. *)
Context (URL_String : URL → string) (queryGet : string → string → string)
  (marshalRequest : HttpRequest → result string) (unmarshalResponse : string → result HttpResponse).
(** How many messages a response is followed for. *)
Context (fuel : nat).

Definition backendName (r : Request) : string :=
  default "" (head (SplitN2 (TrimPrefix (u_Path (r_URL r)) clientPrefix) "/")).
Definition strippedPath (r : Request) : string :=
  default "" (SplitN2 (TrimPrefix (u_Path (r_URL r)) clientPrefix) "/" !! 1%nat).
Definition backendUrl (r : Request) : URL :=
  mkURL "http" "invalid" ("/" ++ strippedPath r) (u_RawQuery (r_URL r)) (u_Fragment (r_URL r)).
Definition backendReq (r : Request) (id body : string) : HttpRequest :=
  mkHttpRequest (Some id) (Some (r_Method r)) (Some (r_Host r)) (Some (URL_String (backendUrl r)))
    (marshalHeader (r_Header r)) body.

(** The request stream from the client to the backend, a goroutine of its own. *)
Fixpoint requestPump (rounds : nat) (id : string) : prog rop unit :=
  match rounds with
  | O => Ret tt
  | S rounds =>
      let! b := call HijackedRead in
      match b with
      | Err _ => Ret tt
      | Ok data =>
          let! ok := PutRequestStream id data in
          if (ok : bool) then requestPump rounds id else Ret tt
      end
  end.

(** [isHijacker]: whether the connection can be taken over. *)
Definition bidirectionalStream (isHijacker : bool) (id : string) (response : bodyChan) : prog rop unit :=
  if negb isHijacker then
    call (Error "Backend returned 101 Switching Protocols, which is not supported by the relay server"
            StatusInternalServerError)
  else
    let! _ := call (WriteHeader StatusSwitchingProtocols) in
    let! h := call Hijack in
    match h with
    | Err _ => Ret tt
    | Ok _ =>
        let! _ := call (GoRequestPump id) in
        forBody fuel response (λ b, call (HijackedWrite b))
    end.

Definition client (isHijacker : bool) (r : Request) : prog rop unit :=
  if bool_decide (backendName r = "") then
    call (Error "Request path too short: missing remote server identifier" StatusBadRequest)
  else
    let! body := call ReadAll in
    match body with
    | Err err => call (Error (error_text err) StatusInternalServerError)
    | Ok body =>
        let! id := createId in
        let! c := RelayRequest (backendName r) (backendReq r id body) in
        match c with
        | Err err => call (Error (error_text err) StatusInternalServerError)
        | Ok c =>
            let! ' (header, status, response) := responseFilter fuel c in
            let! _ := match header with Some h => unmarshalHeader h | None => Ret tt end in
            if bool_decide (status = StatusSwitchingProtocols) then bidirectionalStream isHijacker id response
            else
              let! _ := call (WriteHeader status) in
              forBody fuel response (λ b, call (Write b))
        end
    end.

Definition serverRequest (r : Request) : prog rop unit :=
  let server := queryGet (u_RawQuery (r_URL r)) "server" in
  if bool_decide (server = "") then call (Error "Missing server query parameter" StatusBadRequest)
  else
    let! request := GetRequest server in
    match request with
    | Err err => call (Error (error_text err) StatusRequestTimeout)
    | Ok request =>
        match marshalRequest request with
        | Err err => call (Error (error_text err) StatusInternalServerError)
        | Ok body =>
            let! _ := call (HeaderSet "Content-Type" "application/octet-data") in
            call (Write body)
        end
    end.

Definition serverRequestStream (r : Request) : prog rop unit :=
  let id := queryGet (u_RawQuery (r_URL r)) "id" in
  if bool_decide (id = "") then call (Error "Missing id query parameter" StatusBadRequest)
  else
    let! data := GetRequestStream id in
    match data with
    | None => call (Error ("No ongoing request with id " ++ id) StatusGone)
    | Some data =>
        let! _ := call (HeaderSet "Content-Type" "application/octet-data") in
        call (Write data)
    end.

Definition serverResponse : prog rop unit :=
  let! body := call ReadAll in
  match body with
  | Err err => call (Error (error_text err) StatusInternalServerError)
  | Ok body =>
      match unmarshalResponse body with
      | Err err => call (Error (error_text err) StatusBadRequest)
      | Ok br =>
          let! err := SendResponse br in
          match err with
          | Some err => call (Error (error_text err) StatusBadRequest)
          | None =>
              let! _ := call (HeaderSet "Content-Type" "text/plain") in
              call (Write "ok")
          end
      end
  end.

(** One tick of the goroutine that [newServer] starts. *)
Definition reaperTick (t : Z) : prog rop unit := ReapInactiveRequests (t - 30 * 1000000000).
End handlers.
End Model.

Import Model.

(** ** A pool of goroutines

    Goroutines interleave call by call.  A channel is unbuffered: a send and a
    receive happen together; a send or a close on a closed channel panics.
    Timeouts may strike at any time, and what comes from outside (bodies,
    random bytes, the clock) is arbitrary. *)
Record state := mkState {
  st_locked : bool; st_req : gmap string chan; st_resp : gmap string pendingResponse;
  st_closed : gset chan; st_next : nat }.
Definition emptyState : state := mkState false ∅ ∅ ∅ 0.
Definition set_locked (b : bool) (σ : state) : state :=
  mkState b (st_req σ) (st_resp σ) (st_closed σ) (st_next σ).
Definition set_req (m : gmap string chan) (σ : state) : state :=
  mkState (st_locked σ) m (st_resp σ) (st_closed σ) (st_next σ).
Definition set_resp (m : gmap string pendingResponse) (σ : state) : state :=
  mkState (st_locked σ) (st_req σ) m (st_closed σ) (st_next σ).

Abbreviation thread := (prog rop unit).
Abbreviation conf := (list thread * state)%type.

(** A call of one goroutine, its answer and the state after it. *)
Definition does (o : rop) (σ : state) : resp o → state → Prop :=
  match o return resp o → state → Prop with
  | Lock => λ _ σ', st_locked σ = false ∧ σ' = set_locked true σ
  | Unlock => λ _ σ', st_locked σ = true ∧ σ' = set_locked false σ
  | GetReq s => λ r σ', r = (st_req σ !! s) ∧ σ' = σ
  | SetReq s c => λ _ σ', σ' = set_req (<[s:=c]> (st_req σ)) σ
  | GetResp id => λ r σ', r = (st_resp σ !! id) ∧ σ' = σ
  | SetResp id pr => λ _ σ', σ' = set_resp (<[id:=pr]> (st_resp σ)) σ
  | DelResp id => λ _ σ', σ' = set_resp (base.delete id (st_resp σ)) σ
  | RangeResp => λ l σ', l ≡ₚ map_to_list (st_resp σ) ∧ σ' = σ
  | MakeChan owner => λ c σ', c = mkChan owner (st_next σ) ∧
      σ' = mkState (st_locked σ) (st_req σ) (st_resp σ) (st_closed σ) (S (st_next σ))
  | SendReq _ _ => λ ok σ', ok = false ∧ σ' = σ
  | RecvReq _ => λ r σ', r = None ∧ σ' = σ
  | RecvBytes c => λ r σ', (r = None ∨ (c ∈ st_closed σ ∧ r = Some "")) ∧ σ' = σ
  | RecvResp c => λ r σ', (c ∈ st_closed σ) ∧ r = None ∧ σ' = σ
  | SendBytes _ _ | SendResp _ _ => λ _ _, False
  | CloseChan c => λ _ σ', (c ∉ st_closed σ) ∧
      σ' = mkState (st_locked σ) (st_req σ) (st_resp σ) ({[c]} ∪ st_closed σ) (st_next σ)
  | GoRequestPump _ => λ _ _, False
  | _ => λ _ σ', σ' = σ
  end.

(** A send and the matching receive. *)
Definition meet (o1 o2 : rop) : (resp o1 → thread) → (resp o2 → thread) → option (chan * thread * thread) :=
  match o1, o2 return (resp o1 → thread) → (resp o2 → thread) → option (chan * thread * thread) with
  | SendReq c rq, RecvReq c' => λ k1 k2, if bool_decide (c = c') then Some (c, k1 true, k2 (Some rq)) else None
  | SendBytes c d, RecvBytes c' => λ k1 k2, if bool_decide (c = c') then Some (c, k1 tt, k2 (Some d)) else None
  | SendResp c r, RecvResp c' => λ k1 k2, if bool_decide (c = c') then Some (c, k1 tt, k2 (Some r)) else None
  | _, _ => λ _ _, None
  end.

(** The channel that a call panics on when it is closed. *)
Definition opens (o : rop) : option chan :=
  match o with SendReq c _ | SendBytes c _ | SendResp c _ | CloseChan c => Some c | _ => None end.

Section pool.
(** The goroutines that come from outside: HTTP handlers and reaper ticks. *)
Context (URL_String : URL → string) (queryGet : string → string → string)
  (marshalRequest : HttpRequest → result string) (unmarshalResponse : string → result HttpResponse).

Inductive handler : thread → Prop :=
| is_client fuel hj r : handler (client URL_String fuel hj r)
| is_serverRequest r : handler (serverRequest queryGet marshalRequest r)
| is_serverRequestStream r : handler (serverRequestStream queryGet r)
| is_serverResponse : handler (serverResponse unmarshalResponse)
| is_reaper t : handler (reaperTick t).

Inductive step : conf → conf → Prop :=
| step_call ps σ i o k r σ' : ps !! i = Some (Vis o k) → does o σ r σ' →
    step (ps, σ) (<[i := k r]> ps, σ')
| step_meet ps σ i j o1 k1 o2 k2 c p1 p2 : i ≠ j → ps !! i = Some (Vis o1 k1) → ps !! j = Some (Vis o2 k2) →
    meet o1 o2 k1 k2 = Some (c, p1, p2) → c ∉ st_closed σ →
    step (ps, σ) (<[i := p1]> (<[j := p2]> ps), σ)
| step_closed ps σ i o k c : ps !! i = Some (Vis o k) → opens o = Some c → c ∈ st_closed σ →
    step (ps, σ) (<[i := Panic "on closed channel"]> ps, σ)
| step_go ps σ i id k r n : ps !! i = Some (Vis (GoRequestPump id) k) →
    step (ps, σ) ((<[i := k r]> ps ++ [requestPump n id])%list, σ)
| step_new ps σ p : handler p → step (ps, σ) ((ps ++ [p])%list, σ).
Definition reachable (c : conf) : Prop := rtc step ([], emptyState) c.
End pool.

(** ** Safety of one goroutine

    [safe held p Φ]: holding the mutex or not, [p] touches the maps only with
    the mutex, locks and unlocks it in turn, waits for nothing while holding
    it, files under an ID only channels made for it, and sends a response only
    on a channel made for its ID. *)
Definition owned (id : string) (pr : pendingResponse) : Prop :=
  c_owner (requestStream pr) = id ∧ c_owner (responseStream pr) = id.
Definition allowed (held : bool) (o : rop) : Prop :=
  match o with
  | Lock => held = false
  | Unlock | GetReq _ | SetReq _ _ | GetResp _ | DelResp _ | RangeResp => held = true
  | SetResp id pr => held = true ∧ owned id pr
  | SendResp c r => held = false ∧ rs_Id r = Some (c_owner c)
  | SendReq _ _ | RecvReq _ | SendBytes _ _ | RecvBytes _ | RecvResp _ | CloseChan _ | HijackedRead => held = false
  | _ => True
  end.
Definition after (o : rop) (held : bool) : bool :=
  match o with Lock => true | Unlock => false | _ => held end.
Definition honest (o : rop) : resp o → Prop :=
  match o return resp o → Prop with
  | GetResp id => λ r, from_option (owned id) True r
  | RangeResp => λ l, ∀ id pr, (id, pr) ∈ l → owned id pr
  | MakeChan owner => λ c, c_owner c = owner
  | _ => λ _, True
  end.
Fixpoint safe {A : Type} (held : bool) (p : prog rop A) (Φ : bool → A → Prop) : Prop :=
  match p with
  | Ret a => Φ held a
  | Vis o k => allowed held o ∧ ∀ r, honest o r → safe (after o held) (k r) Φ
  | Panic _ => held = false
  end.

Lemma safe_mono {A} held (p : prog rop A) (Φ Ψ : bool → A → Prop) :
  (∀ h a, Φ h a → Ψ h a) → safe held p Φ → safe held p Ψ.
Proof. intros HΦ. revert held. induction p as [a|o k IH|m]; intros held; cbn; naive_solver. Qed.
Lemma safe_bind {A B} held (p : prog rop A) (f : A → prog rop B) Φ :
  safe held p (λ h a, safe h (f a) Φ) → safe held (prog_bind f p) Φ.
Proof. revert held. induction p as [a|o k IH|m]; intros held; cbn; naive_solver. Qed.
Lemma safe_loop {A S} held (f : A → S → prog rop S) l s :
  (∀ x s, x ∈ l → safe held (f x s) (λ h _, h = held)) → safe held (loop f l s) (λ h _, h = held).
Proof.
  revert s. induction l as [|x l IH]; intros s Hf; cbn; [done|].
  apply safe_bind. eapply safe_mono; [|apply Hf; by left]. intros h s' ->. apply IH. intros. apply Hf. by right.
Qed.

(** Symbolic execution. *)
Ltac safe_go :=
  repeat first
  [ done
  | progress cbn [prog_bind call safe allowed after honest from_option]
  | match goal with
    | |- safe _ (match ?x with _ => _ end) _ => destruct x eqn:?
    | |- _ ∧ _ => split
    | |- ∀ _, _ => intro
    end ].

(** ** Every goroutine is safe *)

Section handlers_safe.
Context (URL_String : URL → string) (queryGet : string → string → string)
  (marshalRequest : HttpRequest → result string) (unmarshalResponse : string → result HttpResponse).

Definition released {A} (h : bool) (a : A) : Prop := h = false.

Lemma safe_ensureReq server : safe true (ensureReq server) (λ h _, h = true).
Proof. unfold ensureReq. safe_go. Qed.

(** The mutex is kept exactly when the ID is already in use; the channel
    returned belongs to the request. *)
Lemma safe_RelayRequest server rq : safe false (RelayRequest server rq) (λ h r,
  match r with
  | Ok c => h = false ∧ rq_Id rq = Some (c_owner c)
  | Err e => h = true → ∃ id, rq_Id rq = Some id ∧
      e = EText ("Multiple clients trying to handle request ID " ++ id ++ " on server " ++ server)
  end).
Proof.
  unfold RelayRequest, deref. destruct (rq_Id rq) as [id|] eqn:Hid; [|done]. safe_go.
  apply safe_bind. eapply safe_mono; [|apply safe_ensureReq]. intros hld c ->. safe_go; eauto.
  by f_equal.
Qed.
Lemma safe_GetRequest server : safe false (GetRequest server) released.
Proof.
  unfold GetRequest. safe_go. apply safe_bind. eapply safe_mono; [|apply safe_ensureReq]. intros hld c ->. safe_go.
Qed.
Lemma safe_lookupResp id :
  safe false (lookupResp id) (λ h r, h = false ∧ from_option (owned id) True r).
Proof. unfold lookupResp. safe_go. Qed.
Lemma safe_GetRequestStream id : safe false (GetRequestStream id) released.
Proof.
  unfold GetRequestStream. apply safe_bind. eapply safe_mono; [|apply safe_lookupResp]. intros hld r [-> _]. safe_go.
Qed.
Lemma safe_PutRequestStream id data : safe false (PutRequestStream id data) released.
Proof.
  unfold PutRequestStream. apply safe_bind. eapply safe_mono; [|apply safe_lookupResp]. intros hld r [-> _]. safe_go.
Qed.
Lemma safe_SendResponse r : safe false (SendResponse r) released.
Proof.
  unfold SendResponse, deref. destruct (rs_Id r) as [id|] eqn:Hid; [|done]. safe_go.
  match goal with H : from_option _ _ _ |- _ => destruct H end. destruct (GetEof r); safe_go; rewrite ?Hid; congruence.
Qed.

Lemma safe_forResponses fuel c f :
  (∀ b, safe false (f b) released) → safe false (forResponses fuel c f) released.
Proof.
  intros Hf. induction fuel as [|fuel IH]; cbn [forResponses]; [done|]. safe_go.
  apply safe_bind. eapply safe_mono; [|apply Hf]. intros hld a ->. exact IH.
Qed.
Lemma safe_forBody fuel b f : (∀ b, safe false (f b) released) → safe false (forBody fuel b f) released.
Proof.
  intros Hf. unfold forBody. apply safe_bind. eapply safe_mono; [|apply Hf]. intros hld a ->.
  destruct (b_rest b); [by apply safe_forResponses|done].
Qed.
Lemma safe_responseFilter fuel c : safe false (responseFilter fuel c) released.
Proof.
  unfold responseFilter. safe_go. apply safe_bind. eapply safe_mono; [|by apply safe_forResponses].
  intros hld a ->. done.
Qed.
Lemma safe_unmarshalHeader h : safe false (unmarshalHeader h) released.
Proof. apply safe_loop. intros x s _. unfold deref. safe_go. Qed.
Lemma safe_requestPump n id : safe false (requestPump n id) released.
Proof.
  induction n as [|n IH]; cbn [requestPump]; [done|]. safe_go. apply safe_bind.
  eapply safe_mono; [|apply safe_PutRequestStream]. intros hld ok ->. by destruct ok.
Qed.
Lemma safe_reaperTick t : safe false (reaperTick t) released.
Proof.
  unfold reaperTick, ReapInactiveRequests. safe_go. apply safe_bind. eapply safe_mono; [|apply safe_loop].
  - intros hld l ->. safe_go. eapply safe_mono; [|apply safe_loop]; [done|]. intros. safe_go.
  - intros x l _. unfold reapOne. safe_go.
Qed.

(** A goroutine ends without the mutex, or it keeps it after a duplicate ID. *)
Lemma safe_handler p : handler URL_String queryGet marshalRequest unmarshalResponse p → safe false p (λ _ _, True).
Proof.
  destruct 1 as [fuel hj r|r|r| |t].
  - unfold client. safe_go. unfold createId. safe_go.
    apply safe_bind. eapply safe_mono; [|apply safe_RelayRequest]. intros hld [c|e]; [intros [-> _]|intros _; safe_go].
    apply safe_bind. eapply safe_mono; [|apply safe_responseFilter]. intros hld [[hd st] b] ->.
    apply safe_bind. eapply (safe_mono _ _ released); [|destruct hd; [apply safe_unmarshalHeader|done]].
    intros hld u ->. safe_go.
    + unfold bidirectionalStream. safe_go. eapply safe_mono; [|apply safe_forBody; intros; safe_go]. done.
    + eapply safe_mono; [|apply safe_forBody; intros; safe_go]. done.
  - unfold serverRequest. safe_go. apply safe_bind. eapply safe_mono; [|apply safe_GetRequest].
    intros hld [rq|e] ->; safe_go.
  - unfold serverRequestStream. safe_go. apply safe_bind. eapply safe_mono; [|apply safe_GetRequestStream].
    intros hld d ->; safe_go.
  - unfold serverResponse. safe_go. apply safe_bind. eapply safe_mono; [|apply safe_SendResponse].
    intros hld d ->; safe_go.
  - eapply safe_mono; [|apply safe_reaperTick]. done.
Qed.
End handlers_safe.

(** ** The invariant of the pool *)

Section pool_facts.
Context (URL_String : URL → string) (queryGet : string → string → string)
  (marshalRequest : HttpRequest → result string) (unmarshalResponse : string → result HttpResponse).
Abbreviation pstep := (step URL_String queryGet marshalRequest unmarshalResponse).
Abbreviation preachable := (reachable URL_String queryGet marshalRequest unmarshalResponse).
Abbreviation any_end := (λ (_ : bool) (_ : unit), True).

(** [hs]: who holds the mutex. *)
Record Inv (hs : list bool) (c : conf) : Prop := {
  inv_safe : Forall2 (λ h p, safe h p any_end) hs c.1;
  inv_one : ∀ i j, hs !! i = Some true → hs !! j = Some true → i = j;
  inv_locked : st_locked c.2 = true ↔ ∃ i, hs !! i = Some true;
  inv_owned : ∀ id pr, st_resp c.2 !! id = Some pr → owned id pr }.

Lemma does_honest o σ r σ' : (∀ id pr, st_resp σ !! id = Some pr → owned id pr) → does o σ r σ' → honest o r.
Proof.
  intros Ho. destruct o; cbn; try done.
  - intros [-> _]. destruct (st_resp σ !! id) eqn:E; [by apply Ho|done].
  - intros [Hp _] id pr Hin. apply Ho. apply elem_of_map_to_list. by rewrite <-Hp.
  - by intros [-> _].
Qed.
Lemma does_owned o σ r σ' h : allowed h o → (∀ id pr, st_resp σ !! id = Some pr → owned id pr) →
  does o σ r σ' → ∀ id pr, st_resp σ' !! id = Some pr → owned id pr.
Proof.
  intros Ha Ho Hd. destruct o; cbn in Ha, Hd; destruct_and?; subst; try done; try apply Ho.
  - cbn. intros id' pr'. destruct (decide (id = id')) as [->|]; [rewrite lookup_insert_eq; by intros [= <-]|].
    rewrite lookup_insert_ne by done. apply Ho.
  - cbn. intros id' pr' H. apply Ho. by apply lookup_delete_Some in H as [_ ?].
Qed.

(** The lock's state follows the holder. *)
Lemma does_locked o σ r σ' (hs : list bool) (i : nat) h : hs !! i = Some h → allowed h o → does o σ r σ' →
  (∀ i j : nat, hs !! i = Some true → hs !! j = Some true → i = j) → (st_locked σ = true ↔ ∃ i : nat, hs !! i = Some true) →
  (∀ k j : nat, <[i := after o h]> hs !! k = Some true → <[i := after o h]> hs !! j = Some true → k = j) ∧
  (st_locked σ' = true ↔ ∃ j : nat, <[i := after o h]> hs !! j = Some true).
Proof.
  intros Hi Ha Hd H1 H2.
  assert (after o h = h → st_locked σ' = st_locked σ →
    (∀ k j : nat, <[i := after o h]> hs !! k = Some true → <[i := after o h]> hs !! j = Some true → k = j) ∧
    (st_locked σ' = true ↔ ∃ j : nat, <[i := after o h]> hs !! j = Some true)) as Hsame.
  { intros -> ->. by rewrite list_insert_id. }
  assert (∀ (k : nat) b, <[i := b]> hs !! k = Some true ↔ k = i ∧ b = true ∨ k ≠ i ∧ hs !! k = Some true) as Hins.
  { intros k b. destruct (decide (k = i)) as [->|].
    - rewrite list_lookup_insert_eq by (by apply lookup_lt_Some in Hi). naive_solver.
    - rewrite list_lookup_insert_ne by done. naive_solver. }
  destruct o; try (apply Hsame; [done|]; cbn in Hd; destruct_and?; by subst).
  - cbn in Ha, Hd. subst. destruct Hd as [Hl ->]. cbn. setoid_rewrite Hins.
    assert (∀ k : nat, hs !! k ≠ Some true) as Hno. { intros k Hk. rewrite (proj2 H2) in Hl; [done|by eauto]. }
    split; [|split; [intros _; exists i; auto|done]].
    intros k j [[-> _]|[_ Hk]] [[-> _]|[_ Hj]]; [done|by destruct (Hno j)|by destruct (Hno k)|by destruct (Hno k)].
  - cbn in Ha, Hd. subst. destruct Hd as [Hl ->]. cbn. setoid_rewrite Hins.
    split; [intros k j [[_ [=]]|[_ Hk]] [[_ [=]]|[_ Hj]]; by apply H1|]. split; [done|]. intros (j & [[_ [=]]|[Hne Hj]]). by destruct Hne; apply H1.
Qed.

Lemma meet_safe o1 o2 (k1 : resp o1 → thread) (k2 : resp o2 → thread) c p1 p2 h1 h2 :
  meet o1 o2 k1 k2 = Some (c, p1, p2) → safe h1 (Vis o1 k1) any_end → safe h2 (Vis o2 k2) any_end →
  safe h1 p1 any_end ∧ safe h2 p2 any_end ∧ h1 = false ∧ h2 = false.
Proof.
  destruct o1, o2; cbn; try done; (case_bool_decide; [|done]); intros [= <- <- <-] [Ha1 Hk1] [Ha2 Hk2];
    destruct_and?; subst; split_and!; auto.
Qed.

Lemma lookup_snoc_false (hs : list bool) (l : nat) : (hs ++ [false])%list !! l = Some true ↔ hs !! l = Some true.
Proof.
  rewrite lookup_app_Some. split; [|by left]. intros [?|[_ H]]; [done|]. by apply list_lookup_singleton_Some in H as [_ ?].
Qed.
Lemma Inv_step hs c c' : Inv hs c → pstep c c' → ∃ hs', Inv hs' c'.
Proof.
  intros [HS H1 HL HO] Hs. destruct Hs as [ps σ i o k r σ' Hi Hd|ps σ i j o1 k1 o2 k2 c p1 p2 Hij Hi Hj Hm Hc
    |ps σ i o k c Hi Hop Hc|ps σ i id k r n Hi|ps σ p Hp]; cbn in *.
  - destruct (Forall2_lookup_r _ _ _ _ _ HS Hi) as (h & Hh & [Ha Hk]).
    destruct (does_locked o σ r σ' hs i h Hh Ha Hd H1 HL) as [H1' HL'].
    exists (<[i := after o h]> hs). constructor; cbn; [|done|done|].
    + apply Forall2_insert; [done|]. apply Hk. by eapply does_honest.
    + by eapply does_owned.
  - destruct (Forall2_lookup_r _ _ _ _ _ HS Hi) as (h1 & Hh1 & S1).
    destruct (Forall2_lookup_r _ _ _ _ _ HS Hj) as (h2 & Hh2 & S2).
    destruct (meet_safe _ _ _ _ _ _ _ _ _ Hm S1 S2) as (S1' & S2' & -> & ->).
    exists hs. constructor; cbn; try done.
    rewrite <-(list_insert_id hs i false) by done. apply Forall2_insert; [|done].
    rewrite <-(list_insert_id hs j false) by done. by apply Forall2_insert.
  - destruct (Forall2_lookup_r _ _ _ _ _ HS Hi) as (h & Hh & [Ha Hk]).
    assert (h = false) as -> by (destruct o; cbn in Hop, Ha; try done; apply Ha).
    exists hs. constructor; cbn; try done. rewrite <-(list_insert_id hs i false) by done. by apply Forall2_insert.
  - destruct (Forall2_lookup_r _ _ _ _ _ HS Hi) as (h & Hh & [Ha Hk]).
    assert (∀ l, (hs ++ [false])%list !! l = Some true ↔ hs !! l = Some true) as Happ by apply lookup_snoc_false.
    exists (hs ++ [false])%list. constructor; cbn; try done; try (setoid_rewrite Happ; done).
    apply Forall2_app; [|constructor; [|done]].
    + rewrite <-(list_insert_id hs i h) by done. apply Forall2_insert; [done|]. by apply Hk.
    + eapply safe_mono; [|apply safe_requestPump]. done.
  - assert (∀ l, (hs ++ [false])%list !! l = Some true ↔ hs !! l = Some true) as Happ by apply lookup_snoc_false.
    exists (hs ++ [false])%list. constructor; cbn; try done; try (setoid_rewrite Happ; done).
    apply Forall2_app; [done|constructor; [|done]]. by eapply safe_handler.
Qed.

Lemma Inv_reachable c : preachable c → ∃ hs, Inv hs c.
Proof.
  intros Hr. unfold reachable in Hr. assert (∃ hs, Inv hs (([], emptyState) : conf)) as HI.
  { exists []. constructor; cbn; [constructor|done| |done]. split; [done|by intros (? & ?)]. }
  revert HI. induction Hr as [|c1 c2 c3 Hs Hr IH]; [done|]. intros [hs HI]. apply IH. by eapply Inv_step.
Qed.
End pool_facts.

(** ** Executing schedules *)

(** The answer to a call, with [n] for the clock and [s] for what comes from
    outside; sends and receives time out. *)
Definition answer (n : Z) (s : string) (o : rop) (σ : state) : option (resp o * state) :=
  match o return option (resp o * state) with
  | Lock => if st_locked σ then None else Some (tt, set_locked true σ)
  | Unlock => if st_locked σ then Some (tt, set_locked false σ) else None
  | GetReq server => Some (st_req σ !! server, σ)
  | SetReq server c => Some (tt, set_req (<[server:=c]> (st_req σ)) σ)
  | GetResp id => Some (st_resp σ !! id, σ)
  | SetResp id pr => Some (tt, set_resp (<[id:=pr]> (st_resp σ)) σ)
  | DelResp id => Some (tt, set_resp (base.delete id (st_resp σ)) σ)
  | RangeResp => Some (map_to_list (st_resp σ), σ)
  | MakeChan owner => Some (mkChan owner (st_next σ),
      mkState (st_locked σ) (st_req σ) (st_resp σ) (st_closed σ) (S (st_next σ)))
  | SendReq _ _ => Some (false, σ)
  | RecvReq _ | RecvBytes _ => Some (None, σ)
  | RecvResp c => if bool_decide (c ∈ st_closed σ) then Some (None, σ) else None
  | SendBytes _ _ | SendResp _ _ | GoRequestPump _ => None
  | CloseChan c => if bool_decide (c ∈ st_closed σ) then None
                   else Some (tt, mkState (st_locked σ) (st_req σ) (st_resp σ) ({[c]} ∪ st_closed σ) (st_next σ))
  | Now => Some (n, σ)
  | RandRead _ => Some (s, σ)
  | ReadAll | HijackedRead => Some (Ok s, σ)
  | Hijack => Some (Ok tt, σ)
  | Error _ _ | HeaderSet _ _ | WriteHeader _ | Write _ | HijackedWrite _ => Some (tt, σ)
  end.
Lemma answer_does n s o σ r σ' : answer n s o σ = Some (r, σ') → does o σ r σ'.
Proof.
  destruct o; cbn; try done; repeat case_match; intros [= <- <-]; auto;
    repeat match goal with H : bool_decide _ = _ |- _ => first [apply bool_decide_eq_true in H|apply bool_decide_eq_false in H] end;
    auto.
Qed.

Inductive action := Call (i : nat) (n : Z) (s : string) | Meet (i j : nat) | Closed (i : nat) | Go (i n : nat) | New (p : thread).
Definition act (a : action) (c : conf) : option conf :=
  match a with
  | Call i n s =>
      match c.1 !! i with
      | Some (Vis o k) =>
          match answer n s o c.2 with Some (r, σ) => Some (<[i := k r]> c.1, σ) | None => None end
      | _ => None
      end
  | Meet i j =>
      match c.1 !! i, c.1 !! j with
      | Some (Vis o1 k1), Some (Vis o2 k2) =>
          match meet o1 o2 k1 k2 with
          | Some (ch, p1, p2) =>
              if bool_decide (i = j) || bool_decide (ch ∈ st_closed c.2) then None
              else Some (<[i := p1]> (<[j := p2]> c.1), c.2)
          | None => None
          end
      | _, _ => None
      end
  | Closed i =>
      match c.1 !! i with
      | Some (Vis o k) =>
          match opens o with
          | Some ch => if bool_decide (ch ∈ st_closed c.2) then Some (<[i := Panic "on closed channel"]> c.1, c.2) else None
          | None => None
          end
      | _ => None
      end
  | Go i n =>
      match c.1 !! i with
      | Some (Vis (GoRequestPump id) k) => Some ((<[i := k tt]> c.1 ++ [requestPump n id])%list, c.2)
      | _ => None
      end
  | New p => Some ((c.1 ++ [p])%list, c.2)
  end.
Fixpoint acts (l : list action) (c : conf) : option conf :=
  match l with [] => Some c | a :: l => match act a c with Some c => acts l c | None => None end end.

Section schedules.
Context (URL_String : URL → string) (queryGet : string → string → string)
  (marshalRequest : HttpRequest → result string) (unmarshalResponse : string → result HttpResponse).
Abbreviation pstep := (step URL_String queryGet marshalRequest unmarshalResponse).
Abbreviation phandler := (handler URL_String queryGet marshalRequest unmarshalResponse).
Definition from_outside (a : action) : Prop := match a with New p => phandler p | _ => True end.

Lemma act_step a c c' : from_outside a → act a c = Some c' → pstep c c'.
Proof.
  destruct c as [ps σ], a; cbn; intros Hp.
  - destruct (ps !! i) as [[|o k|]|] eqn:Hi; try done.
    destruct (answer n s o σ) as [[r σ']|] eqn:Ha; [|done]. intros [= <-].
    eapply step_call; [done|]. by eapply answer_does.
  - destruct (ps !! i) as [[|o1 k1|]|] eqn:Hi; try done. destruct (ps !! j) as [[|o2 k2|]|] eqn:Hj; try done.
    destruct (meet o1 o2 k1 k2) as [[[ch p1] p2]|] eqn:Hm; [|done].
    destruct (bool_decide (i = j)) eqn:Hij; [done|]. destruct (bool_decide (ch ∈ _)) eqn:Hc; [done|].
    apply bool_decide_eq_false in Hij, Hc. intros [= <-]. by eapply step_meet.
  - destruct (ps !! i) as [[|o k|]|] eqn:Hi; try done. destruct (opens o) as [ch|] eqn:Ho; [|done].
    destruct (bool_decide (ch ∈ _)) eqn:Hc; [|done]. apply bool_decide_eq_true in Hc. intros [= <-].
    by eapply step_closed.
  - destruct (ps !! i) as [[|o k|]|] eqn:Hi; try done. destruct o; try done. intros [= <-]. by eapply step_go.
  - intros [= <-]. by apply step_new.
Qed.
Lemma acts_steps l c c' : Forall from_outside l → acts l c = Some c' → rtc pstep c c'.
Proof.
  revert c. induction l as [|a l IH]; intros c; cbn; [intros _ [= <-]; done|].
  intros [Ha Hl]%Forall_cons. destruct (act a c) as [c1|] eqn:E; [|done]. intros Hc.
  eapply rtc_l; [by eapply act_step|by apply IH].
Qed.
End schedules.

Lemma safe_exec {A} held (p : prog rop A) Φ t a :
  safe held p Φ → exec p t (Done a) → answers honest t → ∃ h, Φ h a.
Proof.
  revert held t. induction p as [b|o k IH|m]; intros held t; cbn.
  - intros HΦ [-> [= ->]] _. by exists held.
  - intros [_ Hk] (r & t' & -> & HE) [Hr Ht]. by eapply IH; [apply Hk| |].
  - by intros _ [_ [=]].
Qed.

Definition touches_maps (o : rop) : bool :=
  match o with GetReq _ | SetReq _ _ | GetResp _ | SetResp _ _ | DelResp _ | RangeResp => true | _ => false end.

(** C25: The broker's maps are protected.  However the handlers, the streams and
    the reaper interleave, at most one goroutine is at an access to the maps,
    and only while the mutex is locked. *)
Theorem broker_mutual_exclusion URL_String queryGet marshalRequest unmarshalResponse ps σ i j o1 k1 o2 k2 :
  reachable URL_String queryGet marshalRequest unmarshalResponse (ps, σ) →
  ps !! i = Some (Vis o1 k1) → touches_maps o1 = true →
  st_locked σ = true ∧ (ps !! j = Some (Vis o2 k2) → touches_maps o2 = true → i = j).
Proof.
  intros [hs [HS H1 HL HO]]%Inv_reachable Hi Ht1. cbn in *.
  destruct (Forall2_lookup_r _ _ _ _ _ HS Hi) as (h1 & Hh1 & [Ha1 _]).
  assert (h1 = true) as -> by (destruct o1; cbn in Ha1, Ht1; destruct_and?; done).
  split; [apply HL; by exists i|]. intros Hj Ht2.
  destruct (Forall2_lookup_r _ _ _ _ _ HS Hj) as (h2 & Hh2 & [Ha2 _]).
  assert (h2 = true) as -> by (destruct o2; cbn in Ha2, Ht2; destruct_and?; done). by apply H1.
Qed.

(** C28: Responses reach the request they answer.  In every reachable state, a
    goroutine about to deliver a response delivers it on a channel made for
    the request with the response's ID, and the channel that [RelayRequest]
    hands out was made for its own request. *)
Theorem responses_reach_their_request URL_String queryGet marshalRequest unmarshalResponse :
  (∀ ps σ i c r k, reachable URL_String queryGet marshalRequest unmarshalResponse (ps, σ) →
     ps !! i = Some (Vis (SendResp c r) k) → rs_Id r = Some (c_owner c)) ∧
  (∀ server rq t c, exec (RelayRequest server rq) t (Done (Ok c)) → answers honest t → rq_Id rq = Some (c_owner c)).
Proof.
  split.
  - intros ps σ i c r k [hs [HS _ _ _]]%Inv_reachable Hi. cbn in HS.
    by destruct (Forall2_lookup_r _ _ _ _ _ HS Hi) as (h & _ & [[_ Ha] _]).
  - intros server rq t c HE HA.
    by destruct (safe_exec _ _ _ _ _ (safe_RelayRequest server rq) HE HA) as (h & _ & ?).
Qed.

(** *** The duplicate ID *)

Definition nobody_holds (ps : list thread) : Prop := Forall (λ p, safe false p (λ _ _, True)) ps.
Lemma leaked_step URL_String queryGet marshalRequest unmarshalResponse c c' :
  st_locked c.2 = true → nobody_holds c.1 →
  step URL_String queryGet marshalRequest unmarshalResponse c c' →
  st_locked c'.2 = true ∧ nobody_holds c'.1 ∧ st_req c'.2 = st_req c.2 ∧ st_resp c'.2 = st_resp c.2 ∧
  ∀ j k, c.1 !! j = Some (Vis Lock k) → c'.1 !! j = Some (Vis Lock k).
Proof.
  intros HL HN Hs. unfold nobody_holds in *.
  destruct Hs as [ps σ i o k r σ' Hi Hd|ps σ i j o1 k1 o2 k2 c p1 p2 Hij Hi Hj Hm Hc
    |ps σ i o k c Hi Hop Hc|ps σ i id k r n Hi|ps σ p Hp]; cbn in *.
  - destruct (Forall_lookup_1 _ _ _ _ HN Hi) as [Ha Hk].
    assert (honest o r ∧ after o false = false ∧ st_locked σ' = true ∧ st_req σ' = st_req σ ∧ st_resp σ' = st_resp σ)
      as (Hh & Haf & Hl & Hrq & Hrs).
    { destruct o; cbn in Ha, Hd; destruct_and?; subst; try done; congruence. }
    split_and!; try done.
    + apply Forall_insert; [done|]. rewrite <-Haf. by apply Hk.
    + intros j k' Hj. rewrite list_lookup_insert_ne; [done|]. intros ->. rewrite Hi in Hj. injection Hj as -> _. by cbn in Hl.
  - pose proof (Forall_lookup_1 _ _ _ _ HN Hi) as S1. pose proof (Forall_lookup_1 _ _ _ _ HN Hj) as S2.
    destruct (meet_safe _ _ _ _ _ _ _ _ _ Hm S1 S2) as (S1' & S2' & _ & _). split_and!; try done.
    + apply Forall_insert; [|done]. by apply Forall_insert.
    + intros l k' Hl. destruct (decide (l = i)) as [->|].
      { rewrite Hi in Hl. injection Hl as -> _. by destruct o2. }
      rewrite list_lookup_insert_ne by done. destruct (decide (l = j)) as [->|]; [|by rewrite list_lookup_insert_ne].
      rewrite Hj in Hl. injection Hl as -> _. by destruct o1.
  - split_and!; try done; [by apply Forall_insert|]. intros l k' Hl. destruct (decide (l = i)) as [->|].
    { rewrite Hi in Hl. by injection Hl as -> _. }
    by rewrite list_lookup_insert_ne.
  - destruct (Forall_lookup_1 _ _ _ _ HN Hi) as [_ Hk]. split_and!; try done.
    + apply Forall_app. split; [apply Forall_insert; [done|by apply Hk]|]. constructor; [|done].
      eapply safe_mono; [|apply safe_requestPump]. done.
    + intros l k' Hl. rewrite lookup_app_l by (rewrite length_insert; by apply lookup_lt_Some in Hl).
      rewrite list_lookup_insert_ne; [done|]. intros ->. rewrite Hi in Hl. by injection Hl as [=].
  - split_and!; try done.
    + apply Forall_app. split; [done|]. constructor; [|done]. by eapply safe_handler.
    + intros l k' Hl. by apply lookup_app_l_Some.
Qed.

Lemma leaked_forever URL_String queryGet marshalRequest unmarshalResponse c c' :
  st_locked c.2 = true → nobody_holds c.1 →
  rtc (step URL_String queryGet marshalRequest unmarshalResponse) c c' →
  st_locked c'.2 = true ∧ st_req c'.2 = st_req c.2 ∧ st_resp c'.2 = st_resp c.2 ∧
  ∀ j k, c.1 !! j = Some (Vis Lock k) → c'.1 !! j = Some (Vis Lock k).
Proof.
  intros HL HN Hr. induction Hr as [c|c1 c2 c3 Hs Hr IH]; [done|].
  destruct (leaked_step _ _ _ _ _ _ HL HN Hs) as (HL2 & HN2 & Hrq & Hrs & Hw).
  destruct (IH HL2 HN2) as (? & Hrq' & Hrs' & Hw'). split_and!; [done|congruence|congruence|auto].
Qed.

Example get_x : Request := mkRequest "GET" "relay" (mkURL "" "" "/client/robot/x" "" "") [].
Example sixteen : string := "0123456789abcdef".
Definition calls_of (i : nat) (n : nat) (s : string) : list action := replicate n (Call i 0 s).

(** A duplicate ID stops the broker.  When two requests draw the same ID,
    [RelayRequest] returns its error without unlocking the mutex: there is a
    reachable state in which the second request has been answered with the
    error and no goroutine holds the mutex, and from every such state, whatever
    happens, the mutex stays locked, the maps never change, and no goroutine
    waiting for the mutex ever gets it. *)
Theorem duplicate_id_stops_the_broker URL_String queryGet marshalRequest unmarshalResponse :
  let astep := step URL_String queryGet marshalRequest unmarshalResponse in
  (∃ ps σ, reachable URL_String queryGet marshalRequest unmarshalResponse (ps, σ) ∧
     ps !! 1%nat = Some (Ret tt) ∧ st_locked σ = true ∧ nobody_holds ps) ∧
  (∀ ps σ ps' σ', st_locked σ = true → nobody_holds ps → rtc astep (ps, σ) (ps', σ') →
     st_locked σ' = true ∧ st_req σ' = st_req σ ∧ st_resp σ' = st_resp σ ∧
     ∀ j k, ps !! j = Some (Vis Lock k) → ps' !! j = Some (Vis Lock k)).
Proof.
  split; [|by intros; eapply (leaked_forever _ _ _ _ (ps, σ) (ps', σ'))].
  set (p := client URL_String 1 false get_x).
  set (l := (New p :: calls_of 0 12 sixteen ++ New p :: calls_of 1 6 sixteen)%list).
  assert (match acts l ([], emptyState) with
          | Some ([Vis (SendReq _ _) _; Ret _], σ) => st_locked σ
          | _ => false end = true) as Hc by (vm_compute; reflexivity).
  destruct (acts l ([], emptyState)) as [[[|[|o k|] [|[[]| |] [|]]] σ]|] eqn:Ha; try discriminate Hc; destruct o; try discriminate Hc.
  set (o := SendReq _ _) in *.
  assert (∀ h, allowed h o → h = false) as Ho by done. rename Hc into HL.
  assert (reachable URL_String queryGet marshalRequest unmarshalResponse ([Vis o k; Ret tt], σ)) as Hr.
  { eapply acts_steps; [|exact Ha]. repeat (constructor; [first [exact I|apply is_client]|]). constructor. }
  eexists _, σ. split; [exact Hr|]. split; [reflexivity|]. split; [exact HL|].
  destruct (Inv_reachable _ _ _ _ _ Hr) as [hs [HS _ _ _]]. cbn [fst] in HS.
  apply Forall2_cons_inv_r in HS as (h & hs' & [Hal Hk] & _ & _). pose proof (Ho h Hal). subst h.
  constructor; [split; [exact Hal|exact Hk]|]. constructor; [exact I|constructor].
Qed.

(** A stalled stream crashes the server.  A client whose request was
    switched to another protocol sends data that its relay client does not
    fetch; once the request counts as inactive, the reaper closes the stream's
    channel while the goroutine of [bidirectionalStream] is still sending on
    it, and that goroutine panics (nothing recovers it).  This happens for any
    decoder that reads the backend's 101 answer in some posted message. *)
Theorem stalled_stream_panics URL_String queryGet marshalRequest unmarshalResponse (msg : string) :
  unmarshalResponse msg = Ok (mkHttpResponse (Some (hexEncode sixteen)) (Some 101%Z) [] "" None) →
  (∀ q, queryGet q "server" = "robot") →
  ∃ ps σ ps' σ' i n,
    reachable URL_String queryGet marshalRequest unmarshalResponse (ps, σ) ∧
    ps !! i = Some (requestPump n (hexEncode sixteen)) ∧
    rtc (step URL_String queryGet marshalRequest unmarshalResponse) (ps, σ) (ps', σ') ∧
    ps' !! i = Some (Panic "on closed channel").
Proof.
  intros Hdec Hq. set (r101 := mkHttpResponse _ _ _ _ _) in Hdec.
  set (p0 := client URL_String 1 true get_x). set (p1 := serverRequest queryGet marshalRequest get_x).
  set (p1' := let! request := GetRequest "robot" in
    match request with
    | Err err => call (Error (error_text err) StatusRequestTimeout) : thread
    | Ok request =>
        match marshalRequest request with
        | Err err => call (Error (error_text err) StatusInternalServerError) : thread
        | Ok body => let! _ := call (HeaderSet "Content-Type" "application/octet-data") in (call (Write body) : thread)
        end
    end).
  assert (p1 = p1') as Hp1 by (unfold p1, serverRequest; by rewrite Hq).
  set (p2 := let! err := SendResponse r101 in
    match err with
    | Some err => call (Error (error_text err) StatusBadRequest) : thread
    | None => let! _ := call (HeaderSet "Content-Type" "text/plain") in (call (Write "ok") : thread)
    end).
  (* the request reaches the relay client *)
  set (l1 := (New p0 :: New p1' :: calls_of 0 12 sixteen ++ calls_of 1 3 "" ++ [Meet 0 1])%list).
  (* its answer reaches the client, whose stream is about to start *)
  set (l2 := (calls_of 2 6 "" ++ [Meet 2 0] ++ calls_of 0 2 "")%list).
  (* the client sends; the request is reaped *)
  set (l3 := (calls_of 3 4 "data" ++ [New (reaperTick 30000000001)] ++ calls_of 4 6 "" ++ [Closed 3])%list).
  assert (match acts l1 ([], emptyState) with
    | Some ([t0; t1], σ1) =>
        match acts l2 ([t0; t1; p2], σ1) with
        | Some ([Vis (GoRequestPump id) k; t1; t2], σ2) =>
            bool_decide (id = hexEncode sixteen) &&
            match acts l3 ([k tt; t1; t2; requestPump 1 id], σ2) with
            | Some ([_; _; _; Panic m; _], _) => bool_decide (m = "on closed channel")
            | _ => false
            end
        | _ => false
        end
    | _ => false
    end = true) as Hc by (vm_compute; reflexivity).
  destruct (acts l1 _) as [[[|t0 [|t1 [|]]] σ1]|] eqn:H1; try discriminate Hc.
  destruct (acts l2 _) as [[[|[|o k|] [|t1' [|t2' [|]]]] σ2]|] eqn:H2; try discriminate Hc; destruct o; try discriminate Hc.
  apply andb_true_iff in Hc as [->%bool_decide_eq_true Hc].
  destruct (acts l3 _) as [[[|t3 [|t4 [|t5 [|[| |m] [|t6 [|]]]]]] σ3]|] eqn:H3; try discriminate Hc.
  apply bool_decide_eq_true in Hc as ->.
  eexists _, _, _, σ3, 3%nat, 1%nat.
  assert (∀ l, from_outside URL_String queryGet marshalRequest unmarshalResponse (New (reaperTick l))) as Hreap by constructor.
  split; [|split; [|split; [eapply acts_steps; [|exact H3]|reflexivity]]].
  - unfold reachable. etrans.
    { eapply acts_steps; [|exact H1]. unfold l1. rewrite <-Hp1.
      repeat (constructor; [first [exact I|apply is_client|apply is_serverRequest]|]). constructor. }
    eapply rtc_l; [by apply step_new, is_serverResponse|]. cbn [app].
    eapply rtc_l; [eapply (step_call _ _ _ _ _ _ 2 ReadAll _ (Ok msg)); reflexivity|].
    cbn [list_insert insert]. unfold serverResponse. cbn [prog_bind call]. rewrite Hdec.
    eapply rtc_r; [eapply acts_steps; [|exact H2]; repeat (constructor; [exact I|]); constructor|].
    exact (step_go _ _ _ _ [_; t1'; t2'] σ2 0%nat _ k tt 1%nat eq_refl).
  - reflexivity.
  - repeat (constructor; [first [exact I|apply Hreap]|]). constructor.
Qed.

(** *** Concrete runs *)

Example decode_101 (s : string) : result HttpResponse :=
  Ok (mkHttpResponse (Some (hexEncode sixteen)) (Some 101%Z) [] "" None).
Example get_robot (q k : string) : string := if bool_decide (k = "server") then "robot" else "".
Example no_marshal (rq : HttpRequest) : result string := Ok "request".
Example no_url (u : URL) : string := "http://invalid/x".

Lemma stalled_stream_panics_witness : ∃ ps σ ps' σ' i n,
  reachable no_url get_robot no_marshal decode_101 (ps, σ) ∧
  ps !! i = Some (requestPump n (hexEncode sixteen)) ∧
  rtc (step no_url get_robot no_marshal decode_101) (ps, σ) (ps', σ') ∧
  ps' !! i = Some (Panic "on closed channel").
Proof. apply (stalled_stream_panics no_url get_robot no_marshal decode_101 "m"); intros; reflexivity. Defined.

Lemma broker_mutual_exclusion_witness : ∃ ps σ o k,
  reachable no_url get_robot no_marshal decode_101 (ps, σ) ∧ ps !! 0%nat = Some (Vis o k) ∧
  touches_maps o = true ∧ st_locked σ = true.
Proof.
  pose (p := client no_url 1 false get_x).
  assert (match acts (New p :: New p :: calls_of 0 3 sixteen)%list ([], emptyState) with
          | Some ([Vis o _; _], _) => touches_maps o | _ => false end = true) as Ho by (vm_compute; reflexivity).
  destruct (acts _ _) as [[[|[|o k|] [|p1 [|]]] σ]|] eqn:Ha; try discriminate Ho.
  assert (reachable no_url get_robot no_marshal decode_101 ([Vis o k; p1], σ)) as Hr.
  { eapply acts_steps; [|exact Ha]. repeat (constructor; [first [exact I|apply is_client]|]). constructor. }
  exists [Vis o k; p1], σ, o, k. split; [exact Hr|]. split; [reflexivity|]. split; [exact Ho|].
  by apply (broker_mutual_exclusion no_url get_robot no_marshal decode_101 [Vis o k; p1] σ 0 0 o k o k Hr eq_refl Ho).
Defined.

Example accepted (o : rop) (σ : state) : option (resp o * state) :=
  match o with SendReq c rq => Some (true, σ) | o => answer 0 "" o σ end.
Lemma responses_reach_their_request_witness : ∃ t c,
  exec (RelayRequest "robot" (mkHttpRequest (Some "1") None None None [] "")) t (Done (Ok c)) ∧ c_owner c = "1".
Proof.
  pose (p := RelayRequest "robot" (mkHttpRequest (Some "1") None None None [] "")).
  assert (∃ c, outcome_of (run accepted p emptyState) = Some (Done (Ok c))) as [c Hc] by (eexists; vm_compute; reflexivity).
  assert (exec p (trace_of (run accepted p emptyState)) (Done (Ok c))) as HE by (by apply run_exec).
  eexists _, c. split; [exact HE|].
  assert (Some "1" = Some (c_owner c)) as [=]; [|done].
  apply (proj2 (responses_reach_their_request no_url get_robot no_marshal decode_101) _ _ _ _ HE).
  vm_compute. repeat split.
Defined.

(** ** What a client sees *)

(** The messages taken from the broker and the calls of the response writer. *)
Inductive seen := SRecv (r : HttpResponse) | SSet (k v : string) | SStatus (code : Z) | SWrite (b : string) | SError (code : Z).
Definition see (e : event rop) : list seen :=
  match e with
  | existT (RecvResp _) r => match r with Some r => [SRecv r] | None => [] end
  | existT (HeaderSet k v) _ => [SSet k v]
  | existT (WriteHeader code) _ => [SStatus code]
  | existT (Write b) _ => [SWrite b]
  | existT (Error _ code) _ => [SError code]
  | _ => []
  end.
Definition observe (t : list (event rop)) : list seen := flat_map see t.
Lemma observe_app t1 t2 : observe (t1 ++ t2) = (observe t1 ++ observe t2)%list.
Proof. apply flat_map_app. Qed.
Definition received (l : list seen) : list HttpResponse :=
  omap (λ s, match s with SRecv r => Some r | _ => None end) l.
Lemma received_app l1 l2 : received (l1 ++ l2) = (received l1 ++ received l2)%list.
Proof. apply omap_app. Qed.

(** [RelayRequest] itself shows nothing to the client. *)
Definition silent (o : rop) : Prop :=
  match o with RecvResp _ | HeaderSet _ _ | WriteHeader _ | Write _ | Error _ _ => False | _ => True end.
Lemma silent_observe t : calls silent t → observe t = [].
Proof.
  induction t as [|[o r] t IH]; [done|]. intros [Ho Ht]. unfold observe in *. cbn [flat_map]. rewrite IH by done.
  by destruct o.
Qed.
Lemma RelayRequest_silent server rq : wp any_answer silent any_panic (RelayRequest server rq) (λ _, True).
Proof.
  unfold RelayRequest, deref, ensureReq. destruct (rq_Id rq); cbn; [|done].
  split; [done|]. intros _ _. split; [done|]. intros [c|] _; cbn.
  all: repeat first [done | split | intro | match goal with |- wp _ _ _ (match ?x with _ => _ end) _ => destruct x; cbn end].
Qed.

Definition headerPairs (l : list HttpHeader) : option (list (string * string)) :=
  mapM (λ h, match h_Name h, h_Value h with Some k, Some v => Some (k, v) | _, _ => None end) l.
Definition SSets (l : list (string * string)) : list seen := (λ kv, SSet kv.1 kv.2) <$> l.
Lemma exec_unmarshalHeader l t : exec (unmarshalHeader l) t (Done tt) →
  ∃ kvs, headerPairs l = Some kvs ∧ observe t = SSets kvs.
Proof.
  unfold unmarshalHeader. revert t. induction l as [|h l IH]; intros t HE; cbn [loop] in HE.
  { destruct HE as [-> _]. by exists []. }
  apply exec_bind in HE as [(m & _ & [=])|(t1 & t2 & [] & -> & HE1 & HE2)].
  destruct (IH _ HE2) as (kvs & Hl & Ht2). unfold headerPairs, deref in *. cbn.
  destruct (h_Name h) as [k|]; [|by destruct HE1 as [_ [=]]].
  destruct (h_Value h) as [v|]; [|by destruct HE1 as [_ [=]]].
  cbn in HE1. destruct HE1 as ([] & t' & -> & -> & _). rewrite Hl. cbn. exists ((k, v) :: kvs).
  split; [done|]. unfold observe in *. cbn. by rewrite Ht2.
Qed.
Lemma received_sets kvs : received (SSets kvs) = [].
Proof. by induction kvs. Qed.

Definition passOn (m : HttpResponse) : list seen := [SRecv m; SWrite (rs_Body m)].
Lemma exec_forResponses fuel c t : exec (forResponses fuel c (λ b, call (Write b))) t (Done tt) →
  ∃ ms, observe t = flat_map passOn ms ∧ received (observe t) = ms.
Proof.
  revert t. induction fuel as [|fuel IH]; intros t HE; cbn [forResponses] in HE.
  { destruct HE as [-> _]. by exists []. }
  cbn in HE. destruct HE as ([m|] & t1 & -> & HE); [|destruct HE as [-> _]; by exists []].
  destruct HE as ([] & t2 & -> & HE). destruct (IH _ HE) as (ms & Hms & Hr). exists (m :: ms).
  unfold observe in *. cbn. rewrite Hms in Hr |- *. split; [done|].
  unfold received in *. cbn. by rewrite Hr.
Qed.

Lemma client_observed URL_String fuel hj r t m ms code :
  exec (client URL_String fuel hj r) t (Done tt) → received (observe t) = m :: ms →
  rs_StatusCode m = Some code → code ≠ StatusSwitchingProtocols →
  ∃ kvs, headerPairs (rs_Header m) = Some kvs ∧
    observe t = (SRecv m :: SSets kvs ++ SStatus code :: SWrite (rs_Body m) :: flat_map passOn ms)%list.
Proof.
  unfold client. intros HE Hrec Hcode Hne.
  destruct (bool_decide (backendName r = "")). { cbn in HE. by destruct HE as ([] & t1 & -> & -> & _). }
  cbn [prog_bind call exec] in HE. destruct HE as ([body|err] & t0 & -> & HE).
  2: { cbn in HE. by destruct HE as ([] & t1 & -> & -> & _). }
  unfold createId in HE. cbn [prog_bind call exec] in HE. destruct HE as (u & t1 & -> & HE).
  apply exec_bind in HE as [(x & _ & [=])|(t2 & t3 & c & -> & HE1 & HE)].
  assert (observe t2 = []) as Ht2.
  { apply silent_observe. by destruct (wp_exec_any _ _ _ _ _ _ (RelayRequest_silent _ _) HE1). }
  assert (∀ t : list (event rop), observe (existT ReadAll (Ok body) :: existT (RandRead 16) u :: t) = observe t) as Hpre by done.
  rewrite Hpre, observe_app, Ht2 in Hrec. rewrite Hpre, observe_app, Ht2. cbn [app] in Hrec |- *.
  destruct c as [c|err]; [|cbn in HE; by destruct HE as ([] & t4 & -> & -> & _)].
  apply exec_bind in HE as [(x & _ & [=])|(t4 & t5 & [[hd st] b] & -> & HE2 & HE)].
  unfold responseFilter in HE2. cbn [prog_bind call exec] in HE2. destruct HE2 as ([m'|] & t6 & -> & HE2).
  2: { destruct HE2 as [-> [= -> -> ->]]. cbn in HE. destruct HE as ([] & t7 & -> & [] & t8 & -> & -> & _). done. }
  assert (m' = m) as -> by (cbn in Hrec; by injection Hrec). rewrite Hcode in HE2. destruct HE2 as [-> [= -> -> ->]].
  cbn [app] in Hrec |- *. apply exec_bind in HE as [(x & _ & [=])|(t6 & t7 & [] & -> & HE3 & HE)].
  destruct (exec_unmarshalHeader _ _ HE3) as (kvs & Hkvs & Ht6). exists kvs. split; [done|].
  rewrite bool_decide_eq_false_2 in HE by done. cbn [prog_bind call exec] in HE. destruct HE as ([] & t8 & -> & HE).
  unfold forBody in HE. cbn [prog_bind call exec b_first b_rest] in HE. destruct HE as ([] & t9 & -> & HE).
  destruct (exec_forResponses _ _ _ HE) as (ms' & Hms & Hr).
  change (observe (existT (RecvResp c) (Some m) :: t6 ++ existT (WriteHeader code) tt :: existT (Write (rs_Body m)) tt :: t9)) with
    (SRecv m :: observe (t6 ++ existT (WriteHeader code) tt :: existT (Write (rs_Body m)) tt :: t9)) in *.
  rewrite observe_app in Hrec |- *.
  change (observe (existT (WriteHeader code) tt :: existT (Write (rs_Body m)) tt :: t9)) with
    (SStatus code :: SWrite (rs_Body m) :: observe t9) in *.
  rewrite Ht6 in Hrec |- *.
  change (m :: received (SSets kvs ++ SStatus code :: SWrite (rs_Body m) :: observe t9) = m :: ms) in Hrec.
  rewrite received_app, received_sets in Hrec. cbn [app] in Hrec.
  change (m :: received (observe t9) = m :: ms) in Hrec. injection Hrec as Hrec. rewrite Hr in Hrec. subst ms'.
  by rewrite Hms.
Qed.

(** A response is passed on unchanged.  When the first message for a request
    has a status other than 101, the client sees exactly its headers, its
    status, and the bodies of all messages in the order in which they were
    delivered. *)
Theorem client_passes_on URL_String fuel hj r t m ms code :
  exec (client URL_String fuel hj r) t (Done tt) → received (observe t) = m :: ms →
  rs_StatusCode m = Some code → code ≠ StatusSwitchingProtocols →
  ∃ kvs, headerPairs (rs_Header m) = Some kvs ∧
    observe t = (SRecv m :: SSets kvs ++ SStatus code :: SWrite (rs_Body m) :: flat_map passOn ms)%list.
Proof. intros. by eapply client_observed. Qed.
(** A broker that hands out the given messages. *)
Example feeder (o : rop) (ms : list HttpResponse) : option (resp o * list HttpResponse) :=
  match o with
  | ReadAll => Some (Ok "", ms)
  | RandRead _ => Some (sixteen, ms)
  | GetReq _ | GetResp _ => Some (None, ms)
  | MakeChan owner => Some (mkChan owner 0, ms)
  | SendReq _ _ => Some (true, ms)
  | RecvResp _ => match ms with [] => Some (None, []) | m :: ms => Some (Some m, ms) end
  | Now => Some (0%Z, ms)
  | Lock | Unlock | SetReq _ _ | SetResp _ _ | HeaderSet _ _ | WriteHeader _ | Write _ | Error _ _ => Some (tt, ms)
  | _ => None
  end.
Example first_message : HttpResponse :=
  mkHttpResponse (Some "1") (Some 200%Z) [mkHttpHeader (Some "A") (Some "b")] "he" None.
Example last_message : HttpResponse := mkHttpResponse (Some "1") None [] "llo" (Some true).
Lemma client_passes_on_witness : ∃ t, exec (client no_url 5 false get_x) t (Done tt) ∧ ∃ m1 m2,
  observe t = [SRecv m1; SSet "A" "b"; SStatus 200; SWrite "he"; SRecv m2; SWrite "llo"].
Proof.
  pose (t := trace_of (run feeder (client no_url 5 false get_x) [first_message; last_message])).
  assert (exec (client no_url 5 false get_x) t (Done tt)) as HE by (by apply run_exec).
  exists t. split; [exact HE|].
  destruct (client_passes_on no_url 5 false get_x t first_message [last_message] 200%Z HE) as (kvs & Hk & Ho);
    [vm_compute; reflexivity|reflexivity|by vm_compute|].
  eexists _, _. rewrite Ho. cbn in Hk. injection Hk as <-. reflexivity.
Defined.
