(* ===== verification/RelayClient.v ===== *)
(** * src/go/cmd/http-relay-client: the other end of the HTTP relay

    [Module Model] translates main.go: fetching requests from the relay
    server, passing them to the backend, and posting the response in chunks.
    The theorems include the way of a response from the backend through both
    programs to the client. *)
From stdpp Require Import prelude strings gmap list.
From Stdlib Require Import Ascii ZArith.
From S2P Require Import Prelude GoErr GoStr HttpRelay.

Open Scope string_scope.
Open Scope prog_scope.

Module Model.
Import HttpRelay.Model.

(** The command line flags. *)
Record Flags := mkFlags {
  backendScheme : string; backendAddress : string; backendPath : string; preserveHost : bool;
  relayScheme : string; relayAddress : string; relayPrefix : string; serverName : string;
  authenticationTokenFile : string; maxChunkSize : Z }.

(** A request to the backend; the header is what [Header.Set] was called with,
    in order. *)
Record BackendRequest := mkBackendRequest {
  b_Method : string; b_URL : URL; b_Host : option string; b_HeaderSets : list (string * string); b_Body : string }.

(** The calls: the relay server and the backend (a status code and the body, or
    reading it fails), files, goroutines, the channel of responses, sleeping. *)
Inductive cop : Type :=
| RemoteGet (url : string)
| RemotePost (url contentType body : string)
| LocalDo (b : BackendRequest)
| ReadFile (path : string)
| GoStreamToBackend (rq : HttpRequest)
| GoHandleRequest (rq : HttpRequest)
| GoResponses (resp : HttpResponse)
| NextResponse
| BackendCopy (body : result string)
| BackendClose
| Sleep (ns : Z).
#[export] Instance cop_effect : Effect cop := λ o,
  match o with
  | RemoteGet _ | RemotePost _ _ _ => result (Z * result string)
  | LocalDo _ => result (Z * Header * bool)    (* the flag: is the body writable? *)
  | ReadFile _ => result string
  | NextResponse => option HttpResponse        (* None: closed *)
  | BackendCopy _ => option error
  | _ => unit
  end.

Definition cderef {A B} (p : option A) (f : A → prog cop B) : prog cop B :=
  match p with Some a => f a | None => Panic "nil pointer dereference" end.

(** The errors of [getRequest] that [errors.Is] tells apart. *)
Inductive getError := ErrTimeout | GetError (e : error).

(** ** Response chunks *)

(** The results of [in.Read]: the bytes and whether it failed, end of file
    included. *)
Fixpoint streamBytes (reads : list (string * bool)) : list string :=
  match reads with
  | [] => []
  | (buffer, eof) :: reads =>
      (if bool_decide (buffer = "") then [] else [buffer]) ++ (if (eof : bool) then [] else streamBytes reads)
  end.

(** What [select] picks: bytes, the end of the bytes, or the timer. *)
Inductive input := Data (b : string) | EndOfData | Timer.
Definition appendBody (b : string) (r : HttpResponse) : HttpResponse :=
  mkHttpResponse (rs_Id r) (rs_StatusCode r) (rs_Header r) (rs_Body r ++ b) (rs_Eof r).
Definition setEof (r : HttpResponse) : HttpResponse :=
  mkHttpResponse (rs_Id r) (rs_StatusCode r) (rs_Header r) (rs_Body r) (Some true).
Definition nextResponse (r : HttpResponse) : HttpResponse := mkHttpResponse (rs_Id r) None [] "" None.
Fixpoint buildResponses (maxChunkSize : Z) (resp : HttpResponse) (timeouts : Z) (inputs : list input) : list HttpResponse :=
  match inputs with
  | [] => []
  | Data b :: inputs =>
      let resp := appendBody b resp in
      if (maxChunkSize <? Z.of_nat (String.length (rs_Body resp)))%Z
      then resp :: buildResponses maxChunkSize (nextResponse resp) 0 inputs
      else buildResponses maxChunkSize resp timeouts inputs
  | EndOfData :: _ => [setEof resp]
  | Timer :: inputs =>
      let timeouts := (timeouts + 1)%Z in
      if (0 <? Z.of_nat (String.length (rs_Body resp)))%Z || is_some (rs_StatusCode resp) || (30 <? timeouts)%Z
      then resp :: buildResponses maxChunkSize (nextResponse resp) 0 inputs
      else buildResponses maxChunkSize resp timeouts inputs
  end.

Section client.
(** [url.URL.String], [url.Parse], [url.Values.Encode] for one pair,
    [http.StatusText], the check of [http.NewRequest], and the generated
    codec. *)
Context (flags : Flags) (URL_String : URL → string) (url_Parse : string → result URL)
  (queryEncode : string → string → string) (StatusText : Z → string)
  (newRequestError : string → URL → option error)
  (unmarshalRequest : string → result HttpRequest) (marshalResponse : HttpResponse → result string).

Definition relayURL (path query : string) : URL :=
  mkURL (relayScheme flags) (relayAddress flags) (relayPrefix flags ++ path) query "".

Definition getRequest : prog cop (getError + HttpRequest) :=
  let! resp := call (RemoteGet (URL_String (relayURL "/server/request" (queryEncode "server" (serverName flags))))) in
  match resp with
  | Err err => Ret (inl (GetError err))
  | Ok (_, Err err) => Ret (inl (GetError err))
  | Ok (code, Ok body) =>
      if bool_decide (code = StatusRequestTimeout) then Ret (inl ErrTimeout)
      else if negb (bool_decide (code = StatusOK)) then
        Ret (inl (GetError (EText ("server status " ++ StatusText code ++ ": " ++ body))))
      else match unmarshalRequest body with
      | Err err => Ret (inl (GetError (EText ("failed to unmarshal request: " ++ error_text err ++
                                              ". request was: " ++ fmt_q body))))
      | Ok breq => Ret (inr breq)
      end
  end.

Definition headerSets (l : list HttpHeader) : option (list (string * string)) :=
  mapM (λ h, match h_Name h, h_Value h with Some k, Some v => Some (k, v) | _, _ => None end) l.

Definition token : prog cop (result (list (string * string))) :=
  if bool_decide (authenticationTokenFile flags = "") then Ret (Ok [])
  else
    let! t := call (ReadFile (authenticationTokenFile flags)) in
    match t with
    | Err err => Ret (Err (EText ("Failed to read authentication token from " ++ authenticationTokenFile flags ++
                                  ": " ++ error_text err)))
    | Ok t => Ret (Ok [("Authorization", "Bearer " ++ t)])
    end.

(** The response without its body, and whether the body is writable. *)
Definition makeBackendRequest (breq : HttpRequest) : prog cop (result (HttpResponse * bool)) :=
  cderef (rq_Id breq) (λ id,
  cderef (rq_Url breq) (λ url,
    match url_Parse url with
    | Err err => Ret (Err err)
    | Ok u =>
        let targetUrl := mkURL (backendScheme flags) (backendAddress flags) (backendPath flags ++ u_Path u)
                           (u_RawQuery u) (u_Fragment u) in
        cderef (rq_Method breq) (λ method,
          match newRequestError method targetUrl with
          | Some err => Ret (Err err)
          | None =>
              let host := if preserveHost flags then rq_Host breq else None in
              cderef (headerSets (rq_Header breq)) (λ sets,
                let! auth := token in
                match auth with
                | Err err => Ret (Err err)
                | Ok auth =>
                    let! resp := call (LocalDo (mkBackendRequest method targetUrl host (sets ++ auth) (rq_Body breq))) in
                    match resp with
                    | Err err => Ret (Err err)
                    | Ok (code, header, writable) =>
                        Ret (Ok (mkHttpResponse (Some id) (Some (int32 code)) (marshalHeader header) "" None, writable))
                    end
                end)
          end)
    end)).

Definition postResponse (br : HttpResponse) : prog cop (option error) :=
  match marshalResponse br with
  | Err err => Ret (Some err)
  | Ok body =>
      let! resp := call (RemotePost (URL_String (relayURL "/server/response" "")) "application/octet-data" body) in
      match resp with
      | Err err => Ret (Some (EText ("couldn't post response to relay server: " ++ error_text err)))
      | Ok (_, Err err) => Ret (Some (EText ("couldn't read relay server's response body: " ++ error_text err)))
      | Ok (code, Ok body) =>
          if negb (bool_decide (code = StatusOK)) then
            let err := EText ("relay server responded " ++ StatusText code ++ ": " ++ body) in
            Ret (Some (if bool_decide (code = StatusBadRequest) then EPermanent (Some err) else err))
          else Ret None
      end
  end.

Definition errorResponse (req : HttpRequest) (message : string) : HttpResponse :=
  mkHttpResponse (rq_Id req) (Some StatusInternalServerError)
    [mkHttpHeader (Some "Content-Type") (Some "text/plain")] message (Some true).
(** A failure is only logged. *)
Definition postErrorResponse (req : HttpRequest) (message : string) : prog cop unit :=
  let! _ := postResponse (errorResponse req message) in Ret tt.

(** At most [fuel] rounds. *)
Fixpoint streamLoop (fuel : nat) (streamURL : string) : prog cop unit :=
  match fuel with
  | O => Ret tt
  | S fuel =>
      let! resp := call (RemotePost streamURL "text/plain" "") in
      match resp with
      | Err _ => Ret tt
      | Ok (code, body) =>
          if bool_decide (code = StatusGone) then Ret tt
          else if negb (bool_decide (code = StatusOK)) then Ret tt
          else
            let! err := call (BackendCopy body) in
            match err with Some _ => Ret tt | None => streamLoop fuel streamURL end
      end
  end.
Definition streamToBackend (fuel : nat) (req : HttpRequest) : prog cop unit :=
  cderef (rq_Id req) (λ id,
    let! _ := streamLoop fuel (URL_String (relayURL "/server/requeststream" ("id=" ++ id))) in
    call BackendClose).

(** [RetryNotify] of a post with at most ten retries. *)
Definition retryPost (resp : HttpResponse) : prog cop (option error) :=
  let! ' (err, _) := Retry 10 (λ _, let! e := postResponse resp in Ret (e, tt)) tt in Ret err.

(** The responses, one after the other; at most [fuel]. *)
Fixpoint postResponses (fuel : nat) : prog cop unit :=
  match fuel with
  | O => Ret tt
  | S fuel =>
      let! resp := call NextResponse in
      match resp with
      | None => Ret tt
      | Some resp =>
          let! err := retryPost resp in
          match err with
          | Some (EPermanent _) => Ret tt
          | _ => postResponses fuel
          end
      end
  end.

(** The goroutines [streamBytes] and [buildResponses] fill the channel. *)
Definition streamResponses (fuel : nat) (resp : HttpResponse) : prog cop unit :=
  let! _ := call (GoResponses resp) in postResponses fuel.

Definition handleRequest (fuel : nat) (req : HttpRequest) : prog cop unit :=
  let! r := makeBackendRequest req in
  match r with
  | Err err => postErrorResponse req ("Unable to reach backend: " ++ error_text err)
  | Ok (resp, writable) =>
      if bool_decide (rs_StatusCode resp = Some StatusSwitchingProtocols) then
        if negb writable then
          postErrorResponse req "Backend returned 101 Switching Protocols, which is not supported."
        else
          let! _ := call (GoStreamToBackend req) in
          streamResponses fuel resp
      else streamResponses fuel resp
  end.

Definition localProxy : prog cop (option getError) :=
  let! r := getRequest in
  match r with
  | inl ErrTimeout => Ret (Some ErrTimeout)
  | inl (GetError err) => Ret (Some (GetError (EText ("failed to get request from relay: " ++ error_text err))))
  | inr req => let! _ := call (GoHandleRequest req) in Ret None
  end.
(** The endless loop, for [rounds] rounds. *)
Fixpoint localProxyWorker (rounds : nat) : prog cop unit :=
  match rounds with
  | O => Ret tt
  | S rounds =>
      let! err := localProxy in
      let! _ := match err with
                | Some (GetError _) => call (Sleep 1000000000)
                | Some ErrTimeout | None => Ret tt
                end in
      localProxyWorker rounds
  end.
End client.
End Model.

Import HttpRelay.Model Model.

(** ** The chunks of a response *)

Definition data (inputs : list input) : string :=
  foldr (λ i s, match i with Data b => b ++ s | _ => s end) "" inputs.
Definition bodies (l : list HttpResponse) : string := foldr (λ r s, rs_Body r ++ s) "" l.
Definition plainChunk (id : option string) (r : HttpResponse) : Prop :=
  rs_Id r = id ∧ rs_StatusCode r = None ∧ rs_Header r = [].

(** The first message carries the head of the response, the others only data;
    the last one, and only the last one, ends it. *)
Inductive chunks (id : option string) : list HttpResponse → Prop :=
| chunks_last r : plainChunk id r → rs_Eof r = Some true → chunks id [r]
| chunks_more r l : plainChunk id r → rs_Eof r = None → chunks id l → chunks id (r :: l).

Lemma buildResponses_tail max resp timeouts ins : rs_Eof resp = None → EndOfData ∉ ins →
  ∃ m ms, buildResponses max resp timeouts (ins ++ [EndOfData]) = m :: ms ∧
    rs_Id m = rs_Id resp ∧ rs_StatusCode m = rs_StatusCode resp ∧ rs_Header m = rs_Header resp ∧
    bodies (m :: ms) = rs_Body resp ++ data ins ∧
    (ms = [] ∧ rs_Eof m = Some true ∨ rs_Eof m = None ∧ chunks (rs_Id resp) ms).
Proof.
  revert resp timeouts. induction ins as [|[b| |] ins IH]; intros resp timeouts Heof Hin; cbn [app buildResponses].
  - exists (setEof resp), []. by split_and!; [..|left].
  - assert (EndOfData ∉ ins) as Hin' by (by intros ?; apply Hin; right).
    case_match.
    + destruct (IH (nextResponse (appendBody b resp)) 0%Z) as (m & ms & -> & Hid & Hst & Hh & Hb & He); [done..|].
      exists (appendBody b resp), (m :: ms). split_and!; try done.
      * cbn in *. by rewrite Hb, app_assoc_s.
      * right. split; [done|]. destruct He as [[-> He]|[He Hc]]; by constructor.
    + destruct (IH (appendBody b resp) timeouts) as (m & ms & -> & Hid & Hst & Hh & Hb & He); [done..|].
      exists m, ms. split_and!; try done. by rewrite Hb; cbn; rewrite app_assoc_s.
  - destruct Hin. by left.
  - assert (EndOfData ∉ ins) as Hin' by (by intros ?; apply Hin; right).
    case_match; [|by apply IH].
    destruct (IH (nextResponse resp) 0%Z) as (m & ms & -> & Hid & Hst & Hh & Hb & He); [done..|].
    exists resp, (m :: ms). split_and!; try done.
    + cbn in *. by rewrite Hb.
    + right. split; [done|]. destruct He as [[-> He]|[He Hc]]; by constructor.
Qed.

(** C29: A response is cut into chunks without loss.  However data, pauses and
    the timer interleave, the messages sent after the backend's data has ended
    are: a first one with the ID, status and headers of the response, then
    messages with the ID only, the last one and only the last one marked as
    the end; and their bodies put together are the data, byte for byte. *)
Theorem buildResponses_lossless (maxChunkSize : Z) (resp : HttpResponse) (inputs : list input) :
  rs_Eof resp = None → rs_Body resp = "" → EndOfData ∉ inputs →
  ∃ m ms, buildResponses maxChunkSize resp 0 (inputs ++ [EndOfData]) = m :: ms ∧
    rs_Id m = rs_Id resp ∧ rs_StatusCode m = rs_StatusCode resp ∧ rs_Header m = rs_Header resp ∧
    bodies (m :: ms) = data inputs ∧
    (ms = [] ∧ rs_Eof m = Some true ∨ rs_Eof m = None ∧ chunks (rs_Id resp) ms).
Proof.
  intros He Hb Hin. destruct (buildResponses_tail maxChunkSize resp 0 inputs He Hin) as (m & ms & H). exists m, ms.
  by rewrite Hb in H.
Qed.
Example some_response : HttpResponse :=
  mkHttpResponse (Some "1") (Some 200%Z) [mkHttpHeader (Some "A") (Some "b")] "" None.
Lemma buildResponses_lossless_witness : ∃ m m' m'',
  buildResponses 3 some_response 0 [Timer; Data "abcd"; Data "e"; EndOfData] = [m; m'; m''] ∧ bodies [m; m'; m''] = "abcde".
Proof.
  destruct (buildResponses_lossless 3 some_response [Timer; Data "abcd"; Data "e"]) as (m & ms & H & _ & _ & _ & Hb & _);
    [done|done|by rewrite !elem_of_cons, elem_of_nil; naive_solver|].
  cbn in H. injection H as <- <-. eexists _, _, _. split; [reflexivity|]. exact Hb.
Defined.

Lemma buildResponses_timer max resp timeouts ins :
  (30 ≤ timeouts)%Z ∨ rs_Body resp ≠ "" ∨ rs_StatusCode resp ≠ None →
  buildResponses max resp timeouts (Timer :: ins) = resp :: buildResponses max (nextResponse resp) 0 ins.
Proof.
  intros H. cbn [buildResponses].
  assert ((0 <? Z.of_nat (String.length (rs_Body resp)))%Z || is_some (rs_StatusCode resp) || (30 <? timeouts + 1)%Z = true)
    as ->; [|done].
  rewrite !orb_true_iff. destruct H as [H|[H|H]].
  - right. by apply Z.ltb_lt; lia.
  - left. left. apply Z.ltb_lt. destruct (rs_Body resp); [done|]. cbn. lia.
  - left. right. by destruct (rs_StatusCode resp).
Qed.
Lemma buildResponses_timers max resp timeouts n ins : (0 ≤ timeouts)%Z → (31 ≤ timeouts + Z.of_nat n)%Z → (0 < n)%nat →
  ∃ ms, buildResponses max resp timeouts (replicate n Timer ++ ins) = resp :: ms.
Proof.
  revert timeouts. induction n as [|n IH]; intros timeouts H0 H31 Hn; [lia|].
  destruct (decide (30 ≤ timeouts)%Z) as [Ht|Ht].
  - eexists. change (replicate (S n) Timer ++ ins)%list with (Timer :: (replicate n Timer ++ ins)%list).
    apply buildResponses_timer. by left.
  - change (replicate (S n) Timer ++ ins)%list with (Timer :: (replicate n Timer ++ ins)%list).
    cbn [buildResponses]. case_match; [by eexists|]. apply IH; lia.
Qed.

(** Chunks are bounded and come in time.  A message is longer than the
    configured size by at most one block of data.  What was gathered leaves
    with the next tick of the timer, and so does the head of the response;
    without data a message leaves at the latest with the 31st tick in a row. *)
Theorem buildResponses_bounded (maxChunkSize blockSize : Z) (resp : HttpResponse) (timeouts : Z) (inputs : list input) :
  (0 ≤ maxChunkSize)%Z → (0 ≤ timeouts)%Z →
  (∀ b, Data b ∈ inputs → Z.of_nat (String.length b) ≤ blockSize)%Z →
  (Z.of_nat (String.length (rs_Body resp)) ≤ maxChunkSize)%Z → (0 ≤ blockSize)%Z →
  (∀ m, m ∈ buildResponses maxChunkSize resp timeouts inputs →
     Z.of_nat (String.length (rs_Body m)) ≤ maxChunkSize + blockSize)%Z ∧
  (rs_Body resp ≠ "" ∨ rs_StatusCode resp ≠ None →
     ∃ ms, buildResponses maxChunkSize resp timeouts (Timer :: inputs) = resp :: ms) ∧
  (∃ ms, buildResponses maxChunkSize resp timeouts (replicate 31 Timer ++ inputs) = resp :: ms).
Proof.
  intros Hmax Ht Hin Hresp Hblock. split_and!.
  - clear Ht. revert resp timeouts Hin Hresp.
    induction inputs as [|[b| |] ins IH]; intros resp timeouts Hin Hresp m; cbn [buildResponses].
    + by intros ?%elem_of_nil.
    + assert (Z.of_nat (String.length (rs_Body (appendBody b resp))) ≤ maxChunkSize + blockSize)%Z as Hb.
      { cbn. rewrite app_length_s. pose proof (Hin b ltac:(by left)). lia. }
      case_match eqn:Hlt.
      * intros [->|Hm]%elem_of_cons; [exact Hb|].
        eapply IH; [| |exact Hm]; [|cbn; lia]. intros b' Hb'. apply Hin. by right.
      * apply Z.ltb_ge in Hlt. apply IH; [|done]. intros b' Hb'. apply Hin. by right.
    + intros ->%list_elem_of_singleton. cbn. lia.
    + case_match.
      * intros [->|Hm]%elem_of_cons; [lia|]. eapply IH; [| |exact Hm]; [|cbn; lia].
        intros b' Hb'. apply Hin. by right.
      * apply IH; [|done]. intros b' Hb'. apply Hin. by right.
  - intros H. eexists. apply buildResponses_timer. auto.
  - by apply buildResponses_timers; lia.
Qed.
Lemma buildResponses_bounded_witness :
  Forall (λ m, Z.of_nat (String.length (rs_Body m)) ≤ 3 + 3)%Z
    (buildResponses 3 some_response 0 [Data "abc"; Data "def"; EndOfData]).
Proof.
  apply Forall_forall.
  refine (proj1 (buildResponses_bounded 3 3 some_response 0 [Data "abc"; Data "def"; EndOfData] _ _ _ _ _)); try (cbn; lia).
  intros b. rewrite !elem_of_cons, elem_of_nil. intros [[= ->]|[[= ->]|[[=]|[]]]]; cbn; lia.
Defined.

(** ** From the backend to the client *)

Lemma headerPairs_app l1 l2 kvs1 kvs2 :
  headerPairs l1 = Some kvs1 → headerPairs l2 = Some kvs2 → headerPairs (l1 ++ l2) = Some (kvs1 ++ kvs2)%list.
Proof.
  unfold headerPairs. revert kvs1. induction l1 as [|h l1 IH]; intros kvs1; cbn.
  { by intros [= <-]. }
  destruct (h_Name h), (h_Value h); cbn; try done.
  destruct (mapM _ l1) as [kvs|]; cbn; [|done]. intros [= <-] Hl2. by rewrite (IH _ eq_refl Hl2).
Qed.
Definition pairsOf (header : Header) : list (string * string) :=
  flat_map (λ kvs : string * list string, (λ v, (kvs.1, v)) <$> kvs.2) header.
Lemma headerPairs_marshal h : headerPairs (marshalHeader h) = Some (pairsOf h).
Proof.
  unfold marshalHeader. induction h as [|[k vs] h IH]; [done|]. apply headerPairs_app; [|exact IH].
  unfold headerPairs. cbn. induction vs as [|v vs IHv]; [done|]. cbn. by rewrite IHv.
Qed.

Fixpoint written (l : list seen) : string :=
  match l with [] => "" | SWrite b :: l => b ++ written l | _ :: l => written l end.
Fixpoint statuses (l : list seen) : list Z :=
  match l with [] => [] | SStatus c :: l => c :: statuses l | _ :: l => statuses l end.
Fixpoint sets (l : list seen) : list (string * string) :=
  match l with [] => [] | SSet k v :: l => (k, v) :: sets l | _ :: l => sets l end.
(** The header a client gets: [Set] replaces all earlier values of a name. *)
Definition finalHeader (l : list (string * string)) : gmap string string :=
  foldl (λ m kv, <[kv.1:=kv.2]> m) ∅ l.

Lemma passOn_parts ms : let l := flat_map passOn ms in sets l = [] ∧ statuses l = [] ∧ written l = bodies ms.
Proof. cbn zeta. induction ms as [|m ms (IH1 & IH2 & IH3)]; [done|]. cbn. by rewrite IH1, IH2, IH3. Qed.
Lemma observed_parts kvs code b ms : let l := (SSets kvs ++ SStatus code :: SWrite b :: flat_map passOn ms)%list in
  sets l = kvs ∧ statuses l = [code] ∧ written l = b ++ bodies ms.
Proof.
  cbn zeta. induction kvs as [|[k v] kvs (IH1 & IH2 & IH3)]; cbn.
  - destruct (passOn_parts ms) as (-> & -> & ->). done.
  - unfold SSets in *. cbn. by rewrite IH1, IH2, IH3.
Qed.

Lemma relay_observed URL_String fuel hj r t maxChunkSize id code header inputs :
  exec (client URL_String fuel hj r) t (Done tt) →
  EndOfData ∉ inputs → code ≠ StatusSwitchingProtocols →
  received (observe t) = buildResponses maxChunkSize
    (mkHttpResponse id (Some code) (marshalHeader header) "" None) 0 (inputs ++ [EndOfData]) →
  statuses (observe t) = [code] ∧
  sets (observe t) = pairsOf header ∧
  written (observe t) = data inputs.
Proof.
  intros HE Hin Hne Hrec.
  destruct (buildResponses_tail maxChunkSize (mkHttpResponse id (Some code) (marshalHeader header) "" None) 0 inputs
    eq_refl Hin) as (m & ms & Hms & _ & Hst & Hh & Hb & _).
  rewrite Hms in Hrec. cbn in Hst, Hh, Hb.
  destruct (client_observed _ _ _ _ _ _ _ _ HE Hrec Hst Hne) as (kvs & Hkvs & ->).
  rewrite Hh, headerPairs_marshal in Hkvs. injection Hkvs as <-.
  destruct (observed_parts (pairsOf header) code (rs_Body m) ms) as (H1 & H2 & H3).
  split; [exact H2|]. split; [exact H1|]. etrans; [exact H3|exact Hb].
Qed.

(** Among the values of one name only the last survives. *)
Lemma finalHeader_last l k : finalHeader l !! k = last (snd <$> filter (λ kv, kv.1 = k) l).
Proof.
  unfold finalHeader. induction l as [|[k' v] l IH] using rev_ind; [done|].
  rewrite foldl_app, filter_app, fmap_app. cbn [foldl fst snd]. rewrite filter_cons, filter_nil. cbn [fst].
  destruct (decide (k' = k)) as [->|Hne].
  - rewrite lookup_insert_eq. change (snd <$> [(k, v)]) with [v]. by rewrite last_snoc.
  - by rewrite lookup_insert_ne, IH, app_nil_r.
Qed.

Lemma filter_pairs k name (vs : list string) :
  filter (λ kv : string * string, kv.1 = k) ((λ v, (name, v)) <$> vs) =
    if decide (name = k) then (λ v, (k, v)) <$> vs else [].
Proof.
  induction vs as [|v vs IH]; [by case_decide|]. rewrite fmap_cons, filter_cons, IH. cbn.
  by case_decide; subst.
Qed.
Lemma pairsOf_cons name vs header : pairsOf ((name, vs) :: header) = (((λ v, (name, v)) <$> vs) ++ pairsOf header)%list.
Proof. done. Qed.
Lemma pairsOf_absent header k : k ∉ header.*1 → filter (λ kv : string * string, kv.1 = k) (pairsOf header) = [].
Proof.
  induction header as [|[name vs] header IH]; [done|].
  rewrite fmap_cons, not_elem_of_cons. cbn [fst]. intros [Hne Hk].
  by rewrite pairsOf_cons, filter_app, filter_pairs, decide_False, IH.
Qed.
Lemma pairsOf_present header k vs : NoDup header.*1 → (k, vs) ∈ header →
  filter (λ kv : string * string, kv.1 = k) (pairsOf header) = (λ v, (k, v)) <$> vs.
Proof.
  intros Hnd Hin. induction header as [|[name vs'] header IH]; [by apply elem_of_nil in Hin|].
  cbn in Hnd. apply NoDup_cons in Hnd as [Hk Hnd]. rewrite pairsOf_cons, filter_app, filter_pairs.
  apply elem_of_cons in Hin as [[= -> ->]|Hin].
  - by rewrite decide_True, pairsOf_absent, app_nil_r.
  - rewrite decide_False; [by apply IH|]. intros ->. apply Hk. apply list_elem_of_fmap. by exists (k, vs).
Qed.

(** What a client gets of headers that are set one by one: of each name the
    last value, and no other names. *)
Lemma finalHeader_pairs header k :
  NoDup header.*1 →
  finalHeader (pairsOf header) !! k =
    match list_find (λ e, e.1 = k) header with Some (_, (_, vs)) => last vs | None => None end.
Proof.
  intros Hnd. rewrite finalHeader_last. destruct (list_find _ header) as [[i [k' vs]]|] eqn:Hf.
  - apply list_find_Some in Hf as (Hi & Hk & _). cbn in Hk. subst k'. apply list_elem_of_lookup_2 in Hi.
    rewrite (pairsOf_present header k vs Hnd Hi). by rewrite <-list_fmap_compose, list_fmap_id.
  - apply list_find_None in Hf. rewrite pairsOf_absent; [done|].
    intros (e & -> & He)%list_elem_of_fmap. rewrite Forall_forall in Hf. by apply (Hf e He).
Qed.

(** C26: The relay is transparent, but for repeated headers.  Let the backend
    answer with a status other than 101, headers and any data, cut into chunks
    by the relay client in any way, and let these chunks be what the broker
    hands to the server's client handler.  Then the handler writes that status
    once, calls [Header.Set] for exactly the backend's headers in order, and
    writes exactly the backend's data.  So the response of the server has
    exactly the backend's header names, each with its last value: with its
    value, where the backend sent one. *)
Theorem relay_transparent URL_String fuel hj r t maxChunkSize id code header inputs :
  exec (client URL_String fuel hj r) t (Done tt) →
  EndOfData ∉ inputs → code ≠ StatusSwitchingProtocols →
  received (observe t) = buildResponses maxChunkSize
    (mkHttpResponse id (Some code) (marshalHeader header) "" None) 0 (inputs ++ [EndOfData]) →
  statuses (observe t) = [code] ∧
  sets (observe t) = pairsOf header ∧
  written (observe t) = data inputs ∧
  (NoDup header.*1 → ∀ k, finalHeader (sets (observe t)) !! k =
     match list_find (λ e, e.1 = k) header with Some (_, (_, vs)) => last vs | None => None end).
Proof.
  intros HE Hin Hne Hrec. destruct (relay_observed _ _ _ _ _ _ _ _ _ _ HE Hin Hne Hrec) as (Hs & Hp & Hw).
  split_and!; [done..|]. intros Hnd k. rewrite Hp. by apply finalHeader_pairs.
Qed.

Example chunked : list HttpResponse :=
  buildResponses 3 (mkHttpResponse (Some "1") (Some 200%Z) (marshalHeader [("A", ["b"])]) "" None) 0
    ([Timer; Data "abcd"; Data "e"] ++ [EndOfData]).
Lemma relay_transparent_witness : ∃ t, exec (client no_url 5 false get_x) t (Done tt) ∧
  statuses (observe t) = [200%Z] ∧ sets (observe t) = [("A", "b")] ∧ written (observe t) = "abcde".
Proof.
  pose (t := trace_of (run feeder (client no_url 5 false get_x) chunked)).
  assert (exec (client no_url 5 false get_x) t (Done tt)) as HE by (by apply run_exec).
  exists t. split; [exact HE|].
  destruct (relay_transparent no_url 5 false get_x t 3 (Some "1") 200 [("A", ["b"])] [Timer; Data "abcd"; Data "e"] HE)
    as (Hs & Hp & Hw & _); [by rewrite !elem_of_cons, elem_of_nil; naive_solver|done|by vm_compute|].
  exact (conj Hs (conj Hp Hw)).
Defined.

(** Repeated headers are lost.  Let the backend send several values for one
    name (a name has one entry in Go's header map).  The relay transfers all of
    them, but the server stores each with [Header.Set]: the header that the
    client gets holds only the last value of each name. *)
Theorem repeated_headers_lost URL_String fuel hj r t maxChunkSize id code header inputs k vs :
  exec (client URL_String fuel hj r) t (Done tt) →
  EndOfData ∉ inputs → code ≠ StatusSwitchingProtocols →
  received (observe t) = buildResponses maxChunkSize
    (mkHttpResponse id (Some code) (marshalHeader header) "" None) 0 (inputs ++ [EndOfData]) →
  NoDup header.*1 → (k, vs) ∈ header →
  (∀ v, v ∈ vs → mkHttpHeader (Some k) (Some v) ∈ marshalHeader header) ∧
  finalHeader (sets (observe t)) !! k = last vs.
Proof.
  intros HE Hin Hne Hrec Hnd Hk.
  destruct (relay_observed _ _ _ _ _ _ _ _ _ _ HE Hin Hne Hrec) as (_ & -> & _). split.
  - intros v Hv. unfold marshalHeader. apply list_elem_of_In, in_flat_map. exists (k, vs).
    split; [by apply list_elem_of_In|]. apply list_elem_of_In, list_elem_of_fmap. by exists v.
  - rewrite finalHeader_last, (pairsOf_present header k vs Hnd Hk). by rewrite <-list_fmap_compose, list_fmap_id.
Qed.
Example cookies : Header := [("Set-Cookie", ["a=1"; "b=2"])].
Lemma repeated_headers_lost_witness : ∃ t, exec (client no_url 5 false get_x) t (Done tt) ∧
  finalHeader (sets (observe t)) !! "Set-Cookie" = Some "b=2".
Proof.
  pose (ms := buildResponses 3 (mkHttpResponse (Some "1") (Some 200%Z) (marshalHeader cookies) "" None) 0 ([Data "e"] ++ [EndOfData])).
  pose (t := trace_of (run feeder (client no_url 5 false get_x) ms)).
  assert (exec (client no_url 5 false get_x) t (Done tt)) as HE by (by apply run_exec).
  exists t. split; [exact HE|].
  apply (repeated_headers_lost no_url 5 false get_x t 3 (Some "1") 200 cookies [Data "e"] "Set-Cookie" ["a=1"; "b=2"] HE);
    [by rewrite !elem_of_cons, elem_of_nil; naive_solver|done|by vm_compute|repeat constructor; by intros ?%elem_of_nil|by left].
Defined.

(** ** Handling a request *)

Section handling.
Context (flags : Flags) (URL_String : URL → string) (url_Parse : string → result URL)
  (queryEncode : string → string → string) (StatusText : Z → string)
  (newRequestError : string → URL → option error)
  (unmarshalRequest : string → result HttpRequest) (marshalResponse : HttpResponse → result string).
Abbreviation handle := (handleRequest flags URL_String url_Parse StatusText newRequestError marshalResponse).
Abbreviation posts := (postResponses flags URL_String StatusText marshalResponse).
Abbreviation retry := (retryPost flags URL_String StatusText marshalResponse).
Abbreviation post := (postResponse flags URL_String StatusText marshalResponse).

(** The calls that handling [req] may make. *)
Definition scope (req : HttpRequest) (o : cop) : Prop :=
  match o with
  | LocalDo b =>
      u_Scheme (b_URL b) = backendScheme flags ∧ u_Host (b_URL b) = backendAddress flags ∧
      b_Body b = rq_Body req ∧ Some (b_Method b) = rq_Method req ∧
      (b_Host b = if preserveHost flags then rq_Host req else None) ∧
      (∃ sets auth, headerPairs (rq_Header req) = Some sets ∧ b_HeaderSets b = (sets ++ auth)%list ∧
         (authenticationTokenFile flags = "" → auth = []) ∧
         (authenticationTokenFile flags ≠ "" → ∃ token, auth = [("Authorization", "Bearer " ++ token)]))
  | RemotePost url _ body =>
      url = URL_String (relayURL flags "/server/response" "") ∧ ∃ r, marshalResponse r = Ok body
  | ReadFile path => path = authenticationTokenFile flags ∧ path ≠ ""
  | GoStreamToBackend rq => rq = req
  | GoResponses r => rs_Id r = rq_Id req ∧ rs_StatusCode r ≠ None ∧ rs_Body r = "" ∧ rs_Eof r = None
  | NextResponse => True
  | _ => False
  end.
Abbreviation ok req p Φ := (wp (@any_answer cop _) (scope req) no_panic p Φ).

(** A post makes no other call than posting to the relay server. *)
Definition onlyPosts (o : cop) : Prop :=
  match o with
  | RemotePost url _ body => url = URL_String (relayURL flags "/server/response" "") ∧ ∃ r, marshalResponse r = Ok body
  | _ => False
  end.
Lemma onlyPosts_scope req o : onlyPosts o → scope req o.
Proof. by destruct o. Qed.
Abbreviation only p Φ := (wp (@any_answer cop _) onlyPosts no_panic p Φ).
(** The codec's errors are none of [backoff]'s. *)
Definition codec_errors : Prop := ∀ r e, marshalResponse r = Err (EPermanent e) → False.
Definition plainPermanent (e : option error) : Prop :=
  match e with Some (EPermanent (Some (EPermanent _))) => False | _ => True end.
Definition notPermanent (e : option error) : Prop := match e with Some (EPermanent _) => False | _ => True end.

Lemma only_post r : only (post r) (λ e, codec_errors → plainPermanent e).
Proof.
  unfold postResponse. destruct (marshalResponse r) as [b|err] eqn:Hm.
  - cbn. split; [by eauto|]. intros [[code [b'|]]|] _; try done.
    destruct (negb _); [|done]. cbn. by destruct (bool_decide _).
  - cbn. intros Hc. destruct err as [| | | | | | | |[[]|]]; try done. by destruct (Hc _ _ Hm).
Qed.
Lemma only_Retry r n : only (Retry n (λ _, let! e := post r in Ret (e, tt)) tt) (λ e, codec_errors → notPermanent e.1).
Proof.
  induction n as [|n IH]; cbn [Retry]; apply wp_bind, wp_bind; (eapply wp_mono; [|apply only_post]);
    intros [[| | | | | | | |e]|] Hp; cbn [wp fst]; try (intros _; exact I); try apply IH;
    intros Hc; specialize (Hp Hc); destruct e as [[]|]; first [exact I|destruct Hp].
Qed.
Lemma only_retryPost r : only (retry r) (λ e, codec_errors → notPermanent e).
Proof.
  unfold retryPost. apply wp_bind. eapply wp_mono; [|apply only_Retry]. by intros [e []].
Qed.
Lemma ok_post req r : ok req (post r) (λ _, True).
Proof.
  eapply wp_weaken_call; [apply onlyPosts_scope|]. eapply wp_mono; [|apply only_post]. done.
Qed.
Lemma ok_retryPost req r : ok req (retry r) (λ _, True).
Proof.
  eapply wp_weaken_call; [apply onlyPosts_scope|]. eapply wp_mono; [|apply only_retryPost]. done.
Qed.
Lemma ok_postResponses req fuel : ok req (posts fuel) (λ _, True).
Proof.
  induction fuel as [|fuel IH]; cbn [postResponses prog_bind call wp]; [exact I|]. split; [exact I|].
  intros [r|] _; [|exact I]. apply wp_bind. eapply wp_mono; [|apply ok_retryPost]. intros [[]|] _; exact I || apply IH.
Qed.
Lemma ok_postErrorResponse req msg : ok req (postErrorResponse flags URL_String StatusText marshalResponse req msg) (λ _, True).
Proof. unfold postErrorResponse. apply wp_bind. eapply wp_mono; [|apply ok_post]. done. Qed.

Definition wellFormed (req : HttpRequest) : Prop :=
  rq_Id req ≠ None ∧ rq_Url req ≠ None ∧ rq_Method req ≠ None ∧ headerPairs (rq_Header req) ≠ None.
Lemma ok_makeBackendRequest req : wellFormed req →
  ok req (makeBackendRequest flags url_Parse newRequestError req) (λ r,
    match r with
    | Ok (r, _) => rs_Id r = rq_Id req ∧ rs_StatusCode r ≠ None ∧ rs_Body r = "" ∧ rs_Eof r = None
    | Err _ => True end).
Proof.
  intros (Hid & Hurl & Hmeth & Hhd). unfold makeBackendRequest, cderef.
  destruct (rq_Id req) as [id|] eqn:Eid; [|done]. destruct (rq_Url req) as [url|]; [|done].
  destruct (url_Parse url) as [u|]; [|done]. destruct (rq_Method req) as [m|] eqn:Em; [|done].
  destruct (newRequestError _ _); [done|].
  change (headerSets (rq_Header req)) with (headerPairs (rq_Header req)).
  destruct (headerPairs (rq_Header req)) as [sets|] eqn:Eh; [|done].
  apply wp_bind. eapply (wp_mono _ _ _ _ (λ a, match a with
    | Ok auth => (authenticationTokenFile flags = "" → auth = []) ∧
        (authenticationTokenFile flags ≠ "" → ∃ token, auth = [("Authorization", "Bearer " ++ token)])
    | Err _ => True end)).
  - intros [auth|] Hauth; [|done]. cbn [prog_bind call wp]. split; [|intros [[[code hd] w]|err] _; cbn [wp rs_Id rs_StatusCode rs_Body rs_Eof];
      [split_and!; [reflexivity|discriminate|reflexivity|reflexivity]|exact I]].
    cbn. rewrite Em. split_and!; try done. exists sets, auth. split_and!; try done; apply Hauth.
  - unfold token. case_bool_decide as Hf; [by cbn|]. cbn. split; [done|]. intros [t|] _; [|done]. split; [done|].
    intros _. by exists t.
Qed.
Lemma ok_handleRequest req fuel : wellFormed req → ok req (handle fuel req) (λ _, True).
Proof.
  intros Hw. unfold handleRequest. apply wp_bind. eapply wp_mono; [|by apply ok_makeBackendRequest].
  intros [[r w]|err] Hr; [|apply ok_postErrorResponse].
  unfold streamResponses. case_bool_decide; [destruct w; [|apply ok_postErrorResponse]|]; cbn [negb prog_bind call wp];
    repeat (split; [done|]; intros [] _); apply ok_postResponses.
Qed.

(** How many responses were taken from the channel. *)
Definition takes (o : cop) : nat := match o with NextResponse => 1 | _ => 0 end.
Lemma onlyPosts_takes t : calls onlyPosts t → cost takes t = 0%nat.
Proof. induction t as [|[o r] t IH]; [done|]. intros [Ho Ht]. cbn. rewrite IH by done. by destruct o. Qed.
Lemma exec_postResponses fuel t out : codec_errors → exec (posts fuel) t out →
  out = Done tt ∧ (cost takes t = fuel ∨ ∃ pre, t = (pre ++ [existT NextResponse None])%list).
Proof.
  intros Hc. revert t. induction fuel as [|fuel IH]; intros t HE; cbn [postResponses prog_bind call exec] in HE.
  { destruct HE as [-> ->]. split; [done|by left]. }
  destruct HE as ([r|] & t1 & -> & HE); [|destruct HE as [-> ->]; split; [done|right; by exists []]].
  apply exec_bind in HE as [(m & HE & _)|(t2 & t3 & e & -> & HE & HE3)].
  { by destruct (wp_exec_any _ _ _ _ _ _ (only_retryPost r) HE) as [_ []]. }
  destruct (wp_exec_any _ _ _ _ _ _ (only_retryPost r) HE) as [Hcalls He]. specialize (He Hc).
  assert (exec (posts fuel) t3 out) as HE' by (by destruct e as [[]|]).
  destruct (IH _ HE') as [-> [Hn|[pre ->]]]; (split; [done|]).
  - left. cbn [cost takes projT1]. rewrite cost_app, onlyPosts_takes by done. lia.
  - right. exists (existT NextResponse (Some r) :: t2 ++ pre)%list. cbn. by rewrite <-(assoc_L (++)).
Qed.
End handling.

(** Handling a request stays within its bounds.  For any request with an ID,
    a method, a URL and complete headers, whatever the backend and the relay
    answer, [handleRequest] ends without a panic; the request goes only to the
    configured backend, with the request's method, body and headers, the
    configured token last; and everything posted goes to the relay server's
    response URL. *)
Theorem handleRequest_confined flags URL_String url_Parse StatusText newRequestError marshalResponse fuel req t out :
  wellFormed req →
  exec (handleRequest flags URL_String url_Parse StatusText newRequestError marshalResponse fuel req) t out →
  calls (scope flags URL_String marshalResponse req) t ∧ out = Done tt.
Proof.
  intros Hw HE.
  destruct (wp_exec_any _ _ _ _ _ _
    (ok_handleRequest flags URL_String url_Parse StatusText newRequestError marshalResponse req fuel Hw) HE) as [Hc Ho].
  split; [exact Hc|]. by destruct out as [[]|].
Qed.

(** A permanent error does not stop the responses.  [postResponse] marks an
    unknown request ID as permanent, and [handleRequest] means to abort then;
    but [RetryNotify] returns the error unwrapped, so the loop goes on: it ends
    only when the channel of responses is closed. *)
Theorem responses_never_aborted flags URL_String StatusText marshalResponse fuel t out :
  codec_errors marshalResponse →
  exec (postResponses flags URL_String StatusText marshalResponse fuel) t out →
  out = Done tt ∧ (cost takes t = fuel ∨ ∃ pre, t = (pre ++ [existT NextResponse None])%list).
Proof. apply exec_postResponses. Qed.

(** *** Concrete runs *)

Example test_flags : Flags := mkFlags "https" "backend:443" "" true "https" "relay" "/prefix" "robot" "" 3.
Example parse_x (s : string) : result URL := Ok (mkURL "http" "invalid" "/x" "" "").
Example marshal_body (r : HttpResponse) : result string := Ok (rs_Body r).
Example no_text (code : Z) : string := "".
Example accept_all (m : string) (u : URL) : option error := None.
Example get_request : HttpRequest :=
  mkHttpRequest (Some "1") (Some "GET") None (Some "http://invalid/x") [mkHttpHeader (Some "A") (Some "b")] "".
(** A backend that answers, and a relay server that knows no request. *)
Example forgetful (o : cop) (rs : list HttpResponse) : option (resp o * list HttpResponse) :=
  match o with
  | LocalDo _ => Some (Ok (200%Z, [("A", ["b"])], false), rs)
  | RemotePost _ _ _ => Some (Ok (400%Z, Ok "unknown"), rs)
  | NextResponse => match rs with [] => Some (None, []) | r :: rs => Some (Some r, rs) end
  | GoResponses _ | GoStreamToBackend _ => Some (tt, rs)
  | _ => None
  end.

Lemma handleRequest_confined_witness : ∃ t,
  exec (handleRequest test_flags no_url parse_x no_text accept_all marshal_body 5 get_request) t (Done tt) ∧
  calls (scope test_flags no_url marshal_body get_request) t ∧ (length t = 7)%nat.
Proof.
  pose (p := handleRequest test_flags no_url parse_x no_text accept_all marshal_body 5 get_request).
  pose (t := trace_of (run forgetful p [first_message; last_message])).
  assert (exec p t (Done tt)) as HE by (by apply run_exec).
  exists t. split; [exact HE|]. split; [|by vm_compute].
  by apply (handleRequest_confined test_flags no_url parse_x no_text accept_all marshal_body 5 get_request t (Done tt)).
Defined.

Lemma responses_never_aborted_witness : ∃ t,
  exec (postResponses test_flags no_url no_text marshal_body 5) t (Done tt) ∧ cost takes t = 3%nat ∧
  ∃ pre, t = (pre ++ [existT NextResponse None])%list.
Proof.
  pose (p := postResponses test_flags no_url no_text marshal_body 5).
  pose (t := trace_of (run forgetful p [first_message; last_message])).
  assert (exec p t (Done tt)) as HE by (by apply run_exec).
  exists t. split; [exact HE|]. split; [by vm_compute|].
  destruct (responses_never_aborted test_flags no_url no_text marshal_body 5 t (Done tt)) as [_ [H|H]];
    [done|exact HE|by vm_compute in H|exact H].
Defined.
