(* ===== verification/AuthProxy.v ===== *)
(** * src/go/cmd/app-auth-proxy: authentication in front of web applications

    [Module Model] translates internal/auth/sapoidc.go, internal/proxy/proxy.go,
    internal/config/config.go and main.go.  The session store, the identity
    provider, the reverse proxy and the one variable all requests share
    ([oc.state]) are calls; [browser] is a concrete world of them, in which the
    theorems about logins run several users' requests. *)
From stdpp Require Import prelude strings gmap list sorting.
From Stdlib Require Import Ascii ZArith.
From S2P Require Import Prelude GoErr GoStr Kube HttpRelay.

Open Scope string_scope.
Open Scope prog_scope.

Module Model.
Import HttpRelay.Model(URL, mkURL, u_Scheme, u_Host, u_Path, u_RawQuery, u_Fragment, Header,
  StatusBadRequest, StatusInternalServerError).

Definition StatusFound : Z := 302.
Definition StatusSeeOther : Z := 303.
Definition StatusUnauthorized : Z := 401.

(** ** config.go *)

Record MethodScope := mkMethodScope { HTTPMethod : string; Scope : string }.
Definition MethodScopes : Type := list MethodScope.
Record RouteConfig := mkRouteConfig {
  rc_Path : string; rc_Priority : Z; rc_Protected : bool; rc_RemoveFromPath : string; rc_Target : string;
  rc_HTTPMethodScopes : MethodScopes; rc_ForwardAuthToken : bool }.
Record IDPConfig := mkIDPConfig {
  idp_ClientID : string; idp_ClientSecret : string; idp_URL : string; idp_TokenEndpointAuthMethod : string;
  idp_XSAppName : string }.
Record RedisStore := mkRedisStore { redis_Addr : string; redis_Password : string; redis_DB : Z }.
Record Cookie := mkCookie { ck_SessionName : string; ck_MaxAgeSeconds : Z; ck_Key : string; ck_HttpOnly : bool }.
Record Config := mkConfig {
  cf_Routes : list RouteConfig; cf_IDPConfig : IDPConfig; cf_RedirectURI : string; cf_Debug : bool;
  cf_RedisStore : RedisStore; cf_Cookie : Cookie }.
#[export] Instance MethodScope_eq_dec : EqDecision MethodScope.
Proof. solve_decision. Defined.
#[export] Instance RouteConfig_eq_dec : EqDecision RouteConfig.
Proof. solve_decision. Defined.
#[export] Instance IDPConfig_eq_dec : EqDecision IDPConfig.
Proof. solve_decision. Defined.
#[export] Instance RedisStore_eq_dec : EqDecision RedisStore.
Proof. solve_decision. Defined.
#[export] Instance Cookie_eq_dec : EqDecision Cookie.
Proof. solve_decision. Defined.
#[export] Instance Config_eq_dec : EqDecision Config.
Proof. solve_decision. Defined.
(** [Config{}] *)
Definition emptyConfig : Config :=
  mkConfig [] (mkIDPConfig "" "" "" "" "") "" false (mkRedisStore "" "" 0) (mkCookie "" 0 "" false).

(** ** sapoidc.go: data *)

Record InitConfig := mkInitConfig {
  ic_ClientID : string; ic_ClientSecret : string; ic_URL : string; ic_RedirectURL : string;
  ic_Token_endpoint_auth_method : string; ic_XSAppName : string }.
(** What a provider says of itself. *)
Record Endpoint := mkEndpoint { AuthURL : string; TokenURL : string; AuthStyleInParams : bool }.
(** The mutable field [state] is behind the calls [GetState] and [SetState]. *)
Record OIDCConfig := mkOIDCConfig {
  oc_url : string; oc_ClientID : string; oc_ClientSecret : string; oc_Endpoint : Endpoint;
  oc_RedirectURL : string; oc_Scopes : list string; oc_sessionName : string; oc_xsappname : string }.

(** Times and durations are nanoseconds. *)
Record Token := mkToken { AccessToken : string; Expiry : Z }.
Record oidcResp := mkOidcResp { OAuth2Token : Token; IDTokenClaims : option json }.
Record group := mkGroup { Value : string; Display : string; Type_ : string }.
(** [nil] is [None]. *)
Record groups := mkGroups { Group : option (list group) }.

(** The dynamic values of a session: a structure or a pointer to one. *)
Inductive sval :=
| VString (s : string)
| VOidcResp (r : oidcResp)
| VOidcRespPtr (r : oidcResp)
| VGroups (p : option groups).
(** [session.Values] *)
Abbreviation Session := (gmap string sval).

(** [ctxToken] is the value ["token"] of the request's context. *)
Record Request := mkRequest {
  r_Method : string; r_URL : URL; r_Header : Header; r_Host : string; ctxToken : option string }.

(** The calls: the session store, [oc.state], clock and random source, the
    identity provider, the response writer, the reverse proxy, start-up. *)
Inductive aop : Type :=
| SessionGet
| SessionSave (s : Session)
| GetState | SetState (s : string)
| Now
| Intn (n : Z)
| Exchange (code : string)
| Verify (rawIDToken : string)
| HttpGet (url authorization : string)
| Error (msg : string) (code : Z)
| Redirect (url : string) (code : Z)
| SetContentType (v : string)
| Write (data : string)
| WriteJSON (j : json)
| ReverseProxy (target : URL) (r : Request)
| NewProvider (url : string)
| Executable
| ReadConfig (path : string)
| EnvConfig
| NewRedisStore (c : RedisStore) (k : Cookie)
| NewMemStore (k : Cookie).
#[export] Instance aop_effect : Effect aop := λ o,
  match o with
  | SessionGet => Session * option error
  | SessionSave _ => option error
  | GetState => string
  | Now | Intn _ => Z
  | Exchange _ => result (Token * option string)   (* the token and its id_token, if that is a string *)
  | Verify _ => result (result json)               (* a verified ID token: its claims *)
  | HttpGet _ _ => result (option json)            (* the body: None if it is not JSON *)
  | NewProvider _ => result Endpoint
  | Executable => result string
  | ReadConfig _ => result Config
  | EnvConfig => result IDPConfig
  | NewRedisStore _ _ => option error
  | _ => unit
  end%type.

(** ** sapoidc.go: sessions, tokens, JSON *)

Definition getSessionInfo (s : Session) : option oidcResp :=
  match s !! "OIDCResp" with Some (VOidcRespPtr r) => Some r | _ => None end.
Definition getSessionGroups (s : Session) : option groups :=
  match s !! "Groups" with Some (VGroups p) => p | _ => None end.

(** [t.Sub(u)] saturates. *)
Definition maxDuration : Z := (2 ^ 63 - 1)%Z.
Definition minDuration : Z := (- 2 ^ 63)%Z.
Definition Sub (t u : Z) : Z := Z.max minDuration (Z.min maxDuration (t - u)).

(** [json.Unmarshal] of an object into a string field: keys match without
    regard to case, a later one overwrites; [true] is a type error. *)
Definition decodeField (name : string) (acc : string * bool) (kv : string * json) : string * bool :=
  if bool_decide (ToLower kv.1 = name) then
    match kv.2 with
    | JString s => (s, acc.2)
    | JNull => acc
    | _ => (acc.1, true)
    end
  else acc.
Definition decodeString (name : string) (fields : list (string * json)) : string * bool :=
  foldl (decodeField name) ("", false) fields.

Definition getUserId (claimsData : json) : string :=
  match claimsData with
  | JObj fields => if (decodeString "user_id" fields).2 then "no user found" else (decodeString "user_id" fields).1
  | JNull => ""
  | _ => "no user found"
  end.

(** [json.Unmarshal(body, &groups)]; its error is ignored, so that what does
    not fit is skipped (a body that repeats the key aside). *)
Definition decodeGroup (j : json) : group :=
  match j with
  | JObj fields => mkGroup (decodeString "value" fields).1 (decodeString "display" fields).1 (decodeString "type" fields).1
  | _ => mkGroup "" "" ""
  end.
Definition decodeGroupField (acc : option (list group)) (kv : string * json) : option (list group) :=
  if bool_decide (ToLower kv.1 = "groups") then
    match kv.2 with
    | JList l => Some (decodeGroup <$> l)
    | JNull => None
    | _ => acc
    end
  else acc.
Definition decodeGroups (body : option json) : option groups :=
  match body with
  | Some JNull => None
  | Some (JObj fields) => Some (mkGroups (foldl decodeGroupField None fields))
  | _ => Some (mkGroups None)
  end.

(** [json.Marshal] of the groups. *)
Definition encodeGroup (g : group) : json :=
  JObj [("value", JString (Value g)); ("display", JString (Display g)); ("type", JString (Type_ g))].
Definition encodeGroups (g : groups) : json :=
  match Group g with Some l => JList (encodeGroup <$> l) | None => JNull end.

Definition letterRunes : string := "abcdefghijklmnopqrstuvwxyzABCDEFGHIJKLMNOPQRSTUVWXYZ".
Definition genRune (s : string) : prog aop string :=
  let! i := call (Intn (Z.of_nat (String.length letterRunes))) in
  match String.get (Z.to_nat i) letterRunes with
  | Some c => Ret (s ++ String c "")
  | None => Panic "index out of range"
  end.
Definition genState : prog aop string := loop (λ _, genRune) (seq 0 40) "".

Definition deref {A B} (p : option A) (f : A → prog aop B) : prog aop B :=
  match p with Some a => f a | None => Panic "nil pointer dereference" end.
Definition fail (msg : string) : prog aop unit := call (Error msg StatusInternalServerError).

(** ** sapoidc.go: handlers *)

Definition withToken (t : string) (r : Request) : Request :=
  mkRequest (r_Method r) (r_URL r) (r_Header r) (r_Host r) (Some t).

Section auth.
(** The oauth2 package's URL of the login page, [url.Values.Get] of a query,
    and the check of [http.NewRequest]. *)
Context (AuthCodeURL : OIDCConfig → string → string) (queryGet : string → string → string)
  (newRequestError : string → option error).
Context (oc : OIDCConfig).

Definition redirectToLogin : prog aop unit :=
  let! st := genState in
  let! _ := call (SetState st) in
  let! st := call GetState in
  call (Redirect (AuthCodeURL oc st) StatusFound).

(** The e-mail address is read from the claims for a log line. *)
Definition AuthN_Handler (next : Request → prog aop unit) (r : Request) : prog aop unit :=
  let! ' (session, err) := call SessionGet in
  match err with
  | Some err => fail (error_text err)
  | None =>
      match getSessionInfo session with
      | None =>
          let! err := call (SessionSave (<["reqPath" := VString (u_Path (r_URL r))]> session)) in
          match err with
          | Some err => fail (error_text err)
          | None => redirectToLogin
          end
      | Some sessionInfo =>
          let! now := call Now in
          let diff := Sub (Expiry (OAuth2Token sessionInfo)) now in
          deref (IDTokenClaims sessionInfo) (λ _,
            if (diff <? 5 * Second)%Z then redirectToLogin
            else next (withToken (AccessToken (OAuth2Token sessionInfo)) r))
      end
  end.

Definition setUserGroups (userID token : string) (session : Session) : prog aop Session :=
  let userURL := oc_url oc ++ "/Users/" ++ userID in
  match newRequestError userURL with
  | Some _ => Ret session
  | None =>
      let! resp := call (HttpGet userURL ("Bearer " ++ token)) in
      match resp with
      | Err _ => Ret session
      | Ok body => Ret (<["Groups" := VGroups (decodeGroups body)]> session)
      end
  end.

Definition HandleCallback (r : Request) : prog aop unit :=
  let! st := call GetState in
  if negb (bool_decide (queryGet (u_RawQuery (r_URL r)) "state" = st)) then
    call (Error "state did not match" StatusBadRequest)
  else
    let! tok := call (Exchange (queryGet (u_RawQuery (r_URL r)) "code")) in
    match tok with
    | Err err => fail ("Failed to exchange token: " ++ error_text err)
    | Ok (_, None) => fail "No id_token field in oauth2 token."
    | Ok (oauth2Token, Some rawIDToken) =>
        let! idToken := call (Verify rawIDToken) in
        match idToken with
        | Err err => fail ("Failed to verify ID Token: " ++ error_text err)
        | Ok claims =>
            let! ' (session, _) := call SessionGet in
            match claims with
            | Err err => fail (error_text err)
            | Ok claims =>
                let session := <["OIDCResp" := VOidcResp (mkOidcResp oauth2Token (Some claims))]> session in
                let! session := setUserGroups (getUserId claims) (AccessToken oauth2Token) session in
                let! err := call (SessionSave session) in
                match err with
                | Some err => fail (error_text err)
                | None =>
                    match session !! "reqPath" with
                    | Some (VString reqPath) => call (Redirect reqPath StatusSeeOther)
                    | _ => Panic "interface conversion: interface {} is not string"
                    end
                end
            end
        end
    end.

(** The loop over the rules: is the method unrestricted, and the scopes that
    allow it. *)
Fixpoint scopesForMethod (httpMethod : string) (methodScopes : MethodScopes) (scopes : list string) : bool * list string :=
  match methodScopes with
  | [] => (false, scopes)
  | value :: l =>
      if bool_decide (HTTPMethod value = "*") && bool_decide (Scope value = "*") then (true, scopes)
      else if bool_decide (httpMethod = ToUpper (HTTPMethod value)) && bool_decide (Scope value = "*") then (true, scopes)
      else if bool_decide (httpMethod = ToUpper (HTTPMethod value)) || bool_decide (HTTPMethod value = "*") then
        scopesForMethod httpMethod l (scopes ++ [Replace1 (Scope value) "$XSAPPNAME" (oc_xsappname oc)])%list
      else scopesForMethod httpMethod l scopes
  end.
Definition anyScope (scopes : list string) (l : list group) : bool :=
  existsb (λ value, existsb (λ methodScope, bool_decide (methodScope = Display value)) scopes) l.

Definition AuthZ_Handler (methodScopes : MethodScopes) (next : Request → prog aop unit) (r : Request) : prog aop unit :=
  let '(unrestricted, scopes) := scopesForMethod (r_Method r) methodScopes [] in
  if bool_decide (length methodScopes = 0%nat) || unrestricted then next r
  else
    let! ' (session, err) := call SessionGet in
    match err with
    | Some err => fail (error_text err)
    | None =>
        deref (getSessionGroups session) (λ sessionGroups,
          if anyScope scopes (default [] (Group sessionGroups)) then next r
          else call (Error "Unauthorized." StatusUnauthorized))
    end.

Definition GetUserGroups (_ : Request) : prog aop unit :=
  let! ' (session, err) := call SessionGet in
  match err with
  | Some err => fail (error_text err)
  | None =>
      match getSessionGroups session with
      | None => call (Write "Could not find any groups for user")
      | Some g => let! _ := call (SetContentType "application/json") in call (WriteJSON (encodeGroups g))
      end
  end.
Definition GetUser (_ : Request) : prog aop unit :=
  let! ' (session, err) := call SessionGet in
  match err with
  | Some err => fail (error_text err)
  | None =>
      match getSessionInfo session with
      | None => call (Write "Could not find any session information")
      | Some i => let! _ := call (SetContentType "application/json") in call (WriteJSON (default JNull (IDTokenClaims i)))
      end
  end.
End auth.

(** ** sapoidc.go: set-up; [log.Fatal] ends the process *)

Definition Fatal {A} (msg : string) : prog aop A := Panic ("log.Fatal: " ++ msg).

Definition InitOIDC (appConfig : InitConfig) (sessionName : string) : prog aop OIDCConfig :=
  let! p := call (NewProvider (ic_URL appConfig)) in
  let! p :=
    match p with
    | Ok p => Ret p
    | Err _ =>
        let! p := call (NewProvider (ic_URL appConfig ++ "/oauth/token")) in
        match p with Ok p => Ret p | Err err => Fatal (error_text err) end
    end in
  let endpoint :=
    if bool_decide (ic_Token_endpoint_auth_method appConfig = "client_secret_post")
    then mkEndpoint (AuthURL p) (TokenURL p) true else p in
  Ret (mkOIDCConfig (ic_URL appConfig) (ic_ClientID appConfig) (ic_ClientSecret appConfig) endpoint
         (ic_RedirectURL appConfig) ["openid"] sessionName (ic_XSAppName appConfig)).

(** ** proxy.go *)

(** [Header.Set] and [Header.Add] of a canonical name. *)
Fixpoint headerSet (k v : string) (h : Header) : Header :=
  match h with
  | [] => [(k, [v])]
  | (k', vs) :: h => if bool_decide (k' = k) then (k, [v]) :: h else (k', vs) :: headerSet k v h
  end.
Fixpoint headerAdd (k v : string) (h : Header) : Header :=
  match h with
  | [] => [(k, [v])]
  | (k', vs) :: h => if bool_decide (k' = k) then (k, (vs ++ [v])%list) :: h else (k', vs) :: headerAdd k v h
  end.

(** What a request is matched by: a path, a path prefix, and the methods
    (none: any). *)
Inductive matcher := MPath (path : string) (methods : list string) | MPathPrefix (path : string).
Definition routes : Type := list (matcher * (Request → prog aop unit)).

Section proxy.
Context (AuthCodeURL : OIDCConfig → string → string) (queryGet : string → string → string)
  (newRequestError : string → option error) (url_Parse : string → result URL).

(** [url.Parse]'s error is dropped: the URL is nil then. *)
Definition serveFromProxy (target removeFromPath : string) (forwardAuthToken : bool) (r : Request) : prog aop unit :=
  let path :=
    if bool_decide (removeFromPath = "") then u_Path (r_URL r)
    else Replace1 (u_Path (r_URL r)) removeFromPath "" in
  match url_Parse target with
  | Err _ => Panic "nil pointer dereference"
  | Ok url =>
      let header := headerSet "Host" (u_Host url) (headerAdd "Referer" (u_Host url) (r_Header r)) in
      let header :=
        match ctxToken r with
        | Some token => if forwardAuthToken then headerSet "Authorization" ("Bearer " ++ token) header else header
        | None => header
        end in
      call (ReverseProxy url
        (mkRequest (r_Method r)
           (mkURL (u_Scheme url) (u_Host url) path (u_RawQuery (r_URL r)) (u_Fragment (r_URL r)))
           header (u_Host url) (ctxToken r)))
  end.

Definition prio_le : relation RouteConfig := λ a b, (rc_Priority a ≤ rc_Priority b)%Z.
#[export] Instance prio_le_dec : RelDecision prio_le := λ a b, Z.le_dec (rc_Priority a) (rc_Priority b).
(** [sort.Slice]; Go leaves the order of equal priorities open. *)
Definition sortRoutes (l : list RouteConfig) : list RouteConfig := merge_sort prio_le l.

Definition routeHandler (oc : OIDCConfig) (rc : RouteConfig) : Request → prog aop unit :=
  let proxy := serveFromProxy (rc_Target rc) (rc_RemoveFromPath rc) (rc_ForwardAuthToken rc) in
  if rc_Protected rc then AuthN_Handler AuthCodeURL oc (AuthZ_Handler oc (rc_HTTPMethodScopes rc) proxy) else proxy.

Definition SetRoutes (appconfig : Config) (oc : OIDCConfig) : routes :=
  ([(MPath "/oauth/callback" [], HandleCallback queryGet newRequestError oc);
   (MPath "/auth/user" ["GET"], AuthN_Handler AuthCodeURL oc GetUser);
   (MPath "/auth/groups" ["GET"], AuthN_Handler AuthCodeURL oc GetUserGroups)] ++
  ((λ rc, (MPathPrefix (rc_Path rc), routeHandler oc rc)) <$> sortRoutes (cf_Routes appconfig)))%list.

(** ** config.go, main.go *)

Definition initIDPConfigFromEnv (appConfig : Config) : prog aop Config :=
  let! idp := call EnvConfig in
  match idp with
  | Err err => Fatal ("Please check the configuration parameters...." ++ error_text err)
  | Ok idp => Ret (mkConfig (cf_Routes appConfig) idp (cf_RedirectURI appConfig) (cf_Debug appConfig)
                     (cf_RedisStore appConfig) (cf_Cookie appConfig))
  end.

(** [appConfig] is the global variable; [Dir] and [Join] of path/filepath
    make the name of the file. *)
Definition GetConfig (configPath : string → string) (appConfig : Config) : prog aop Config :=
  if bool_decide (appConfig = emptyConfig) then
    let! b := call Executable in
    match b with
    | Err err => Fatal ("Unable to determine the directory of app executable...." ++ error_text err)
    | Ok b =>
        let! config := call (ReadConfig (configPath b)) in
        match config with
        | Err err => Fatal ("Please check the config.json parameters...." ++ error_text err)
        | Ok config =>
            if bool_decide (idp_URL (cf_IDPConfig config) = "") then initIDPConfigFromEnv config else Ret config
        end
    end
  else Ret appConfig.

Definition setOIDCConfig (c : Config) : InitConfig :=
  mkInitConfig (idp_ClientID (cf_IDPConfig c)) (idp_ClientSecret (cf_IDPConfig c)) (idp_URL (cf_IDPConfig c))
    (cf_RedirectURI c) (idp_TokenEndpointAuthMethod (cf_IDPConfig c)) (idp_XSAppName (cf_IDPConfig c)).

Definition setRedisStore (c : Config) : prog aop unit :=
  let! err := call (NewRedisStore (cf_RedisStore c) (cf_Cookie c)) in
  match err with
  | Some err => Fatal ("failed to create redis store with address: " ++ redis_Addr (cf_RedisStore c) ++
                       ", error: " ++ error_text err ++ " ")
  | None => Ret tt
  end.
Definition setMemStore (c : Config) : prog aop unit := call (NewMemStore (cf_Cookie c)).

(** Up to [ListenAndServe]. *)
Definition main (configPath : string → string) : prog aop routes :=
  let! appconfig := GetConfig configPath emptyConfig in
  let oidcConfig := setOIDCConfig appconfig in
  let! _ := if bool_decide (redis_Addr (cf_RedisStore appconfig) = "") then setMemStore appconfig
            else setRedisStore appconfig in
  let! oc := InitOIDC oidcConfig (ck_SessionName (cf_Cookie appconfig)) in
  Ret (SetRoutes appconfig oc).
End proxy.
End Model.

Import HttpRelay.Model(URL, mkURL, u_Scheme, u_Host, u_Path, u_RawQuery, u_Fragment, Header,
  StatusBadRequest, StatusInternalServerError).
Import Model.

(** ** Authorization *)

(** A rule speaks of a method if it names it, in any case, or all of them. *)
Definition applies (httpMethod : string) (m : MethodScope) : Prop :=
  httpMethod = ToUpper (HTTPMethod m) ∨ HTTPMethod m = "*".
Definition unrestricted (httpMethod : string) (ms : MethodScopes) : Prop :=
  ms = [] ∨ ∃ m, m ∈ ms ∧ applies httpMethod m ∧ Scope m = "*".
(** One of the user's groups is a scope a rule for the method asks for. *)
Definition permitted (oc : OIDCConfig) (httpMethod : string) (ms : MethodScopes) (l : list group) : Prop :=
  ∃ g m, g ∈ l ∧ m ∈ ms ∧ applies httpMethod m ∧ Display g = Replace1 (Scope m) "$XSAPPNAME" (oc_xsappname oc).

Lemma applies_bool httpMethod m :
  bool_decide (httpMethod = ToUpper (HTTPMethod m)) || bool_decide (HTTPMethod m = "*") = true ↔ applies httpMethod m.
Proof. unfold applies. rewrite orb_true_iff, !bool_decide_eq_true. tauto. Qed.

Lemma scopesForMethod_true oc httpMethod ms acc :
  (scopesForMethod oc httpMethod ms acc).1 = true ↔ ∃ m, m ∈ ms ∧ applies httpMethod m ∧ Scope m = "*".
Proof.
  revert acc. induction ms as [|v ms IH]; intros acc; cbn [scopesForMethod].
  { split; [done|]. intros (m & Hm & _). by apply not_elem_of_nil in Hm. }
  assert ((∃ m, m ∈ v :: ms ∧ applies httpMethod m ∧ Scope m = "*") ↔
    (applies httpMethod v ∧ Scope v = "*") ∨ ∃ m, m ∈ ms ∧ applies httpMethod m ∧ Scope m = "*") as ->.
  { set_unfold. naive_solver. }
  pose proof (applies_bool httpMethod v) as Ha.
  destruct (bool_decide (Scope v = "*")) eqn:Hs; [apply bool_decide_eq_true in Hs|apply bool_decide_eq_false in Hs];
    destruct (bool_decide (HTTPMethod v = "*")), (bool_decide (httpMethod = ToUpper (HTTPMethod v)));
    cbn [andb orb fst] in *; rewrite ?IH; naive_solver.
Qed.

Lemma scopesForMethod_scopes oc httpMethod ms acc s :
  (scopesForMethod oc httpMethod ms acc).1 = false →
  s ∈ (scopesForMethod oc httpMethod ms acc).2 ↔
  s ∈ acc ∨ ∃ m, m ∈ ms ∧ applies httpMethod m ∧ s = Replace1 (Scope m) "$XSAPPNAME" (oc_xsappname oc).
Proof.
  revert acc. induction ms as [|v ms IH]; intros acc; cbn [scopesForMethod].
  { cbn. intros _. split; [by left|]. intros [?|(m & Hm & _)]; [done|]. by apply not_elem_of_nil in Hm. }
  assert ((∃ m, m ∈ v :: ms ∧ applies httpMethod m ∧ s = Replace1 (Scope m) "$XSAPPNAME" (oc_xsappname oc)) ↔
    (applies httpMethod v ∧ s = Replace1 (Scope v) "$XSAPPNAME" (oc_xsappname oc)) ∨
    ∃ m, m ∈ ms ∧ applies httpMethod m ∧ s = Replace1 (Scope m) "$XSAPPNAME" (oc_xsappname oc)) as ->.
  { set_unfold. naive_solver. }
  destruct (bool_decide (HTTPMethod v = "*") && _) eqn:E1; [done|].
  destruct (bool_decide (httpMethod = _) && _) eqn:E2; [done|].
  pose proof (applies_bool httpMethod v) as Ha.
  destruct (bool_decide (httpMethod = _) || _) eqn:E3; intros Hf; rewrite IH by done; [|naive_solver].
  assert (applies httpMethod v) by tauto. rewrite elem_of_app, list_elem_of_singleton. naive_solver.
Qed.

Lemma anyScope_true scopes l : anyScope scopes l = true ↔ ∃ g, g ∈ l ∧ Display g ∈ scopes.
Proof.
  unfold anyScope. rewrite existsb_exists. split.
  - intros (g & Hg & (s & Hs & E%bool_decide_eq_true)%existsb_exists). subst.
    exists g. by rewrite !list_elem_of_In.
  - intros (g & Hg & Hs). apply list_elem_of_In in Hg; apply list_elem_of_In in Hs. exists g. split; [done|].
    apply existsb_exists. exists (Display g). split; [done|]. by apply bool_decide_eq_true.
Qed.

(** What the handler does when a rule restricts the method. *)
Definition AuthZ_restricted (oc : OIDCConfig) (ms : MethodScopes) (next : Request → prog aop unit) (r : Request)
    (t : list (event aop)) (out : outcome unit) : Prop :=
  ∃ session err t', t = (SessionGet ▷ (session, err)) :: t' ∧
    match err, getSessionGroups session with
    | Some err, _ => t' = [Error (error_text err) StatusInternalServerError ▷ tt] ∧ out = Done tt
    | None, None => t' = [] ∧ out = Panicked "nil pointer dereference"
    | None, Some gs =>
        (permitted oc (r_Method r) ms (default [] (Group gs)) ∧ exec (next r) t' out) ∨
        (¬ permitted oc (r_Method r) ms (default [] (Group gs)) ∧
         t' = [Error "Unauthorized." StatusUnauthorized ▷ tt] ∧ out = Done tt)
    end.

Lemma AuthZ_open oc ms next r : unrestricted (r_Method r) ms → AuthZ_Handler oc ms next r = next r.
Proof.
  intros Hu. unfold AuthZ_Handler. pose proof (scopesForMethod_true oc (r_Method r) ms []) as H1.
  destruct (scopesForMethod oc (r_Method r) ms []) as [b l]. cbn in H1. destruct Hu as [->|Hm]; [done|].
  apply H1 in Hm. subst. by rewrite orb_true_r.
Qed.

Lemma AuthZ_closed oc ms next r t out : ¬ unrestricted (r_Method r) ms →
  exec (AuthZ_Handler oc ms next r) t out ↔ AuthZ_restricted oc ms next r t out.
Proof.
  intros Hu. unfold AuthZ_Handler, AuthZ_restricted. pose proof (scopesForMethod_true oc (r_Method r) ms []) as H1.
  pose proof (λ s, scopesForMethod_scopes oc (r_Method r) ms [] s) as H2.
  destruct (scopesForMethod oc (r_Method r) ms []) as [[] l]; cbn in H1, H2.
  { destruct Hu. right. by apply H1. }
  destruct (bool_decide (length ms = 0%nat)) eqn:E.
  { apply bool_decide_eq_true, length_zero_iff_nil in E. destruct Hu. by left. }
  cbn [orb exec prog_bind call]. split.
  - intros ([session err] & t' & -> & HE). exists session, err, t'. split; [done|].
    destruct err as [e|]; [by destruct HE as ([] & ? & -> & -> & ->)|].
    destruct (getSessionGroups session) as [gs|]; cbn [deref] in HE; [|done].
    destruct (anyScope l _) eqn:Ea.
    + left. split; [|done]. apply anyScope_true in Ea as (g & Hg & Hs). apply H2 in Hs as [Hs|(m & Hm)]; [|exists g, m; naive_solver|done].
      by apply not_elem_of_nil in Hs.
    + right. split; [|by destruct HE as ([] & ? & -> & -> & ->)]. intros (g & m & Hg & Hm & Hap & Hd).
      apply not_true_iff_false in Ea. apply Ea, anyScope_true. exists g. split; [done|]. apply H2; [done|]. right. by exists m.
  - intros (session & err & t' & -> & HE). exists (session, err), t'. split; [done|].
    destruct err as [e|]; [destruct HE as [-> ->]; by exists tt, []|].
    destruct (getSessionGroups session) as [gs|]; cbn [deref]; [|done].
    destruct (anyScope l _) eqn:Ea.
    + destruct HE as [[_ HE]|[Hn _]]; [done|]. destruct Hn. apply anyScope_true in Ea as (g & Hg & Hs).
      apply H2 in Hs as [Hs|(m & Hm)]; [|exists g, m; naive_solver|done]. by apply not_elem_of_nil in Hs.
    + destruct HE as [[(g & m & Hg & Hm & Hap & Hd) _]|[_ [-> ->]]]; [|by exists tt, []].
      apply not_true_iff_false in Ea. destruct Ea. apply anyScope_true. exists g. split; [done|]. apply H2; [done|].
      right. by exists m.
Qed.

(** The authorization handler decides what its rules say, in whatever order
    they are listed.  A method without rules, or one that some rule opens to
    every scope, is passed on without looking at the session.  Otherwise the
    request is passed on exactly if one of the user's groups is a scope that a
    rule for the method names, and else refused with 401; but a session
    without groups makes the handler panic. *)
Theorem AuthZ_decides (oc : OIDCConfig) (ms : MethodScopes) (next : Request → prog aop unit) (r : Request) :
  (unrestricted (r_Method r) ms → AuthZ_Handler oc ms next r = next r) ∧
  (¬ unrestricted (r_Method r) ms →
     ∀ t out, exec (AuthZ_Handler oc ms next r) t out ↔ AuthZ_restricted oc ms next r t out).
Proof. split; [apply AuthZ_open|]. intros. by apply AuthZ_closed. Qed.
Example some_oc : OIDCConfig :=
  mkOIDCConfig "https://idp" "id" "secret" (mkEndpoint "https://idp/auth" "https://idp/token" false)
    "https://app/oauth/callback" ["openid"] "session" "app!t1".
Example some_scopes : MethodScopes := [mkMethodScope "get" "*"; mkMethodScope "*" "$XSAPPNAME.Admin"].
Example some_request (method path query : string) : Request :=
  mkRequest method (mkURL "" "" path query "") [] "app" None.
Example some_groups : groups := mkGroups (Some [mkGroup "" "app!t1.Viewer" ""; mkGroup "" "app!t1.Admin" ""]).
Lemma AuthZ_decides_witness :
  AuthZ_Handler some_oc some_scopes (λ _, call (Write "ok")) (some_request "GET" "/" "") = call (Write "ok") ∧
  AuthZ_restricted some_oc some_scopes (λ _, call (Write "ok")) (some_request "POST" "/" "")
    [SessionGet ▷ (<["Groups" := VGroups (Some some_groups)]> ∅, None); Write "ok" ▷ tt] (Done tt).
Proof.
  split.
  - refine (proj1 (AuthZ_decides some_oc some_scopes (λ _, call (Write "ok")) (some_request "GET" "/" "")) _).
    right. exists (mkMethodScope "get" "*"). split_and!; [by left|by left|done].
  - refine (proj1 (proj2 (AuthZ_decides some_oc some_scopes (λ _, call (Write "ok")) (some_request "POST" "/" "")) _ _ _) _).
    + intros [?|(m & [->|[->|[]%not_elem_of_nil]%elem_of_cons]%elem_of_cons & Ha & Hs)]; [done| |done].
      by destruct Ha.
    + eexists _, _. split; [reflexivity|]. eexists tt, []. split; [reflexivity|]. by split.
Defined.

(** ** Authentication *)

(** The calls of a request that is not passed on. *)
Definition login_call (o : aop) : Prop :=
  match o with
  | SessionGet | SessionSave _ | Now | Intn _ | SetState _ | GetState | Error _ _ | Redirect _ _ => True
  | _ => False
  end.

Lemma get_None n s : String.get n s = None → (String.length s ≤ n)%nat.
Proof.
  revert s. induction n as [|n IH]; intros [|c s] Hs; cbn in *; [lia|done|lia|]. specialize (IH s Hs). lia.
Qed.
Lemma letter_some i : (0 ≤ i < Z.of_nat (String.length letterRunes))%Z →
  ∃ c, String.get (Z.to_nat i) letterRunes = Some c.
Proof. intros Hi. destruct (String.get _ _) eqn:E; [by eexists|]. apply get_None in E. lia. Qed.

Lemma wp_genState (P : string → Prop) :
  (∀ s, String.length s = 40%nat → P s) →
  wp (λ o (x : resp o), match o return resp o → Prop with Intn n => λ i, (0 ≤ i < n)%Z | _ => λ _, True end x)
    login_call no_panic genState P.
Proof.
  intros HP. unfold genState.
  apply (wp_mono _ _ _ _ (λ s, String.length s = (length (rev (seq 0 40) ++ []))%nat)).
  { intros s Hs. apply HP. by rewrite Hs. }
  apply (wp_loop_done _ _ _ _ _ (λ dn s, String.length s = length dn)); [|done].
  intros x dn s _ Hs. unfold genRune. cbn [wp prog_bind call]. split; [done|]. intros i Hi.
  destruct (String.get (Z.to_nat i) letterRunes) eqn:E; cbn [wp].
  - rewrite app_length_s, Hs. cbn. lia.
  - by destruct (letter_some i Hi) as [c Hc]; rewrite Hc in E.
Qed.

Section routes.
Context (AuthCodeURL : OIDCConfig → string → string) (url_Parse : string → result URL).

(** A session whose token is still good for five seconds. *)
Definition live (session : Session) (now : Z) (token : string) : Prop :=
  ∃ info, getSessionInfo session = Some info ∧ token = AccessToken (OAuth2Token info) ∧
    (5 * Second ≤ Sub (Expiry (OAuth2Token info)) now)%Z.

Lemma exec_login t out oc : exec (redirectToLogin AuthCodeURL oc) t out → calls login_call t.
Proof.
  intros HE. unfold redirectToLogin in HE.
  refine (proj1 (wp_exec_any login_call any_panic _ (λ _, True) t out _ HE)).
  apply wp_bind. apply (wp_mono _ _ _ _ (λ _, True)).
  { intros s _. cbn. auto. }
  apply (wp_loop _ _ _ _ _ (λ _, True)); [|done]. intros x s _ _. unfold genRune. cbn [wp prog_bind call].
  split; [done|]. intros i _. by destruct (String.get _ _).
Qed.

Lemma exec_AuthN oc next r t out :
  exec (AuthN_Handler AuthCodeURL oc next r) t out →
  calls login_call t ∨
  ∃ session now token t', t = (SessionGet ▷ (session, None)) :: (Now ▷ now) :: t' ∧ live session now token ∧
    exec (next (withToken token r)) t' out.
Proof.
  unfold AuthN_Handler. cbn [exec prog_bind call]. intros ([session err] & t1 & -> & HE).
  destruct err as [e|]; [destruct HE as ([] & ? & -> & -> & ->); by left|].
  destruct (getSessionInfo session) as [info|] eqn:Hi; cbn [exec prog_bind call] in HE.
  - destruct HE as (now & t2 & -> & HE). destruct (IDTokenClaims info) as [j|]; cbn [deref] in HE.
    + case_match.
      * left. repeat split. by eapply exec_login.
      * right. exists session, now, (AccessToken (OAuth2Token info)), t2. split; [done|]. split; [|done].
        exists info. split_and!; [done..|]. lia.
    + destruct HE as [-> ->]. by left.
  - destruct HE as (e & t2 & -> & HE). left. destruct e as [e|].
    + destruct HE as ([] & ? & -> & -> & ->). done.
    + repeat split. by eapply exec_login.
Qed.

Definition headerGet (k : string) (h : Header) : list string :=
  match list_find (λ kv, kv.1 = k) h with Some (_, (_, vs)) => vs | None => [] end.

Lemma headerGet_set k v h : headerGet k (headerSet k v h) = [v].
Proof.
  unfold headerGet. induction h as [|[k' vs] h IH]; cbn; [by rewrite decide_True|].
  case_bool_decide; cbn; [by rewrite decide_True|]. rewrite decide_False by done.
  destruct (list_find _ (headerSet k v h)) as [[? [? ?]]|] eqn:E; [|done]. exact IH.
Qed.

(** The request the reverse proxy gets, and the target it is sent to. *)
Definition forwarded (rc : RouteConfig) (token : string) (r : Request) (target : URL) (rq : Request) : Prop :=
  url_Parse (rc_Target rc) = Ok target ∧ r_Method rq = r_Method r ∧ r_Host rq = u_Host target ∧
  u_Scheme (r_URL rq) = u_Scheme target ∧ u_Host (r_URL rq) = u_Host target ∧
  u_RawQuery (r_URL rq) = u_RawQuery (r_URL r) ∧
  u_Path (r_URL rq) = (if bool_decide (rc_RemoveFromPath rc = "") then u_Path (r_URL r)
                       else Replace1 (u_Path (r_URL r)) (rc_RemoveFromPath rc) "") ∧
  (rc_ForwardAuthToken rc = true → headerGet "Authorization" (r_Header rq) = ["Bearer " ++ token]).

Lemma exec_serve rc token r t out :
  exec (serveFromProxy url_Parse (rc_Target rc) (rc_RemoveFromPath rc) (rc_ForwardAuthToken rc) (withToken token r)) t out →
  (t = [] ∧ out = Panicked "nil pointer dereference" ∧ ¬ is_ok (url_Parse (rc_Target rc))) ∨
  ∃ target rq, t = [ReverseProxy target rq ▷ tt] ∧ out = Done tt ∧ forwarded rc token r target rq.
Proof.
  unfold serveFromProxy. destruct (url_Parse (rc_Target rc)) as [target|e] eqn:Hp.
  - intros ([] & t' & -> & -> & ->). right. eexists target, _. split; [done|]. split; [done|].
    split_and!; try done. cbn [r_Header withToken ctxToken]. intros ->. apply headerGet_set.
  - intros [-> ->]. left. naive_solver.
Qed.

(** The authorization step between authentication and proxy: the events it
    adds. *)
Definition authorized (oc : OIDCConfig) (ms : MethodScopes) (httpMethod : string) (t : list (event aop)) : Prop :=
  (unrestricted httpMethod ms ∧ t = []) ∨
  (¬ unrestricted httpMethod ms ∧
   ∃ session gs, t = [SessionGet ▷ (session, None)] ∧ getSessionGroups session = Some gs ∧
     permitted oc httpMethod ms (default [] (Group gs))).

Lemma unrestricted_dec httpMethod ms : unrestricted httpMethod ms ∨ ¬ unrestricted httpMethod ms.
Proof.
  unfold unrestricted. pose proof (scopesForMethod_true some_oc httpMethod ms []) as <-.
  destruct ms, (scopesForMethod _ _ _ _).1; naive_solver.
Qed.

(** C31: A protected route lets nothing through that it should not.  Whatever
    the session store, the clock and the rest of the world answer: either the
    request is not passed on, or the trace is exactly: a session is read whose
    token is good for five more seconds; if the rules restrict the method, the
    session is read again and one of its groups satisfies a rule; then the
    request goes to the configured target with the configured path cut, the
    token of that session attached if the route says so.  Without a token it
    calls nothing but store, clock, random source and response writer. *)
Theorem protected_served_only_if_allowed (oc : OIDCConfig) (rc : RouteConfig) (r : Request)
    (t : list (event aop)) (out : outcome unit) :
  rc_Protected rc = true →
  exec (routeHandler AuthCodeURL url_Parse oc rc r) t out →
  calls login_call t ∨
  ∃ session now token t' target rq,
    t = ((SessionGet ▷ (session, None)) :: (Now ▷ now) :: t' ++ [ReverseProxy target rq ▷ tt])%list ∧ out = Done tt ∧
    live session now token ∧ authorized oc (rc_HTTPMethodScopes rc) (r_Method r) t' ∧
    forwarded rc token r target rq.
Proof.
  intros Hp. unfold routeHandler. rewrite Hp. intros HE.
  apply exec_AuthN in HE as [HE|(session & now & token & t1 & -> & Hl & HE)]; [by left|].
  destruct (unrestricted_dec (r_Method r) (rc_HTTPMethodScopes rc)) as [Hu|Hu].
  - rewrite AuthZ_open in HE by done. apply exec_serve in HE as [(-> & -> & _)|(target & rq & -> & -> & Hf)]; [by left|].
    right. exists session, now, token, [], target, rq. repeat (split; [done|]). split; [by left|done].
  - apply AuthZ_closed in HE; [|done]. destruct HE as (session' & err & t2 & -> & HE).
    destruct err as [e|]; [destruct HE as [-> ->]; by left|].
    destruct (getSessionGroups session') as [gs|] eqn:Hg; [|destruct HE as [-> ->]; by left].
    destruct HE as [[Hperm HE]|(_ & -> & ->)]; [|by left].
    apply exec_serve in HE as [(-> & -> & _)|(target & rq & -> & -> & Hf)]; [by left|].
    right. exists session, now, token, [SessionGet ▷ (session', None)], target, rq.
    repeat (split; [done|]). split; [right; split; [done|]; by exists session', gs|done].
Qed.
End routes.

(** ** The callback *)

Section callback.
Context (queryGet : string → string → string) (newRequestError : string → option error).

(** The groups are what the provider says of the user the token names, or what
    the session had when it cannot be asked. *)
Definition asked_groups (oc : OIDCConfig) (claims : json) (token : Token) (session s : Session) (t : list (event aop)) : Prop :=
  let userURL := oc_url oc ++ "/Users/" ++ getUserId claims in
  (t = [] ∧ newRequestError userURL ≠ None ∧ s = session) ∨
  (∃ err, t = [HttpGet userURL ("Bearer " ++ AccessToken token) ▷ Err err] ∧ s = session) ∨
  (∃ body, t = [HttpGet userURL ("Bearer " ++ AccessToken token) ▷ Ok body] ∧
     s = <["Groups" := VGroups (decodeGroups body)]> session).

Lemma exec_setUserGroups oc claims token session t out :
  exec (setUserGroups newRequestError oc (getUserId claims) (AccessToken token) session) t out →
  ∃ s, out = Done s ∧ asked_groups oc claims token session s t.
Proof.
  unfold setUserGroups, asked_groups. destruct (newRequestError _) as [e|].
  - intros [-> ->]. exists session. naive_solver.
  - cbn [exec prog_bind call]. intros ([body|e] & t' & -> & HE); destruct HE as [-> ->].
    + eexists. split; [reflexivity|]. right; right. by exists body.
    + eexists. split; [reflexivity|]. right; left. by exists e.
Qed.

Definition is_save (o : aop) : Prop := match o with SessionSave _ => True | _ => False end.

(** A login that is accepted: the query has the state [oc] holds, the code was
    exchanged, the token verified, and then the session [s] is saved. *)
Definition accepted (oc : OIDCConfig) (r : Request) (t : list (event aop)) (session s : Session) : Prop :=
  ∃ code token raw claims session0 err tg,
    queryGet (u_RawQuery (r_URL r)) "code" = code ∧
    t = ((GetState ▷ queryGet (u_RawQuery (r_URL r)) "state") :: (Exchange code ▷ Ok (token, Some raw)) ::
         (Verify raw ▷ Ok (Ok claims)) :: (SessionGet ▷ (session0, err)) :: tg)%list ∧
    session = <["OIDCResp" := VOidcResp (mkOidcResp token (Some claims))]> session0 ∧
    asked_groups oc claims token session s tg.

(** C32: The login callback stores a token only after the provider vouched for
    it.  Either it saves no session, or its trace is: the query's state
    is the one this process generated last, the code is exchanged, the ID token
    verified, the user's groups asked for with the new token, and the session
    saved with exactly these; then it redirects to the path the session
    remembers.  It panics in one case only: the session remembers no path. *)
Theorem callback_saves_verified_tokens (oc : OIDCConfig) (r : Request) (t : list (event aop)) (out : outcome unit) :
  exec (HandleCallback queryGet newRequestError oc r) t out →
  (calls (λ o, ¬ is_save o) t ∧ out = Done tt) ∨
  ∃ t1 session s err t2, accepted oc r t1 session s ∧ t = (t1 ++ (SessionSave s ▷ err) :: t2)%list ∧
    match err, s !! "reqPath" with
    | Some err, _ => t2 = [Error (error_text err) StatusInternalServerError ▷ tt] ∧ out = Done tt
    | None, Some (VString p) => t2 = [Redirect p StatusSeeOther ▷ tt] ∧ out = Done tt
    | None, _ => t2 = [] ∧ ∃ m, out = Panicked m
    end.
Proof.
  unfold HandleCallback. cbn [exec prog_bind call]. intros (st & t1 & -> & HE).
  destruct (bool_decide _) eqn:Est; cbn [negb] in HE; [|destruct HE as ([] & ? & -> & -> & ->); left; by repeat split; intros []].
  apply bool_decide_eq_true in Est. subst st. cbn [exec prog_bind call] in HE. destruct HE as (tok & t2 & -> & HE).
  destruct tok as [[token [raw|]]|e]; try (destruct HE as ([] & ? & -> & -> & ->); left; by repeat split; intros []).
  cbn [exec prog_bind call] in HE. destruct HE as (v & t3 & -> & HE).
  destruct v as [claims|e]; [|destruct HE as ([] & ? & -> & -> & ->); left; by repeat split; intros []].
  cbn [exec prog_bind call] in HE. destruct HE as ([session0 err0] & t4 & -> & HE).
  destruct claims as [claims|e]; [|destruct HE as ([] & ? & -> & -> & ->); left; by repeat split; intros []].
  apply exec_bind in HE as [(m & HE & ->)|(tg & t5 & s & -> & Hg & HE)].
  { apply exec_setUserGroups in HE as (s & Hs & _). done. }
  apply exec_setUserGroups in Hg as (s' & [= <-] & Hg). cbn [exec prog_bind call] in HE.
  destruct HE as (err & t6 & -> & HE). right.
  eexists ((GetState ▷ _) :: (Exchange _ ▷ _) :: (Verify _ ▷ _) :: (SessionGet ▷ _) :: tg), _, s, err, t6.
  split; [by eexists _, token, raw, claims, session0, err0, tg|]. split; [done|].
  destruct err as [e|]; [by destruct HE as ([] & ? & -> & -> & ->)|].
  destruct (s !! "reqPath") as [[p| | |]|]; [by destruct HE as ([] & ? & -> & -> & ->)|..];
    (destruct HE as [-> ->]; split; [done|by eexists]).
Qed.
End callback.

(** ** Logins *)

(** A world: the value of [oc.state], the sessions by browser, the clock and
    what the random source still yields. *)
Record world := mkWorld { w_state : string; w_store : gmap string Session; w_now : Z; w_rand : nat → Z }.
Definition w_setState (s : string) (w : world) : world := mkWorld s (w_store w) (w_now w) (w_rand w).
Definition w_setStore (st : gmap string Session) (w : world) : world := mkWorld (w_state w) st (w_now w) (w_rand w).
Definition w_setNow (now : Z) (w : world) : world := mkWorld (w_state w) (w_store w) now (w_rand w).
Definition w_draw (w : world) : world := mkWorld (w_state w) (w_store w) (w_now w) (λ n, w_rand w (S n)).
Definition sessionOf (browser : string) (w : world) : Session := default ∅ (w_store w !! browser).

(** The stores encode a session with encoding/gob: a structure comes back as
    the registered pointer to it, a nil pointer cannot be encoded. *)
Definition encodable (v : sval) : bool := match v with VGroups None => false | _ => true end.
Definition decoded (v : sval) : sval := match v with VOidcResp r => VOidcRespPtr r | v => v end.
Definition gob (s : Session) : option Session :=
  if forallb (λ kv, encodable kv.2) (map_to_list s) then Some (decoded <$> s) else None.

Section world.
(** The identity provider. *)
Context (exchange : string → result (Token * option string)) (verify : string → result (result json))
  (users : string → string → result (option json)).

(** One browser's requests, seen from the proxy. *)
Definition browser (cookie : string) (o : aop) (w : world) : option (resp o * world) :=
  match o with
  | SessionGet => Some ((sessionOf cookie w, None), w)
  | SessionSave s =>
      match gob s with
      | Some s => Some (None, w_setStore (<[cookie := s]> (w_store w)) w)
      | None => Some (Some (EText "gob: cannot encode nil pointer"), w)
      end
  | GetState => Some (w_state w, w)
  | SetState s => Some (tt, w_setState s w)
  | Now => Some (w_now w, w)
  | Intn n => Some ((w_rand w 0%nat mod n)%Z, w_draw w)
  | Exchange code => Some (exchange code, w)
  | Verify raw => Some (verify raw, w)
  | HttpGet url authorization => Some (users url authorization, w)
  | Error _ _ | Redirect _ _ | SetContentType _ | Write _ | WriteJSON _ | ReverseProxy _ _ => Some (tt, w)
  | _ => None
  end.

(** [genState] draws some state and changes nothing else. *)
Lemma run_genState cookie w :
  ∃ t s w', run (browser cookie) genState w = Some (t, Done s, w') ∧ w_store w' = w_store w.
Proof.
  unfold genState. generalize (seq 0 40) as l, "" as s. intros l. revert w.
  induction l as [|x l IH]; intros w s; [by eexists [], s, w|].
  destruct (letter_some (w_rand w 0%nat mod Z.of_nat (String.length letterRunes))) as [c E].
  { apply Z.mod_pos_bound. reflexivity. }
  destruct (IH (w_draw w) (s ++ String c "")) as (t & s' & w' & Hr & Hs).
  eexists _, s', w'. split; [|exact Hs]. cbn [loop].
  eapply run_bind; [|exact Hr]. unfold genRune. cbn [run prog_bind call browser]. by rewrite E.
Qed.

Section login.
Context (AuthCodeURL : OIDCConfig → string → string) (queryGet : string → string → string)
  (newRequestError : string → option error) (oc : OIDCConfig).

Lemma run_login cookie w : ∃ t w',
  run (browser cookie) (redirectToLogin AuthCodeURL oc) w =
    Some ((t ++ [Redirect (AuthCodeURL oc (w_state w')) StatusFound ▷ tt])%list, Done tt, w') ∧ w_store w' = w_store w.
Proof.
  destruct (run_genState cookie w) as (t & s & w1 & Hr & Hs).
  eexists (t ++ [SetState s ▷ tt; GetState ▷ s])%list, (w_setState s w1). split; [|exact Hs].
  unfold redirectToLogin. rewrite <-(assoc_L (++)%list). by eapply run_bind.
Qed.

Lemma gob_insert k v s s' : gob s = Some s' → encodable v = true → gob (<[k := v]> s) = Some (<[k := decoded v]> s').
Proof.
  unfold gob. destruct (forallb _ (map_to_list s)) eqn:E; [|done]. intros [= <-] Hv. rewrite fmap_insert.
  rewrite forallb_forall in E. destruct (forallb _ (map_to_list (<[k:=v]> s))) eqn:E'; [done|].
  apply not_true_iff_false in E'. destruct E'. apply forallb_forall. intros [k' v'] Hin.
  apply list_elem_of_In, elem_of_map_to_list, lookup_insert_Some in Hin as [[_ <-]|[_ Hin]]; [done|].
  apply (E (k', v')). by apply list_elem_of_In, elem_of_map_to_list.
Qed.
Lemma gob_lookup s s' k : gob s = Some s' → s' !! k = decoded <$> s !! k.
Proof. unfold gob. destruct (forallb _ _); [|done]. intros [= <-]. apply lookup_fmap. Qed.

(** A request without a login leaves the path in the browser's session. *)
Lemma run_AuthN_new cookie next r w s' :
  getSessionInfo (sessionOf cookie w) = None → gob (sessionOf cookie w) = Some s' →
  ∃ t w', run (browser cookie) (AuthN_Handler AuthCodeURL oc next r) w =
      Some ((t ++ [Redirect (AuthCodeURL oc (w_state w')) StatusFound ▷ tt])%list, Done tt, w') ∧
    w_store w' = <[cookie := <["reqPath" := VString (u_Path (r_URL r))]> s']> (w_store w).
Proof.
  intros Hi Hg. pose proof (gob_insert "reqPath" (VString (u_Path (r_URL r))) _ _ Hg eq_refl) as Hg'.
  destruct (run_login cookie (w_setStore (<[cookie := <["reqPath" := VString (u_Path (r_URL r))]> s']> (w_store w)) w))
    as (t & w' & Hr & Hs).
  eexists ((SessionGet ▷ _) :: (SessionSave _ ▷ _) :: t)%list, w'. split; [|exact Hs].
  unfold AuthN_Handler. cbn [run prog_bind call browser]. rewrite Hi. cbn [run prog_bind call browser].
  rewrite Hg'. cbn [decoded] in *. rewrite Hr. reflexivity.
Qed.

(** The provider accepts a code for some token and claims, and answers the
    question for the user's groups with something that can be stored. *)
Definition provides (code : string) (tok : Token) (claims : json) : Prop :=
  ∃ raw, exchange code = Ok (tok, Some raw) ∧ verify raw = Ok (Ok claims) ∧
    users (oc_url oc ++ "/Users/" ++ getUserId claims) ("Bearer " ++ AccessToken tok) ≠ Ok (Some JNull).

Lemma run_setUserGroups cookie claims tok session s' w raw code :
  exchange code = Ok (tok, Some raw) →
  users (oc_url oc ++ "/Users/" ++ getUserId claims) ("Bearer " ++ AccessToken tok) ≠ Ok (Some JNull) →
  gob session = Some s' →
  ∃ t s s2, run (browser cookie) (setUserGroups newRequestError oc (getUserId claims) (AccessToken tok) session) w =
    Some (t, Done s, w) ∧ gob s = Some s2 ∧ (∀ k, k ≠ "Groups" → s !! k = session !! k ∧ s2 !! k = s' !! k).
Proof.
  intros Hx Hu Hg. unfold setUserGroups. destruct (newRequestError _) as [e|].
  { eexists _, _, _. split; [reflexivity|]. split; [exact Hg|done]. }
  cbn [run prog_bind call browser]. destruct (users _ _) as [body|e] eqn:E.
  - eexists _, _, _. split; [reflexivity|]. split.
    + apply gob_insert; [exact Hg|]. destruct body as [[]|]; done.
    + intros k Hk. by rewrite !lookup_insert_ne.
  - eexists _, _, _. split; [reflexivity|]. split; [exact Hg|done].
Qed.

(** The callback with the state of the process, from any browser whose session
    remembers a path. *)
Lemma run_callback cookie r w tok claims s' path :
  queryGet (u_RawQuery (r_URL r)) "state" = w_state w →
  provides (queryGet (u_RawQuery (r_URL r)) "code") tok claims →
  gob (sessionOf cookie w) = Some s' →
  ∃ t s2 end_t out, run (browser cookie) (HandleCallback queryGet newRequestError oc r) w =
      Some ((t ++ end_t)%list, out, w_setStore (<[cookie := s2]> (w_store w)) w) ∧
    getSessionInfo s2 = Some (mkOidcResp tok (Some claims)) ∧
    (sessionOf cookie w !! "reqPath" = Some (VString path) → end_t = [Redirect path StatusSeeOther ▷ tt] ∧ out = Done tt) ∧
    (sessionOf cookie w !! "reqPath" = None → end_t = [] ∧ ∃ m, out = Panicked m).
Proof.
  intros Hst (raw & Hx & Hv & Hu) Hg.
  pose proof (gob_insert "OIDCResp" (VOidcResp (mkOidcResp tok (Some claims))) _ _ Hg eq_refl) as Hg'.
  destruct (run_setUserGroups cookie claims tok _ _ w raw _ Hx Hu Hg') as (tg & s & s2 & Hr & Hg2 & Hk).
  assert (getSessionInfo s2 = Some (mkOidcResp tok (Some claims))) as Hi.
  { unfold getSessionInfo. by rewrite (proj2 (Hk "OIDCResp" ltac:(done))), lookup_insert_eq. }
  assert (s !! "reqPath" = sessionOf cookie w !! "reqPath") as Hp.
  { by rewrite (proj1 (Hk "reqPath" ltac:(done))), lookup_insert_ne. }
  unfold HandleCallback. cbn [run prog_bind call browser]. rewrite bool_decide_true by done.
  cbn [negb run prog_bind call browser]. rewrite Hx. cbn [run prog_bind call browser]. rewrite Hv.
  cbn [run prog_bind call browser].
  destruct (sessionOf cookie w !! "reqPath") as [[p| | |]|] eqn:E.
  1: eexists (_ :: _ :: _ :: _ :: tg ++ [SessionSave s ▷ None])%list, s2, [Redirect p StatusSeeOther ▷ tt], (Done tt).
  2-5: eexists (_ :: _ :: _ :: _ :: tg ++ [SessionSave s ▷ None])%list, s2, [], (Panicked "interface conversion: interface {} is not string").
  all: split; [|split; [done|split; [intros [=]; by subst|intros [=]; by eauto]]].
  all: cbn [app]; erewrite run_bind;
    [|exact Hr|cbn [run prog_bind call browser]; rewrite Hg2; cbn [run prog_bind call browser]; rewrite Hp; reflexivity].
  all: by rewrite <-?(assoc_L (++)%list), ?app_nil_r.
Qed.

Lemma gob_gob s s' : gob s = Some s' → gob s' = Some s'.
Proof.
  intros Hg. assert (forallb (λ kv, encodable kv.2) (map_to_list s') = true) as E'.
  { apply forallb_forall. intros [k v] Hin. apply list_elem_of_In, elem_of_map_to_list in Hin.
    rewrite (gob_lookup _ _ _ Hg) in Hin. unfold gob in Hg. destruct (forallb _ (map_to_list s)) eqn:E; [|done].
    destruct (s !! k) as [v0|] eqn:Hs; [|done]. injection Hin as <-. rewrite forallb_forall in E.
    specialize (E (k, v0)). cbn in *. destruct v0; try done. apply E. by apply list_elem_of_In, elem_of_map_to_list. }
  unfold gob at 1. rewrite E'. f_equal. apply map_eq. intros k. rewrite lookup_fmap, (gob_lookup _ _ _ Hg).
  by destruct (s !! k) as [[]|].
Qed.

(** Whoever has no session gets one.  A request without a login is
    redirected to the provider; when the browser comes back with the state of
    that redirect and a code the provider accepts, it is sent to the path it
    asked for first; and from then on, as long as the token is good for five
    seconds, its requests are passed on with that token.  In between the world
    may change in any way that leaves [oc.state] and this browser's session
    alone. *)
Theorem login_completes (cookie : string) (w : world) (s' : Session) (next : Request → prog aop unit) (r : Request) :
  getSessionInfo (sessionOf cookie w) = None → gob (sessionOf cookie w) = Some s' →
  ∃ t w1, run (browser cookie) (AuthN_Handler AuthCodeURL oc next r) w =
      Some ((t ++ [Redirect (AuthCodeURL oc (w_state w1)) StatusFound ▷ tt])%list, Done tt, w1) ∧
  ∀ w1' cb tok claims, w_state w1' = w_state w1 → w_store w1' !! cookie = w_store w1 !! cookie →
    queryGet (u_RawQuery (r_URL cb)) "state" = w_state w1 →
    provides (queryGet (u_RawQuery (r_URL cb)) "code") tok claims →
    ∃ t2 w2, run (browser cookie) (HandleCallback queryGet newRequestError oc cb) w1' =
        Some ((t2 ++ [Redirect (u_Path (r_URL r)) StatusSeeOther ▷ tt])%list, Done tt, w2) ∧
    ∀ w2' r', w_store w2' !! cookie = w_store w2 !! cookie → (5 * Second ≤ Sub (Expiry tok) (w_now w2'))%Z →
      run (browser cookie) (AuthN_Handler AuthCodeURL oc next r') w2' =
      match run (browser cookie) (next (withToken (AccessToken tok) r')) w2' with
      | Some (t3, out, w3) => Some ((SessionGet ▷ (sessionOf cookie w2', None)) :: (Now ▷ w_now w2') :: t3, out, w3)
      | None => None
      end.
Proof.
  intros Hi Hg. destruct (run_AuthN_new cookie next r w s' Hi Hg) as (t & w1 & Hr & Hs).
  exists t, w1. split; [done|]. intros w1' cb tok claims Hst Hse Hq Hp.
  rewrite Hs, lookup_insert_eq in Hse.
  assert (sessionOf cookie w1' = <["reqPath" := VString (u_Path (r_URL r))]> s') as Hses.
  { unfold sessionOf. by rewrite Hse. }
  assert (gob (sessionOf cookie w1') = Some (sessionOf cookie w1')) as Hg1.
  { rewrite Hses. apply (gob_insert "reqPath" (VString (u_Path (r_URL r))) s' s'); [by eapply gob_gob|done]. }
  destruct (run_callback cookie cb w1' tok claims _ (u_Path (r_URL r)) ltac:(by rewrite Hst) Hp Hg1)
    as (t2 & s2 & et & out & Hr2 & Hi2 & Hend & _).
  destruct Hend as [-> ->]; [by rewrite Hses, lookup_insert_eq|].
  eexists t2, _. split; [exact Hr2|]. intros w2' r' Hw2 Hnow. cbn [w_setStore w_store] in Hw2.
  rewrite lookup_insert_eq in Hw2. assert (sessionOf cookie w2' = s2) as Hs2 by (unfold sessionOf; by rewrite Hw2).
  unfold AuthN_Handler. cbn [run prog_bind call browser]. rewrite Hs2, Hi2.
  cbn [run prog_bind call browser deref IDTokenClaims OAuth2Token].
  destruct (_ <? _)%Z eqn:Hlt; [lia|]. by destruct (run _ (next _) w2') as [[[? ?] ?]|].
Qed.

(** All browsers share one state.  When another browser [b] asks for a
    login before [a] has finished its own, and the states drawn differ, the
    callback of [a] is refused with 400 although its code is good.  And while
    [a]'s state stands, a callback with it is accepted from a browser [c] that
    never asked for a login: [c]'s session then holds the token of whoever
    made the link, and the handler panics because no path is remembered. *)
Theorem state_is_shared (a b c : string) (w : world) (sa sb : Session) (next : Request → prog aop unit) (ra rb cb : Request) :
  a ≠ b → a ≠ c → getSessionInfo (sessionOf a w) = None → gob (sessionOf a w) = Some sa →
  getSessionInfo (sessionOf b w) = None → gob (sessionOf b w) = Some sb → sessionOf c w = ∅ →
  ∃ ta wa tb wb,
    run (browser a) (AuthN_Handler AuthCodeURL oc next ra) w = Some (ta, Done tt, wa) ∧
    run (browser b) (AuthN_Handler AuthCodeURL oc next rb) wa = Some (tb, Done tt, wb) ∧
    (queryGet (u_RawQuery (r_URL cb)) "state" = w_state wa → w_state wb ≠ w_state wa →
     run (browser a) (HandleCallback queryGet newRequestError oc cb) wb =
       Some ([GetState ▷ w_state wb; Error "state did not match" StatusBadRequest ▷ tt], Done tt, wb)) ∧
    ∀ tok claims, queryGet (u_RawQuery (r_URL cb)) "state" = w_state wa →
      provides (queryGet (u_RawQuery (r_URL cb)) "code") tok claims →
      ∃ tc m w', run (browser c) (HandleCallback queryGet newRequestError oc cb) wa = Some (tc, Panicked m, w') ∧
        getSessionInfo (sessionOf c w') = Some (mkOidcResp tok (Some claims)).
Proof.
  intros Hab Hac Hia Hga Hib Hgb Hc. destruct (run_AuthN_new a next ra w sa Hia Hga) as (ta & wa & Hra & Hsa).
  assert (sessionOf b wa = sessionOf b w) as Hb by (unfold sessionOf; by rewrite Hsa, lookup_insert_ne).
  destruct (run_AuthN_new b next rb wa sb) as (tb & wb & Hrb & Hsb); [by rewrite Hb..|].
  eexists _, wa, _, wb. split; [exact Hra|]. split; [exact Hrb|]. split.
  - intros Hq Hne. unfold HandleCallback. cbn [run prog_bind call browser].
    rewrite bool_decide_false by congruence. reflexivity.
  - intros tok claims Hq Hp.
    assert (sessionOf c wa = ∅) as Hc' by (unfold sessionOf in *; by rewrite Hsa, lookup_insert_ne).
    destruct (run_callback c cb wa tok claims ∅ "" Hq Hp) as (t2 & s2 & et & out & Hr2 & Hi2 & _ & Hend).
    { by rewrite Hc'. }
    destruct Hend as [-> [m ->]]; [by rewrite Hc'|]. eexists _, m, _. split; [exact Hr2|].
    unfold sessionOf. cbn [w_setStore w_store]. by rewrite lookup_insert_eq.
Qed.
End login.
End world.

(** ** Routes and configuration *)

#[local] Instance prio_le_trans : Transitive prio_le.
Proof. intros x y z. unfold prio_le. lia. Qed.
#[local] Instance prio_le_total : Total prio_le.
Proof. intros x y. unfold prio_le. lia. Qed.

(** The configured routes follow the fixed ones, lower priority numbers
    first; the router takes the first that matches. *)
Lemma SetRoutes_by_priority AuthCodeURL queryGet newRequestError url_Parse c oc :
  ∃ fixed l, SetRoutes AuthCodeURL queryGet newRequestError url_Parse c oc =
      (fixed ++ ((λ rc, (MPathPrefix (rc_Path rc), routeHandler AuthCodeURL url_Parse oc rc)) <$> l))%list ∧
    length fixed = 3%nat ∧ l ≡ₚ cf_Routes c ∧ StronglySorted prio_le l.
Proof.
  eexists _, _. split; [reflexivity|]. split; [done|]. split; [apply merge_sort_Permutation|].
  apply (StronglySorted_merge_sort _).
Qed.

(** The identity provider comes from the file or, if that names none, from the
    environment, never a mixture; everything else comes from the file. *)
Lemma GetConfig_provider configPath t c :
  exec (GetConfig configPath emptyConfig) t (Done c) →
  ∃ path file, (ReadConfig path ▷ Ok file) ∈ t ∧
    c = mkConfig (cf_Routes file) (cf_IDPConfig c) (cf_RedirectURI file) (cf_Debug file) (cf_RedisStore file) (cf_Cookie file) ∧
    (idp_URL (cf_IDPConfig file) ≠ "" → cf_IDPConfig c = cf_IDPConfig file) ∧
    (idp_URL (cf_IDPConfig file) = "" → (EnvConfig ▷ Ok (cf_IDPConfig c)) ∈ t).
Proof.
  unfold GetConfig. rewrite bool_decide_true by done. cbn [exec prog_bind call]. intros ([b|e] & t1 & -> & HE); [|by destruct HE].
  cbn [exec prog_bind call] in HE. destruct HE as ([file|e] & t2 & -> & HE); [|by destruct HE].
  exists (configPath b), file. split; [right; by left|]. destruct (bool_decide _) eqn:E.
  - apply bool_decide_eq_true in E. cbn [initIDPConfigFromEnv exec prog_bind call] in HE.
    destruct HE as ([idp|e] & t3 & -> & HE); [|by destruct HE]. destruct HE as [-> [= ->]].
    split; [done|]. split; [done|]. intros _. cbn. right; right; by left.
  - apply bool_decide_eq_false in E. destruct HE as [-> [= ->]]. split; [by destruct file|]. done.
Qed.

(** ** Concrete runs *)

Example some_exchange (code : string) : result (Token * option string) :=
  Ok (mkToken "token" (3600 * Second)%Z, Some "id-token").
Example some_verify (raw : string) : result (result json) := Ok (Ok (JObj [("user_id", JString "u1")])).
Example some_users (url authorization : string) : result (option json) :=
  Ok (Some (JObj [("groups", JList [JObj [("display", JString "app!t1.Admin")]])])).
Example some_AuthCodeURL (oc : OIDCConfig) (state : string) : string := AuthURL (oc_Endpoint oc) ++ "?state=" ++ state.
(** For queries that consist of the state. *)
Example some_queryGet (query key : string) : string := if bool_decide (key = "state") then query else "code".
Example some_url_Parse (s : string) : result URL := Ok (mkURL "http" s "" "" "").
Example some_browser : string → ∀ o : aop, world → option (resp o * world) :=
  browser some_exchange some_verify some_users.
Example some_world : world := mkWorld "" ∅ 0 Z.of_nat.
Example some_route : RouteConfig := mkRouteConfig "/app" 1 true "/app" "backend:80" some_scopes true.
Example some_session : Session :=
  <["OIDCResp" := VOidcRespPtr (mkOidcResp (mkToken "token" (3600 * Second)%Z) (Some (JObj [])))]>
  (<["Groups" := VGroups (Some some_groups)]> ∅).
Example logged_in : world := mkWorld "" (<["a" := some_session]> ∅) 0 Z.of_nat.
Example some_post : list (event aop) :=
  trace_of (run (some_browser "a") (routeHandler some_AuthCodeURL some_url_Parse some_oc some_route
    (some_request "POST" "/app/x" "")) logged_in).

Lemma protected_served_only_if_allowed_witness :
  ∃ session now token t' target rq,
    some_post = ((SessionGet ▷ (session, None)) :: (Now ▷ now) :: t' ++ [ReverseProxy target rq ▷ tt])%list ∧
    live session now token ∧ forwarded some_url_Parse some_route token (some_request "POST" "/app/x" "") target rq.
Proof.
  destruct (protected_served_only_if_allowed some_AuthCodeURL some_url_Parse some_oc some_route
    (some_request "POST" "/app/x" "") some_post (Done tt)) as [Hc|(session & now & token & t' & target & rq & Ht & _ & Hl & _ & Hf)].
  - reflexivity.
  - apply run_exec. vm_compute. reflexivity.
  - exfalso. vm_compute in Hc. intuition.
  - by exists session, now, token, t', target, rq.
Defined.

Example some_callback : list (event aop) :=
  trace_of (run (some_browser "a") (HandleCallback some_queryGet (λ _, None) some_oc (some_request "GET" "/oauth/callback" ""))
    (mkWorld "" (<["a" := <["reqPath" := VString "/app"]> ∅]> ∅) 0 Z.of_nat)).
Lemma callback_saves_verified_tokens_witness :
  ∃ t1 session s err t2, accepted some_queryGet (λ _, None) some_oc (some_request "GET" "/oauth/callback" "") t1 session s ∧
    some_callback = (t1 ++ (SessionSave s ▷ err) :: t2)%list.
Proof.
  destruct (callback_saves_verified_tokens some_queryGet (λ _, None) some_oc (some_request "GET" "/oauth/callback" "")
    some_callback (Done tt)) as [[Hc _]|(t1 & session & s & err & t2 & Ha & Ht & _)].
  - apply run_exec. vm_compute. reflexivity.
  - exfalso. vm_compute in Hc. intuition.
  - exists t1, session, s, err, t2. split; [exact Ha|exact Ht].
Defined.

Lemma login_completes_witness : ∃ t w1 t2 w2,
  run (some_browser "a") (AuthN_Handler some_AuthCodeURL some_oc (λ _, Ret tt) (some_request "GET" "/app" "")) some_world =
    Some ((t ++ [Redirect (some_AuthCodeURL some_oc (w_state w1)) StatusFound ▷ tt])%list, Done tt, w1) ∧
  run (some_browser "a") (HandleCallback some_queryGet (λ _, None) some_oc (some_request "GET" "/oauth/callback" (w_state w1))) w1 =
    Some ((t2 ++ [Redirect "/app" StatusSeeOther ▷ tt])%list, Done tt, w2) ∧
  outcome_of (run (some_browser "a") (AuthN_Handler some_AuthCodeURL some_oc (λ _, Ret tt) (some_request "GET" "/app" ""))
    (w_setNow 0 w2)) = Some (Done tt).
Proof.
  destruct (login_completes some_exchange some_verify some_users some_AuthCodeURL some_queryGet (λ _, None) some_oc
    "a" some_world ∅ (λ _, Ret tt) (some_request "GET" "/app" "")) as (t & w1 & H1 & H2); [reflexivity|reflexivity|].
  destruct (H2 w1 (some_request "GET" "/oauth/callback" (w_state w1)) (mkToken "token" (3600 * Second)%Z)
    (JObj [("user_id", JString "u1")])) as (t2 & w2 & H3 & H4); [reflexivity|reflexivity|reflexivity|exists "id-token"; split; [reflexivity|split; [reflexivity|discriminate]]|].
  exists t, w1, t2, w2. split; [exact H1|]. split; [exact H3|].
  unfold some_browser. rewrite (H4 (w_setNow 0 w2) (some_request "GET" "/app" "") eq_refl); [reflexivity|].
  vm_compute. discriminate.
Defined.

Lemma state_is_shared_witness : ∃ ta wa tb wb,
  run (some_browser "a") (AuthN_Handler some_AuthCodeURL some_oc (λ _, Ret tt) (some_request "GET" "/app" "")) some_world =
    Some (ta, Done tt, wa) ∧
  run (some_browser "b") (AuthN_Handler some_AuthCodeURL some_oc (λ _, Ret tt) (some_request "GET" "/app" "")) wa =
    Some (tb, Done tt, wb) ∧ w_state wb ≠ w_state wa ∧
  run (some_browser "a") (HandleCallback some_queryGet (λ _, None) some_oc
      (some_request "GET" "/oauth/callback" "abcdefghijklmnopqrstuvwxyzABCDEFGHIJKLMN")) wb =
    Some ([GetState ▷ w_state wb; Error "state did not match" StatusBadRequest ▷ tt], Done tt, wb).
Proof.
  destruct (state_is_shared some_exchange some_verify some_users some_AuthCodeURL some_queryGet (λ _, None) some_oc
    "a" "b" "c" some_world ∅ ∅ (λ _, Ret tt) (some_request "GET" "/app" "") (some_request "GET" "/app" "")
    (some_request "GET" "/oauth/callback" "abcdefghijklmnopqrstuvwxyzABCDEFGHIJKLMN"))
    as (ta & wa & tb & wb & H1 & H2 & H3 & _); [discriminate|discriminate|reflexivity|reflexivity|reflexivity|reflexivity|reflexivity|].
  exists ta, wa, tb, wb. split; [exact H1|]. split; [exact H2|].
  assert (w_state wa = "abcdefghijklmnopqrstuvwxyzABCDEFGHIJKLMN") as Ha.
  { pose proof (f_equal (option_map (λ x, w_state x.2)) H1) as H. vm_compute in H. injection H as H. symmetry. exact H. }
  assert (w_state wb ≠ w_state wa) as Hne.
  { rewrite Ha. pose proof (f_equal (option_map (λ x, w_state x.2)) H2) as H.
    assert (option_map (λ x, w_state x.2) (run (some_browser "a") (AuthN_Handler some_AuthCodeURL some_oc (λ _, Ret tt)
      (some_request "GET" "/app" "")) some_world ≫= λ x, run (some_browser "b") (AuthN_Handler some_AuthCodeURL some_oc (λ _, Ret tt)
      (some_request "GET" "/app" "")) x.2) = Some (w_state wb)) as Hb.
    { unfold some_browser. rewrite H1. exact H. }
    intros Hx. rewrite Hx in Hb. vm_compute in Hb. discriminate. }
  split; [exact Hne|]. apply H3; [symmetry; exact Ha|exact Hne].
Defined.
