(* ===== verification/Grpc2Rest.v ===== *)
(** * src/go/pkg/grpc2rest: Kubernetes-style REST calls from gRPC messages

    [Module Dynamic] is what the package uses of the dynamic messages of
    jhump/protoreflect, [Module Model] translates method.go and
    resource_info.go.  Nothing here talks to a cluster: a request is built as a
    value, so that the code is a function that returns, fails or panics. *)
From stdpp Require Import prelude strings gmap list.
From Stdlib Require Import Ascii ZArith.
From S2P Require Import Prelude GoErr GoStr Kube.

Open Scope string_scope.

(** A Go function without side effects: a value, an error, or a panic. *)
Inductive go (A : Type) : Type :=
| Val (a : A)
| Fail (err : string)
| Crash.
Arguments Val {A} a.
Arguments Fail {A} err.
Arguments Crash {A}.
Definition go_bind {A B} (f : A → go B) (x : go A) : go B :=
  match x with Val a => f a | Fail e => Fail e | Crash => Crash end.
(** [if err != nil { return ..., errors.New(msg) }] *)
Definition or_fail {A} (x : go A) (msg : string → string) : go A :=
  match x with Fail e => Fail (msg e) | x => x end.
Notation "'let?' x := p 'in' q" := (go_bind (λ x, q) p)
  (at level 10, x name, p at level 100, q at level 200).
Definition fmt_err {A} (r : result A) (msg : string → string) : go A :=
  match r with Ok a => Val a | Err e => Fail (msg (error_text e)) end.

Module Dynamic.

(** ** Descriptors and messages *)

Inductive ftype := TString | TInt64 | TBool | TMessage (md : string) | TOther.
#[export] Instance ftype_eq_dec : EqDecision ftype.
Proof. solve_decision. Defined.

(** The values of fields; [VMessage] is a [*dynamic.Message], nil or with the
    name of its descriptor and the fields that are set, [VOther] a value of
    any other Go type, such as the slice of a repeated field. *)
#[warnings="-register-all"]
Inductive value : Type :=
| VString (s : string)
| VInt64 (z : Z)
| VBool (b : bool)
| VMessage (m : option (string * list (string * value)))
| VOther.
Abbreviation message := (option (string * list (string * value))).

Record FieldDescriptor := mkField { f_name : string; f_type : ftype; f_repeated : bool; f_default : option value }.
Record MessageDescriptor := mkMessageDescriptor { m_fields : list FieldDescriptor; m_proto3 : bool }.

Fixpoint assoc {A} (k : string) (l : list (string * A)) : option A :=
  match l with
  | [] => None
  | (k', v) :: l => if bool_decide (k = k') then Some v else assoc k l
  end.
Fixpoint assocSet {A} (k : string) (v : A) (l : list (string * A)) : list (string * A) :=
  match l with
  | [] => [(k, v)]
  | (k', v') :: l => if bool_decide (k = k') then (k, v) :: l else (k', v') :: assocSet k v l
  end.
Definition assocDelete {A} (k : string) (l : list (string * A)) : list (string * A) :=
  filter (λ kv, kv.1 ≠ k) l.

Section dynamic.
(** The descriptors by full name, and the types the binary was built with. *)
Context (descs : string → MessageDescriptor) (registered : string → bool).

Definition findField (md name : string) : option FieldDescriptor :=
  snd <$> list_find (λ fd, f_name fd = name) (m_fields (descs md)).

(** The value of a field that is not set.  For a message it is a nil pointer in
    proto3 and a new message, kept nowhere, in proto2. *)
Definition defaultValue (md : string) (fd : FieldDescriptor) : value :=
  match f_default fd with
  | Some v => v
  | None =>
      if f_repeated fd then VOther
      else match f_type fd with
           | TString => VString ""
           | TInt64 => VInt64 0
           | TBool => VBool false
           | TMessage n =>
               if m_proto3 (descs md) then (if registered n then VOther else VMessage None)
               else VMessage (Some (n, []))
           | TOther => VOther
           end
  end.

Definition TryGetFieldByName (m : message) (name : string) : go value :=
  match m with
  | None => Crash
  | Some (md, fields) =>
      match findField md name with
      | None => Fail "unknown field name"
      | Some fd => Val (default (defaultValue md fd) (assoc name fields))
      end
  end.

Definition validFieldValue (fd : FieldDescriptor) (v : value) : bool :=
  negb (f_repeated fd) &&
  match f_type fd, v with
  | TString, VString _ | TBool, VBool _ | TInt64, VInt64 _ => true
  | _, _ => false
  end.
Definition isZero (v : value) : bool :=
  match v with
  | VString s => bool_decide (s = "")
  | VInt64 z => (z =? 0)%Z
  | VBool b => negb b
  | _ => false
  end.
(** For scalar values; in proto3 a zero value is not stored. *)
Definition TrySetFieldByName (m : message) (name : string) (v : value) : go message :=
  match m with
  | None => Crash
  | Some (md, fields) =>
      match findField md name with
      | None => Fail "unknown field name"
      | Some fd =>
          if negb (validFieldValue fd v) then Fail "wrong type"
          else if m_proto3 (descs md) && isZero v then Val (Some (md, assocDelete name fields))
          else Val (Some (md, assocSet name v fields))
      end
  end.
Definition TryClearFieldByName (m : message) (name : string) : go message :=
  match m with
  | None => Crash
  | Some (md, fields) =>
      match findField md name with
      | None => Fail "unknown field name"
      | Some fd => Val (Some (md, assocDelete name fields))
      end
  end.

(** A message that was read from field [name] of [m] has changed to [sub]: [m]
    sees the change if it holds the message, and not if it was a default. *)
Definition putBack (m : message) (name : string) (sub : message) : message :=
  match m with
  | Some (md, fields) =>
      match assoc name fields with
      | Some _ => Some (md, assocSet name (VMessage sub) fields)
      | None => m
      end
  | None => None
  end.
End dynamic.
End Dynamic.

Module Model.
Import Dynamic.

(** ** method.go *)

(** What the verb says of a request. *)
Record verbParams := mkVerbParams {
  verb : string; optionsAsQueryParams : bool; setWatchParam : bool; watchParamValue : bool;
  nameInPath : bool; namePath : string; setKindAndApiGroup : bool; namespacePath : string;
  namespaceDefaults : bool; isWatch : bool; bodyFieldName : string }.
(** The client is known by the group and version it is for. *)
Record k8sRequestParams := mkParams {
  p_verb : verbParams; inMessage : string; outMessage : string; isNamespacedResource : bool;
  kind : string; kindPlural : string; apiVersion : string; client : string }.

(** What the builder methods of rest.Request were called with. *)
Record Request := mkRequest {
  q_client : string; q_verb : string; q_resource : string; q_namespace : option string; q_name : option string;
  q_params : gmap string string; q_body : option string }.

Definition createRequestParams (method : string) : result verbParams :=
  if bool_decide (method = "Get") then
    Ok (mkVerbParams "GET" true false false true "name" false "namespace" true false "")
  else if bool_decide (method = "List") then
    Ok (mkVerbParams "GET" true true false false "" false "namespace" false false "")
  else if bool_decide (method = "Watch") then
    Ok (mkVerbParams "GET" true true true false "" false "namespace" false true "")
  else if bool_decide (method = "Create") then
    Ok (mkVerbParams "POST" true false false false "" true "object.metadata.namespace" true false "object")
  else if bool_decide (method = "Update") then
    Ok (mkVerbParams "PUT" true false false true "object.metadata.name" true "object.metadata.namespace" true false "object")
  else if bool_decide (method = "UpdateStatus") then Err (EText "UpdateStatus is not yet implemented")
  else if bool_decide (method = "Delete") then
    Ok (mkVerbParams "DELETE" false false false true "name" false "namespace" true false "options")
  else Err (EText ("unsupported method: " ++ method)).

Section request.
Context (descs : string → MessageDescriptor) (registered : string → bool).
(** [MarshalJSON] of a message. *)
Context (marshalJSON : string * list (string * value) → result string).

(** The loop of [getStringField]: [seen] are the parts already followed. *)
Fixpoint getFieldPath (msgName : string) (seen parts : list string) (submsg : message) : go value :=
  match parts with
  | [] => Val VOther
  | p :: rest =>
      let path := Join (seen ++ [p])%list "." in
      let? field := or_fail (TryGetFieldByName descs registered submsg p)
                      (λ _, "unable to find field " ++ fmt_q path ++ " in " ++ msgName) in
      match rest with
      | [] => Val field
      | _ =>
          match field with
          | VMessage sub => getFieldPath msgName (seen ++ [p])%list rest sub
          | _ => Fail ("field " ++ fmt_q path ++ " of " ++ msgName ++ " is not a message")
          end
      end
  end.
Definition messageName (m : message) : string := match m with Some (md, _) => md | None => "" end.
Definition getStringField (path : string) (msg : message) : go string :=
  let? field := getFieldPath (messageName msg) [] (Split path ".") msg in
  match field with
  | VString s => Val s
  | _ => Fail ("field " ++ fmt_q path ++ " of " ++ messageName msg ++ " is not a string")
  end.

Definition getBody (m : message) (fieldName : string) : go string :=
  let? obj := or_fail (TryGetFieldByName descs registered m fieldName)
                (λ e, "unable to extract field " ++ fmt_q fieldName ++ ": " ++ e) in
  match obj with
  | VMessage None => Val "null"
  | VMessage (Some b) =>
      fmt_err (marshalJSON b) (λ e, "unable to marshal body message to JSON: " ++ e)
  | _ => Fail (fmt_q fieldName ++ " is not a message")
  end.

(** The value of a query parameter, if the field has a type that is passed on. *)
Definition optionValue (t : ftype) (v : value) : option string :=
  match t, v with
  | TString, VString s => Some s
  | TInt64, VInt64 z => Some (fmt_d z)
  | TBool, VBool b => Some (if b then "true" else "false")
  | _, _ => None
  end.
Definition addOption (fields : list (string * value)) (queryParams : gmap string string) (f : FieldDescriptor) : gmap string string :=
  match assoc (f_name f) fields with
  | None => queryParams
  | Some v =>
      match optionValue (f_type f) v with
      | Some s => <[f_name f := s]> queryParams
      | None => queryParams
      end
  end.
Definition getQueryParams (m : message) : go (gmap string string) :=
  let? optionsInterface := or_fail (TryGetFieldByName descs registered m "options") (λ _, "unknown field: options") in
  match optionsInterface with
  | VMessage None => Val ∅
  | VMessage (Some (md, fields)) => Val (foldl (addOption fields) ∅ (m_fields (descs md)))
  | _ => Fail "options is not a message"
  end.

(** The first part of [BuildKubernetesRequest]. *)
Definition setKind (params : k8sRequestParams) (inMessage : message) : go message :=
  let? objectInterface := or_fail (TryGetFieldByName descs registered inMessage "object") (λ _, "missing field: 'object'") in
  match objectInterface with
  | VMessage object =>
      let? object := or_fail (TrySetFieldByName descs object "kind" (VString (kind params)))
                       (λ _, "object has no 'kind' field") in
      let? object := or_fail (TrySetFieldByName descs object "apiVersion" (VString (apiVersion params)))
                       (λ _, "object has no 'apiVersion' field") in
      Val (putBack inMessage "object" object)
  | _ => Fail "object is not a message"
  end.
Definition setWatch (watchParamValue : bool) (inMessage : message) : go message :=
  let? optionsInterface := or_fail (TryGetFieldByName descs registered inMessage "options") (λ _, "unknown field: options") in
  match optionsInterface with
  | VMessage options =>
      let? options := or_fail (if (watchParamValue : bool) then TrySetFieldByName descs options "watch" (VBool true)
                               else TryClearFieldByName descs options "watch")
                        (λ _, "options has no watch parameter") in
      Val (putBack inMessage "options" options)
  | _ => Fail "options is not a message"
  end.

Definition requestNamespace (params : k8sRequestParams) (inMessage : message) : go (option string) :=
  if isNamespacedResource params then
    let? namespace := or_fail (getStringField (namespacePath (p_verb params)) inMessage)
                        (λ e, "unable to determine namespace: " ++ e) in
    Val (Some (if namespaceDefaults (p_verb params) && bool_decide (namespace = "") then "default" else namespace))
  else Val None.
Definition requestName (params : k8sRequestParams) (inMessage : message) : go (option string) :=
  if nameInPath (p_verb params) then
    let? name := or_fail (getStringField (namePath (p_verb params)) inMessage)
                   (λ e, "unable to determine resource name: " ++ e) in
    if bool_decide (name = "") then Fail "empty name is not allowed for this method" else Val (Some name)
  else Val None.

(** Also the message as it is left. *)
Definition BuildKubernetesRequest (params : k8sRequestParams) (msg : message) : go (message * Request) :=
  let v := p_verb params in
  let? inMessage := if setKindAndApiGroup v then setKind params msg else Val msg in
  let? namespace := requestNamespace params inMessage in
  let? name := requestName params inMessage in
  let? inMessage := if setWatchParam v then setWatch (watchParamValue v) inMessage else Val inMessage in
  let? queryParams :=
    if optionsAsQueryParams v then
      or_fail (getQueryParams inMessage) (λ e, "error determining query parameters: " ++ e)
    else Val ∅ in
  let? body :=
    if bool_decide (bodyFieldName v = "") then Val None
    else
      let? b := or_fail (getBody inMessage (bodyFieldName v)) (λ e, "unable to create request body: " ++ e) in
      Val (Some b) in
  Val (inMessage, mkRequest (client params) (verb v) (kindPlural params) namespace name queryParams body).
End request.

(** Clones of the empty messages of the method's types. *)
Definition GetInputMessage (params : k8sRequestParams) : message := Some (inMessage params, []).
Definition GetOutputMessage (params : k8sRequestParams) : message := Some (outMessage params, []).
Definition IsWatchCall (params : k8sRequestParams) : bool := isWatch (p_verb params).

(** *** Methods of a custom resource definition *)

Record CRD := mkCRD {
  crd_name : string; crd_annotations : strmap; crd_group : string; crd_kind : string; crd_plural : string;
  crd_scope : string; crd_versions : list string }.
Record MethodDescriptor := mkMethod { md_name : string; md_input : string; md_output : string }.
Record ServiceDescriptor := mkService { svc_name : string; svc_fqn : string; svc_methods : list MethodDescriptor }.

Section methods.
(** base64 and the protobuf packages: the services a descriptor annotation
    holds; [rest.RESTClientFor] for a group and version. *)
Context (b64decode : string → result string) (unmarshalDescriptorSet : string → result (list ServiceDescriptor))
  (restClientFor : string → option error).

Definition protoDescriptor : string := "crc.cloudrobotics.com/proto-descriptor".

Definition getFileDescriptor (obj : CRD) : result (list ServiceDescriptor) :=
  let annotation := sm_get (crd_annotations obj) protoDescriptor in
  if bool_decide (annotation = "") then Err (EText ("no proto-descriptor annotation on " ++ crd_name obj))
  else match b64decode annotation with
  | Err err => Err (EText ("unable to decode base64 in proto-descriptor annotation on " ++ crd_name obj ++ ": " ++ error_text err))
  | Ok b => unmarshalDescriptorSet b
  end.
Definition getService (fd : list ServiceDescriptor) (kind : string) : result ServiceDescriptor :=
  match list_find (λ svc, svc_name svc = "K8s" ++ kind) fd with
  | Some (_, svc) => Ok svc
  | None => Err (EText ("no service with name " ++ "K8s" ++ kind ++ " found in proto descriptor for " ++ kind))
  end.

Definition grpcPath (svc : ServiceDescriptor) (method : MethodDescriptor) : string :=
  "/" ++ svc_fqn svc ++ "/" ++ md_name method.
Definition methodParams (obj : CRD) (gv : string) (method : MethodDescriptor) (v : verbParams) : k8sRequestParams :=
  mkParams v (md_input method) (md_output method) (bool_decide (crd_scope obj = "Namespaced"))
    (crd_kind obj) (crd_plural obj) gv gv.
Fixpoint addMethods (obj : CRD) (gv : string) (svc : ServiceDescriptor) (l : list MethodDescriptor)
    (methods : gmap string k8sRequestParams) : result (gmap string k8sRequestParams) :=
  match l with
  | [] => Ok methods
  | method :: l =>
      match createRequestParams (md_name method) with
      | Err err => Err (EText ("unrecognized method for " ++ md_name method ++ ": " ++ error_text err))
      | Ok v => addMethods obj gv svc l (<[grpcPath svc method := methodParams obj gv method v]> methods)
      end
  end.
Definition buildMethods (obj : CRD) : result (gmap string k8sRequestParams) :=
  if bool_decide (sm_get (crd_annotations obj) protoDescriptor = "") then Ok ∅
  else match getFileDescriptor obj with
  | Err err => Err err
  | Ok fd =>
      match getService fd (crd_kind obj) with
      | Err err => Err err
      | Ok svc =>
          match crd_versions obj with
          | [version] =>
              let gv := if bool_decide (crd_group obj = "") then version else crd_group obj ++ "/" ++ version in
              match restClientFor gv with
              | Some err => Err (EText ("error building Kubernetes client: " ++ error_text err))
              | None => addMethods obj gv svc (svc_methods svc) ∅
              end
          | _ => Err (EText ("ignoring CRD " ++ crd_name obj ++ " with multiple versions"))
          end
      end
  end.

(** ** resource_info.go *)

Record ResourceInfoRepository := mkRepository {
  grpcMethods : gmap string k8sRequestParams; methodsByCR : gmap string (list string) }.
Definition NewResourceInfoRepository : ResourceInfoRepository := mkRepository ∅ ∅.

Definition GetMethod (fullMethodName : string) (r : ResourceInfoRepository) : result k8sRequestParams :=
  match grpcMethods r !! fullMethodName with
  | Some m => Ok m
  | None => Err (EText ("didn't find a CR with method " ++ fullMethodName))
  end.
Definition insertResourceInfo (obj : CRD) (r : ResourceInfoRepository) : ResourceInfoRepository :=
  match buildMethods obj with
  | Err _ => r
  | Ok methods =>
      mkRepository (methods ∪ grpcMethods r) (<[crd_name obj := (map_to_list methods).*1]> (methodsByCR r))
  end.
Definition deleteResourceInfo (obj : CRD) (r : ResourceInfoRepository) : ResourceInfoRepository :=
  let methods := default [] (methodsByCR r !! crd_name obj) in
  mkRepository (foldr delete (grpcMethods r) methods) (delete (crd_name obj) (methodsByCR r)).

(** The informer's callbacks, each under the mutex.  The deletion callback gets
    a tombstone when the watch missed the deletion, and its cast panics. *)
Inductive event := Added (obj : CRD) | Updated (oldObj newObj : CRD) | Deleted (obj : CRD) | DeletedUnknown (obj : CRD).
Definition handle (e : event) (r : ResourceInfoRepository) : go ResourceInfoRepository :=
  match e with
  | Added obj => Val (insertResourceInfo obj r)
  | Updated oldObj newObj => Val (insertResourceInfo newObj (deleteResourceInfo oldObj r))
  | Deleted obj => Val (deleteResourceInfo obj r)
  | DeletedUnknown _ => Crash
  end.
Fixpoint handleAll (l : list event) (r : ResourceInfoRepository) : go ResourceInfoRepository :=
  match l with
  | [] => Val r
  | e :: l => let? r := handle e r in handleAll l r
  end.
End methods.
End Model.

Import Dynamic Model.

(** ** Fields *)

Section assoc.
Context {A : Type}.
Implicit Types (l : list (string * A)) (k : string).

Lemma assoc_set_eq k v l : assoc k (assocSet k v l) = Some v.
Proof.
  induction l as [|[k' v'] l IH]; cbn; [by rewrite bool_decide_true|].
  case_bool_decide; cbn; [by rewrite bool_decide_true|by rewrite bool_decide_false].
Qed.
Lemma assoc_set_ne k k' v l : k ≠ k' → assoc k (assocSet k' v l) = assoc k l.
Proof.
  intros Hne. induction l as [|[k1 v1] l IH]; cbn; [by rewrite bool_decide_false|].
  destruct (bool_decide (k' = k1)) eqn:E; cbn.
  - apply bool_decide_eq_true in E. subst. by rewrite bool_decide_false.
  - by rewrite IH.
Qed.
Lemma assoc_delete_eq k l : assoc k (assocDelete k l) = None.
Proof.
  unfold assocDelete. induction l as [|[k' v'] l IH]; [done|]. rewrite filter_cons. cbn.
  case_decide; cbn; [by rewrite bool_decide_false|done].
Qed.
Lemma assoc_delete_ne k k' l : k ≠ k' → assoc k (assocDelete k' l) = assoc k l.
Proof.
  intros Hne. unfold assocDelete. induction l as [|[k1 v1] l IH]; [done|]. rewrite filter_cons. cbn.
  destruct (decide (k1 ≠ k')) as [H|H]; cbn; rewrite IH; [done|].
  rewrite bool_decide_false; [done|]. intros ->. by apply H.
Qed.
End assoc.

Section typing.
Context (descs : string → MessageDescriptor).

(** Values that fit a field: nil messages are never stored. *)
#[warnings="-register-all"]
Inductive typed : value → FieldDescriptor → Prop :=
| typed_string s fd : f_type fd = TString → f_repeated fd = false → typed (VString s) fd
| typed_int64 z fd : f_type fd = TInt64 → f_repeated fd = false → typed (VInt64 z) fd
| typed_bool b fd : f_type fd = TBool → f_repeated fd = false → typed (VBool b) fd
| typed_message n fields fd : f_type fd = TMessage n → f_repeated fd = false →
    (∀ k v, assoc k fields = Some v → ∃ fd', findField descs n k = Some fd' ∧ typed v fd') →
    typed (VMessage (Some (n, fields))) fd
| typed_other fd : f_repeated fd = true ∨ f_type fd = TOther → typed VOther fd.
Definition well_typed (md : string) (fields : list (string * value)) : Prop :=
  ∀ k v, assoc k fields = Some v → ∃ fd, findField descs md k = Some fd ∧ typed v fd.

Definition has_field (md name : string) (ty : ftype) : Prop :=
  ∃ fd, findField descs md name = Some fd ∧ f_type fd = ty ∧ f_repeated fd = false ∧ f_default fd = None.

Lemma well_typed_get md fields k n v :
  well_typed md fields → has_field md k (TMessage n) → assoc k fields = Some v →
  ∃ f, v = VMessage (Some (n, f)) ∧ well_typed n f.
Proof.
  intros Ht (fd & Hf & Hty & Hr & _) Hv. destruct (Ht k v Hv) as (fd' & Hf' & Hv'). rewrite Hf in Hf'. injection Hf' as <-.
  inversion Hv' as [| | |n' f fd' Hty' _ Hfields|fd' [?|?]]; subst; try congruence.
  rewrite Hty in Hty'. injection Hty' as <-. by exists f.
Qed.
Lemma well_typed_string md fields k v :
  well_typed md fields → has_field md k TString → assoc k fields = Some v → ∃ s, v = VString s.
Proof.
  intros Ht (fd & Hf & Hty & Hr & _) Hv. destruct (Ht k v Hv) as (fd' & Hf' & Hv'). rewrite Hf in Hf'. injection Hf' as <-.
  inversion Hv' as [| | | |fd' [?|?]]; subst; try congruence. by eexists.
Qed.
Lemma well_typed_set md fields k v fd :
  well_typed md fields → findField descs md k = Some fd → typed v fd → well_typed md (assocSet k v fields).
Proof.
  intros Ht Hf Hv k' v'. destruct (decide (k' = k)) as [->|Hne].
  - rewrite assoc_set_eq. intros [= <-]. by exists fd.
  - rewrite assoc_set_ne by done. apply Ht.
Qed.
Lemma well_typed_delete md fields k : well_typed md fields → well_typed md (assocDelete k fields).
Proof.
  intros Ht k' v'. destruct (decide (k' = k)) as [->|Hne]; [by rewrite assoc_delete_eq|].
  rewrite assoc_delete_ne by done. apply Ht.
Qed.

(** A path of message fields to a string field, and the string there: [""] if
    it is not set, [None] if a message on the way is not. *)
Fixpoint path_typed (md : string) (parts : list string) : Prop :=
  match parts with
  | [] => False
  | [p] => has_field md p TString
  | p :: rest => ∃ n, has_field md p (TMessage n) ∧ path_typed n rest
  end.
Fixpoint fieldAt (parts : list string) (fields : list (string * value)) : option string :=
  match parts with
  | [] => None
  | [p] => Some (match assoc p fields with Some (VString s) => s | _ => "" end)
  | p :: rest =>
      match assoc p fields with
      | Some (VMessage (Some (_, f))) => fieldAt rest f
      | _ => None
      end
  end.

Context (registered : string → bool).

Lemma TryGet_set md fields k ty v : has_field md k ty → assoc k fields = Some v →
  TryGetFieldByName descs registered (Some (md, fields)) k = Val v.
Proof. intros (fd & Hf & _) Hv. cbn. by rewrite Hf, Hv. Qed.
Lemma TryGet_unset md fields k n : has_field md k (TMessage n) → assoc k fields = None →
  TryGetFieldByName descs registered (Some (md, fields)) k =
  Val (if m_proto3 (descs md) then (if registered n then VOther else VMessage None) else VMessage (Some (n, []))).
Proof. intros (fd & Hf & Ht & Hr & Hd) Hv. cbn. rewrite Hf, Hv. cbn. unfold defaultValue. by rewrite Hd, Hr, Ht. Qed.

Lemma getFieldPath_set name seen parts md fields s :
  well_typed md fields → path_typed md parts → fieldAt parts fields = Some s →
  getFieldPath descs registered name seen parts (Some (md, fields)) = Val (VString s).
Proof.
  revert seen md fields. induction parts as [|p rest IH]; intros seen md fields Ht Hp Hs; [done|].
  cbn [getFieldPath path_typed fieldAt] in *. destruct rest as [|q rest].
  - destruct (assoc p fields) as [v|] eqn:E.
    + rewrite (TryGet_set _ _ _ _ v Hp E). destruct (well_typed_string _ _ _ _ Ht Hp E) as [s' ->].
      injection Hs as ->. done.
    + injection Hs as <-. destruct Hp as (fd & Hf & Hty & Hr & Hd). cbn [TryGetFieldByName]. rewrite Hf, E. cbn.
      unfold defaultValue. by rewrite Hd, Hr, Hty.
  - destruct Hp as (n & Hn & Hp). destruct (assoc p fields) as [v|] eqn:E; [|done].
    rewrite (TryGet_set _ _ _ _ v Hn E). destruct (well_typed_get _ _ _ _ _ Ht Hn E) as (f & -> & Hf).
    cbn [or_fail go_bind]. by apply IH.
Qed.
End typing.

(** ** Building requests *)

(** The methods' conventions, as the table of [createRequestParams] has them. *)
Definition collection (method : string) : bool := bool_decide (method = "List") || bool_decide (method = "Watch").
Definition writes_object (method : string) : bool := bool_decide (method = "Create") || bool_decide (method = "Update").
Definition named (method : string) : bool :=
  bool_decide (method = "Get") || bool_decide (method = "Update") || bool_decide (method = "Delete").
(** Where a request message has the name and the namespace. *)
Definition metadata_path (method field : string) : list string :=
  if writes_object method then ["object"; "metadata"; field] else [field].

(** The shape of the method's input message. *)
Record schema (descs : string → MessageDescriptor) (method md : string) : Prop := mkSchema {
  sch_namespace : path_typed descs md (metadata_path method "namespace");
  sch_name : named method = true → path_typed descs md (metadata_path method "name");
  sch_options : ∃ o, has_field descs md "options" (TMessage o) ∧ NoDup (f_name <$> m_fields (descs o)) ∧
    (collection method = true → has_field descs o "watch" TBool);
  sch_object : writes_object method = true → ∃ o, has_field descs md "object" (TMessage o) ∧
    has_field descs o "kind" TString ∧ has_field descs o "apiVersion" TString }.

(** The request has what its method needs: the object with its metadata, the
    options of a list or watch, a name. *)
Record complete (method : string) (params : k8sRequestParams) (fields : list (string * value)) (ns name : string) : Prop := mkComplete {
  cpl_namespace : isNamespacedResource params = true → fieldAt (metadata_path method "namespace") fields = Some ns;
  cpl_name : named method = true → fieldAt (metadata_path method "name") fields = Some name ∧ name ≠ "";
  cpl_options : collection method = true → assoc "options" fields ≠ None;
  cpl_object : writes_object method = true → assoc "object" fields ≠ None }.

(** What is wanted of the request, said without the code's order of steps. *)
Definition wanted_namespace (method : string) (params : k8sRequestParams) (ns : string) : option string :=
  if isNamespacedResource params then
    Some (if collection method then ns else if bool_decide (ns = "") then "default" else ns)
  else None.
Definition option_param (descs : string → MessageDescriptor) (fields : list (string * value)) (k : string) : option string :=
  match assoc "options" fields with
  | Some (VMessage (Some (o, options))) =>
      match findField descs o k, assoc k options with
      | Some fd, Some v => optionValue (f_type fd) v
      | _, _ => None
      end
  | _ => None
  end.
Definition wanted_param (descs : string → MessageDescriptor) (method : string) (fields : list (string * value)) (k : string) : option string :=
  if bool_decide (method = "Delete") then None
  else if bool_decide (k = "watch") && collection method then (if bool_decide (method = "Watch") then Some "true" else None)
  else option_param descs fields k.
(** The message that goes into the body; [Some None] is a nil message. *)
Definition wanted_body (method : string) (params : k8sRequestParams) (fields : list (string * value)) : option message :=
  if writes_object method then
    match assoc "object" fields with
    | Some (VMessage (Some (o, f))) =>
        Some (Some (o, assocSet "apiVersion" (VString (apiVersion params)) (assocSet "kind" (VString (kind params)) f)))
    | _ => None
    end
  else if bool_decide (method = "Delete") then
    Some (match assoc "options" fields with Some (VMessage m) => m | _ => None end)
  else None.
Definition http_verb (method : string) : string :=
  if bool_decide (method = "Create") then "POST" else if bool_decide (method = "Update") then "PUT"
  else if bool_decide (method = "Delete") then "DELETE" else "GET".

Section build.
Context (descs : string → MessageDescriptor) (registered : string → bool).

Lemma addOption_ne fields acc f k : f_name f ≠ k → addOption fields acc f !! k = acc !! k.
Proof.
  intros Hne. unfold addOption. destruct (assoc (f_name f) fields) as [v|]; [|done].
  destruct (optionValue (f_type f) v); [|done]. by rewrite lookup_insert_ne.
Qed.
Lemma addOptions_notin fields l acc k : k ∉ f_name <$> l → foldl (addOption fields) acc l !! k = acc !! k.
Proof.
  revert acc. induction l as [|f l IH]; intros acc Hk; [done|]. cbn in *. rewrite not_elem_of_cons in Hk.
  rewrite IH by tauto. apply addOption_ne. intros ?. subst. tauto.
Qed.
Lemma addOptions_lookup fields l k : NoDup (f_name <$> l) →
  foldl (addOption fields) ∅ l !! k =
  match snd <$> list_find (λ fd, f_name fd = k) l, assoc k fields with
  | Some fd, Some v => optionValue (f_type fd) v
  | _, _ => None
  end.
Proof.
  assert (∀ acc : gmap string string, NoDup (f_name <$> l) → acc !! k = None → foldl (addOption fields) acc l !! k =
    match snd <$> list_find (λ fd, f_name fd = k) l, assoc k fields with
    | Some fd, Some v => optionValue (f_type fd) v
    | _, _ => None
    end) as Hgen; [|intros; by apply Hgen].
  induction l as [|f l IH]; intros acc Hnd Hacc; [done|]. cbn in *. apply NoDup_cons in Hnd as [Hf Hnd].
  destruct (decide (f_name f = k)) as [<-|Hne].
  - rewrite addOptions_notin by done. cbn. unfold addOption. destruct (assoc (f_name f) fields) as [v|]; [|done].
    destruct (optionValue _ _); [by rewrite lookup_insert_eq|done].
  - rewrite IH; [by destruct (list_find (λ fd, f_name fd = k) l) as [[]|]|done|]. by rewrite addOption_ne.
Qed.

Lemma getStringField_set path parts md fields s :
  Split path "." = parts → well_typed descs md fields → path_typed descs md parts → fieldAt parts fields = Some s →
  getStringField descs registered path (Some (md, fields)) = Val s.
Proof. intros <- Ht Hp Hs. unfold getStringField. by rewrite (getFieldPath_set _ _ _ _ _ _ _ s Ht Hp Hs). Qed.

Lemma setKind_set params md fields o f :
  well_typed descs md fields → has_field descs md "object" (TMessage o) →
  has_field descs o "kind" TString → has_field descs o "apiVersion" TString →
  kind params ≠ "" → apiVersion params ≠ "" → assoc "object" fields = Some (VMessage (Some (o, f))) → well_typed descs o f →
  let f' := assocSet "apiVersion" (VString (apiVersion params)) (assocSet "kind" (VString (kind params)) f) in
  let fields' := assocSet "object" (VMessage (Some (o, f'))) fields in
  setKind descs registered params (Some (md, fields)) = Val (Some (md, fields')) ∧ well_typed descs md fields'.
Proof.
  intros Ht Ho (fk & Hfk & Hk1 & Hk2 & _) (fa & Hfa & Ha1 & Ha2 & _) Hk Ha Hobj Hf f' fields'.
  assert (well_typed descs o f') as Hf'.
  { eapply well_typed_set; [eapply well_typed_set; [exact Hf|exact Hfk|]|exact Hfa|]; by constructor. }
  split.
  - unfold setKind. rewrite (TryGet_set _ _ _ _ _ _ _ Ho Hobj). cbn [or_fail go_bind TrySetFieldByName].
    rewrite Hfk. unfold validFieldValue. rewrite Hk1, Hk2. cbn [negb andb isZero]. rewrite (bool_decide_false _ Hk), andb_false_r.
    cbn [or_fail go_bind TrySetFieldByName]. rewrite Hfa. unfold validFieldValue. rewrite Ha1, Ha2. cbn [negb andb isZero].
    rewrite (bool_decide_false _ Ha), andb_false_r. cbn [or_fail go_bind putBack]. by rewrite Hobj.
  - destruct Ho as (fo & Hfo & Ho1 & Ho2 & _). eapply well_typed_set; [done|exact Hfo|]. by constructor.
Qed.

Lemma setWatch_set b md fields o f :
  well_typed descs md fields → has_field descs md "options" (TMessage o) → has_field descs o "watch" TBool →
  assoc "options" fields = Some (VMessage (Some (o, f))) → well_typed descs o f →
  let f' := if (b : bool) then assocSet "watch" (VBool true) f else assocDelete "watch" f in
  let fields' := assocSet "options" (VMessage (Some (o, f'))) fields in
  setWatch descs registered b (Some (md, fields)) = Val (Some (md, fields')) ∧ well_typed descs md fields'.
Proof.
  intros Ht Ho (fw & Hfw & Hw1 & Hw2 & _) Hopt Hf f' fields'.
  assert (well_typed descs o f') as Hf'.
  { unfold f'. destruct b; [|by apply well_typed_delete]. eapply well_typed_set; [exact Hf|exact Hfw|]. by constructor. }
  split.
  - unfold setWatch. rewrite (TryGet_set _ _ _ _ _ _ _ Ho Hopt). cbn [or_fail go_bind].
    unfold TrySetFieldByName, TryClearFieldByName. rewrite Hfw. unfold validFieldValue. rewrite Hw1, Hw2.
    cbn [negb andb isZero]. rewrite andb_false_r. unfold fields', f'. destruct b; cbn [or_fail go_bind putBack]; by rewrite Hopt.
  - destruct Ho as (fo & Hfo & Ho1 & Ho2 & _). eapply well_typed_set; [done|exact Hfo|]. by constructor.
Qed.

(** The options as query parameters, set or not. *)
Lemma getQueryParams_set md fields o :
  well_typed descs md fields → has_field descs md "options" (TMessage o) → NoDup (f_name <$> m_fields (descs o)) →
  m_proto3 (descs md) = true → registered o = false →
  ∃ q, getQueryParams descs registered (Some (md, fields)) = Val q ∧
    ∀ k, q !! k = option_param descs fields k.
Proof.
  intros Ht Ho Hnd H3 Hreg. unfold getQueryParams, option_param. destruct (assoc "options" fields) as [v|] eqn:E.
  - rewrite (TryGet_set _ _ _ _ _ _ _ Ho E). destruct (well_typed_get _ _ _ _ _ _ Ht Ho E) as (f & -> & Hf).
    cbn [or_fail go_bind]. eexists. split; [reflexivity|]. intros k. by apply addOptions_lookup.
  - rewrite (TryGet_unset _ _ _ _ _ _ Ho E), H3, Hreg. cbn [or_fail go_bind]. eexists. split; [reflexivity|].
    intros k. apply lookup_empty.
Qed.

Lemma requestNamespace_set params parts md fields ns :
  Split (namespacePath (p_verb params)) "." = parts → well_typed descs md fields → path_typed descs md parts →
  (isNamespacedResource params = true → fieldAt parts fields = Some ns) →
  requestNamespace descs registered params (Some (md, fields)) =
  Val (if isNamespacedResource params then
         Some (if namespaceDefaults (p_verb params) && bool_decide (ns = "") then "default" else ns) else None).
Proof.
  intros Hsp Ht Hp Hns. unfold requestNamespace. destruct (isNamespacedResource params); [|done].
  by rewrite (getStringField_set _ _ _ _ ns Hsp Ht Hp (Hns eq_refl)).
Qed.
Lemma requestName_set params parts md fields name :
  nameInPath (p_verb params) = true → Split (namePath (p_verb params)) "." = parts →
  well_typed descs md fields → path_typed descs md parts → fieldAt parts fields = Some name → name ≠ "" →
  requestName descs registered params (Some (md, fields)) = Val (Some name).
Proof.
  intros Hn Hsp Ht Hp Hf Hne. unfold requestName. rewrite Hn, (getStringField_set _ _ _ _ name Hsp Ht Hp Hf).
  cbn [or_fail go_bind]. by rewrite (bool_decide_false _ Hne).
Qed.
Context (marshalJSON : string * list (string * value) → result string).

Lemma getBody_set md fields name b s :
  assoc name fields = Some (VMessage (Some b)) → (∃ ty, has_field descs md name ty) → marshalJSON b = Ok s →
  getBody descs registered marshalJSON (Some (md, fields)) name = Val s.
Proof. intros Hb [ty Hty] Hs. unfold getBody. rewrite (TryGet_set _ _ _ _ _ _ _ Hty Hb). cbn [or_fail go_bind]. by rewrite Hs. Qed.
Lemma getBody_unset md fields name o :
  assoc name fields = None → has_field descs md name (TMessage o) → m_proto3 (descs md) = true → registered o = false →
  getBody descs registered marshalJSON (Some (md, fields)) name = Val "null".
Proof. intros Hb Hty H3 Hreg. unfold getBody. by rewrite (TryGet_unset _ _ _ _ _ _ Hty Hb), H3, Hreg. Qed.

End build.

Definition req_ok (descs : string → MessageDescriptor) (marshalJSON : string * list (string * value) → result string)
    (method : string) (params : k8sRequestParams) (fields : list (string * value)) (ns name : string) (req : Request) : Prop :=
  q_client req = client params ∧ q_verb req = http_verb method ∧ q_resource req = kindPlural params ∧
  q_namespace req = wanted_namespace method params ns ∧
  q_name req = (if named method then Some name else None) ∧
  (∀ k, q_params req !! k = wanted_param descs method fields k) ∧
  match wanted_body method params fields with
  | None => q_body req = None
  | Some None => q_body req = Some "null"
  | Some (Some b) => ∃ s, marshalJSON b = Ok s ∧ q_body req = Some s
  end.

Section requests.
Context (descs : string → MessageDescriptor) (registered : string → bool)
  (marshalJSON : string * list (string * value) → result string).
(** Messages have no Go types, and can be marshalled. *)
Context (Hreg : ∀ n, registered n = false) (Hjson : ∀ b, is_ok (marshalJSON b) = true).

Lemma marshal_ok b : ∃ s, marshalJSON b = Ok s.
Proof. specialize (Hjson b). destruct (marshalJSON b); [by eexists|done]. Qed.

Abbreviation Build := (BuildKubernetesRequest descs registered marshalJSON).


Lemma wanted_param_plain (q : gmap string string) method fields :
  bool_decide (method = "Delete") = false → collection method = false →
  (∀ k, q !! k = option_param descs fields k) → ∀ k, q !! k = wanted_param descs method fields k.
Proof. intros Hd Hc Hq k. unfold wanted_param. by rewrite Hd, Hc, andb_false_r. Qed.

(** Changes at other fields do not move what a path leads to. *)
Lemma fieldAt_set k v fields p rest : p ≠ k → fieldAt (p :: rest) (assocSet k v fields) = fieldAt (p :: rest) fields.
Proof. intros Hne. cbn [fieldAt]. by rewrite assoc_set_ne. Qed.
Lemma fieldAt_set_in k o f f' p rest fields : assoc k fields = Some (VMessage (Some (o, f))) →
  fieldAt (p :: rest) f' = fieldAt (p :: rest) f →
  fieldAt (k :: p :: rest) (assocSet k (VMessage (Some (o, f'))) fields) = fieldAt (k :: p :: rest) fields.
Proof.
  intros Hk Hf. change (fieldAt (k :: p :: rest) ?x) with
    (match assoc k x with Some (VMessage (Some (_, g))) => fieldAt (p :: rest) g | _ => None end).
  by rewrite assoc_set_eq, Hk.
Qed.

Definition builds (method : string) (params : k8sRequestParams) (md : string) (fields : list (string * value)) (ns name : string) : Prop :=
  ∃ fields' req, Build params (Some (md, fields)) = Val (Some (md, fields'), req) ∧ well_typed descs md fields' ∧
    req_ok descs marshalJSON method params fields ns name req.

Lemma build_get params md fields ns name :
  createRequestParams "Get" = Ok (p_verb params) → m_proto3 (descs md) = true →
  schema descs "Get" md → well_typed descs md fields → complete "Get" params fields ns name →
  builds "Get" params md fields ns name.
Proof.
  intros [= Hv] H3 [Hpn Hpm (o & Ho & Hnd & _) _] Ht [Hcn Hcm _ _].
  destruct (Hcm eq_refl) as [Hm Hne].
  destruct (getQueryParams_set descs registered md fields o Ht Ho Hnd H3 (Hreg o)) as (q & Hq & Hq').
  pose proof (requestNamespace_set descs registered params ["namespace"] md fields ns ltac:(by rewrite <-Hv) Ht Hpn Hcn) as Hns.
  pose proof (requestName_set descs registered params ["name"] md fields name ltac:(by rewrite <-Hv)
    ltac:(by rewrite <-Hv) Ht (Hpm eq_refl) Hm Hne) as Hnm.
  unfold builds, BuildKubernetesRequest.
  rewrite <-Hv in *. cbn [go_bind setKindAndApiGroup setWatchParam optionsAsQueryParams bodyFieldName verb] in *.
  rewrite Hns. cbn [go_bind]. rewrite Hnm. cbn [go_bind]. rewrite Hq. cbn [or_fail go_bind].
  eexists _, _. split; [reflexivity|]. split; [done|]. unfold req_ok. cbn. split_and!; try done.
  by apply wanted_param_plain.
Qed.

Lemma build_delete params md fields ns name :
  createRequestParams "Delete" = Ok (p_verb params) → m_proto3 (descs md) = true →
  schema descs "Delete" md → well_typed descs md fields → complete "Delete" params fields ns name →
  builds "Delete" params md fields ns name.
Proof.
  intros [= Hv] H3 [Hpn Hpm (o & Ho & Hnd & _) _] Ht [Hcn Hcm _ _].
  destruct (Hcm eq_refl) as [Hm Hne].
  pose proof (requestNamespace_set descs registered params ["namespace"] md fields ns ltac:(by rewrite <-Hv) Ht Hpn Hcn) as Hns.
  pose proof (requestName_set descs registered params ["name"] md fields name ltac:(by rewrite <-Hv)
    ltac:(by rewrite <-Hv) Ht (Hpm eq_refl) Hm Hne) as Hnm.
  assert (∃ s, getBody descs registered marshalJSON (Some (md, fields)) "options" = Val s ∧
    match wanted_body "Delete" params fields with
    | None => False
    | Some None => s = "null"
    | Some (Some b) => marshalJSON b = Ok s
    end) as (s & Hb & Hw).
  { change (wanted_body "Delete" params fields) with
      (Some (match assoc "options" fields with Some (VMessage m) => m | _ => None end)).
    destruct (assoc "options" fields) as [v|] eqn:E.
    - destruct (well_typed_get _ _ _ _ _ _ Ht Ho E) as (f & -> & _). destruct (marshal_ok (o, f)) as [s Hs].
      exists s. split; [|done]. eapply getBody_set; [exact E|by eexists|exact Hs].
    - exists "null". split; [|done]. by eapply getBody_unset. }
  unfold builds, BuildKubernetesRequest.
  rewrite <-Hv in *. cbn [go_bind setKindAndApiGroup setWatchParam optionsAsQueryParams bodyFieldName verb] in *.
  rewrite Hns. cbn [go_bind]. rewrite Hnm. cbn [go_bind].
  rewrite (bool_decide_false ("options" = "")) by done. rewrite Hb. cbn [or_fail go_bind].
  eexists _, _. split; [reflexivity|]. split; [done|]. unfold req_ok. split_and!; try done.
  cbn [q_body]. destruct (wanted_body "Delete" params fields) as [[b|]|]; [by exists s|by subst|done].
Qed.

(** A list is the method without [b], a watch the one with it. *)
Definition coll_method (b : bool) : string := if b then "Watch" else "List".
Lemma build_collection b params md fields ns name :
  createRequestParams (coll_method b) = Ok (p_verb params) → m_proto3 (descs md) = true →
  schema descs (coll_method b) md → well_typed descs md fields → complete (coll_method b) params fields ns name →
  builds (coll_method b) params md fields ns name.
Proof.
  intros Hcr H3 [Hpn _ (o & Ho & Hnd & Hw) _] Ht [Hcn _ Hco _].
  assert (p_verb params = mkVerbParams "GET" true true b false "" false "namespace" false b "") as Hv.
  { destruct b; by injection Hcr. }
  assert (path_typed descs md ["namespace"]) as Hpn' by by destruct b.
  assert (isNamespacedResource params = true → fieldAt ["namespace"] fields = Some ns) as Hcn' by by destruct b.
  specialize (Hw ltac:(by destruct b)). specialize (Hco ltac:(by destruct b)).
  destruct (assoc "options" fields) as [v|] eqn:E; [|done].
  destruct (well_typed_get _ _ _ _ _ _ Ht Ho E) as (f & -> & Hf).
  destruct (setWatch_set descs registered b md fields o f Ht Ho Hw E Hf) as [Hs Ht'].
  set (f' := if b then assocSet "watch" (VBool true) f else assocDelete "watch" f) in *.
  set (fields' := assocSet "options" (VMessage (Some (o, f'))) fields) in *.
  destruct (getQueryParams_set descs registered md fields' o Ht' Ho Hnd H3 (Hreg o)) as (q & Hq & Hq').
  pose proof (requestNamespace_set descs registered params ["namespace"] md fields ns ltac:(by rewrite Hv) Ht Hpn' Hcn') as Hns.
  assert (requestName descs registered params (Some (md, fields)) = Val None) as Hnm by by (unfold requestName; rewrite Hv).
  unfold builds, BuildKubernetesRequest.
  rewrite Hv in *. cbn [go_bind setKindAndApiGroup setWatchParam watchParamValue optionsAsQueryParams bodyFieldName verb] in *.
  rewrite Hns. cbn [go_bind]. rewrite Hnm. cbn [go_bind]. rewrite Hs. cbn [go_bind]. rewrite Hq. cbn [or_fail go_bind].
  eexists _, _. split; [reflexivity|]. split; [done|]. unfold req_ok. split_and!; try (by destruct b).
  intros k. cbn [q_params]. rewrite Hq'. unfold wanted_param, option_param, fields'. rewrite assoc_set_eq, E.
  replace (bool_decide (coll_method b = "Delete")) with false by by destruct b.
  replace (collection (coll_method b)) with true by by destruct b. rewrite andb_true_r.
  destruct (bool_decide (k = "watch")) eqn:Hk.
  - apply bool_decide_eq_true in Hk as ->. destruct Hw as (fd & Hfd & Hty & _). rewrite Hfd. unfold f'.
    destruct b; [by rewrite assoc_set_eq, Hty|by rewrite assoc_delete_eq].
  - apply bool_decide_eq_false in Hk. unfold f'. by destruct b; rewrite ?assoc_set_ne, ?assoc_delete_ne by done.
Qed.

(** A create, or with [b] an update. *)
Definition write_method (b : bool) : string := if b then "Update" else "Create".
Lemma build_write b params md fields ns name :
  createRequestParams (write_method b) = Ok (p_verb params) → m_proto3 (descs md) = true →
  kind params ≠ "" → apiVersion params ≠ "" →
  schema descs (write_method b) md → well_typed descs md fields → complete (write_method b) params fields ns name →
  builds (write_method b) params md fields ns name.
Proof.
  intros Hcr H3 Hk Ha [Hpn Hpm (o & Ho & Hnd & _) Hob] Ht [Hcn Hcm _ Hco].
  assert (p_verb params = mkVerbParams (if b then "PUT" else "POST") true false false b
    (if b then "object.metadata.name" else "") true "object.metadata.namespace" true false "object") as Hv.
  { destruct b; by injection Hcr. }
  specialize (Hco ltac:(by destruct b)). destruct (Hob ltac:(by destruct b)) as (ob & Hobj & Hkd & Hav).
  assert (path_typed descs md ["object"; "metadata"; "namespace"]) as Hpn' by by destruct b.
  destruct (assoc "object" fields) as [v|] eqn:E; [|done].
  destruct (well_typed_get _ _ _ _ _ _ Ht Hobj E) as (f & -> & Hf).
  destruct (setKind_set descs registered params md fields ob f Ht Hobj Hkd Hav Hk Ha E Hf) as [Hs Ht'].
  set (f' := assocSet "apiVersion" (VString (apiVersion params)) (assocSet "kind" (VString (kind params)) f)) in *.
  set (fields' := assocSet "object" (VMessage (Some (ob, f'))) fields) in *.
  assert (∀ x, fieldAt ["object"; "metadata"; x] fields' = fieldAt ["object"; "metadata"; x] fields) as Hfa.
  { intros x. unfold fields'. apply (fieldAt_set_in _ _ f); [done|]. unfold f'. by rewrite !fieldAt_set. }
  assert (isNamespacedResource params = true → fieldAt ["object"; "metadata"; "namespace"] fields' = Some ns) as Hcn'.
  { rewrite Hfa. by destruct b. }
  destruct (getQueryParams_set descs registered md fields' o Ht' Ho Hnd H3 (Hreg o)) as (q & Hq & Hq').
  pose proof (requestNamespace_set descs registered params _ md fields' ns ltac:(by rewrite Hv) Ht' Hpn' Hcn') as Hns.
  assert (requestName descs registered params (Some (md, fields')) = Val (if b then Some name else None)) as Hnm.
  { destruct b; [|by unfold requestName; rewrite Hv]. destruct (Hcm eq_refl) as [Hm Hne].
    apply (requestName_set descs registered params ["object"; "metadata"; "name"]); try done; [by rewrite Hv..|by apply Hpm|].
    by rewrite Hfa. }
  destruct (marshal_ok (ob, f')) as [s Hjs].
  assert (getBody descs registered marshalJSON (Some (md, fields')) "object" = Val s) as Hb.
  { eapply getBody_set; [apply assoc_set_eq|by eexists|done]. }
  unfold builds, BuildKubernetesRequest.
  rewrite Hv in *. cbn [go_bind setKindAndApiGroup setWatchParam optionsAsQueryParams bodyFieldName verb] in *.
  rewrite Hs. cbn [go_bind]. rewrite Hns. cbn [go_bind]. rewrite Hnm. cbn [go_bind]. rewrite Hq. cbn [or_fail go_bind].
  rewrite (bool_decide_false ("object" = "")) by done. rewrite Hb. cbn [or_fail go_bind].
  eexists _, _. split; [reflexivity|]. split; [done|]. unfold req_ok. split_and!; try (by destruct b).
  - apply wanted_param_plain; [by destruct b..|]. intros k. cbn [q_params]. rewrite Hq'. unfold option_param, fields'.
    by rewrite assoc_set_ne.
  - cbn [q_body]. unfold wanted_body. replace (writes_object (write_method b)) with true by by destruct b.
    rewrite E. by exists s.
Qed.

Lemma createRequestParams_methods method v : createRequestParams method = Ok v →
  method = "Get" ∨ method = "List" ∨ method = "Watch" ∨ method = "Create" ∨ method = "Update" ∨ method = "Delete".
Proof.
  unfold createRequestParams. do 7 (destruct (bool_decide _) eqn:E at 1; [apply bool_decide_eq_true in E; try by auto 7|clear E]); done.
Qed.


(** What a method needs of its message, and does not check for. *)
Definition lacks (method : string) (params : k8sRequestParams) (fields : list (string * value)) : Prop :=
  (collection method = true ∧ assoc "options" fields = None) ∨
  (writes_object method = true ∧ assoc "object" fields = None) ∨
  (writes_object method = true ∧ isNamespacedResource params = true ∧
   ∃ o f, assoc "object" fields = Some (VMessage (Some (o, f))) ∧ m_proto3 (descs o) = true ∧ assoc "metadata" f = None).

Lemma namespace_always params md fields :
  namespacePath (p_verb params) = "namespace" → well_typed descs md fields → path_typed descs md ["namespace"] →
  ∃ ns, requestNamespace descs registered params (Some (md, fields)) = Val ns.
Proof.
  intros Hn Ht Hp. eexists. eapply (requestNamespace_set descs registered params ["namespace"]); try done; by rewrite Hn.
Qed.

Lemma lacks_options b params md fields :
  createRequestParams (coll_method b) = Ok (p_verb params) →
  schema descs (coll_method b) md → well_typed descs md fields → assoc "options" fields = None →
  if m_proto3 (descs md) then Build params (Some (md, fields)) = Crash
  else ∃ req, Build params (Some (md, fields)) = Val (Some (md, fields), req) ∧ q_params req = ∅.
Proof.
  intros Hcr [Hpn _ (o & Ho & Hnd & Hw) _] Ht Hopt.
  assert (p_verb params = mkVerbParams "GET" true true b false "" false "namespace" false b "") as Hv.
  { destruct b; by injection Hcr. }
  assert (path_typed descs md ["namespace"]) as Hpn' by by destruct b.
  specialize (Hw ltac:(by destruct b)).
  destruct (namespace_always params md fields ltac:(by rewrite Hv) Ht Hpn') as [ns Hns].
  assert (requestName descs registered params (Some (md, fields)) = Val None) as Hnm by by (unfold requestName; rewrite Hv).
  pose proof (TryGet_unset descs registered md fields "options" o Ho Hopt) as Hget. rewrite Hreg in Hget.
  unfold BuildKubernetesRequest.
  rewrite Hv in *. cbn [go_bind setKindAndApiGroup setWatchParam watchParamValue optionsAsQueryParams bodyFieldName verb] in *.
  rewrite Hns. cbn [go_bind]. rewrite Hnm. cbn [go_bind]. unfold setWatch. rewrite Hget. cbn [or_fail go_bind].
  destruct (m_proto3 (descs md)) eqn:H3; [by destruct b|].
  destruct Hw as (fw & Hfw & Hw1 & Hw2 & _).
  assert (∃ sub, or_fail (if b then TrySetFieldByName descs (Some (o, [])) "watch" (VBool true)
      else TryClearFieldByName descs (Some (o, [])) "watch") (λ _, "options has no watch parameter") = Val sub) as [sub Hsub].
  { destruct b; cbn; rewrite Hfw; unfold validFieldValue; [rewrite Hw1, Hw2; cbn; rewrite andb_false_r|]; by eexists. }
  rewrite Hsub. cbn [go_bind putBack]. rewrite Hopt. unfold getQueryParams. rewrite Hget. cbn [or_fail go_bind].
  eexists. split; [reflexivity|]. cbn. apply map_eq. intros k. rewrite addOptions_lookup by done.
  cbn. by destruct (list_find _ _) as [[]|].
Qed.

Lemma lacks_object b params md fields :
  createRequestParams (write_method b) = Ok (p_verb params) → m_proto3 (descs md) = true →
  schema descs (write_method b) md → well_typed descs md fields →
  kind params ≠ "" → apiVersion params ≠ "" →
  assoc "object" fields = None ∨
  (isNamespacedResource params = true ∧
   ∃ o f, assoc "object" fields = Some (VMessage (Some (o, f))) ∧ m_proto3 (descs o) = true ∧ assoc "metadata" f = None) →
  Build params (Some (md, fields)) = Crash.
Proof.
  intros Hcr H3 [Hpn _ _ Hob] Ht Hk Ha Hl.
  assert (p_verb params = mkVerbParams (if b then "PUT" else "POST") true false false b
    (if b then "object.metadata.name" else "") true "object.metadata.namespace" true false "object") as Hv.
  { destruct b; by injection Hcr. }
  destruct (Hob ltac:(by destruct b)) as (ob & Hobj & Hkd & Hav).
  assert (path_typed descs md ["object"; "metadata"; "namespace"]) as Hpn' by by destruct b.
  unfold BuildKubernetesRequest. rewrite Hv. cbn [setKindAndApiGroup].
  destruct Hl as [Hno|(Hns & o & f & Hf & Ho3 & Hm)].
  - unfold setKind. rewrite (TryGet_unset _ _ _ _ _ _ Hobj Hno), H3, Hreg. done.
  - destruct (well_typed_get _ _ _ _ _ _ Ht Hobj Hf) as (g & [= -> <-] & Hg).
    destruct (setKind_set descs registered params md fields ob f Ht Hobj Hkd Hav Hk Ha Hf Hg) as [Hs Ht'].
    rewrite Hs. cbn [go_bind]. unfold requestNamespace. rewrite Hns, Hv. cbn [namespacePath].
    destruct Hpn' as (o' & Ho' & n & Hn & _). destruct Hobj as (fd & Hfd & Hty & _).
    destruct Ho' as (fd' & Hfd' & Hty' & Hr' & Hd'). rewrite Hfd in Hfd'. injection Hfd' as <-. rewrite Hty in Hty'. injection Hty' as <-.
    unfold getStringField. change (Split "object.metadata.namespace" ".") with ["object"; "metadata"; "namespace"].
    cbn [getFieldPath]. erewrite TryGet_set; [|by exists fd|apply assoc_set_eq]. cbn [or_fail go_bind].
    rewrite (TryGet_unset _ _ _ _ _ _ Hn) by by rewrite !assoc_set_ne.
    by rewrite Ho3, Hreg.
Qed.

(** A request message that lacks what its method needs is not refused.  In
    proto3, a list or watch without options, a create or update without
    object, or of a namespaced resource without metadata, makes the builder
    panic with a nil pointer; in proto2, a watch without options becomes an
    ordinary list request, although the method says it is a watch. *)
Theorem incomplete_requests_not_refused (method : string) (params : k8sRequestParams) (md : string) (fields : list (string * value)) :
  createRequestParams method = Ok (p_verb params) → kind params ≠ "" → apiVersion params ≠ "" →
  schema descs method md → well_typed descs md fields → lacks method params fields →
  (m_proto3 (descs md) = true → BuildKubernetesRequest descs registered marshalJSON params (Some (md, fields)) = Crash) ∧
  (m_proto3 (descs md) = false → method = "Watch" → IsWatchCall params = true ∧
     ∃ req, BuildKubernetesRequest descs registered marshalJSON params (Some (md, fields)) = Val (Some (md, fields), req) ∧
       q_params req !! "watch" = None).
Proof.
  intros Hv Hk Ha Hs Ht Hl. split; intros H3.
  - destruct (createRequestParams_methods method _ Hv) as [->|[->|[->|[->|[->| ->]]]]];
      destruct Hl as [[Hc Ho]|[[Hc Ho]|(Hc & Hns & Ho)]]; try done.
    + pose proof (lacks_options false params md fields Hv Hs Ht Ho) as H. by rewrite H3 in H.
    + pose proof (lacks_options true params md fields Hv Hs Ht Ho) as H. by rewrite H3 in H.
    + apply (lacks_object false); auto.
    + apply (lacks_object false); auto.
    + apply (lacks_object true); auto.
    + apply (lacks_object true); auto.
  - intros ->. destruct Hl as [[_ Ho]|[[Hc _]|(Hc & _)]]; [|done..].
    pose proof (lacks_options true params md fields Hv Hs Ht Ho) as H. rewrite H3 in H. destruct H as (req & Hb & Hq).
    split; [unfold IsWatchCall; by injection Hv as <-|]. exists req. split; [done|]. by rewrite Hq.
Qed.
End requests.

(** ** The repository of methods *)

Section repository.
Context (b64decode : string → result string) (unmarshalDescriptorSet : string → result (list ServiceDescriptor))
  (restClientFor : string → option error).
Abbreviation build := (buildMethods b64decode unmarshalDescriptorSet restClientFor).
Abbreviation insert_crd := (insertResourceInfo b64decode unmarshalDescriptorSet restClientFor).
Abbreviation handle_all := (handleAll b64decode unmarshalDescriptorSet restClientFor).

(** What an informer reports while the definitions go from [c] to [c']. *)
Inductive reports : gmap string CRD → list event → gmap string CRD → Prop :=
| reports_nil c : reports c [] c
| reports_added c obj l c' : c !! crd_name obj = None →
    reports (<[crd_name obj := obj]> c) l c' → reports c (Added obj :: l) c'
| reports_updated c oldObj newObj l c' : c !! crd_name oldObj = Some oldObj → crd_name newObj = crd_name oldObj →
    reports (<[crd_name newObj := newObj]> c) l c' → reports c (Updated oldObj newObj :: l) c'
| reports_deleted c obj l c' : c !! crd_name obj = Some obj →
    reports (delete (crd_name obj) c) l c' → reports c (Deleted obj :: l) c'.

(** No two of the definitions [P] speaks of have a method in common. *)
Definition separate (P : CRD → Prop) : Prop :=
  ∀ c1 c2 ms1 ms2, P c1 → P c2 → crd_name c1 ≠ crd_name c2 → build c1 = Ok ms1 → build c2 = Ok ms2 → ms1 ##ₘ ms2.
Definition event_in (P : CRD → Prop) (e : event) : Prop :=
  match e with Added o | Deleted o | DeletedUnknown o => P o | Updated o n => P o ∧ P n end.

Definition served (crds : gmap string CRD) (path : string) (m : k8sRequestParams) : Prop :=
  ∃ crd ms, crds !! crd_name crd = Some crd ∧ build crd = Ok ms ∧ ms !! path = Some m.
(** What the repository has noted for a definition. *)
Definition noted (crd : CRD) : option (list string) :=
  match build crd with Ok ms => Some (map_to_list ms).*1 | Err _ => None end.
Record tracks (P : CRD → Prop) (crds : gmap string CRD) (r : ResourceInfoRepository) : Prop := mkTracks {
  tr_methods : ∀ path m, grpcMethods r !! path = Some m ↔ served crds path m;
  tr_noted : ∀ n, methodsByCR r !! n = crds !! n ≫= noted;
  tr_in : ∀ n crd, crds !! n = Some crd → crd_name crd = n ∧ P crd }.

Lemma elem_of_methods (ms : gmap string k8sRequestParams) path : path ∈ (map_to_list ms).*1 ↔ is_Some (ms !! path).
Proof.
  rewrite list_elem_of_fmap. split.
  - intros ([k m] & -> & Hin%elem_of_map_to_list). by exists m.
  - intros [m Hm]. exists (path, m). split; [done|]. by apply elem_of_map_to_list.
Qed.
Lemma lookup_deletes (l : list string) (ms : gmap string k8sRequestParams) path :
  foldr delete ms l !! path = if decide (path ∈ l) then None else ms !! path.
Proof. case_decide; [by apply lookup_foldr_delete|by apply lookup_foldr_delete_not_elem_of]. Qed.

Lemma insert_tracks P crds r obj : separate P → P obj → crds !! crd_name obj = None →
  tracks P crds r → tracks P (<[crd_name obj := obj]> crds) (insert_crd obj r).
Proof.
  intros Hsep HP Hnew [Hm Hn Hin]. unfold insertResourceInfo.
  assert (∀ path m, served (<[crd_name obj := obj]> crds) path m ↔
    (∃ ms, build obj = Ok ms ∧ ms !! path = Some m) ∨ served crds path m) as Hs.
  { intros path m. unfold served. split.
    - intros (crd & ms & [[_ <-]|[_ Hc]]%lookup_insert_Some & Hb & Hp); [left; by exists ms|right; by exists crd, ms].
    - intros [(ms & Hb & Hp)|(crd & ms & Hc & Hb & Hp)]; [exists obj, ms; by rewrite lookup_insert_eq|].
      exists crd, ms. rewrite lookup_insert_ne; [done|]. intros Heq. rewrite Heq in Hnew. congruence. }
  assert (∀ n crd, <[crd_name obj := obj]> crds !! n = Some crd → crd_name crd = n ∧ P crd) as Hin'.
  { intros n crd [[<- <-]|[_ Hc]]%lookup_insert_Some; [done|by apply Hin]. }
  destruct (build obj) as [ms|e] eqn:Hb; split; try exact Hin'; cbn [grpcMethods methodsByCR].
  - intros path m. rewrite Hs, lookup_union_Some_raw, Hm. split.
    + intros [Hp|[_ Hp]]; [left; by exists ms|by right].
    + intros [(ms' & [= <-] & Hp)|Hp]; [by left|right]. split; [|done].
      destruct Hp as (crd & ms' & Hc & Hb' & Hp). destruct (ms !! path) as [m'|] eqn:E; [|done].
      assert (crd_name obj ≠ crd_name crd) as Hne by (intros Heq; rewrite Heq in Hnew; congruence).
      pose proof (Hsep obj crd ms ms' HP (proj2 (Hin _ _ Hc)) Hne Hb Hb') as Hd.
      by eapply map_disjoint_spec in Hp.
  - intros n. destruct (decide (n = crd_name obj)) as [->|Hne].
    + rewrite !lookup_insert_eq. cbn. unfold noted. by rewrite Hb.
    + rewrite !lookup_insert_ne by done. apply Hn.
  - intros path m. rewrite Hs, Hm. split; [by right|]. by intros [(ms & ? & _)|?].
  - intros n. destruct (decide (n = crd_name obj)) as [->|Hne].
    + rewrite lookup_insert_eq, Hn, Hnew. cbn. unfold noted. by rewrite Hb.
    + rewrite lookup_insert_ne by done. apply Hn.
Qed.

Lemma delete_tracks P crds r obj : separate P → crds !! crd_name obj = Some obj →
  tracks P crds r → tracks P (delete (crd_name obj) crds) (deleteResourceInfo obj r).
Proof.
  intros Hsep Hobj [Hm Hn Hin]. unfold deleteResourceInfo. pose proof (Hn (crd_name obj)) as Ho.
  rewrite Hobj in Ho. cbn in Ho. split; cbn [grpcMethods methodsByCR].
  - intros path m. rewrite lookup_deletes, Ho. unfold noted. destruct (build obj) as [ms|e] eqn:Hb; cbn [default from_option id].
    + case_decide as Hd; rewrite elem_of_methods in Hd.
      * split; [done|]. intros (crd & ms' & [Hne Hc]%lookup_delete_Some & Hb' & Hp). destruct Hd as [m' Hm'].
        pose proof (Hsep obj crd ms ms' (proj2 (Hin _ _ Hobj)) (proj2 (Hin _ _ Hc)) Hne Hb Hb') as Hd.
        by eapply map_disjoint_spec in Hp.
      * rewrite Hm. split; intros (crd & ms' & Hc & Hb' & Hp); exists crd, ms'.
        -- split; [|done]. rewrite lookup_delete_ne; [done|]. intros Heq. rewrite <-Heq, Hobj in Hc.
           injection Hc as <-. rewrite Hb in Hb'. injection Hb' as <-. apply Hd. by eexists.
        -- split; [|done]. by apply lookup_delete_Some in Hc as [_ Hc].
    + case_decide as Hd; [by apply not_elem_of_nil in Hd|]. rewrite Hm.
      split; intros (crd & ms' & Hc & Hb' & Hp); exists crd, ms'.
      * split; [|done]. rewrite lookup_delete_ne; [done|]. intros Heq. rewrite <-Heq, Hobj in Hc.
        injection Hc as <-. congruence.
      * split; [|done]. by apply lookup_delete_Some in Hc as [_ Hc].
  - intros n. destruct (decide (n = crd_name obj)) as [->|Hne]; [by rewrite !lookup_delete_eq|].
    rewrite !lookup_delete_ne by done. apply Hn.
  - intros n crd [_ Hc]%lookup_delete_Some. by apply Hin.
Qed.

Lemma handle_all_tracks P l crds crds' r : separate P → Forall (event_in P) l → reports crds l crds' →
  tracks P crds r → ∃ r', handle_all l r = Val r' ∧ tracks P crds' r'.
Proof.
  intros Hsep Hin Hr. revert r Hin. induction Hr as [c|c obj l c' Hnew Hr IH|c o n l c' Hold Hname Hr IH|c obj l c' Hold Hr IH];
    intros r Hin Ht; cbn [handleAll handle go_bind].
  - by exists r.
  - apply Forall_cons in Hin as [HP Hin]. apply IH; [done|]. by apply insert_tracks.
  - apply Forall_cons in Hin as [[HPo HPn] Hin]. apply IH; [done|].
    rewrite <-(insert_delete_eq c), Hname, <-Hname. apply insert_tracks; [done|done|by rewrite Hname, lookup_delete_eq|].
    rewrite Hname. by apply delete_tracks.
  - apply Forall_cons in Hin as [HP Hin]. apply IH; [done|]. by apply delete_tracks.
Qed.

Lemma handle_all_app l1 l2 r r1 : handle_all l1 r = Val r1 → handle_all (l1 ++ l2)%list r = handle_all l2 r1.
Proof.
  revert r. induction l1 as [|e l1 IH]; intros r; cbn [handleAll app]; [by intros [= ->]|].
  destruct (handle _ _ _ e r); cbn [go_bind]; [apply IH|done..].
Qed.

(** C34: The repository serves the definitions there are.  After any sequence of
    additions, updates and deletions that an informer reports, valid
    definitions or not, a method is found exactly if some present definition
    that can be built has it, and with that definition's parameters; provided
    that no two definitions have a method in common.  A deletion that the watch
    missed, which the informer reports as a tombstone, ends the program. *)
Theorem repository_serves_the_crds (P : CRD → Prop) (l : list event) (crds : gmap string CRD) :
  separate P → Forall (event_in P) l → reports ∅ l crds →
  (∃ r, handleAll b64decode unmarshalDescriptorSet restClientFor l NewResourceInfoRepository = Val r ∧
    ∀ path m, GetMethod path r = Ok m ↔ served crds path m) ∧
  ∀ obj post, handleAll b64decode unmarshalDescriptorSet restClientFor (l ++ DeletedUnknown obj :: post)
    NewResourceInfoRepository = Crash.
Proof.
  intros Hsep Hin Hr. destruct (handle_all_tracks P l ∅ crds NewResourceInfoRepository Hsep Hin Hr) as (r & Hh & Ht).
  { split; cbn; [|done|by intros n crd ?%lookup_empty_Some]. intros path m. rewrite lookup_empty. split; [done|].
    by intros (crd & ms & ?%lookup_empty_Some & _). }
  split.
  - exists r. split; [exact Hh|]. intros path m. unfold GetMethod. rewrite <-(tr_methods _ _ _ Ht).
    destruct (grpcMethods r !! path); naive_solver.
  - intros obj post. by rewrite (handle_all_app _ _ _ _ Hh).
Qed.

(** Without the proviso deleting one definition takes the methods of another. *)
Lemma shared_method_lost c1 c2 ms1 ms2 path : build c1 = Ok ms1 → build c2 = Ok ms2 →
  is_Some (ms1 !! path) → is_Some (ms2 !! path) →
  ∃ r, handle_all [Added c1; Added c2; Deleted c2] NewResourceInfoRepository = Val r ∧ ¬ is_ok (GetMethod path r).
Proof.
  intros H1 H2 _ Hp. eexists. split; [reflexivity|]. unfold deleteResourceInfo, insertResourceInfo. rewrite H1, H2.
  cbn [methodsByCR grpcMethods]. rewrite lookup_insert_eq. cbn [default from_option id]. unfold GetMethod. cbn [grpcMethods].
  rewrite lookup_deletes, decide_True; [by intros []|]. by apply elem_of_methods.
Qed.
End repository.

(** Where the methods of the repository come from: the service of the
    definition's kind, one for each of its methods, with the table's
    parameters. *)
Lemma addMethods_params obj gv svc l ms ms' path p :
  addMethods obj gv svc l ms = Ok ms' → ms' !! path = Some p →
  ms !! path = Some p ∨
  ∃ m v, m ∈ l ∧ path = grpcPath svc m ∧ createRequestParams (md_name m) = Ok v ∧ p = methodParams obj gv m v.
Proof.
  revert ms. induction l as [|m l IH]; intros ms; cbn [addMethods].
  { intros [= ->] Hp. by left. }
  destruct (createRequestParams (md_name m)) as [v|e] eqn:Hv; [|done]. intros Ha Hp.
  destruct (IH _ Ha Hp) as [[[Hx Hp']|[_ Hms]]%lookup_insert_Some|(m' & v' & Hm & H)].
  - right. exists m, v. split_and!; [by left|done..].
  - by left.
  - right. exists m', v'. split; [by right|done].
Qed.
Lemma buildMethods_params b64decode unmarshalDescriptorSet restClientFor obj ms path p :
  buildMethods b64decode unmarshalDescriptorSet restClientFor obj = Ok ms → ms !! path = Some p →
  ∃ fd svc m v gv, getFileDescriptor b64decode unmarshalDescriptorSet obj = Ok fd ∧ getService fd (crd_kind obj) = Ok svc ∧
    m ∈ svc_methods svc ∧ path = grpcPath svc m ∧ createRequestParams (md_name m) = Ok v ∧ p = methodParams obj gv m v.
Proof.
  unfold buildMethods. destruct (bool_decide _).
  { intros [= <-] Hp. by rewrite lookup_empty in Hp. }
  destruct (getFileDescriptor _ _ obj) as [fd|e]; [|done].
  destruct (getService fd (crd_kind obj)) as [svc|e] eqn:Hsvc; [|done].
  destruct (crd_versions obj) as [|version [|]]; [done| |done]. cbv zeta.
  set (gv := if bool_decide (crd_group obj = "") then version else _). destruct (restClientFor gv) as [e|]; [done|].
  intros Ha Hp. destruct (addMethods_params _ _ _ _ _ _ _ _ Ha Hp) as [He|(m & v & H)]; [by rewrite lookup_empty in He|].
  by exists fd, svc, m, v, gv.
Qed.

(** ** Concrete messages *)

Example plain_field (name : string) (ty : ftype) : FieldDescriptor := mkField name ty false None.
Example hello_descs (md : string) : MessageDescriptor :=
  if bool_decide (md = "WatchHelloWorldRequest") then
    mkMessageDescriptor [plain_field "namespace" TString; plain_field "options" (TMessage "ListOptions")] true
  else if bool_decide (md = "ListOptions") then
    mkMessageDescriptor [plain_field "watch" TBool; plain_field "resourceVersion" TString] false
  else mkMessageDescriptor [] true.
Example hello_params (v : verbParams) : k8sRequestParams :=
  mkParams v "WatchHelloWorldRequest" "HelloWorldEvent" true "HelloWorld" "helloworlds" "hello/v1" "hello/v1".
Example watch_verb : verbParams := mkVerbParams "GET" true true true false "" false "namespace" false true "".
Example hello_json (b : string * list (string * value)) : result string := Ok "{}".
Example hello_fields : list (string * value) :=
  [("options", VMessage (Some ("ListOptions", [("resourceVersion", VString "28")])))].

Lemma hello_schema : schema hello_descs "Watch" "WatchHelloWorldRequest".
Proof.
  split; [by eexists|done| |done]. exists "ListOptions". split; [by eexists|]. split; [|by eexists].
  cbn. repeat constructor; set_solver.
Qed.
Lemma hello_typed : well_typed hello_descs "WatchHelloWorldRequest" hello_fields.
Proof.
  intros k v. cbn. case_bool_decide as Hk; [|done]. intros [= <-]. subst. eexists. split; [reflexivity|].
  econstructor; [done|done|]. intros k v. cbn. case_bool_decide as Hk; [|done]. intros [= <-]. subst.
  eexists. split; [reflexivity|]. by constructor.
Qed.


Lemma incomplete_requests_not_refused_witness :
  BuildKubernetesRequest hello_descs (λ _, false) hello_json (hello_params watch_verb) (Some ("WatchHelloWorldRequest", [])) = Crash.
Proof.
  apply (incomplete_requests_not_refused hello_descs (λ _, false) hello_json (λ _, eq_refl) "Watch"
    (hello_params watch_verb) "WatchHelloWorldRequest" []).
  - reflexivity.
  - discriminate.
  - discriminate.
  - apply hello_schema.
  - done.
  - by left.
  - reflexivity.
Defined.

Example hello_crd : CRD :=
  mkCRD "helloworlds.hello" (Some {[protoDescriptor := "..."]}) "hello" "HelloWorld" "helloworlds" "Namespaced" ["v1"].
Example hello_services (b : string) : result (list ServiceDescriptor) :=
  Ok [mkService "K8sHelloWorld" "hello.K8sHelloWorld" [mkMethod "Watch" "WatchHelloWorldRequest" "HelloWorldEvent"]].
Lemma repository_serves_the_crds_witness : ∃ r,
  handleAll Ok hello_services (λ _, None) [Added hello_crd] NewResourceInfoRepository = Val r ∧
  GetMethod "/hello.K8sHelloWorld/Watch" r = Ok (hello_params watch_verb).
Proof.
  destruct (repository_serves_the_crds Ok hello_services (λ _, None) (λ c, c = hello_crd) [Added hello_crd]
    {[crd_name hello_crd := hello_crd]}) as ((r & Hr & Hm) & _).
  - by intros c1 c2 ms1 ms2 -> ->.
  - by repeat constructor.
  - apply reports_added; [reflexivity|]. apply reports_nil.
  - exists r. split; [exact Hr|]. apply Hm. eexists hello_crd, _. by split_and!.
Defined.
