(* ===== verification/MetadataServer.v ===== *)
(** * src/go/cmd/metadata-server: the metadata of a robot, and its token

    [Module Model] translates main.go, coredns.go and the file
    src/go/pkg/robotauth/robotauth.go it loads.  Addresses are bytes, the hash
    and the rounding of durations to seconds are computed as Go does. *)
From stdpp Require Import prelude strings gmap list.
From Stdlib Require Import Ascii ZArith SpecFloat.
From S2P Require Import Prelude GoErr GoStr Kube.

Open Scope string_scope.
Open Scope prog_scope.

Module Model.

Definition StatusOK : Z := 200.
Definition StatusForbidden : Z := 403.
Definition StatusInternalServerError : Z := 500.

(** ** Calls *)

Record Token := mkToken { AccessToken : string; TokenType : string; Expiry : Z }.
(** Why the server ends: http.Serve returned, the watch of the file could not
    be set up or saw a change, or SIGTERM. *)
Inductive stop := ServeFailed (err : error) | WatchFailed (err : error) | FileChanged | SigTerm.

(** The cluster, the token source and the clock, the response writer,
    commands, files, the user's home directory, the listener. *)
Inductive sop : Type :=
| InClusterConfig
| NewForConfig
| GetConfigMap (namespace name : string)
| UpdateConfigMap (namespace : string) (cm : ConfigMap)
| GetToken
| Clock
| HeaderSet (k v : string)
| WriteHeader (code : Z)
| Write (body : string)
| Error (msg : string) (code : Z)
| NotFound
| Redirect (path : string)
| IPTables (args : list string)
| Getenv (name : string)
| UserCurrent
| ReadFile (path : string)
| MkdirAll (path : string)
| WriteFile (path data : string)
| Listen (address : string)
| AwaitStop.
#[export] Instance sop_effect : Effect sop := λ o,
  match o with
  | InClusterConfig | NewForConfig | UpdateConfigMap _ _ | IPTables _ | MkdirAll _ | WriteFile _ _ | Listen _ => option error
  | GetConfigMap _ _ => result ConfigMap
  | GetToken => result Token
  | Clock => Z
  | Getenv _ => string
  | UserCurrent => result string
  | ReadFile _ => result string
  | AwaitStop => stop
  | _ => unit
  end.
Definition Fatal {A} (msg : string) : prog sop A := Panic ("log.Fatal: " ++ msg).

(** ** coredns.go *)

Definition configMapName : string := "coredns".
Definition configMapNamespace : string := "kube-system".
Definition corefileName : string := "Corefile".
Definition nl : string := String "010"%char "".
Definition zoneStart : string := ".:53 {" ++ nl.
Definition zoneStartPatched : string :=
  ".:53 {" ++ nl ++ "    hosts hosts metadata.google.internal {" ++ nl ++
  "        169.254.169.254 metadata.google.internal" ++ nl ++ "        fallthrough" ++ nl ++ "    }" ++ nl.

Definition getCorefile : prog sop (result ConfigMap) :=
  let! cm := call (GetConfigMap configMapNamespace configMapName) in
  match cm with
  | Err err => Ret (Err (EText ("failed to get ConfigMap " ++ configMapName ++ ": " ++ error_text err)))
  | Ok cm =>
      match sm_lookup (cm_Data cm) corefileName with
      | None => Ret (Err (EText ("ConfigMap " ++ configMapName ++ " doesn't contain key " ++ corefileName)))
      | Some corefile =>
          if negb (Contains corefile zoneStart) then
            Ret (Err (EText ("zone start " ++ fmt_q zoneStart ++ " not found in Corefile")))
          else Ret (Ok cm)
      end
  end.
Definition writeCorefile (cm : ConfigMap) : prog sop (option error) :=
  call (UpdateConfigMap configMapNamespace cm).
Definition setCorefile (corefile : string) (cm : ConfigMap) : ConfigMap :=
  mkConfigMap (cm_meta cm) (sm_set (cm_Data cm) corefileName corefile).

Definition PatchCorefile : prog sop (option error) :=
  let! cm := getCorefile in
  match cm with
  | Err err => Ret (Some err)
  | Ok cm =>
      let corefile := sm_get (cm_Data cm) corefileName in
      if Contains corefile zoneStartPatched then Ret None
      else writeCorefile (setCorefile (Replace1 corefile zoneStart zoneStartPatched) cm)
  end.
Definition RevertCorefile : prog sop (option error) :=
  let! cm := getCorefile in
  match cm with
  | Err err => Ret (Some err)
  | Ok cm =>
      let corefile := sm_get (cm_Data cm) corefileName in
      if negb (Contains corefile zoneStartPatched) then Ret None
      else writeCorefile (setCorefile (Replace1 corefile zoneStartPatched zoneStart) cm)
  end.

(** ** Addresses (package net) *)

(** One part of a dotted address: decimal, at most 255, no leading zero. *)
Definition parseByte (s : string) : option Z :=
  if bool_decide (s = "") || negb (all_digits s) then None
  else if (1 <? String.length s)%nat && HasPrefix s "0" then None
  else if (255 <? digits_val 0 s)%Z then None else Some (digits_val 0 s).
(** [net.ParseIP] of a string without a colon: four bytes. *)
Definition ParseIP (s : string) : option (list Z) :=
  match Split s "." with
  | [a; b; c; d] => mapM parseByte [a; b; c; d]
  | _ => None
  end.
Record IPNet := mkIPNet { IP : list Z; Mask : list Z }.
(** [IPNet.Contains] of such an address. *)
Definition IPNet_Contains (n : IPNet) (ip : list Z) : bool :=
  bool_decide (length ip = length (IP n)) &&
  forallb (λ x, bool_decide (Z.land x.1.1 x.2 = Z.land x.1.2 x.2)) (zip (zip (IP n) ip) (Mask n)).

(** [CIDRMask(ones, 8 * bytes)]: a full byte, or the upper [ones] bits. *)
Fixpoint CIDRMask (ones bytes : nat) : list Z :=
  match bytes with
  | O => []
  | S bytes => (if (8 <=? ones)%nat then 255%Z else (255 - (2 ^ (8 - Z.of_nat ones) - 1))%Z) :: CIDRMask (ones - 8) bytes
  end.
Definition maskIP (ip mask : list Z) : list Z := zip_with Z.land ip mask.

Section server.
(** IPv6 networks and [json.Marshal]. *)
Context (parseCIDR6 : string → result IPNet) (marshalJSON : json → result string).

Definition ParseCIDR (s : string) : result IPNet :=
  match cut s "/" with
  | None => Err (EText ("invalid CIDR address: " ++ s))
  | Some (addr, mask) =>
      match ParseIP addr with
      | None => parseCIDR6 s
      | Some ip =>
          if bool_decide (mask = "") || negb (all_digits mask) || (32 <? digits_val 0 mask)%Z
          then Err (EText ("invalid CIDR address: " ++ s))
          else
            let m := CIDRMask (Z.to_nat (digits_val 0 mask)) 4 in
            Ok (mkIPNet (maskIP ip m) m)
      end
  end.

(** ** Time and numbers *)

(** [t.Sub(u)] saturates. *)
Definition maxDuration : Z := (2 ^ 63 - 1)%Z.
Definition minDuration : Z := (- 2 ^ 63)%Z.
Definition Sub (t u : Z) : Z := Z.max minDuration (Z.min maxDuration (t - u)).

(** [int(d.Seconds())]: float64 arithmetic, then truncation. *)
Definition float64 (z : Z) : spec_float := binary_normalize 53 1024 z 0 false.
Definition Seconds (d : Z) : spec_float :=
  SFadd 53 1024 (float64 (Z.quot d Second)) (SFdiv 53 1024 (float64 (Z.rem d Second)) (float64 Second)).
Definition truncate (f : spec_float) : Z :=
  match f with
  | S754_finite s m e =>
      let a := if (0 <=? e)%Z then Z.shiftl (Zpos m) e else Z.shiftr (Zpos m) (- e) in if s then (- a)%Z else a
  | _ => 0%Z
  end.

(** [fnv.New64a] of the bytes of a string. *)
Definition fnvOffset64 : Z := 14695981039346656037.
Definition fnvPrime64 : Z := 1099511628211.
Fixpoint fnv64a (h : Z) (s : string) : Z :=
  match s with
  | "" => h
  | String c s => fnv64a ((Z.lxor h (Z.of_nat (Ascii.nat_of_ascii c)) * fnvPrime64) mod 2 ^ 64)%Z s
  end.

(** ** Handlers *)

(** The parts of a request the handlers read. *)
Record Request := mkRequest { RemoteAddr : string; r_Path : string }.

Definition respond (contentType body : string) : prog sop unit :=
  call (HeaderSet "Metadata-Flavor" "Google") ;;!
  call (HeaderSet "Content-Type" contentType) ;;!
  call (WriteHeader StatusOK) ;;!
  call (Write body).

Definition ConstHandler (body : string) (_ : Request) : prog sop unit := respond "application/text" body.

Definition tokenResponse (token : Token) (now : Z) : json :=
  JObj [("access_token", JString (AccessToken token));
        ("expires_in", JNum (truncate (Seconds (Sub (Expiry token) now))));
        ("token_type", JString (TokenType token))].
Definition TokenHandler (allowedSources : IPNet) (r : Request) : prog sop unit :=
  match Split (RemoteAddr r) ":" with
  | [ip; _] =>
      match ParseIP ip with
      | Some a =>
          if negb (IPNet_Contains allowedSources a) then call (Error "Access forbidden" StatusForbidden)
          else
            let! token := call GetToken in
            match token with
            | Err err => call (Error ("Token retrieval failed: " ++ error_text err) StatusInternalServerError)
            | Ok token =>
                let! now := call Clock in
                if (Expiry token <? now)%Z then
                  call (Error "Internal access token is expired" StatusInternalServerError)
                else match marshalJSON (tokenResponse token now) with
                | Err err => call (Error ("Token serialization failed: " ++ error_text err) StatusInternalServerError)
                | Ok bytes => respond "application/json" bytes
                end
            end
      | None => call (Error "Access forbidden" StatusForbidden)
      end
  | _ => call (Error "Unable to check authorization" StatusInternalServerError)
  end.

Definition ServiceAccountHandler (_ : Request) : prog sop unit :=
  match marshalJSON (JObj [("aliases", JList []); ("email", JString "default"); ("scopes", JList [])]) with
  | Err err => call (Error ("ServiceAccountResponse serialization failed: " ++ error_text err) StatusInternalServerError)
  | Ok bytes => respond "application/json" bytes
  end.

Record MetadataHandler := mkMetadataHandler {
  ClusterName : string; ProjectId : string; ProjectNumber : Z; RobotName : string; InstanceId : Z; Zone : string }.
Definition metadata (mh : MetadataHandler) : gmap string string :=
  list_to_map
    [("project/project-id", ProjectId mh);
     ("project/numeric-project-id", fmt_d (ProjectNumber mh));
     ("instance/hostname", "robot-" ++ RobotName mh);
     ("instance/id", fmt_d (InstanceId mh));
     ("instance/zone", "projects/" ++ fmt_d (ProjectNumber mh) ++ "/zones/" ++ Zone mh);
     ("instance/attributes/", "kube-env" ++ nl ++ "cluster-name" ++ nl ++ "cluster-location" ++ nl);
     ("instance/attributes/kube-env", "CLUSTER_NAME: " ++ ClusterName mh ++ nl);
     ("instance/attributes/cluster-name", ClusterName mh);
     ("instance/attributes/cluster-location", Zone mh)].
Definition serveMetadata (mh : MetadataHandler) (r : Request) : prog sop unit :=
  call (HeaderSet "Metadata-Flavor" "Google") ;;!
  call (HeaderSet "Content-Type" "application/text") ;;!
  let value := default "" (metadata mh !! TrimPrefix (r_Path r) "/computeMetadata/v1/") in
  if bool_decide (value = "") then call NotFound
  else
    call (WriteHeader StatusOK) ;;!
    call (Write value).
Definition rootHandler (r : Request) : prog sop unit :=
  if bool_decide (r_Path r = "/") then respond "application/text" ("computeMetadata/" ++ nl) else call NotFound.

(** ** Routes: [http.Handle] and the default ServeMux *)

(** A pattern that ends in a slash stands for all paths below it, another one
    for itself; the longest pattern wins.  A path without the final slash of a
    pattern is redirected to the pattern.  Paths here are clean. *)
Definition routes : Type := list (string * (Request → prog sop unit)).
Fixpoint endsInSlash (s : string) : bool :=
  match s with
  | "" => false
  | String c "" => Ascii.eqb c "/"
  | String _ s => endsInSlash s
  end.
Definition matches (path pattern : string) : bool :=
  bool_decide (path = pattern) || (endsInSlash pattern && HasPrefix path pattern).
Definition longer (path : string) (kh : string * (Request → prog sop unit)) (best : option (string * (Request → prog sop unit)))
    : option (string * (Request → prog sop unit)) :=
  if matches path kh.1 then
    match best with
    | Some b => if (String.length kh.1 <? String.length b.1)%nat then best else Some kh
    | None => Some kh
    end
  else best.
Definition find_route (l : routes) (path : string) : option (string * (Request → prog sop unit)) :=
  foldr (longer path) None l.
Definition ServeMux (l : routes) (r : Request) : prog sop unit :=
  if negb (existsb (λ kh, bool_decide (kh.1 = r_Path r)) l) && existsb (λ kh, bool_decide (kh.1 = r_Path r ++ "/")) l
  then call (Redirect (r_Path r ++ "/"))
  else match find_route l (r_Path r) with Some kh => kh.2 r | None => call NotFound end.

Definition tokenPath : string := "/computeMetadata/v1/instance/service-accounts/default/token".
Definition handlers (allowedSources : IPNet) (mh : MetadataHandler) : routes :=
  [(tokenPath, TokenHandler allowedSources);
   ("/computeMetadata/v1/instance/service-accounts/default/", ServiceAccountHandler);
   ("/computeMetadata/v1/instance/service-accounts/", ConstHandler ("default/" ++ nl));
   ("/computeMetadata/v1/", serveMetadata mh);
   ("/", rootHandler);
   ("/computeMetadata/v1/instance/network-interfaces/0/ip", ConstHandler ("127.0.0.1/" ++ nl));
   ("/computeMetadata/v1/instance/network-interfaces/0/access-configs/0/external-ip", ConstHandler ("127.0.0.1/" ++ nl))].

(** ** robotauth.go *)

Record RobotAuth := mkRobotAuth { ra_RobotName : string; ra_Domain : string; ra_UpstreamAuthToken : string }.
Definition credentialsFile : string := "~/.config/cloud-robotics/robot-id.json".
(** [json.Unmarshal] and [json.Marshal] of it, and package filepath. *)
Context (parseRobotAuth : string → result RobotAuth) (marshalRobotAuth : RobotAuth → result string)
  (filepath_Join : string → string → string) (Dir : string → string).

(** kubeutils.go: a path of less than two bytes panics, and so does a process
    without a user. *)
Definition ExpandUser (path : string) : prog sop string :=
  if (String.length path <? 2)%nat then Panic "slice bounds out of range"
  else if negb (HasPrefix path "~/") then Ret path
  else
    let! usr := call UserCurrent in
    match usr with
    | Err _ => Panic "nil dereference"
    | Ok homeDir => Ret (filepath_Join homeDir (str_drop 2 path))
    end.
Definition filename : prog sop string := ExpandUser credentialsFile.
Definition LoadFromFile (keyfile : string) : prog sop (result RobotAuth) :=
  let! keyfile := (if bool_decide (keyfile = "") then filename else Ret keyfile) in
  let! raw := call (ReadFile keyfile) in
  match raw with
  | Err err => Ret (Err (EText ("failed to read " ++ credentialsFile ++ ": " ++ error_text err)))
  | Ok raw =>
      match parseRobotAuth raw with
      | Err err => Ret (Err (EText ("failed to parse " ++ credentialsFile ++ ": " ++ error_text err)))
      | Ok a => Ret (Ok a)
      end
  end.
Definition StoreInFile (r : RobotAuth) : prog sop (option error) :=
  match marshalRobotAuth r with
  | Err err => Ret (Some (EText ("failed to serialize ID: " ++ error_text err)))
  | Ok raw =>
      let! file := filename in
      let! dir := ExpandUser (Dir file) in
      let! err := call (MkdirAll dir) in
      match err with
      | Some err => Ret (Some err)
      | None =>
          let! err := call (WriteFile file raw) in
          match err with
          | Some err => Ret (Some (EText ("failed to write " ++ credentialsFile ++ ": " ++ error_text err)))
          | None => Ret None
          end
      end
  end.
(** 1 January of the year 10000, in seconds of the Unix epoch. *)
Definition year10000 : Z := (253402300800 * Second)%Z.
Definition robotToken (r : RobotAuth) : Token := mkToken (ra_UpstreamAuthToken r) "Bearer" year10000.

(** ** main.go: set-up and clean-up *)

Definition deprecatedPort : Z := 8080.
Definition getIPTablesRuleSpec (bindIP : string) (port : Z) : list string :=
  ["-p"; "tcp"; "-d"; "169.254.169.254"; "--dport"; "80"; "-j"; "DNAT"; "--to-destination"; bindIP ++ ":" ++ fmt_d port].
Definition prerouting (op : string) (rule : list string) : list string := (["-t"; "nat"; op; "PREROUTING"] ++ rule)%list.
Definition addIPTablesRule (bindIP : string) (port : Z) : prog sop (option error) :=
  let! err := call (IPTables (prerouting "-A" (getIPTablesRuleSpec bindIP port))) in
  Ret ((λ err, EText ("iptables invocation failed: " ++ error_text err)) <$> err).
(** A failure is only logged. *)
Definition removeIPTablesRule (bindIP : string) (port : Z) : prog sop unit :=
  call (IPTables (prerouting "-D" (getIPTablesRuleSpec bindIP port))) ;;! Ret tt.
Definition removeDeprecatedIPTablesRule (bindIP : string) : prog sop (option error) :=
  call (IPTables (prerouting "-D" (getIPTablesRuleSpec bindIP deprecatedPort))).
(** Until one removal fails, at most [fuel] times. *)
Fixpoint removeDeprecated (fuel : nat) (bindIP : string) : prog sop unit :=
  match fuel with
  | O => Ret tt
  | S fuel =>
      let! err := removeDeprecatedIPTablesRule bindIP in
      match err with Some _ => Ret tt | None => removeDeprecated fuel bindIP end
  end.

Definition inCluster (f : prog sop (option error)) : prog sop (option error) :=
  let! err := call InClusterConfig in
  match err with
  | Some err => Ret (Some err)
  | None =>
      let! err := call NewForConfig in
      match err with Some err => Ret (Some err) | None => f end
  end.
Definition patchCorefileInCluster : prog sop (option error) := inCluster PatchCorefile.
(** Failures are only logged. *)
Definition revertCorefileInCluster : prog sop unit := inCluster RevertCorefile ;;! Ret tt.

Definition metadataHandler (a : RobotAuth) : MetadataHandler :=
  mkMetadataHandler (ra_RobotName a) "cloud-robotics" 0 (ra_RobotName a) (fnv64a fnvOffset64 (ra_RobotName a)) "europe-west1-c".

(** The three goroutines that wait for an end, and what the first of them
    does: only a watch that cannot be set up ends the process at once. *)
Definition awaitStop (bindIP : string) (port : Z) (robotIdFile : string) : prog sop unit :=
  let! s := call AwaitStop in
  match s with
  | WatchFailed err => Fatal (error_text err)
  | ServeFailed err =>
      revertCorefileInCluster ;;! removeIPTablesRule bindIP port ;;! Fatal (error_text err)
  | FileChanged =>
      revertCorefileInCluster ;;! removeIPTablesRule bindIP port ;;!
      Fatal (robotIdFile ++ " changed but reloading is not implemented. Crashing...")
  | SigTerm => revertCorefileInCluster ;;! removeIPTablesRule bindIP port
  end.

(** From the listener on. *)
Definition serve (fuel : nat) (bindIP : string) (port : Z) (robotIdFile : string) : prog sop unit :=
  let! err := call (Listen (bindIP ++ ":" ++ fmt_d port)) in
  match err with
  | Some err => Fatal ("failed to create listener on " ++ bindIP ++ ":" ++ fmt_d port ++ ": " ++ error_text err)
  | None =>
      (if bool_decide (port = deprecatedPort) then Ret tt else removeDeprecated fuel bindIP) ;;!
      let! err := addIPTablesRule bindIP port in
      match err with
      | Some err => Fatal ("failed to add iptables rule: " ++ error_text err)
      | None =>
          let! err := patchCorefileInCluster in
          match err with
          | Some err => removeIPTablesRule bindIP port ;;! Fatal (error_text err)
          | None => awaitStop bindIP port robotIdFile
          end
      end
  end.
(** The routes it serves, and its life. *)
Definition main (fuel : nat) (port : Z) (robotIdFile sourceCidr : string) : prog sop (routes * unit) :=
  let! bindIP := call (Getenv "BIND_IP") in
  if bool_decide (bindIP = "") then Fatal "BIND_IP environment variable not set"
  else match ParseCIDR sourceCidr with
  | Err err => Fatal ("invalid source CIDR " ++ sourceCidr ++ ": " ++ error_text err)
  | Ok allowedSources =>
      let! robotAuth := LoadFromFile robotIdFile in
      match robotAuth with
      | Err err => Fatal ("failed to read robot id file " ++ robotIdFile ++ ": " ++ error_text err)
      | Ok robotAuth =>
          let! u := serve fuel bindIP port robotIdFile in
          Ret (handlers allowedSources (metadataHandler robotAuth), u)
      end
  end.
End server.
End Model.
Import Model.

(** ** The Corefile *)

#[local] Arguments String.append !_ _ : simpl nomatch.

Lemma HasPrefix_app_l u v p : (String.length p ≤ String.length u)%nat → HasPrefix (u ++ v) p = HasPrefix u p.
Proof.
  revert u. induction p as [|c p IH]; intros [|d u] Hl; cbn in *; [by destruct v|done|lia|]. rewrite IH; [done|lia].
Qed.
Lemma HasPrefix_shorter s p q : HasPrefix s (p ++ q) = true → HasPrefix s p = true.
Proof.
  intros H. apply HasPrefix_iff in H as [r ->]. rewrite app_assoc_s. apply HasPrefix_app.
Qed.
(** The first occurrence of [sep] does not depend on what follows it. *)
Lemma cut_tail a sep b c : cut (a ++ sep ++ b) sep = Some (a, b) → cut (a ++ sep ++ c) sep = Some (a, c).
Proof.
  induction a as [|x a IH]; cbn [String.append].
  - intros _. destruct (sep ++ c) eqn:E; cbn [cut]; rewrite <-E, HasPrefix_app, str_drop_app; done.
  - cbn [cut]. destruct (HasPrefix (String x (a ++ sep ++ b)) sep) eqn:Hp; [done|].
    assert (HasPrefix (String x (a ++ sep ++ c)) sep = false) as ->.
    { rewrite <-Hp. change (HasPrefix (String x a ++ sep ++ c) sep = HasPrefix (String x a ++ sep ++ b) sep).
      rewrite <-!app_assoc_s, !(HasPrefix_app_l (String x a ++ sep)); [done|rewrite app_length_s; lia..]. }
    destruct (cut (a ++ sep ++ b) sep) as [[a' b']|]; [|done]. intros [= -> ->]. by rewrite IH.
Qed.
(** It is also the first occurrence of any longer text that starts with it. *)
Lemma cut_longer a sep q b : cut (a ++ sep ++ q ++ b) sep = Some (a, q ++ b) →
  cut (a ++ (sep ++ q) ++ b) (sep ++ q) = Some (a, b).
Proof.
  induction a as [|x a IH]; cbn [String.append].
  - intros _. destruct ((sep ++ q) ++ b) eqn:E; cbn [cut]; rewrite <-E, HasPrefix_app, str_drop_app; done.
  - cbn [cut]. destruct (HasPrefix (String x (a ++ sep ++ q ++ b)) sep) eqn:Hp; [done|].
    destruct (HasPrefix (String x (a ++ (sep ++ q) ++ b)) (sep ++ q)) eqn:Hp'.
    { apply HasPrefix_shorter in Hp'. by rewrite app_assoc_s, Hp in Hp'. }
    destruct (cut (a ++ sep ++ q ++ b) sep) as [[a' b']|]; [|done]. intros [= -> ->]. by rewrite IH.
Qed.

Definition zoneExtra : string := str_drop (String.length zoneStart) zoneStartPatched.
Lemma zoneStartPatched_split : zoneStartPatched = zoneStart ++ zoneExtra.
Proof. reflexivity. Qed.

Lemma patch_cut s : Contains s zoneStart = true → ∃ a b, s = a ++ zoneStart ++ b ∧
  Replace1 s zoneStart zoneStartPatched = a ++ zoneStartPatched ++ b ∧
  cut (a ++ zoneStartPatched ++ b) zoneStartPatched = Some (a, b).
Proof.
  unfold Contains, Replace1. destruct (cut s zoneStart) as [[a b]|] eqn:Hc; [|done]. intros _.
  pose proof (cut_Some _ _ _ _ Hc) as ->. exists a, b. split; [done|]. split; [done|].
  rewrite zoneStartPatched_split. apply cut_longer. by apply (cut_tail _ _ b).
Qed.
Lemma patched_contains s : Contains s zoneStart = true →
  Contains (Replace1 s zoneStart zoneStartPatched) zoneStartPatched = true ∧
  Contains (Replace1 s zoneStart zoneStartPatched) zoneStart = true.
Proof.
  intros (a & b & -> & Hr & Hc)%patch_cut. rewrite Hr. split; [unfold Contains; by rewrite Hc|].
  apply Contains_iff. exists a, (zoneExtra ++ b). by rewrite zoneStartPatched_split, app_assoc_s.
Qed.
Lemma revert_patched s : Contains s zoneStart = true →
  Replace1 (Replace1 s zoneStart zoneStartPatched) zoneStartPatched zoneStart = s.
Proof. intros (a & b & Hs & Hr & Hc)%patch_cut. rewrite Hr. unfold Replace1. by rewrite Hc. Qed.

(** *** A cluster with the config map, and the rules of a host *)

Record host := mkHost { h_rules : list (list string); h_cm : ConfigMap; h_stop : stop }.
Definition h_setRules (l : list (list string)) (h : host) : host := mkHost l (h_cm h) (h_stop h).
Definition h_setCm (cm : ConfigMap) (h : host) : host := mkHost (h_rules h) cm (h_stop h).
Definition corefile (h : host) : option string := sm_lookup (cm_Data (h_cm h)) corefileName.

Fixpoint removeFirst (rule : list string) (l : list (list string)) : option (list (list string)) :=
  match l with
  | [] => None
  | r :: l => if decide (r = rule) then Some l else (r ::.) <$> removeFirst rule l
  end.
Definition iptables (args : list string) (h : host) : option error * host :=
  match args with
  | "-t" :: "nat" :: op :: "PREROUTING" :: rule =>
      if bool_decide (op = "-A") then (None, h_setRules (h_rules h ++ [rule])%list h)
      else if bool_decide (op = "-D") then
        match removeFirst rule (h_rules h) with
        | Some l => (None, h_setRules l h)
        | None => (Some (EText "Bad rule (does a matching rule exist in that chain?)."), h)
        end
      else (Some (EText "unknown command"), h)
  | _ => (Some (EText "unknown command"), h)
  end.
Definition robot (o : sop) (h : host) : option (resp o * host) :=
  match o with
  | InClusterConfig | NewForConfig | Listen _ => Some (None, h)
  | GetConfigMap ns name =>
      if bool_decide (ns = "kube-system") && bool_decide (name = "coredns") then Some (Ok (h_cm h), h)
      else Some (Err (EText "not found"), h)
  | UpdateConfigMap _ cm => Some (None, h_setCm cm h)
  | IPTables args => Some (iptables args h)
  | AwaitStop => Some (h_stop h, h)
  | _ => None
  end.

(** The config map with another Corefile. *)
Definition withCorefile (s : string) (h : host) : host := h_setCm (setCorefile s (h_cm h)) h.

Lemma corefile_with s h : corefile (withCorefile s h) = Some s.
Proof. unfold corefile, withCorefile. cbn. apply sm_lookup_set_eq. Qed.
Lemma withCorefile_twice s s' h : withCorefile s (withCorefile s' h) = withCorefile s h.
Proof.
  unfold withCorefile, setCorefile, h_setCm, sm_set. cbn. do 3 f_equal. by rewrite insert_insert_eq.
Qed.
Lemma withCorefile_same s h : corefile h = Some s → withCorefile s h = h.
Proof.
  destruct h as [rules [meta data] st]. unfold corefile, withCorefile, setCorefile, h_setCm, sm_lookup, sm_set. cbn.
  destruct data as [data|]; [|done]. cbn. intros Hs. do 3 f_equal. by rewrite insert_id.
Qed.

Lemma run_getCorefile h s : corefile h = Some s → Contains s zoneStart = true →
  run robot getCorefile h = Some ([GetConfigMap configMapNamespace configMapName ▷ Ok (h_cm h)], Done (Ok (h_cm h)), h).
Proof.
  intros Hs Hc. unfold getCorefile. cbn [run prog_bind call robot]. rewrite !bool_decide_true by done.
  cbn [andb]. unfold corefile in Hs. rewrite Hs, Hc. done.
Qed.
Lemma run_patch h s : corefile h = Some s → Contains s zoneStart = true → Contains s zoneStartPatched = false →
  ∃ t, run robot PatchCorefile h = Some (t, Done None, withCorefile (Replace1 s zoneStart zoneStartPatched) h).
Proof.
  intros Hs Hc Hp. eexists. unfold PatchCorefile. eapply run_bind; [by eapply run_getCorefile|].
  unfold corefile in Hs. unfold sm_get. rewrite Hs. cbn [default from_option id]. rewrite Hp. reflexivity.
Qed.
Lemma run_patch_again h s : corefile h = Some s → Contains s zoneStart = true → Contains s zoneStartPatched = true →
  ∃ t, run robot PatchCorefile h = Some (t, Done None, h).
Proof.
  intros Hs Hc Hp. eexists. unfold PatchCorefile. eapply run_bind; [by eapply run_getCorefile|].
  unfold corefile in Hs. unfold sm_get. rewrite Hs. cbn [default from_option id]. rewrite Hp. reflexivity.
Qed.
Lemma run_revert h s : corefile h = Some s → Contains s zoneStart = true → Contains s zoneStartPatched = true →
  ∃ t, run robot RevertCorefile h = Some (t, Done None, withCorefile (Replace1 s zoneStartPatched zoneStart) h).
Proof.
  intros Hs Hc Hp. eexists. unfold RevertCorefile. eapply run_bind; [by eapply run_getCorefile|].
  unfold corefile in Hs. unfold sm_get. rewrite Hs. cbn [default from_option id]. rewrite Hp. reflexivity.
Qed.

(** C37: Reverting undoes patching.  On a cluster whose Corefile has a start of
    a zone and is not patched, patching puts the host entry after the first
    start, patching again writes nothing, and reverting gives back the config
    map as it was, to the byte. *)
Theorem corefile_roundtrip (h : host) (s : string) :
  corefile h = Some s → Contains s zoneStart = true → Contains s zoneStartPatched = false →
  ∃ t1 t2 t3 h', run robot PatchCorefile h = Some (t1, Done None, h') ∧
    corefile h' = Some (Replace1 s zoneStart zoneStartPatched) ∧
    run robot PatchCorefile h' = Some (t2, Done None, h') ∧
    run robot RevertCorefile h' = Some (t3, Done None, h).
Proof.
  intros Hs Hc Hp. destruct (run_patch h s Hs Hc Hp) as [t1 H1]. destruct (patched_contains s Hc) as [Hp' Hc'].
  pose proof (corefile_with (Replace1 s zoneStart zoneStartPatched) h) as Hs'.
  destruct (run_patch_again _ _ Hs' Hc' Hp') as [t2 H2]. destruct (run_revert _ _ Hs' Hc' Hp') as [t3 H3].
  exists t1, t2, t3, (withCorefile (Replace1 s zoneStart zoneStartPatched) h). split; [exact H1|]. split; [exact Hs'|].
  split; [exact H2|]. rewrite withCorefile_twice, (revert_patched s Hc), (withCorefile_same s h Hs) in H3. exact H3.
Qed.

(** ** Clean-up *)

Definition rule (bindIP : string) (port : Z) : list string := getIPTablesRuleSpec bindIP port.

Lemma removeFirst_perm r l l' : removeFirst r l = Some l' → l ≡ₚ r :: l'.
Proof.
  revert l'. induction l as [|x l IH]; intros l'; cbn; [done|]. case_decide as Hx.
  - intros [= <-]. by rewrite Hx.
  - destruct (removeFirst r l) as [l1|]; [|done]. cbn. intros [= <-]. rewrite (IH l1 eq_refl). constructor.
Qed.
Lemma removeFirst_some r l : r ∈ l → ∃ l', removeFirst r l = Some l'.
Proof.
  induction l as [|x l IH]; intros Hr; [by apply not_elem_of_nil in Hr|]. cbn. case_decide as Hx; [by eexists|].
  apply elem_of_cons in Hr as [->|Hr]; [done|]. destruct (IH Hr) as [l' ->]. by eexists.
Qed.
Lemma removeFirst_none r l : removeFirst r l = None → r ∉ l.
Proof. intros Hn Hr. destruct (removeFirst_some r l Hr) as [l' ?]. congruence. Qed.

Lemma run_add bindIP port h :
  run robot (addIPTablesRule bindIP port) h =
  Some ([IPTables (prerouting "-A" (rule bindIP port)) ▷ None], Done None, h_setRules (h_rules h ++ [rule bindIP port])%list h).
Proof. reflexivity. Qed.
Lemma run_remove bindIP port h : rule bindIP port ∈ h_rules h →
  ∃ t l, run robot (removeIPTablesRule bindIP port) h = Some (t, Done tt, h_setRules l h) ∧ h_rules h ≡ₚ rule bindIP port :: l.
Proof.
  intros Hr. destruct (removeFirst_some _ _ Hr) as [l Hl]. eexists _, l. split; [|by apply removeFirst_perm].
  unfold removeIPTablesRule. cbn [run prog_bind call robot iptables prerouting app].
  rewrite bool_decide_false, bool_decide_true by done. fold (rule bindIP port). rewrite Hl. reflexivity.
Qed.

(** All deprecated rules go, the others stay. *)
Lemma run_removeDeprecated fuel bindIP h : (length (h_rules h) < fuel)%nat →
  ∃ t l, run robot (removeDeprecated fuel bindIP) h = Some (t, Done tt, h_setRules l h) ∧
    l ≡ₚ filter (λ r, r ≠ rule bindIP deprecatedPort) (h_rules h).
Proof.
  revert h. induction fuel as [|fuel IH]; intros h Hl; [lia|]. cbn [removeDeprecated].
  unfold removeDeprecatedIPTablesRule. fold (rule bindIP deprecatedPort).
  destruct (removeFirst (rule bindIP deprecatedPort) (h_rules h)) as [l|] eqn:Hr.
  - pose proof (removeFirst_perm _ _ _ Hr) as Hp.
    destruct (IH (h_setRules l h)) as (t & l' & Hrun & Hl').
    { cbn. apply Permutation_length in Hp. cbn in Hp. lia. }
    eexists _, l'. split.
    + cbn [run prog_bind call robot iptables prerouting app].
      rewrite bool_decide_false, bool_decide_true by done. rewrite Hr. cbn [run]. rewrite Hrun. reflexivity.
    + rewrite Hl'. cbn [h_setRules h_rules]. rewrite Hp, filter_cons. case_decide as Hn; [by destruct Hn|done].
  - eexists _, (h_rules h). split.
    + cbn [run prog_bind call robot iptables prerouting app].
      rewrite bool_decide_false, bool_decide_true by done. rewrite Hr. cbn [run]. destruct h; reflexivity.
    + apply removeFirst_none in Hr. clear Hl. induction (h_rules h) as [|x l IHl]; [done|].
      rewrite filter_cons_True; [|by intros ->; apply Hr; left]. constructor. apply IHl. intros ?. apply Hr. by right.
Qed.

Lemma run_inCluster p h t a h' : run robot p h = Some (t, Done a, h') →
  ∃ t', run robot (inCluster p) h = Some (t', Done a, h').
Proof. intros Hp. unfold inCluster. cbn [run prog_bind call robot]. rewrite Hp. by eexists. Qed.
Lemma run_revertInCluster h s : corefile h = Some s → Contains s zoneStart = true → Contains s zoneStartPatched = true →
  ∃ t, run robot revertCorefileInCluster h = Some (t, Done tt, withCorefile (Replace1 s zoneStartPatched zoneStart) h).
Proof.
  intros Hs Hc Hp. destruct (run_revert h s Hs Hc Hp) as [t Ht]. destruct (run_inCluster _ _ _ _ _ Ht) as [t' Ht'].
  eexists. unfold revertCorefileInCluster. eapply run_bind; [exact Ht'|reflexivity].
Qed.

(** Both clean-ups, from a patched Corefile and a set rule. *)
Lemma run_cleanup bindIP port h s : corefile h = Some (Replace1 s zoneStart zoneStartPatched) → Contains s zoneStart = true →
  rule bindIP port ∈ h_rules h →
  ∃ t1 t2 l, run robot revertCorefileInCluster h = Some (t1, Done tt, withCorefile s h) ∧
    run robot (removeIPTablesRule bindIP port) (withCorefile s h) = Some (t2, Done tt, h_setRules l (withCorefile s h)) ∧
    h_rules h ≡ₚ rule bindIP port :: l.
Proof.
  intros Hs Hc Hr. destruct (patched_contains s Hc) as [Hp' Hc'].
  destruct (run_revertInCluster h _ Hs Hc' Hp') as [t1 H1]. rewrite (revert_patched s Hc) in H1.
  destruct (run_remove bindIP port (withCorefile s h) Hr) as (t2 & l & H2 & Hl). by exists t1, t2, l.
Qed.

(** The first end decides. *)
Lemma run_awaitStop bindIP port robotIdFile h h1 h2 t1 t2 :
  run robot revertCorefileInCluster h = Some (t1, Done tt, h1) →
  run robot (removeIPTablesRule bindIP port) h1 = Some (t2, Done tt, h2) →
  ∃ t out, run robot (awaitStop bindIP port robotIdFile) h =
    Some (t, out, match h_stop h with WatchFailed _ => h | _ => h2 end).
Proof.
  intros H1 H2.
  assert (∀ p : prog sop unit, (∀ h, ∃ out, run robot p h = Some ([], out, h)) →
    ∃ t out, run robot (revertCorefileInCluster ;;! removeIPTablesRule bindIP port ;;! p) h = Some (t, out, h2)) as Hclean.
  { intros p Hrun. destruct (Hrun h2) as [out Hout]. eexists _, _.
    eapply run_bind; [exact H1|]. eapply run_bind; [exact H2|exact Hout]. }
  assert (run robot (call AwaitStop) h = Some ([AwaitStop ▷ h_stop h], Done (h_stop h), h)) as Hcall by reflexivity.
  destruct (h_stop h) as [err|err| |] eqn:Hst.
  - destruct (Hclean (Fatal (error_text err))) as (t & out & Hr); [by eexists|].
    eexists _, _. eapply run_bind; [exact Hcall|exact Hr].
  - eexists _, _. eapply run_bind; [exact Hcall|reflexivity].
  - destruct (Hclean (Fatal (robotIdFile ++ " changed but reloading is not implemented. Crashing..."))) as (t & out & Hr);
      [by eexists|].
    eexists _, _. eapply run_bind; [exact Hcall|exact Hr].
  - eexists _, _. eapply run_bind; [exact Hcall|]. eapply run_bind; [exact H1|exact H2].
Qed.

(** C36: The server leaves no trace where its calls succeed.  On a robot whose
    Corefile is not patched, where every call to the API server and to iptables
    succeeds, and with a port that is not the deprecated one, whatever rules
    there are: when the server ends by SIGTERM, because serving
    failed or because its ID file changed, the config map is what it was, byte
    for byte, and the rules are those from before, less the deprecated ones.
    Only if the watch on the file cannot be set up, the process ends with the
    rule set and the Corefile patched. *)
Theorem serve_cleans_up (fuel : nat) (bindIP : string) (port : Z) (robotIdFile : string) (h : host) (s : string) :
  corefile h = Some s → Contains s zoneStart = true → Contains s zoneStartPatched = false →
  port ≠ deprecatedPort → (length (h_rules h) < fuel)%nat →
  ∃ t out h', run robot (serve fuel bindIP port robotIdFile) h = Some (t, out, h') ∧
    match h_stop h with
    | WatchFailed _ =>
        h_rules h' ≡ₚ rule bindIP port :: filter (λ r, r ≠ rule bindIP deprecatedPort) (h_rules h) ∧
        corefile h' = Some (Replace1 s zoneStart zoneStartPatched)
    | _ =>
        h_rules h' ≡ₚ filter (λ r, r ≠ rule bindIP deprecatedPort) (h_rules h) ∧ h_cm h' = h_cm h
    end.
Proof.
  intros Hs Hc Hp Hport Hfuel.
  destruct (run_removeDeprecated fuel bindIP h Hfuel) as (t1 & l1 & H1 & Hl1).
  set (h1 := h_setRules (l1 ++ [rule bindIP port])%list h).
  destruct (run_patch h1 s Hs Hc Hp) as [t2 H2]. apply run_inCluster in H2 as [t2' H2].
  set (h2 := withCorefile (Replace1 s zoneStart zoneStartPatched) h1) in *.
  assert (corefile h2 = Some (Replace1 s zoneStart zoneStartPatched)) as Hs2 by apply corefile_with.
  assert (rule bindIP port ∈ h_rules h2) as Hr2 by (cbn; set_solver).
  destruct (run_cleanup bindIP port h2 s Hs2 Hc Hr2) as (t3 & t4 & l3 & H3 & H4 & Hl3).
  assert (withCorefile s h2 = h1) as Hback.
  { unfold h2. rewrite withCorefile_twice. by apply withCorefile_same. }
  rewrite Hback in H3, H4.
  assert (l3 ≡ₚ filter (λ r, r ≠ rule bindIP deprecatedPort) (h_rules h)) as Hl.
  { rewrite <-Hl1. cbn in Hl3. rewrite <-Permutation_cons_append in Hl3. by apply Permutation_cons_inv in Hl3. }
  assert (∀ p out h', run robot (awaitStop bindIP port robotIdFile) h2 = Some (p, out, h') →
    ∃ t, run robot (serve fuel bindIP port robotIdFile) h = Some (t, out, h')) as Hserve.
  { intros p out h' Ha. eexists. unfold serve. cbn [run prog_bind call robot]. rewrite bool_decide_false by done.
    erewrite run_bind; [reflexivity|exact H1|]. eapply run_bind; [apply run_add|].
    cbn [h_setRules h_rules]. eapply run_bind; [exact H2|exact Ha]. }
  destruct (run_awaitStop bindIP port robotIdFile _ _ _ _ _ H3 H4) as (t5 & out & H5).
  destruct (Hserve _ _ _ H5) as [t6 H6]. eexists t6, out, _. split; [exact H6|].
  change (h_stop h2) with (h_stop h). destruct (h_stop h); [by split| |by split..].
  split; [|exact Hs2]. cbn. rewrite <-Hl1. by rewrite <-Permutation_cons_append.
Qed.

(** ** Allowed sources *)

(** The address as one number, the first byte the highest. *)
Fixpoint addr_num (ip : list Z) : Z :=
  match ip with [] => 0 | b :: ip => b * 2 ^ (8 * Z.of_nat (length ip)) + addr_num ip end%Z.
Definition is_byte (b : Z) : Prop := (0 ≤ b < 256)%Z.

Lemma cut_slash_cons c s : c ≠ "/"%char →
  cut (String c s) "/" = match cut s "/" with Some (a, b) => Some (String c a, b) | None => None end.
Proof.
  intros Hc. cbn [cut HasPrefix]. by rewrite (proj2 (Ascii.eqb_neq _ _) (not_eq_sym Hc)).
Qed.
Lemma cut_slash_digits a s x y : all_digits a = true → cut s "/" = Some (x, y) → cut (a ++ s) "/" = Some (a ++ x, y).
Proof.
  intros Ha Hs. induction a as [|c a IH]; [done|]. cbn [all_digits] in Ha. apply andb_prop in Ha as [Hc Ha].
  rewrite !app_cons, cut_slash_cons by (intros ->; discriminate (eq_trans (eq_sym Hc) eq_refl)). by rewrite (IH Ha).
Qed.
Lemma parseByte_Some s b : parseByte s = Some b → all_digits s = true ∧ is_byte b.
Proof.
  unfold parseByte. destruct (all_digits s) eqn:Hd; cbn; [|by rewrite orb_true_r].
  destruct (_ || _); [done|]. destruct (_ && _); [done|]. destruct (Z.ltb_spec 255 (digits_val 0 s)); [done|]. intros [= <-].
  split; [done|]. split; [|lia]. assert (∀ acc, (0 ≤ acc → 0 ≤ digits_val acc s)%Z) as Hpos; [|by apply Hpos].
  clear. induction s as [|c s IH]; intros acc Hacc; [done|]. apply IH. unfold digit_val. lia.
Qed.
Lemma ParseIP_Some s ip : ParseIP s = Some ip → ∃ a b c d x y z w, s = a ++ "." ++ b ++ "." ++ c ++ "." ++ d ∧
  all_digits a = true ∧ all_digits b = true ∧ all_digits c = true ∧ all_digits d = true ∧
  ip = [x; y; z; w] ∧ is_byte x ∧ is_byte y ∧ is_byte z ∧ is_byte w.
Proof.
  intros Hp. rewrite <-(Join_Split s "."). unfold ParseIP in Hp. destruct (Split s ".") as [|a [|b [|c [|d [|]]]]]; try done.
  apply mapM_Some in Hp. inversion Hp as [|? x ? l1 [Ha Hx]%parseByte_Some H1]; subst.
  inversion H1 as [|? y ? l2 [Hb Hy]%parseByte_Some H2]; subst.
  inversion H2 as [|? z ? l3 [Hc Hz]%parseByte_Some H3]; subst.
  inversion H3 as [|? w ? l4 [Hd Hw]%parseByte_Some H4]; subst. inversion H4; subst.
  by exists a, b, c, d, x, y, z, w.
Qed.
Lemma ParseIP_bytes s ip : ParseIP s = Some ip → length ip = 4%nat ∧ Forall is_byte ip.
Proof.
  intros (? & ? & ? & ? & x & y & z & w & _ & _ & _ & _ & _ & -> & ?)%ParseIP_Some. split; [done|].
  repeat (apply Forall_cons_2; [tauto|]). apply Forall_nil_2.
Qed.
Lemma ParseIP_cut addr ip mask : ParseIP addr = Some ip → cut (addr ++ "/" ++ mask) "/" = Some (addr, mask).
Proof.
  intros (a & b & c & d & x & y & z & w & -> & Ha & Hb & Hc & Hd & _)%ParseIP_Some. rewrite !app_assoc_s.
  assert (cut ("/" ++ mask) "/" = Some ("", mask)) as Hm by (by destruct mask).
  apply (cut_slash_digits d) in Hm; [|done]. rewrite app_empty_r in Hm.
  assert (∀ p s x y, all_digits p = true → cut s "/" = Some (x, y) → cut (p ++ "." ++ s) "/" = Some (p ++ "." ++ x, y)) as Hdot.
  { intros p s x' y' Hp Hs. apply cut_slash_digits; [done|]. cbn [String.append]. by rewrite cut_slash_cons, Hs. }
  by apply Hdot, Hdot, Hdot.
Qed.

(** A byte under the mask that keeps its upper [8 - j] bits. *)
Lemma land_mask (b : Z) (j : nat) : is_byte b → (j ≤ 8)%nat →
  Z.land b (255 - (2 ^ Z.of_nat j - 1)) = (2 ^ Z.of_nat j * (b / 2 ^ Z.of_nat j))%Z.
Proof.
  intros [Hb0 Hb] Hj.
  assert (∀ n m, (n < 256)%nat → (m < 9)%nat →
    Z.land (Z.of_nat n) (255 - (2 ^ Z.of_nat m - 1)) = (2 ^ Z.of_nat m * (Z.of_nat n / 2 ^ Z.of_nat m))%Z) as Hall.
  { intros n m Hn Hm. apply Z.eqb_eq.
    assert (forallb (λ n, forallb (λ m, Z.land (Z.of_nat n) (255 - (2 ^ Z.of_nat m - 1)) =? 2 ^ Z.of_nat m * (Z.of_nat n / 2 ^ Z.of_nat m))%Z
      (seq 0 9)) (seq 0 256) = true) as Hc by (vm_compute; reflexivity).
    rewrite forallb_forall in Hc. specialize (Hc n). rewrite forallb_forall in Hc. apply Hc; apply in_seq; lia. }
  rewrite <-(Z2Nat.id b Hb0). apply Hall; lia.
Qed.
Lemma land_255 b : is_byte b → Z.land b 255 = b.
Proof. intros Hb. change 255%Z with (Z.ones 8). rewrite Z.land_ones by lia. by apply Z.mod_small. Qed.


Lemma addr_num_range ip : Forall is_byte ip → (0 ≤ addr_num ip < 2 ^ (8 * Z.of_nat (length ip)))%Z.
Proof.
  induction 1 as [|b ip [Hb0 Hb] _ IH]; cbn [addr_num length]; [cbn; lia|].
  replace (8 * Z.of_nat (S (length ip)))%Z with (8 + 8 * Z.of_nat (length ip))%Z by lia. rewrite Z.pow_add_r by lia. nia.
Qed.
Lemma mask_zero l l' n : length l = length l' →
  zip_with Z.land l (CIDRMask 0 n) = zip_with Z.land l' (CIDRMask 0 n).
Proof.
  revert l l'. induction n as [|n IH]; intros [|x l] [|y l'] Hl; try done. cbn. rewrite !Z.land_0_r. f_equal. apply IH.
  by injection Hl.
Qed.

(** The mask of a prefix compares exactly the numbers above it. *)
Lemma mask_prefix l l' k : length l = length l' → Forall is_byte l → Forall is_byte l' → (k ≤ 8 * length l)%nat →
  zip_with Z.land l (CIDRMask k (length l)) = zip_with Z.land l' (CIDRMask k (length l)) ↔
  (addr_num l / 2 ^ (8 * Z.of_nat (length l) - Z.of_nat k) = addr_num l' / 2 ^ (8 * Z.of_nat (length l) - Z.of_nat k))%Z.
Proof.
  intros Hlen Hl. revert l' k Hlen. induction Hl as [|b l Hb Hl IH]; intros [|b' l'] k Hlen Hl' Hk; try done.
  apply Forall_cons in Hl' as [Hb' Hl']. injection Hlen as Hlen. cbn [length CIDRMask zip_with addr_num].
  pose proof (addr_num_range l Hl) as Hr. pose proof (addr_num_range l' Hl') as Hr'. rewrite <-Hlen in Hr' |- *.
  set (n := Z.of_nat (length l)) in *.
  destruct (Nat.leb_spec 8 k) as [H8|H8].
  - rewrite !land_255 by done.
    replace (8 * Z.of_nat (S (length l)) - Z.of_nat k)%Z with (8 * n - Z.of_nat (k - 8))%Z by lia.
    set (j := Z.of_nat (k - 8)). assert (0 ≤ j ≤ 8 * n)%Z as Hj by (cbn [length] in Hk; lia).
    specialize (IH l' (k - 8)%nat Hlen Hl' ltac:(cbn [length] in Hk; lia)). fold n j in IH.
    assert (2 ^ (8 * n) = 2 ^ j * 2 ^ (8 * n - j))%Z as Hpow by (rewrite <-Z.pow_add_r by lia; f_equal; lia).
    assert (0 < 2 ^ (8 * n - j))%Z as HD by (apply Z.pow_pos_nonneg; lia).
    rewrite Hpow in Hr, Hr' |- *. set (D := (2 ^ (8 * n - j))%Z) in *. set (P := (2 ^ j)%Z) in *.
    rewrite !Z.mul_assoc, !Z.div_add_l by lia.
    assert (0 ≤ addr_num l / D < P)%Z by (split; [apply Z.div_pos; lia|apply Z.div_lt_upper_bound; lia]).
    assert (0 ≤ addr_num l' / D < P)%Z by (split; [apply Z.div_pos; lia|apply Z.div_lt_upper_bound; lia]).
    split.
    + intros [= -> Hz]. apply IH in Hz. lia.
    + intros Heq. assert (b = b') as -> by nia. f_equal. apply IH. lia.
  - replace (8 * Z.of_nat (S (length l)) - Z.of_nat k)%Z with (8 * n + Z.of_nat (8 - k))%Z by lia.
    rewrite Z.pow_add_r, <-!Z.div_div, !Z.div_add_l, !(Z.div_small (addr_num _)), !Z.add_0_r by lia.
    replace (8 - Z.of_nat k)%Z with (Z.of_nat (8 - k)) by lia. rewrite !land_mask by (done || lia).
    replace (k - 8)%nat with 0%nat by lia. rewrite (mask_zero l l') by done.
    assert (0 < 2 ^ Z.of_nat (8 - k))%Z by (apply Z.pow_pos_nonneg; lia). split.
    + intros [= Heq%Z.mul_reg_l]; [done|lia].
    + by intros ->.
Qed.

Lemma zip_masked l l' m : length l = length l' →
  forallb (λ x, bool_decide (Z.land x.1.1 x.2 = Z.land x.1.2 x.2)) (zip (zip l l') m) = true ↔
  zip_with Z.land l m = zip_with Z.land l' m.
Proof.
  revert l' m. induction l as [|x l IH]; intros [|y l'] [|z m] Hl; try done. injection Hl as Hl. cbn.
  rewrite andb_true_iff, bool_decide_eq_true, (IH l' m Hl). split; [by intros [-> ->]|by intros [= -> ->]].
Qed.
Lemma mask_twice l m : zip_with Z.land (zip_with Z.land l m) m = zip_with Z.land l m.
Proof. revert m. induction l as [|x l IH]; intros [|z m]; try done. cbn. by rewrite <-Z.land_assoc, Z.land_diag, IH. Qed.
Lemma length_CIDRMask k n : length (CIDRMask k n) = n.
Proof. revert k. induction n as [|n IH]; intros k; cbn; [done|]. by rewrite IH. Qed.

Section cidr.
Context (parseCIDR6 : string → result IPNet) (marshalJSON : json → result string).

Lemma cidr_contains (addr mask : string) (a b : list Z) :
  ParseIP addr = Some a → mask ≠ "" → all_digits mask = true → (0 ≤ digits_val 0 mask ≤ 32)%Z →
  length b = 4%nat → Forall is_byte b →
  ∃ net, ParseCIDR parseCIDR6 (addr ++ "/" ++ mask) = Ok net ∧
    (IPNet_Contains net b = true ↔
     addr_num a / 2 ^ (32 - digits_val 0 mask) = addr_num b / 2 ^ (32 - digits_val 0 mask))%Z.
Proof.
  intros Ha Hm Hd Hk Hlb Hb. unfold ParseCIDR. rewrite (ParseIP_cut _ _ _ Ha), Ha, Hd.
  rewrite bool_decide_false by done. destruct (Z.ltb_spec 32 (digits_val 0 mask)) as [|_]; [lia|]. cbn [orb negb].
  eexists. split; [reflexivity|]. set (k := Z.to_nat (digits_val 0 mask)).
  destruct (ParseIP_bytes _ _ Ha) as [Hla Hba].
  unfold IPNet_Contains, maskIP. cbn [IP Mask].
  assert (length (zip_with Z.land a (CIDRMask k 4)) = 4%nat) as Hlz by (rewrite length_zip_with, length_CIDRMask; lia).
  rewrite bool_decide_true by lia. cbn [andb]. rewrite zip_masked by lia. rewrite mask_twice.
  pose proof (mask_prefix a b k) as Hp. rewrite Hla in Hp. rewrite Hp by (done || lia).
  by replace (8 * Z.of_nat 4 - Z.of_nat k)%Z with (32 - digits_val 0 mask)%Z by lia.
Qed.

(** The flag a.b.c.d/k decides who may have the token as its text says.
    Such a text is always accepted, and a request from an address reaches the
    token source exactly if the numbers of the two addresses agree in their
    upper k bits; otherwise it is answered 403.  Masking byte by byte, as the
    code does it, is thus the same as comparing prefixes. *)
Theorem source_cidr_decides (addr mask : string) (a : list Z) :
  ParseIP addr = Some a → mask ≠ "" → all_digits mask = true → (0 ≤ digits_val 0 mask ≤ 32)%Z →
  ∃ net, ParseCIDR parseCIDR6 (addr ++ "/" ++ mask) = Ok net ∧
    ∀ r ip port b, Split (RemoteAddr r) ":" = [ip; port] → ParseIP ip = Some b →
    if decide (addr_num a / 2 ^ (32 - digits_val 0 mask) = addr_num b / 2 ^ (32 - digits_val 0 mask))%Z
    then ∃ k, TokenHandler marshalJSON net r = Vis GetToken k
    else TokenHandler marshalJSON net r = call (Error "Access forbidden" 403).
Proof.
  intros Ha Hm Hd Hk. destruct (cidr_contains addr mask a [0; 0; 0; 0]%Z Ha Hm Hd Hk) as (net & Hn & _);
    [done|by repeat apply Forall_cons_2|].
  exists net. split; [exact Hn|]. intros r ip port b Hr Hb. destruct (ParseIP_bytes _ _ Hb) as [Hlb Hbb].
  destruct (cidr_contains addr mask a b Ha Hm Hd Hk Hlb Hbb) as (net' & Hn' & Hc). rewrite Hn in Hn'. injection Hn' as <-.
  unfold TokenHandler. rewrite Hr, Hb. case_decide as Hp.
  - rewrite (proj2 Hc Hp). by eexists.
  - destruct (IPNet_Contains net b); [by destruct Hp; apply Hc|done].
Qed.
End cidr.

(** ** Who gets the token *)

Definition allowed (net : IPNet) (remoteAddr : string) : bool :=
  match Split remoteAddr ":" with
  | [ip; _] => match ParseIP ip with Some a => IPNet_Contains net a | None => false end
  | _ => false
  end.
Definition no_token (o : sop) : Prop := match o with GetToken => False | _ => True end.

Section token.
Context (marshalJSON : json → result string).

(** A route is one of the table, and its pattern matches. *)
Lemma find_route_matches l path kh : find_route l path = Some kh → kh ∈ l ∧ matches path kh.1 = true.
Proof.
  unfold find_route. revert kh. induction l as [|x l IH]; intros kh; cbn [foldr]; [done|].
  unfold longer at 1. destruct (matches path x.1) eqn:Hm; [|intros [??]%IH; by split; [right|]].
  destruct (foldr (longer path) None l) as [b|]; [destruct (_ <? _)%nat|]; intros [= <-].
  - destruct (IH b eq_refl). by split; [right|].
  - by split; [left|].
  - by split; [left|].
Qed.
Lemma handlers_no_token net mh r kh : kh ∈ handlers marshalJSON net mh → kh.1 ≠ tokenPath →
  wp any_answer no_token (λ _, False) (kh.2 r) (λ _, True).
Proof.
  intros Hin Hne. unfold handlers in Hin. rewrite !elem_of_cons, elem_of_nil in Hin.
  destruct Hin as [->|[->|[->|[->|[->|[->|[->|[]]]]]]]]; [done|..]; cbn [fst snd];
    unfold ServiceAccountHandler, ConstHandler, serveMetadata, rootHandler, respond; 
    repeat (cbn [wp prog_bind call]; first [exact I|split; [exact I|intros ? _]|wp_case]).
Qed.
Lemma mux_no_token net mh r : r_Path r ≠ tokenPath →
  wp any_answer no_token (λ _, False) (ServeMux (handlers marshalJSON net mh) r) (λ _, True).
Proof.
  intros Hne. unfold ServeMux. destruct (_ && _); [by repeat split|]. destruct (find_route _ _) as [kh|] eqn:Hf; [|by repeat split].
  apply find_route_matches in Hf as [Hin Hm]. apply (handlers_no_token net mh); [done|]. intros Hk. rewrite Hk in Hm.
  unfold matches in Hm. apply orb_prop in Hm as [Hm%bool_decide_eq_true|Hm]; [done|]. discriminate Hm.
Qed.
Lemma mux_token net mh r : r_Path r = tokenPath → ServeMux (handlers marshalJSON net mh) r = TokenHandler marshalJSON net r.
Proof. intros Hp. unfold ServeMux. rewrite Hp. reflexivity. Qed.

(** C35: The robot's token goes only to its own host's containers.  Whatever
    the request: the server asks for the token exactly if the path is the
    token's and the sender's address is an IPv4 address and port whose IP lies
    in the allowed network (an IPv6 address, with its colons, never is
    [allowed]); any other request for it gets 403, or 500 if the address is not
    of two parts.  For an allowed request, the server writes the token if the
    source gives one that has not expired and that can be serialised, in a JSON
    document with the type and flavor headers; if not, it answers 500 without
    the token.  No request makes it panic. *)
Theorem token_served_only_to_allowed (net : IPNet) (mh : MetadataHandler) (r : Request)
    (t : list (event sop)) (out : outcome unit) :
  exec (ServeMux (handlers marshalJSON net mh) r) t out →
  out = Done tt ∧
  if bool_decide (r_Path r = tokenPath) then
    if allowed net (RemoteAddr r) then
      (∃ err, t = [GetToken ▷ Err err; Error ("Token retrieval failed: " ++ error_text err) 500 ▷ tt]) ∨
      ∃ token now t', t = (GetToken ▷ Ok token) :: (Clock ▷ now) :: t' ∧
        if (Expiry token <? now)%Z then t' = [Error "Internal access token is expired" 500 ▷ tt]
        else match marshalJSON (tokenResponse token now) with
             | Err err => t' = [Error ("Token serialization failed: " ++ error_text err) 500 ▷ tt]
             | Ok body => t' = [HeaderSet "Metadata-Flavor" "Google" ▷ tt; HeaderSet "Content-Type" "application/json" ▷ tt;
                                WriteHeader 200 ▷ tt; Write body ▷ tt]
             end
    else ∃ msg, t = [Error msg (if bool_decide (length (Split (RemoteAddr r) ":") = 2%nat) then 403 else 500) ▷ tt]
  else calls no_token t.
Proof.
  case_bool_decide as Hp.
  - rewrite mux_token by done. unfold TokenHandler, allowed.
    destruct (Split (RemoteAddr r) ":") as [|ip [|port [|]]];
      try (cbn; intros ([] & ? & -> & -> & ->); split; [done|]; by eexists).
    destruct (ParseIP ip) as [a|]; [|cbn; intros ([] & ? & -> & -> & ->); split; [done|]; by eexists].
    destruct (IPNet_Contains net a); cbn [negb]; [|cbn; intros ([] & ? & -> & -> & ->); split; [done|]; by eexists].
    cbn [exec prog_bind call]. intros (tok & t1 & -> & HE). destruct tok as [token|err];
      [|destruct HE as ([] & ? & -> & -> & ->); split; [done|]; left; by eexists].
    cbn [exec prog_bind call] in HE. destruct HE as (now & t2 & -> & HE).
    assert (out = Done tt ∧ (if (Expiry token <? now)%Z then t2 = [Error "Internal access token is expired" 500 ▷ tt]
      else match marshalJSON (tokenResponse token now) with
           | Err err => t2 = [Error ("Token serialization failed: " ++ error_text err) 500 ▷ tt]
           | Ok body => t2 = [HeaderSet "Metadata-Flavor" "Google" ▷ tt; HeaderSet "Content-Type" "application/json" ▷ tt;
                              WriteHeader 200 ▷ tt; Write body ▷ tt]
           end)) as [Ho Ht].
    { destruct (Expiry token <? now)%Z; [by destruct HE as ([] & ? & -> & -> & ->)|].
      destruct (marshalJSON (tokenResponse token now)) as [body|err]; [|by destruct HE as ([] & ? & -> & -> & ->)].
      by destruct HE as ([] & ? & -> & [] & ? & -> & [] & ? & -> & [] & ? & -> & -> & ->). }
    split; [exact Ho|]. right. exists token, now, t2. split; [done|exact Ht].
  - intros HE. apply (wp_exec_any _ _ _ _ _ _ (mux_no_token net mh r Hp)) in HE as [Hc Ho].
    split; [|done]. destruct out as [[]|]; [done|]. destruct Ho.
Qed.
Example ipv6_never_allowed net : allowed net "[fd00::2]:4711" = false.
Proof. reflexivity. Qed.

(** A robot's token never expires, and its lifetime is the longest a duration
    can hold: 292 years. *)
Lemma robot_token_lifetime ra now : (now ≤ year10000 - maxDuration)%Z →
  (Expiry (robotToken ra) <? now)%Z = false ∧
  tokenResponse (robotToken ra) now =
    JObj [("access_token", JString (ra_UpstreamAuthToken ra)); ("expires_in", JNum 9223372036); ("token_type", JString "Bearer")].
Proof.
  intros Hn. split; [apply Z.ltb_ge; cbn; unfold maxDuration in Hn; lia|]. unfold tokenResponse, robotToken. cbn [Expiry AccessToken TokenType].
  assert (Sub year10000 now = maxDuration) as ->.
  { unfold Sub. assert (minDuration ≤ maxDuration)%Z by (by vm_compute). lia. }
  do 4 f_equal.
Qed.
End token.

(** The address of a text, of a robot's containers and of anybody else. *)
Example some_net : IPNet := mkIPNet [192; 168; 9; 0]%Z [255; 255; 255; 0]%Z.
Example some_marshal (j : json) : result string :=
  match j with JObj (("access_token", JString s) :: _) => Ok s | _ => Err (EText "unsupported") end.
Example some_metadata : MetadataHandler := mkMetadataHandler "robot-1" "cloud-robotics" 0 "robot-1" 7 "europe-west1-c".
Example with_token (o : sop) (s : unit) : option (resp o * unit) :=
  match o with
  | GetToken => Some (Ok (mkToken "secret" "Bearer" year10000), s)
  | Clock => Some (0%Z, s)
  | HeaderSet _ _ | WriteHeader _ | Write _ | Error _ _ | NotFound | Redirect _ => Some (tt, s)
  | _ => None
  end.

Lemma source_cidr_decides_witness : ∃ net,
  ParseCIDR (λ _, Err (EText "")) "192.168.9.0/22" = Ok net ∧
  (∃ k, TokenHandler some_marshal net (mkRequest "192.168.11.77:4711" tokenPath) = Vis GetToken k) ∧
  TokenHandler some_marshal net (mkRequest "192.168.12.77:4711" tokenPath) = call (Error "Access forbidden" 403).
Proof.
  destruct (source_cidr_decides (λ _, Err (EText "")) some_marshal "192.168.9.0" "22" [192; 168; 9; 0]%Z) as (net & Hn & Hr).
  - reflexivity.
  - discriminate.
  - reflexivity.
  - vm_compute. split; discriminate.
  - exists net. split; [exact Hn|]. split.
    + exact (Hr (mkRequest "192.168.11.77:4711" tokenPath) _ _ _ eq_refl eq_refl).
    + exact (Hr (mkRequest "192.168.12.77:4711" tokenPath) _ _ _ eq_refl eq_refl).
Defined.

Lemma token_served_only_to_allowed_witness :
  let r := mkRequest "192.168.9.77:4711" tokenPath in
  let t := trace_of (run with_token (ServeMux (handlers some_marshal some_net some_metadata) r) tt) in
  allowed some_net (RemoteAddr r) = true ∧ (Write "secret" ▷ tt) ∈ t ∧
  ∃ token now t', t = (GetToken ▷ Ok token) :: (Clock ▷ now) :: t'.
Proof.
  intros r t. split; [reflexivity|]. split; [vm_compute; by repeat constructor|].
  destruct (token_served_only_to_allowed some_marshal some_net some_metadata r t (Done tt)) as [_ H].
  - apply run_exec. vm_compute. reflexivity.
  - change (bool_decide (r_Path r = tokenPath)) with true in H. change (allowed some_net (RemoteAddr r)) with true in H.
    destruct H as [[err Ht]|(token & now & t' & Ht & _)].
    + apply (f_equal length) in Ht. vm_compute in Ht. discriminate Ht.
    + exists token, now, t'. exact Ht.
Defined.

Example some_corefile : string := ".:53 {" ++ nl ++ "    errors" ++ nl ++ "}" ++ nl.
Example some_host (st : stop) : host :=
  mkHost [getIPTablesRuleSpec "10.0.0.1" 8080; ["-p"; "udp"]]
    (mkConfigMap (namedMeta "kube-system" "coredns") (Some (<[corefileName := some_corefile]> ∅))) st.

Lemma corefile_roundtrip_witness :
  ∃ t1 t2 t3 h', run robot PatchCorefile (some_host SigTerm) = Some (t1, Done None, h') ∧
    corefile h' = Some (zoneStartPatched ++ "    errors" ++ nl ++ "}" ++ nl) ∧
    run robot PatchCorefile h' = Some (t2, Done None, h') ∧
    run robot RevertCorefile h' = Some (t3, Done None, some_host SigTerm).
Proof.
  exact (corefile_roundtrip (some_host SigTerm) some_corefile eq_refl eq_refl eq_refl).
Defined.

Lemma serve_cleans_up_witness :
  ∃ t out h', run robot (serve 3 "10.0.0.1" 8965 "robot-id.json") (some_host FileChanged) = Some (t, out, h') ∧
    h_rules h' ≡ₚ [["-p"; "udp"]] ∧ h_cm h' = h_cm (some_host FileChanged).
Proof.
  destruct (serve_cleans_up 3 "10.0.0.1" 8965 "robot-id.json" (some_host FileChanged) some_corefile) as (t & out & h' & Hr & Hh).
  - reflexivity.
  - reflexivity.
  - reflexivity.
  - discriminate.
  - cbn. lia.
  - exists t, out, h'. split; [exact Hr|exact Hh].
Defined.
