(* ===== verification/SetupRobot.v ===== *)
(** * src/go/cmd/setup-robot: registering a robot and installing its base chart

    [Module Model] translates main.go and [UpdateSecret] of
    src/go/pkg/kubeutils.  The program talks to two clusters, the robot's own
    and the cloud's; [log.Fatal] is a panic with the message's fixed part. *)
From stdpp Require Import prelude strings gmap list.
From Stdlib Require Import Ascii ZArith.
From S2P Require Import Prelude GoErr GoStr Kube Coretools MetadataServer.

Open Scope string_scope.
Open Scope prog_scope.

Import MetadataServer.Model(RobotAuth, mkRobotAuth).

Module Model.

(** ** Calls *)

(** A Robot as dynamic data: what is not kind, version or metadata is in
    [u_Object]. *)
Record Unstructured := mkUnstructured {
  u_Kind : string; u_APIVersion : string; u_meta : ObjectMeta; u_Object : gmap string json }.
Inductive cluster := Local | Cloud.
(** The key material of [rsa.GenerateKey], and the template of a certificate. *)
Record Certificate := mkCertificate {
  SerialNumber : Z; Organization : list string; NotBefore : time; NotAfter : time; DNSNames : list string }.

Inductive uop : Type :=
| Getenv (name : string)
| LookupIP (domain : string)
| Head (url : string)
| InClusterConfig
| NewClient (c : cluster)
| NewDynamicClient (c : cluster)
| GetDeployment (c : cluster) (ns name : string)
| GetNamespace (c : cluster) (name : string)
| ListNamespaces (c : cluster)
| CreateNamespace (c : cluster) (name : string)
| ListRobots (c : cluster) (ns : string)
| GetRobot (c : cluster) (ns name : string)
| CreateRobot (c : cluster) (ns : string) (r : Unstructured)
| UpdateRobot (c : cluster) (ns : string) (r : Unstructured)
| GetConfigMap (c : cluster) (ns name : string)
| GetSecret (c : cluster) (ns name : string)
| CreateSecret (c : cluster) (ns : string) (s : Secret)
| UpdateSecret (c : cluster) (ns : string) (s : Secret)
| PatchServiceAccount (c : cluster) (ns name patch : string)
| GenerateKey
| RandInt (limit : Z)
| Now
| CreateCertificate (template : Certificate) (priv : string)
| RangeMap (m : gmap string string)
| Exec (path : string) (args : list string) (stdin : option string).
#[export] Instance uop_effect : Effect uop := λ o,
  match o with
  | Getenv _ => string
  | LookupIP _ => result (list (list Z))
  | ListNamespaces _ => result (list string)
  | ListRobots _ _ => result (list Unstructured)
  | GetRobot _ _ _ => result Unstructured
  | GetConfigMap _ _ _ => result ConfigMap
  | GetSecret _ _ _ => result Secret
  | GenerateKey | CreateCertificate _ _ => result string
  | RandInt _ => result Z
  | Now => time
  | RangeMap _ => list (string * string)
  | Exec _ _ _ => (string * option error)%type
  | _ => option error
  end.
Definition fatal {A} (msg : string) : prog uop A := Panic ("log.Fatal: " ++ msg).

Definition filesDir : string := "/setup-robot-files".
Definition helmPath : string := filesDir ++ "/helm".
Definition synkPath : string := filesDir ++ "/synk".
Definition numDNSRetries : nat := 6.
Definition numServiceRetries : nat := 6.
Definition commaSentinel : string := "_COMMA_SENTINEL_".
Definition baseNamespace : string := "default".

(** ** Flags *)

Record Flags := mkFlags {
  f_domain : string; f_tenant : string; f_robotType : string; f_labels : string; f_annotations : string;
  f_dockerDataRoot : string; f_podCIDR : string; f_Args : list string }.
(** What [parseFlags] leaves in the globals. *)
Record Globals := mkGlobals { robotName : string; mainNamespace : string; robotConfigNamespace : string }.

Definition parseKeyValues_add (lset : gmap string string) (l : string) : result (gmap string string) :=
  match SplitN2 (ReplaceAll l commaSentinel ",") "=" with
  | [k; v] => Ok (<[k:=v]> lset)
  | _ => Err (EText "not a key/value pair")
  end.
Fixpoint parseKeyValues_loop (ls : list string) (lset : gmap string string) : result (gmap string string) :=
  match ls with
  | [] => Ok lset
  | l :: ls => match parseKeyValues_add lset l with Ok lset => parseKeyValues_loop ls lset | Err err => Err err end
  end.
Definition parseKeyValues (s : string) : result (gmap string string) :=
  if bool_decide (s = "") then Ok ∅
  else parseKeyValues_loop (Split (ReplaceAll s "\," commaSentinel) ",") ∅.

Definition mergeMaps (base additions : gmap string string) : gmap string string := additions ∪ base.

(** ** UpdateSecret *)

Definition UpdateSecret_op (c : cluster) (name namespace secretType : string) (data : strmap) (_ : unit)
    : prog uop (option error * unit) :=
  let! secret := call (GetSecret c namespace name) in
  match secret with
  | Err err =>
      if IsNotFound err then
        let! err := call (CreateSecret c namespace (mkSecret (namedMeta "" name) data secretType)) in
        Ret (Some (EPermanent (Wrap err "create secret")), tt)
      else Ret (Some (EPermanent (Some (EWrap "get secret" err))), tt)
  | Ok secret =>
      let! err := call (UpdateSecret c namespace (mkSecret (sec_meta secret) data (sec_Type secret))) in
      match err with
      | Some e => if IsConflict e then Ret (Some e, tt) else Ret (Some (EPermanent (Some (EWrap "update secret" e))), tt)
      | None => Ret (Some (EPermanent None), tt)
      end
  end.
Definition updateSecret (c : cluster) (name namespace secretType : string) (data : strmap) : prog uop (option error) :=
  let! ' (err, _) := Retry 5 (UpdateSecret_op c name namespace secretType data) tt in Ret err.

(** ** Waiting *)

(** [ip.To4() != nil]: four bytes, or sixteen of the mapped form. *)
Definition isIPv4 (ip : list Z) : bool :=
  bool_decide (length ip = 4%nat) ||
  (bool_decide (length ip = 16%nat) && bool_decide (take 12 ip = (replicate 10 0 ++ [255; 255])%Z%list)).
Definition waitForDNS (domain : string) (retries : nat) : prog uop (option error) :=
  let! ' (err, _) := Retry retries (λ _ : unit,
    let! ips := call (LookupIP domain) in
    match ips with
    | Err err => Ret (Some err, tt)
    | Ok ips => if existsb isIPv4 ips then Ret (None, tt) else Ret (Some (EText "IP not found"), tt)
    end) tt in
  Ret ((λ err, EText ("DNS lookup for " ++ fmt_q domain ++ " failed: " ++ error_text err)) <$> err).
Definition waitForService (url : string) (retries : nat) : prog uop (option error) :=
  let! ' (err, _) := Retry retries (λ _ : unit, let! err := call (Head url) in Ret (err, tt)) tt in
  Ret ((λ err, EText ("service probe for " ++ fmt_q url ++ " failed: " ++ error_text err)) <$> err).

Section setup.
(** [validation.ValidateClusterName], base64, PEM, PKCS #8, the JSON of a
    robot's ID, and a date 100 years later. *)
Context (ValidateClusterName : string → list string) (b64 : string → string)
  (pemEncode : string → string → result string) (MarshalPKCS8PrivateKey : string → result string)
  (marshalRobotAuth : RobotAuth → result string) (in100Years : time → time).

Definition parseFlags (f : Flags) : prog uop Globals :=
  match f_Args f with
  | [] => fatal "ERROR: robot-name is required."
  | [name] =>
      match ValidateClusterName name with
      | _ :: _ => fatal "ERROR: invalid cluster name"
      | [] =>
          let mainNamespace := TenantMainNamespace (f_tenant f) in
          Ret (mkGlobals name mainNamespace (RobotConfigNamespace mainNamespace))
      end
  | _ => fatal "ERROR: too many positional arguments"
  end.

Context (f : Flags) (g : Globals).

Definition checkRobotName : prog uop (option error) :=
  let! robots := call (ListRobots Local (mainNamespace g)) in
  match robots with
  | Err err => if IsNotFound err then Ret None else Ret (Some (EWrap "list local robots" err))
  | Ok robots =>
      if forallb (λ r, bool_decide (om_Name (u_meta r) = robotName g)) robots then Ret None
      else Ret (Some (EText "this cluster was already set up with a different name."))
  end.

Definition storeInK8sSecret (c : cluster) (namespace : string) (r : RobotAuth) : prog uop (option error) :=
  match marshalRobotAuth r with
  | Err err => Ret (Some err)
  | Ok authJson => updateSecret c "robot-auth" namespace "Opaque" (Some {["json" := authJson]})
  end.

(** Both errors are wrapped, and then dropped. *)
Definition ensureTenantMainNamespace (c : cluster) : prog uop (option error) :=
  let! err := call (GetNamespace c (mainNamespace g)) in
  match err with
  | Some err =>
      if IsNotFound err then
        let! _ := call (CreateNamespace c (mainNamespace g)) in Ret None
      else Ret None
  | None => Ret None
  end.

(** ** The Robot object *)

Definition mget (m : gmap string string) (k : string) : string := default "" (m !! k).
Fixpoint setField (k : string) (v : json) (l : list (string * json)) : list (string * json) :=
  match l with
  | [] => [(k, v)]
  | (k', v') :: l => if bool_decide (k' = k) then (k, v) :: l else (k', v') :: setField k v l
  end.
Definition robotLabels (labels : gmap string string) (host : string) : gmap string string :=
  let labels := <["cloudrobotics.com/robot-name" := robotName g]> labels in
  if negb (bool_decide (host = "")) && bool_decide (mget labels "cloudrobotics.com/master-host" = "")
  then <["cloudrobotics.com/master-host" := host]> labels else labels.
Definition robotAnnotations (annotations : gmap string string) (robotSetupConfig : ConfigMap) : gmap string string :=
  let crc_version := sm_get (cm_Data robotSetupConfig) "setup_robot_crc" in
  if bool_decide (crc_version = "") then annotations
  else <["cloudrobotics.com/crc-version" := crc_version]> annotations.
(** [GetLabels] of nothing is an empty map. *)
Definition setMetaMaps (labels annotations : gmap string string) (m : ObjectMeta) : ObjectMeta :=
  om_setAnnotations (Some annotations) (om_setLabels (Some labels) m).

(** A type assertion: a wrapped error is not seen through. *)
Definition isStatusNotFound (err : error) : bool :=
  match err with EStatus _ reason _ => bool_decide (reason = "NotFound") | _ => false end.
Definition createOrUpdateRobot (c : cluster) (labels annotations : gmap string string) (robotSetupConfig : ConfigMap)
    : prog uop (option error) :=
  let! host := call (Getenv "HOST_HOSTNAME") in
  let labels := robotLabels labels host in
  let annotations := robotAnnotations annotations robotSetupConfig in
  let! robot := call (GetRobot c (mainNamespace g) (robotName g)) in
  match robot with
  | Err err =>
      if isStatusNotFound err then
        call (CreateRobot c (mainNamespace g)
          (mkUnstructured "Robot" "registry.cloudrobotics.com/v1alpha1" (setMetaMaps labels annotations (namedMeta "" (robotName g)))
             (<["spec" := JObj [("type", JString (f_robotType f))]]> (<["status" := JObj []]> ∅))))
      else Ret (Some (EText ("failed to get robot " ++ robotName g ++ ": " ++ error_text err)))
  | Ok robot =>
      let m := setMetaMaps (mergeMaps (default ∅ (om_Labels (u_meta robot))) labels)
                 (mergeMaps (default ∅ (om_Annotations (u_meta robot))) annotations) (u_meta robot) in
      match u_Object robot !! "spec" with
      | Some (JObj spec) =>
          call (UpdateRobot c (mainNamespace g) (mkUnstructured (u_Kind robot) (u_APIVersion robot) m
            (<["spec" := JObj (setField "type" (JString (f_robotType f)) spec)]> (u_Object robot))))
      | _ => Ret (Some (EText "unmarshaling robot failed: spec is not a map"))
      end
  end.

(** ** Secrets of the cloud cluster *)

Definition secretName : string := "robot-token-" ++ robotName g.
Definition createServiceAccountSecret (c : cluster) : prog uop (option error) :=
  call (CreateSecret c (robotConfigNamespace g)
    (mkSecret (om_setAnnotations (Some {["kubernetes.io/service-account.name" := "robot-service"]})
                 (namedMeta (robotConfigNamespace g) secretName)) None "kubernetes.io/service-account-token")).
Definition getServiceAccountSecret (c : cluster) : prog uop (result Secret) :=
  call (GetSecret c (robotConfigNamespace g) secretName).
Definition getTokenFromSecret (secret : Secret) : result string :=
  let token := sm_get (sec_Data secret) "token" in
  if bool_decide (token = "") then Err (EText ("no token in secret " ++ om_Name (sec_meta secret))) else Ok token.
(** The rounds of the wait; the token is assigned by the last one. *)
Definition pollToken (c : cluster) (_ : string) : prog uop (option error * string) :=
  let! secret := getServiceAccountSecret c in
  match secret with
  | Err err => Ret (Some err, "")
  | Ok secret => match getTokenFromSecret secret with Err err => Ret (Some err, "") | Ok token => Ret (None, token) end
  end.
Definition waitForServiceAccountToken (c : cluster) (retries : nat) : prog uop (result string) :=
  let! secret := getServiceAccountSecret c in
  let! err := (match secret with
               | Err err => if IsNotFound err then createServiceAccountSecret c else Ret None
               | Ok _ => Ret None
               end) in
  match err with
  | Some err => Ret (Err err)
  | None =>
      let! ' (err, token) := Retry retries (pollToken c) "" in
      match err with
      | Some err => Ret (Err (EText ("waiting for for Service Account API token creation in Cloud Cluster failed: " ++ error_text err)))
      | None => Ret (Ok token)
      end
  end.

Definition requiredKeys : list string :=
  ["setup_robot_crc"; "chart_assignment_controller_image"; "cr_syncer_image"; "metadata_server_image";
   "logging_proxy_image"; "tenant"; "tenant_main_namespace"].
(** The client returns an empty object with an error; the first round replaces
    the nil pointer. *)
Definition pollConfigMap (c : cluster) (_ : ConfigMap) : prog uop (option error * ConfigMap) :=
  let! cm := call (GetConfigMap c (robotConfigNamespace g) RobotSetupConfigmap) in
  match cm with Err err => Ret (Some err, mkConfigMap emptyMeta None) | Ok cm => Ret (None, cm) end.
Definition getRobotSetupConfigmap (c : cluster) (retries : nat) : prog uop (result ConfigMap) :=
  let! ' (err, robotSetup) := Retry retries (pollConfigMap c) (mkConfigMap emptyMeta None) in
  match err with
  | Some err =>
      Ret (Err (EText ("waiting for for getting confimap " ++ RobotSetupConfigmap ++ " from Cloud Cluster failed: " ++ error_text err)))
  | None =>
      if existsb (λ k, bool_decide (sm_get (cm_Data robotSetup) k = "")) requiredKeys then
        Ret (Err (EText ("incomplete ConfigMap " ++ robotConfigNamespace g ++ "/" ++ RobotSetupConfigmap ++
                         " in cloud cluster. Please check configuration")))
      else Ret (Ok robotSetup)
  end.

(** ** Image pull secrets *)

(** [backoff.Retry] without a limit: [fuel] rounds of it, [None] is a wait
    that still goes on. *)
Definition pullSecretPatch : string :=
  "{" ++ dq "imagePullSecrets" ++ ": [{" ++ dq "name" ++ ": " ++ dq ImagePullSecret ++ "}]}".
Fixpoint patchServiceAccount (fuel : nat) (c : cluster) (ns : string) : prog uop (option (option error)) :=
  match fuel with
  | O => Ret None
  | S fuel =>
      let! err := call (PatchServiceAccount c ns baseNamespace pullSecretPatch) in
      match err with
      | None => Ret (Some None)
      | Some err =>
          if IsNotFound err then patchServiceAccount fuel c ns
          else Ret (Some (Some (EText ("failed to apply " ++ fmt_q pullSecretPatch ++ ": " ++ error_text err))))
      end
  end.
(** One namespace; [inl] returns from the function. *)
Definition syncDockerSecret_body (fuel : nat) (localClient : cluster) (secretRemote : Secret) (ns : string) (_ : unit)
    : prog uop (option (option error) + unit) :=
  let! secretLocal := call (GetSecret localClient ns ImagePullSecret) in
  match secretLocal with
  | Err err =>
      if IsNotFound err then
        if bool_decide (ns = baseNamespace) then
          let! err := call (CreateSecret localClient ns
                        (mkSecret (namedMeta ns (om_Name (sec_meta secretRemote))) (sec_Data secretRemote) (sec_Type secretRemote))) in
          match err with
          | Some err => Ret (inl (Some (Some (EText ("creating docker secret in local cluster failed: " ++ error_text err)))))
          | None => let! r := patchServiceAccount fuel localClient ns in Ret (inl r)
          end
        else Ret (inr tt)
      else Ret (inl (Some (Some (EText ("getting docker secret from namespace " ++ ns ++ " of local cluster failed: " ++ error_text err)))))
  | Ok secretLocal =>
      let! err := call (UpdateSecret localClient ns
                    (mkSecret (sec_meta secretLocal) (sec_Data secretRemote) (sec_Type secretRemote))) in
      match err with
      | Some err =>
          Ret (inl (Some (Some (EText ("updating docker secret in namespace " ++ ns ++ " of local cluster failed: " ++ error_text err)))))
      | None => Ret (inr tt)
      end
  end.
Definition syncDockerSecret (fuel : nat) (remoteClient localClient : cluster) : prog uop (option (option error)) :=
  let! secretRemote := call (GetSecret remoteClient (robotConfigNamespace g) ImagePullSecret) in
  match secretRemote with
  | Err err => Ret (Some (Some (EText ("getting docker secret from remote cluster failed: " ++ error_text err))))
  | Ok secretRemote =>
      let! nsList := call (ListNamespaces localClient) in
      match nsList with
      | Err err => Ret (Some (Some (EText ("failed to list namespaces in local cluster: " ++ error_text err))))
      | Ok nsList =>
          let! r := for_each (syncDockerSecret_body fuel localClient secretRemote) nsList tt in
          match r with inl r => Ret r | inr _ => Ret (Some None) end
      end
  end.

(** ** Certificates *)

Definition wrapped {A} (r : result A) (msg : string) : result A :=
  match r with Ok a => Ok a | Err err => Err (EWrap msg err) end.
Definition webhookHost (namespace : string) : string := "chart-assignment-controller." ++ namespace ++ ".svc".
Definition encodeCerts (derBytes priv : string) : result (string * string) :=
  match pemEncode "CERTIFICATE" derBytes with
  | Err err => Err (EWrap "Failed to write cert data" err)
  | Ok crt =>
      match MarshalPKCS8PrivateKey priv with
      | Err err => Err (EWrap "Unable to marshal private key" err)
      | Ok privBytes =>
          match pemEncode "PRIVATE KEY" privBytes with
          | Err err => Err (EWrap "Failed to write key data" err)
          | Ok key => Ok (b64 crt, b64 key)
          end
      end
  end.
Definition ensureWebhookCerts (c : cluster) (namespace : string) : prog uop (result (string * string)) :=
  let! sa := call (GetSecret c namespace "chart-assignment-controller-tls") in
  let generate :=
    let! priv := call GenerateKey in
    match priv with
    | Err err => Ret (Err (EWrap "Failed to generate private key" err))
    | Ok priv =>
        let! serialNumber := call (RandInt (2 ^ 128)%Z) in
        match serialNumber with
        | Err err => Ret (Err (EWrap "Failed to generate serial number" err))
        | Ok serialNumber =>
            let! notBefore := call Now in
            let! now := call Now in
            let! derBytes := call (CreateCertificate
              (mkCertificate serialNumber [webhookHost namespace] notBefore (in100Years now) [webhookHost namespace]) priv) in
            match derBytes with
            | Err err => Ret (Err (EWrap "Failed to create certificate" err))
            | Ok derBytes => Ret (encodeCerts derBytes priv)
            end
        end
    end in
  match sa with
  | Ok sa =>
      if bool_decide (sm_get (om_Labels (sec_meta sa)) "cert-format" = "v2")
      then Ret (Ok (b64 (sm_get (sec_Data sa) "tls.crt"), b64 (sm_get (sec_Data sa) "tls.key")))
      else generate
  | Err _ => generate
  end.

(** ** The base chart *)

Definition helmValuesStringFromMap (varMap : gmap string string) : prog uop string :=
  let! l := call (RangeMap varMap) in
  Ret (Join ((λ kv, kv.1 ++ "=" ++ kv.2) <$> l) ",").
Definition helmVars (domain registry publicRegistry whCert whKey : string) (robotSetupConfig : ConfigMap) : gmap string string :=
  let data := sm_get (cm_Data robotSetupConfig) in
  list_to_map
    [("domain", domain); ("registry", registry); ("public_registry", publicRegistry);
     ("docker_data_root", f_dockerDataRoot f); ("pod_cidr", f_podCIDR f); ("robot.name", robotName g);
     ("webhook.tls.crt", whCert); ("webhook.tls.key", whKey);
     ("images.chart_assignment_controller", data "chart_assignment_controller_image");
     ("images.cr_syncer", data "cr_syncer_image");
     ("images.metadata_server", data "metadata_server_image");
     ("tenant", data "tenant"); ("tenant_domain", data "tenant_domain");
     ("tenant_main_namespace", data "tenant_main_namespace");
     ("fluent-bit.extraContainers[0].name", "logging-proxy");
     ("fluent-bit.extraContainers[0].image", registry ++ "/" ++ data "logging_proxy_image");
     ("fluent-bit.extraContainers[0].env[0].name", "FLUENTD_HOST");
     ("fluent-bit.extraContainers[0].env[0].value", "fluentd." ++ domain);
     ("fluent-bit.extraContainers[0].env[1].name", "LISTENING_ADDR");
     ("fluent-bit.extraContainers[0].env[1].value", "127.0.0.1:8080");
     ("fluent-bit.extraContainers[0].env[2].name", "ENABLE_DEBUG");
     ("fluent-bit.extraContainers[0].env[2].value", "false");
     ("fluent-bit.extraContainers[0].env[3].name", "TENANT_NAMESPACE");
     ("fluent-bit.extraContainers[0].env[3].value", data "tenant_main_namespace")].
Definition installChartOrDie (cs : cluster) (domain registry publicRegistry name namespace chartPath whCert whKey : string)
    (robotSetupConfig : ConfigMap) : prog uop unit :=
  let! err := call (CreateNamespace cs namespace) in
  if match err with Some err => negb (IsAlreadyExists err) | None => false end then fatal "Failed to create namespace"
  else
    let! vars := helmValuesStringFromMap (helmVars domain registry publicRegistry whCert whKey robotSetupConfig) in
    let! ' (output, err) := call (Exec helmPath
      ["template"; "--set-string"; vars; "--name"; name; "--namespace"; namespace; filesDir ++ "/" ++ chartPath] None) in
    match err with
    | Some _ => fatal "Synk install failed"
    | None =>
        let! ' (_, err) := call (Exec synkPath ["apply"; name; "-n"; namespace; "-f"; "-"] (Some output)) in
        match err with Some _ => fatal "Synk install failed" | None => Ret tt end
    end.
End setup.

(** ** main *)

Section main.
Context (ValidateClusterName : string → list string) (b64 : string → string)
  (pemEncode : string → string → result string) (MarshalPKCS8PrivateKey : string → result string)
  (marshalRobotAuth : RobotAuth → result string) (in100Years : time → time).

Definition or_fatal {A} (msg : string) (p : prog uop (result A)) : prog uop A :=
  let! r := p in match r with Ok a => Ret a | Err _ => fatal msg end.
Definition check (msg : string) (p : prog uop (option error)) : prog uop unit :=
  let! err := p in match err with Some _ => fatal msg | None => Ret tt end.
Definition env (name : string) : prog uop string :=
  let! v := call (Getenv name) in
  if bool_decide (v = "") then fatal (name ++ " environment variable is required.") else Ret v.

(** The local cluster must not be the cloud's, nor another robot's. *)
Definition checkLocalCluster (g : Globals) : prog uop unit :=
  check "Failed to load in-cluster config" (call InClusterConfig) ;;!
  check "Failed to create kubernetes client set" (call (NewClient Local)) ;;!
  let! err := call (GetDeployment Local "default" "app-rollout-controller") in
  match err with
  | None => fatal "It is not safe to run robot setup on a Kyma cloud cluster."
  | Some _ =>
      check "Failed to ensure tenant main namespace" (ensureTenantMainNamespace g Local) ;;!
      check "Failed to create dynamic client set" (call (NewDynamicClient Local)) ;;!
      check "Error" (checkRobotName g)
  end.
(** Token, configuration and Robot object in the cloud cluster. *)
Definition register (f : Flags) (g : Globals) (labels annotations : gmap string string) : prog uop (string * ConfigMap) :=
  check "Failed to create k8s client" (call (NewClient Cloud)) ;;!
  let! token := or_fatal "Getting service account token for robot in upstream cluster failed"
    (waitForServiceAccountToken g Cloud numServiceRetries) in
  let! robotSetupConfig := or_fatal "Getting robot-setup configmap in upstream cluster failed"
    (getRobotSetupConfigmap g Cloud numServiceRetries) in
  check "Failed to create k8s client" (call (NewDynamicClient Cloud)) ;;!
  check "Failed to update robot CR" (createOrUpdateRobot f g Cloud labels annotations robotSetupConfig) ;;!
  Ret (token, robotSetupConfig).
(** The ID and the pull secrets in the robot's cluster; false is a wait that
    still goes on. *)
Definition storeSecrets (fuel : nat) (f : Flags) (g : Globals) (publicRegistry token : string) : prog uop bool :=
  check "failed to write auth secret" (storeInK8sSecret marshalRobotAuth Local baseNamespace
    (mkRobotAuth (robotName g) (f_domain f) token)) ;;!
  if bool_decide (ToLower publicRegistry = "true") then Ret true
  else
    let! r := syncDockerSecret g fuel Cloud Local in
    match r with
    | Some (Some err) => fatal (error_text err)
    | Some None => Ret true
    | None => Ret false
    end.
(** Certificates, synk and the chart. *)
Definition install (f : Flags) (g : Globals) (registry publicRegistry : string) (robotSetupConfig : ConfigMap) : prog uop unit :=
  let! ' (whCert, whKey) := or_fatal "Failed to create tls certs for webhook"
    (ensureWebhookCerts b64 pemEncode MarshalPKCS8PrivateKey in100Years Local baseNamespace) in
  let! ' (_, err) := call (Exec synkPath ["init"] None) in
  match err with
  | Some _ => fatal "Synk init failed"
  | None =>
      installChartOrDie f g Local (f_domain f) registry publicRegistry "base-robot" baseNamespace
        "base-robot-0.1.0.tgz" whCert whKey robotSetupConfig
  end.

Definition main (fuel : nat) (f : Flags) : prog uop bool :=
  let! g := parseFlags ValidateClusterName f in
  let! envToken := env "ACCESS_TOKEN" in
  let! registry := env "REGISTRY" in
  let! publicRegistry := env "PUBLIC_REGISTRY" in
  match parseKeyValues (f_labels f), parseKeyValues (f_annotations f) with
  | Err _, _ => fatal "Invalid labels"
  | Ok _, Err _ => fatal "Invalid annotations"
  | Ok parsedLabels, Ok parsedAnnotations =>
      let remoteServer := "k8s." ++ f_domain f in
      check "Failed to resolve cloud cluster domain" (waitForDNS remoteServer numDNSRetries) ;;!
      check "Failed to connect to the cloud cluster" (waitForService ("https://" ++ remoteServer) numServiceRetries) ;;!
      checkLocalCluster g ;;!
      let! ' (token, robotSetupConfig) := register f g parsedLabels parsedAnnotations in
      let! stored := storeSecrets fuel f g publicRegistry token in
      if negb stored then Ret false
      else install f g registry publicRegistry robotSetupConfig ;;! Ret true
  end.
End main.
End Model.
Import Model.

(** ** What the set-up may do, and when *)

Section confined.
Context (ValidateClusterName : string → list string) (b64 : string → string)
  (pemEncode : string → string → result string) (MarshalPKCS8PrivateKey : string → result string)
  (marshalRobotAuth : RobotAuth → result string) (in100Years : time → time).
Context (f : Flags) (name : string).
Abbreviation mn := (TenantMainNamespace (f_tenant f)).
Abbreviation rcn := (RobotConfigNamespace mn).
Abbreviation g := (mkGlobals name mn rcn).

Definition is_apply (o : uop) : Prop :=
  match o with Exec path ("apply" :: _) _ => path = synkPath | _ => False end.
Definition is_write (o : uop) : Prop :=
  match o with
  | CreateNamespace _ _ | CreateRobot _ _ _ | UpdateRobot _ _ _ | CreateSecret _ _ _ | UpdateSecret _ _ _
  | PatchServiceAccount _ _ _ _ | Exec _ _ _ => True
  | _ => False
  end.
Definition is_cloud_write (o : uop) : Prop :=
  match o with
  | CreateRobot c _ _ | UpdateRobot c _ _ | CreateSecret c _ _ | UpdateSecret c _ _ => c = Cloud
  | _ => False
  end.

(** A secret that holds this robot's ID; one that holds what [remote] does. *)
Definition holds_id (s : Secret) : Prop :=
  ∃ token j, marshalRobotAuth (mkRobotAuth name (f_domain f) token) = Ok j ∧ sec_Data s = Some {["json" := j]}.
Definition same_content (remote s : Secret) : Prop :=
  sec_Data s = sec_Data remote ∧ sec_Type s = sec_Type remote.

(** The objects a call may touch; [pulls]: the secrets that may be pull secrets. *)
Definition in_scope (pulls : Secret → Prop) (o : uop) : Prop :=
  match o with
  | CreateNamespace c ns => c = Local ∧ (ns = mn ∨ ns = baseNamespace)
  | CreateRobot c ns r | UpdateRobot c ns r =>
      c = Cloud ∧ ns = mn ∧ sm_lookup (om_Labels (u_meta r)) "cloudrobotics.com/robot-name" = Some name
  | CreateSecret c ns s =>
      (c = Cloud ∧ ns = rcn ∧ om_Name (sec_meta s) = "robot-token-" ++ name) ∨
      (c = Local ∧ ns = baseNamespace ∧ (om_Name (sec_meta s) = "robot-auth" ∧ holds_id s ∨ pulls s))
  | UpdateSecret c ns s => c = Local ∧ (ns = baseNamespace ∧ holds_id s ∨ pulls s)
  | PatchServiceAccount c ns sa _ => c = Local ∧ ns = baseNamespace ∧ sa = baseNamespace
  | Exec path args _ =>
      path = synkPath ∧ (args = ["init"] ∨ args = ["apply"; "base-robot"; "-n"; baseNamespace; "-f"; "-"]) ∨
      path = helmPath ∧ head args = Some "template"
  | _ => True
  end.

Definition not_the_cloud (h : list (event uop)) : Prop :=
  ∃ err, (GetDeployment Local "default" "app-rollout-controller" ▷ Some err) ∈ h.
Definition same_robot (h : list (event uop)) : Prop :=
  (∃ err, (ListRobots Local mn ▷ Err err) ∈ h ∧ IsNotFound err = true) ∨
  ∃ l, (ListRobots Local mn ▷ Ok l) ∈ h ∧ Forall (λ r, om_Name (u_meta r) = name) l.
Definition registered (h : list (event uop)) : Prop :=
  ∃ r, (CreateRobot Cloud mn r ▷ None) ∈ h ∨ (UpdateRobot Cloud mn r ▷ None) ∈ h.
Definition id_stored (h : list (event uop)) : Prop :=
  ∃ s, holds_id s ∧ ((CreateSecret Local baseNamespace s ▷ None) ∈ h ∨ (UpdateSecret Local baseNamespace s ▷ None) ∈ h).
Definition pull_secret (h : list (event uop)) (s : Secret) : Prop :=
  ∃ remote, (GetSecret Cloud rcn ImagePullSecret ▷ Ok remote) ∈ h ∧ same_content remote s.

(** The rule of the whole program: a call and the calls before it. *)
Definition guarded (h : list (event uop)) (o : uop) : Prop :=
  in_scope (pull_secret h) o ∧ (is_write o → not_the_cloud h) ∧
  (is_write o → same_robot h ∨ o = CreateNamespace Local mn) ∧
  (is_apply o → registered h ∧ id_stored h).

(** What is known of a trace stays known. *)
Lemma not_the_cloud_app h t : not_the_cloud h → not_the_cloud (h ++ t).
Proof. intros [err He]. exists err. set_solver. Qed.
Lemma same_robot_app h t : same_robot h → same_robot (h ++ t).
Proof. intros [(err & He & ?)|(l & Hl & ?)]; [left; exists err|right; exists l]; set_solver. Qed.
Lemma registered_app h t : registered h ∨ registered t → registered (h ++ t).
Proof. intros [[r Hr]|[r Hr]]; exists r; set_solver. Qed.
Lemma id_stored_app h t : id_stored h ∨ id_stored t → id_stored (h ++ t).
Proof. intros [(s & ? & Hs)|(s & ? & Hs)]; exists s; set_solver. Qed.
#[local] Hint Resolve not_the_cloud_app same_robot_app registered_app id_stored_app : core.

Lemma in_scope_mono (P Q : Secret → Prop) o : (∀ s, P s → Q s) → in_scope P o → in_scope Q o.
Proof. intros HPQ. destruct o; cbn; naive_solver. Qed.

(** Parts of the program by what they may write. *)
Definition reads (o : uop) : Prop := ¬ is_write o.
Definition writes_in (remote : option Secret) (o : uop) : Prop :=
  in_scope (λ s, match remote with Some r => same_content r s | None => False end) o ∧ ¬ is_apply o.
Definition writes_local (remote : option Secret) (o : uop) : Prop := writes_in remote o ∧ ¬ is_cloud_write o.

Lemma reads_guarded h o : reads o → guarded h o.
Proof. intros Hr. unfold reads in Hr. destruct o; cbn in Hr; try (by destruct Hr); (split_and!; [done|by intros []..]). Qed.
Lemma reads_local remote o : reads o → writes_local remote o.
Proof.
  intros Hr. unfold reads in Hr. destruct o; cbn in Hr; try (by destruct Hr); (split; [split; [done|]|]; by intros []).
Qed.
Lemma writes_guarded h remote o :
  (∀ r, remote = Some r → (GetSecret Cloud rcn ImagePullSecret ▷ Ok r) ∈ h) →
  not_the_cloud h → same_robot h → writes_in remote o → guarded h o.
Proof.
  intros Hrem Hn Hs [Hin Ha]. split; [|split_and!; try done; intros _; by left].
  eapply in_scope_mono; [|exact Hin]. intros s. destruct remote as [r|]; [|done]. intros Hc. exists r. by split; [apply Hrem|].
Qed.

(** *** The parts *)

Definition is_fatal (m : string) : Prop := HasPrefix m "log.Fatal: " = true.
Lemma wp_fatal {A B} G (Φ : B → Prop) (msg : string) : wp (Op:=uop) A G is_fatal (@fatal B msg) Φ.
Proof. apply HasPrefix_app. Qed.
Abbreviation wpr := (wp any_answer reads is_fatal).

Lemma reads_env n : wpr (env n) (λ _, True).
Proof. unfold env. cbn [wp prog_bind call]. split; [by intros []|]. intros v _. case_bool_decide; [apply wp_fatal|done]. Qed.
Lemma reads_waitForDNS d n : wpr (waitForDNS d n) (λ _, True).
Proof.
  unfold waitForDNS. apply wp_bind. eapply wp_mono; [|apply (wp_Retry _ _ _ _ _ (λ _, True) (λ _, True)); [|done]]. { by intros [[err|] []]. }
  intros [] _. cbn [wp prog_bind call]. split; [by intros []|]. intros [ips|err] _; cbn [wp]; [destruct (existsb _ _)|]; by cbn; repeat case_match.
Qed.
Lemma reads_waitForService u n : wpr (waitForService u n) (λ _, True).
Proof.
  unfold waitForService. apply wp_bind. eapply wp_mono; [|apply (wp_Retry _ _ _ _ _ (λ _, True) (λ _, True)); [|done]]. { by intros [[err|] []]. }
  intros [] _. cbn [wp prog_bind call]. split; [by intros []|]. intros [err|] _; cbn; by repeat case_match.
Qed.
Lemma reads_getRobotSetupConfigmap n : wpr (getRobotSetupConfigmap g Cloud n) (λ _, True).
Proof.
  unfold getRobotSetupConfigmap. apply wp_bind.
  eapply wp_mono; [|apply (wp_Retry _ _ _ _ _ (λ _, True) (λ _, True)); [|done]].
  { intros [[err|] cm] _; cbn [wp fst snd]; [done|by case_match]. }
  intros cm0 _. unfold pollConfigMap. cbn [wp prog_bind call]. split; [by intros []|]. intros [cm|err] _; cbn; [done|]. by repeat case_match.
Qed.
Lemma reads_checkRobotName : wpr (checkRobotName g) (λ _, True).
Proof.
  unfold checkRobotName. cbn [wp prog_bind call]. split; [by intros []|]. intros [l|err] _; [destruct (forallb _ _)|destruct (IsNotFound _)]; done.
Qed.
Lemma checkRobotName_same t : exec (checkRobotName g) t (Done None) → same_robot t.
Proof.
  unfold checkRobotName. cbn [exec prog_bind call]. intros (rs & t' & -> & HE). destruct rs as [l|err].
  - destruct (forallb _ _) eqn:Hf; destruct HE as [-> ?]; [|done]. right. exists l. split; [by left|].
    apply Forall_forall. intros r Hr. rewrite forallb_forall in Hf. specialize (Hf r). rewrite list_elem_of_In in Hr.
    exact (bool_decide_eq_true_1 _ (Hf Hr)).
  - destruct (IsNotFound err) eqn:Hn; destruct HE as [-> ?]; [|done]. left. exists err. split; [by left|done].
Qed.
Definition tenant_ns (o : uop) : Prop := reads o ∨ o = CreateNamespace Local mn.
Lemma ensureTenantMainNamespace_writes : wp any_answer tenant_ns is_fatal (ensureTenantMainNamespace g Local) (λ _, True).
Proof.
  unfold ensureTenantMainNamespace. cbn [wp prog_bind call]. split; [by left; intros []|]. intros [err|] _; [|done].
  destruct (IsNotFound err); [|done]. cbn. split; [by right|done].
Qed.
Lemma tenant_ns_guarded h o : not_the_cloud h → tenant_ns o → guarded h o.
Proof. intros Hn [Hr| ->]; [by apply reads_guarded|]. split_and!; [by split; [|left]|by intros _|by right|by intros []]. Qed.
Lemma waitForServiceAccountToken_writes n :
  wp any_answer (writes_in None) is_fatal (waitForServiceAccountToken g Cloud n) (λ _, True).
Proof.
  assert (wp any_answer (writes_in None) is_fatal (Retry n (pollToken g Cloud) "") (λ _, True)) as Hr.
  { eapply wp_mono; [|apply (wp_Retry _ _ _ _ _ (λ _, True) (λ _, True)); [|done]]. { done. }
    intros s _. unfold pollToken, getServiceAccountSecret. cbn [wp prog_bind call]. split; [by apply reads_local; intros []|].
    intros [s'|err] _; [destruct (getTokenFromSecret s')|]; cbn; by repeat case_match. }
  unfold waitForServiceAccountToken, getServiceAccountSecret. cbn [wp prog_bind call]. split; [by apply reads_local; intros []|].
  intros [s|err] _; [|destruct (IsNotFound err)]; cbn [wp prog_bind call];
    try (apply wp_bind; eapply wp_mono; [|exact Hr]; by intros [[e|] tok] _).
  unfold createServiceAccountSecret. cbn [wp prog_bind call]. split; [split; [by left|by intros []]|].
  intros [e|] _; [done|]. apply wp_bind; eapply wp_mono; [|exact Hr]; by intros [[e|] tok] _.
Qed.

Lemma labels_of_setMetaMaps l a m : om_Labels (setMetaMaps l a m) = Some l.
Proof. by destruct m. Qed.
Lemma robotLabels_name labels host : robotLabels g labels host !! "cloudrobotics.com/robot-name" = Some name.
Proof.
  unfold robotLabels. destruct (_ && _); [rewrite lookup_insert_ne by done|]; by rewrite lookup_insert_eq.
Qed.
Lemma createOrUpdateRobot_writes labels annotations cm :
  wp any_answer (writes_in None) is_fatal (createOrUpdateRobot f g Cloud labels annotations cm) (λ _, True).
Proof.
  unfold createOrUpdateRobot. cbn [wp prog_bind call]. split; [by apply reads_local; intros []|]. intros host _.
  split; [by apply reads_local; intros []|].
  assert (∀ m l, writes_in None (CreateRobot Cloud mn (mkUnstructured "Robot" "registry.cloudrobotics.com/v1alpha1"
    (setMetaMaps (robotLabels g labels host) m (namedMeta "" name)) l))) as Hc.
  { intros m l. split; [|by intros []]. split_and!; [done..|]. cbn [u_meta]. rewrite labels_of_setMetaMaps.
    apply robotLabels_name. }
  intros [r|err] _.
  - destruct (u_Object r !! "spec") as [[| | | | |spec]|]; try done. cbn [wp prog_bind call]. split; [|done].
    split; [|by intros []]. split_and!; [done..|]. cbn [u_meta]. rewrite labels_of_setMetaMaps. cbn.
    unfold mergeMaps. rewrite (lookup_union_Some_l _ _ _ name); [done|]. apply robotLabels_name.
  - destruct (isStatusNotFound err); [|done]. cbn [wp prog_bind call]. split; [apply Hc|done].
Qed.
Lemma createOrUpdateRobot_registered labels annotations cm t :
  exec (createOrUpdateRobot f g Cloud labels annotations cm) t (Done None) → registered t.
Proof.
  unfold createOrUpdateRobot. cbn [exec prog_bind call]. intros (host & t1 & -> & r & t2 & -> & HE).
  destruct r as [r|err].
  - destruct (u_Object r !! "spec") as [[| | | | |spec]|]; try by destruct HE.
    destruct HE as (e & t3 & -> & -> & [= <-]). eexists. right. do 2 right. by left.
  - destruct (isStatusNotFound err); [|by destruct HE].
    destruct HE as (e & t3 & -> & -> & [= <-]). eexists. left. do 2 right. by left.
Qed.

Section id.
Context (token : string).
Abbreviation auth := (mkRobotAuth name (f_domain f) token).
Lemma storeInK8sSecret_writes :
  wp any_answer (writes_local None) is_fatal (storeInK8sSecret marshalRobotAuth Local baseNamespace auth) (λ _, True).
Proof.
  unfold storeInK8sSecret. destruct (marshalRobotAuth auth) as [j|err] eqn:Hm; [|done].
  unfold updateSecret. apply wp_bind. eapply wp_mono; [|apply (wp_Retry _ _ _ _ _ (λ _, True) (λ _, True)); [|done]].
  { by intros [err []]. }
  intros [] _. unfold UpdateSecret_op. cbn [wp prog_bind call]. split; [by apply reads_local; intros []|].
  assert (∀ m ty, holds_id (mkSecret m (Some {["json" := j]}) ty)) as Hid by (intros; by exists token, j).
  intros [s|err] _.
  - cbn [wp prog_bind call]. split; [|intros [e|] _; cbn [wp]; [destruct (IsConflict e)|]; cbn; by repeat case_match].
    split; [|by intros [=]]. split; [|by intros []]. split; [done|]. left. by split.
  - destruct (IsNotFound err); [|by cbn]. cbn [wp prog_bind call]. split; [|by intros [e|] _].
    split; [|by intros [=]]. split; [|by intros []]. right. split_and!; [done..|]. left. by split.
Qed.
Lemma storeInK8sSecret_stored t :
  exec (storeInK8sSecret marshalRobotAuth Local baseNamespace auth) t (Done None) → id_stored t.
Proof.
  unfold storeInK8sSecret. destruct (marshalRobotAuth auth) as [j|err] eqn:Hm; [|by intros [_ ?]].
  unfold updateSecret. intros [(m & _ & ?)|(t1 & t2 & [r []] & -> & HE & [-> [= <-]])]%exec_bind; [done|].
  rewrite app_nil_r. apply Retry_last in HE as (ta & tb & [] & e & -> & HE & He). unfold UpdateSecret_op in HE. cbn [exec prog_bind call] in HE.
  assert (∀ m ty, holds_id (mkSecret m (Some {["json" := j]}) ty)) as Hid by (intros; by exists token, j).
  destruct HE as (s & t2 & -> & HE). destruct s as [s|err].
  - destruct HE as ([err|] & t3 & -> & HE).
    + exfalso. destruct (IsConflict err) eqn:Hc; destruct HE as [-> [= ->]]; [|done]. by destruct err.
    + destruct HE as [-> _]. eexists. split; [apply (Hid (sec_meta s) (sec_Type s))|]. right. apply elem_of_app. right. right. by left.
  - destruct (IsNotFound err); [|by destruct HE as [_ [= ->]]].
    destruct HE as ([e'|] & t3 & -> & HE); destruct HE as [-> [= ->]]; [done|].
    eexists. split; [apply (Hid (namedMeta "" "robot-auth") "Opaque")|]. left. apply elem_of_app. right. right. by left.
Qed.
End id.

Abbreviation hwpg := (hwp any_answer guarded is_fatal).

(** A part that keeps the rule by itself, then the rest. *)
Lemma hwpg_then {A B : Type} (G0 : uop → Prop) h (p : prog uop A) (k : A → prog uop B) Φ :
  wp any_answer G0 is_fatal p (λ _, True) → (∀ t o, calls G0 t → G0 o → guarded (h ++ t) o) →
  (∀ t a, exec p t (Done a) → hwpg (h ++ t) (k a) Φ) → hwpg h (prog_bind k p) Φ.
Proof.
  intros Hwp HG Hk. apply hwp_bind. eapply hwp_wp_exec; [exact Hwp|exact HG|]. intros t a _ HE _. by apply Hk.
Qed.
Lemma hwpg_reads {A B : Type} h (p : prog uop A) (k : A → prog uop B) Φ :
  wpr p (λ _, True) → (∀ t a, exec p t (Done a) → hwpg (h ++ t) (k a) Φ) → hwpg h (prog_bind k p) Φ.
Proof. intros Hwp. apply hwpg_then with reads; [done|]. intros. by apply reads_guarded. Qed.
(** [check] and [or_fatal] go on with a success. *)
Lemma hwpg_check_last (G0 : uop → Prop) h msg (p : prog uop (option error)) (Φ : list (event uop) → unit → Prop) :
  wp any_answer G0 is_fatal p (λ _, True) → (∀ t o, calls G0 t → G0 o → guarded (h ++ t) o) →
  (∀ t, exec p t (Done None) → Φ (h ++ t)%list tt) → hwpg h (check msg p) Φ.
Proof.
  intros Hwp HG Hk. eapply (hwp_wp_exec _ _ _ G0 h _ (λ _, True)); [|exact HG|].
  - unfold check. apply wp_bind. eapply wp_mono; [|exact Hwp]. intros [err|] _; [apply wp_fatal|done].
  - intros t [] _ HE _. unfold check in HE.
    apply exec_bind in HE as [(m & _ & ?)|(t1 & t2 & [err|] & -> & HE1 & HE2)]; [done|by destruct HE2|].
    destruct HE2 as [-> _]. rewrite app_nil_r. by apply Hk.
Qed.
Lemma hwpg_check {B : Type} (G0 : uop → Prop) h msg (p : prog uop (option error)) (k : unit → prog uop B) Φ :
  wp any_answer G0 is_fatal p (λ _, True) → (∀ t o, calls G0 t → G0 o → guarded (h ++ t) o) →
  (∀ t, exec p t (Done None) → hwpg (h ++ t) (k tt) Φ) → hwpg h (prog_bind k (check msg p)) Φ.
Proof. intros Hwp HG Hk. apply hwp_bind. by apply hwpg_check_last with G0. Qed.
Lemma hwpg_or_fatal {A B : Type} (G0 : uop → Prop) h msg (p : prog uop (result A)) (k : A → prog uop B) Φ :
  wp any_answer G0 is_fatal p (λ _, True) → (∀ t o, calls G0 t → G0 o → guarded (h ++ t) o) →
  (∀ t a, exec p t (Done (Ok a)) → hwpg (h ++ t) (k a) Φ) → hwpg h (prog_bind k (or_fatal msg p)) Φ.
Proof.
  intros Hwp HG Hk. apply hwpg_then with G0; [|done|].
  - unfold or_fatal. apply wp_bind. eapply wp_mono; [|exact Hwp]. intros [a|err] _; [done|apply wp_fatal].
  - intros t a HE. unfold or_fatal in HE. apply exec_bind in HE as [(m & _ & ?)|(t1 & t2 & [a'|err] & -> & HE1 & HE2)]; [done| |by destruct HE2].
    destruct HE2 as [-> [= ->]]. rewrite app_nil_r. by apply Hk.
Qed.
Lemma local_guarded h remote : not_the_cloud h → same_robot h →
  (∀ r, remote = Some r → (GetSecret Cloud rcn ImagePullSecret ▷ Ok r) ∈ h) →
  ∀ t o, calls (writes_local remote) t → writes_local remote o → guarded (h ++ t) o.
Proof.
  intros Hn Hs Hr t o _ [Hw Hc]. apply (writes_guarded _ remote); [|auto|auto|done].
  intros r ->. apply elem_of_app. left. by apply Hr.
Qed.
Lemma cloud_guarded h : not_the_cloud h → same_robot h →
  ∀ t o, calls (writes_in None) t → writes_in None o → guarded (h ++ t) o.
Proof. intros Hn Hs t o _ Hw. apply (writes_guarded _ None); auto. done. Qed.

Lemma patchServiceAccount_writes remote fuel :
  wp any_answer (writes_local remote) is_fatal (patchServiceAccount fuel Local baseNamespace) (λ _, True).
Proof.
  induction fuel as [|fuel IH]; cbn [patchServiceAccount]; [done|]. cbn [wp prog_bind call].
  split; [split; [split; [done|]|]; by intros []|]. intros [err|] _; cbn [wp]; [|done]. by destruct (IsNotFound err).
Qed.
Lemma syncDockerSecret_body_writes fuel remote ns :
  wp any_answer (writes_local (Some remote)) is_fatal (syncDockerSecret_body fuel Local remote ns tt) (λ _, True).
Proof.
  unfold syncDockerSecret_body. cbn [wp prog_bind call]. split; [by apply reads_local; intros []|]. intros [s|err] _; cbn [wp].
  - cbn [prog_bind call wp]. split; [|by intros [err|] _].
    split; [split; [|by intros []]|by intros [=]]. split; [done|]. by right.
  - destruct (IsNotFound err); [|done]. case_bool_decide as Hns; [|done]. cbn [prog_bind call wp]. split.
    { split; [split; [|by intros []]|by intros [=]]. right. split_and!; [done..|]. by right. }
    intros [e|] _; cbn [wp]; [done|]. apply wp_bind. rewrite Hns. eapply wp_mono; [|apply patchServiceAccount_writes]. done.
Qed.
Lemma syncDockerSecret_guarded h fuel : not_the_cloud h → same_robot h →
  hwpg h (syncDockerSecret g fuel Cloud Local) (λ h' _, ∃ t, h' = (h ++ t)%list).
Proof.
  intros Hn Hs. unfold syncDockerSecret. cbn [hwp prog_bind call]. split; [by apply reads_guarded; intros []|].
  intros [remote|err] _; [|by eexists].
  set (h1 := (h ++ _)%list). apply (hwp_wp_exec _ _ _ (writes_local (Some remote)) h1 _ (λ _, True)).
  - cbn [wp prog_bind call]. split; [by apply reads_local; intros []|]. intros [l|err] _; [|done].
    apply wp_bind. eapply (wp_mono _ _ _ _ (λ _, True)). { by intros [r|[]] _. }
    apply (wp_for_each _ _ _ _ _ (λ _, True)); [|done|done].
    intros ns [] _ _. eapply wp_mono; [|apply syncDockerSecret_body_writes]. by intros [].
  - apply local_guarded; [by apply not_the_cloud_app|by apply same_robot_app|]. intros r [= ->]. apply elem_of_app. right. by left.
  - intros t a _ _ _. exists ([GetSecret Cloud rcn ImagePullSecret ▷ Ok remote] ++ t)%list. by rewrite (assoc_L (++)).
Qed.
Lemma reads_ensureWebhookCerts c ns :
  wpr (ensureWebhookCerts b64 pemEncode MarshalPKCS8PrivateKey in100Years c ns) (λ _, True).
Proof.
  unfold ensureWebhookCerts. cbn [wp prog_bind call]. split; [by intros []|]. intros [sa|err] _; [case_bool_decide; [done|]|];
    (split; [by intros []|]; intros [priv|e] _; [|done]; split; [by intros []|]; intros [n|e] _; [|done];
     split; [by intros []|]; intros t1 _; split; [by intros []|]; intros t2 _; split; [by intros []|]; by intros [der|e] _).
Qed.

Definition applied (h : list (event uop)) : Prop :=
  ∃ stdin out, (Exec synkPath ["apply"; "base-robot"; "-n"; baseNamespace; "-f"; "-"] stdin ▷ (out, None)) ∈ h.

Lemma exec_guarded h args stdin :
  not_the_cloud h → same_robot h → registered h → id_stored h →
  args = ["init"] ∨ args = ["apply"; "base-robot"; "-n"; baseNamespace; "-f"; "-"] → guarded h (Exec synkPath args stdin).
Proof. intros Hn Hs Hr Hi Ha. split_and!; [|done|by left|done]. left. by split. Qed.
Lemma install_guarded h registry publicRegistry cm :
  not_the_cloud h → same_robot h → registered h → id_stored h →
  hwpg h (install b64 pemEncode MarshalPKCS8PrivateKey in100Years f g registry publicRegistry cm)
    (λ h' _, (∃ t, h' = (h ++ t)%list) ∧ applied h').
Proof.
  intros Hn Hs Hr Hi. unfold install. apply hwpg_or_fatal with reads;
    [apply reads_ensureWebhookCerts|intros; by apply reads_guarded|]. intros t [crt key] _.
  cbn [hwp prog_bind call]. split; [apply exec_guarded; auto|]. intros [out [err|]] _; [apply HasPrefix_app|].
  unfold installChartOrDie. cbn [hwp prog_bind call]. rewrite <-!(assoc_L (++)).
  split. { split_and!; [split; [done|by right]|by auto|left; by auto|by intros []]. }
  intros err _. cbn [hwp]. destruct (match err with Some err => negb (IsAlreadyExists err) | None => false end); [apply HasPrefix_app|].
  cbn [hwp prog_bind call helmValuesStringFromMap]. split; [by apply reads_guarded; intros []|]. intros l _.
  rewrite <-!(assoc_L (++)). split. { split_and!; [by right|by auto|left; by auto|by intros []]. }
  intros [output [e|]] _; [apply HasPrefix_app|]. cbn [hwp prog_bind call]. rewrite <-!(assoc_L (++)).
  split; [apply exec_guarded; auto|]. intros [o [e|]] _; [apply HasPrefix_app|]. cbn [hwp]. rewrite <-!(assoc_L (++)).
  split; [by eexists|]. eexists _, _. apply elem_of_app. right. apply elem_of_app. right.
  do 4 (apply elem_of_app; right). by left.
Qed.
Lemma checkLocalCluster_guarded h :
  hwpg h (checkLocalCluster g) (λ h' _, (∃ t, h' = (h ++ t)%list) ∧ not_the_cloud h' ∧ same_robot h').
Proof.
  unfold checkLocalCluster.
  apply hwpg_check with reads; [by split; [intros []|]|intros; by apply reads_guarded|]. intros t1 _.
  apply hwpg_check with reads; [by split; [intros []|]|intros; by apply reads_guarded|]. intros t2 _.
  cbn [hwp prog_bind call]. split; [by apply reads_guarded; intros []|]. intros [err|] _; [|apply HasPrefix_app].
  rewrite <-!(assoc_L (++)). set (h3 := (h ++ _)%list).
  assert (not_the_cloud h3) as Hn. { exists err. do 3 (apply elem_of_app; right). by left. }
  apply hwpg_check with tenant_ns;
    [apply ensureTenantMainNamespace_writes|intros; apply tenant_ns_guarded; auto|]. intros t4 _.
  apply hwpg_check with reads; [by split; [intros []|]|intros; by apply reads_guarded|]. intros t5 _.
  apply (hwp_mono _ _ _ _ _ (λ h' _, (∃ t, h' = (((h3 ++ t4) ++ t5) ++ t)%list) ∧ same_robot h')).
  { intros h' [] [[t ->] Hs]. split_and!; [|do 3 apply not_the_cloud_app; exact Hn|done]. subst h3. rewrite <-!(assoc_L (++)). by eexists. }
  apply hwpg_check_last with reads; [apply reads_checkRobotName|intros; by apply reads_guarded|].
  intros t6 HE. split; [by eexists|]. apply checkRobotName_same in HE. destruct HE as [(e & He & ?)|(l & Hl & ?)].
  - left. exists e. split; [|done]. apply elem_of_app. by right.
  - right. exists l. split; [|done]. apply elem_of_app. by right.
Qed.
Lemma register_guarded h labels annotations : not_the_cloud h → same_robot h →
  hwpg h (register f g labels annotations) (λ h' _, (∃ t, h' = (h ++ t)%list) ∧ registered h').
Proof.
  intros Hn Hs. unfold register.
  apply hwpg_check with reads; [by split; [intros []|]|intros; by apply reads_guarded|]. intros t1 _.
  apply hwpg_or_fatal with (writes_in None); [apply waitForServiceAccountToken_writes|by apply cloud_guarded; auto|].
  intros t2 token _.
  apply hwpg_or_fatal with reads; [apply reads_getRobotSetupConfigmap|intros; by apply reads_guarded|]. intros t3 cm _.
  apply hwpg_check with reads; [by split; [intros []|]|intros; by apply reads_guarded|]. intros t4 _.
  apply hwpg_check with (writes_in None); [apply createOrUpdateRobot_writes|by apply cloud_guarded; auto|].
  intros t5 HE%createOrUpdateRobot_registered. split; [rewrite <-!(assoc_L (++)); by eexists|]. apply registered_app. by right.
Qed.
Lemma storeSecrets_guarded h fuel publicRegistry token : not_the_cloud h → same_robot h →
  hwpg h (storeSecrets marshalRobotAuth fuel f g publicRegistry token) (λ h' _, (∃ t, h' = (h ++ t)%list) ∧ id_stored h').
Proof.
  intros Hn Hs. unfold storeSecrets.
  apply hwpg_check with (writes_local None); [apply storeInK8sSecret_writes|by apply local_guarded|].
  intros t1 HE%storeInK8sSecret_stored. assert (id_stored (h ++ t1)) as Hid by auto.
  case_bool_decide; [split; [by eexists|done]|]. apply hwp_bind.
  eapply hwp_mono; [|apply syncDockerSecret_guarded; auto]. intros h' r [t ->].
  assert (∃ t', ((h ++ t1) ++ t)%list = (h ++ t')%list) by (rewrite <-(assoc_L (++)); by eexists).
  destruct r as [[err|]|]; [apply HasPrefix_app|..]; (split; [done|by auto]).
Qed.

Lemma main_guarded fuel : f_Args f = [name] →
  hwpg [] (main ValidateClusterName b64 pemEncode MarshalPKCS8PrivateKey marshalRobotAuth in100Years fuel f)
    (λ h done, done = true → registered h ∧ id_stored h ∧ applied h).
Proof.
  intros Hargs. unfold main. apply hwpg_then with reads.
  { unfold parseFlags. rewrite Hargs. destruct (ValidateClusterName name); [done|apply wp_fatal]. }
  { intros. by apply reads_guarded. }
  intros ta g' HE. assert (g' = g) as ->.
  { unfold parseFlags in HE. rewrite Hargs in HE. destruct (ValidateClusterName name); [by destruct HE as [_ [= ->]]|by destruct HE]. }
  clear HE. do 3 (apply hwpg_reads; [apply reads_env|]; intros ? ? _).
  destruct (parseKeyValues (f_labels f)) as [labels|]; [|apply HasPrefix_app].
  destruct (parseKeyValues (f_annotations f)) as [annotations|]; [|apply HasPrefix_app].
  apply hwpg_check with reads; [apply reads_waitForDNS|intros; by apply reads_guarded|]. intros ? _.
  apply hwpg_check with reads; [apply reads_waitForService|intros; by apply reads_guarded|]. intros ? _.
  apply hwp_bind. eapply hwp_mono; [|apply checkLocalCluster_guarded]. intros h1 [] (_ & Hn & Hs). cbn beta.
  apply hwp_bind. eapply hwp_mono; [|by apply register_guarded]. intros h2 [token cm] ([tb ->] & Hr). cbn beta iota.
  apply hwp_bind. eapply hwp_mono; [|apply storeSecrets_guarded; auto]. intros h3 [] ([tc ->] & Hi); cbn [negb]; [|done].
  apply hwp_bind. eapply hwp_mono; [|apply install_guarded; auto]. intros h4 [] ([td ->] & Ha) _. split_and!; auto 10.
Qed.

(** *** Nothing follows the chart *)

Definition no_apply (o : uop) : Prop := ¬ is_apply o.
Abbreviation wpn := (wp any_answer no_apply is_fatal).
Definition ended {A} (p : prog uop A) : Prop := match p with Vis _ _ => False | _ => True end.
(** On every path, applying a chart is the last call. *)
Fixpoint apply_last {A} (p : prog uop A) : Prop :=
  match p with Vis o k => (is_apply o → ∀ a, ended (k a)) ∧ ∀ a, apply_last (k a) | _ => True end.
Lemma apply_last_bind {A B} (p : prog uop A) (next : A → prog uop B) :
  wpn p (λ _, True) → (∀ a, apply_last (next a)) → apply_last (prog_bind next p).
Proof.
  intros Hp Hf. induction p as [a|o k IH|m]; cbn; [done| |done]. destruct Hp as [Ho Hk].
  split; [by intros ?%Ho|]. intros a. by apply IH, Hk.
Qed.
Lemma apply_last_then {A B C} (p : prog uop A) (next : A → prog uop B) (last : B → prog uop C) :
  wpn p (λ _, True) → (∀ a, apply_last (prog_bind last (next a))) → apply_last (prog_bind last (prog_bind next p)).
Proof.
  intros Hp Hf. induction p as [a|o k IH|m]; cbn; [done| |done]. destruct Hp as [Ho Hk].
  split; [by intros ?%Ho|]. intros a. by apply IH, Hk.
Qed.
Lemma apply_last_exec {A} (p : prog uop A) t out pre e post :
  apply_last p → exec p t out → t = (pre ++ e :: post)%list → is_apply (projT1 e) → post = [].
Proof.
  revert t pre. induction p as [a|o k IH|m]; intros t pre Hp HE Ht He; cbn in HE.
  - destruct HE as [-> _]. by destruct pre.
  - destruct Hp as [Ho Hk], HE as (a & t' & -> & HE). destruct pre as [|e' pre].
    + pose proof (f_equal head Ht) as Hh. apply (f_equal tail) in Ht. cbn in Hh, Ht. injection Hh as <-. subst t'.
      specialize (Ho He a). destruct (k a); [by destruct HE as [-> _]|done|by destruct HE as [-> _]].
    + apply (f_equal tail) in Ht. cbn in Ht. by eapply IH.
  - destruct HE as [-> _]. by destruct pre.
Qed.
Lemma wpn_mono {A} (G0 : uop → Prop) (p : prog uop A) Φ :
  (∀ o, G0 o → no_apply o) → wp any_answer G0 is_fatal p Φ → wpn p (λ _, True).
Proof. intros HG Hp. eapply wp_mono; [|apply (wp_weaken_call _ G0); [exact HG|exact Hp]]. done. Qed.
Lemma wpn_bind {A B} (p : prog uop A) (next : A → prog uop B) :
  wpn p (λ _, True) → (∀ a, wpn (next a) (λ _, True)) → wpn (prog_bind next p) (λ _, True).
Proof. intros Hp Hf. apply wp_bind. eapply wp_mono; [|exact Hp]. intros a _. apply Hf. Qed.
Lemma wpn_check msg (p : prog uop (option error)) : wpn p (λ _, True) → wpn (check msg p) (λ _, True).
Proof. intros Hp. apply wpn_bind; [done|]. intros [err|]; [apply HasPrefix_app|done]. Qed.
Lemma wpn_or_fatal {A} msg (p : prog uop (result A)) : wpn p (λ _, True) → wpn (or_fatal msg p) (λ _, True).
Proof. intros Hp. apply wpn_bind; [done|]. intros [a|err]; [done|apply HasPrefix_app]. Qed.
Lemma reads_no_apply o : reads o → no_apply o.
Proof. intros Hr Ha. apply Hr. by destruct o. Qed.
Lemma writes_no_apply remote o : writes_in remote o → no_apply o.
Proof. by intros []. Qed.
Lemma local_no_apply remote o : writes_local remote o → no_apply o.
Proof. by intros [[] ?]. Qed.
Lemma tenant_ns_no_apply o : tenant_ns o → no_apply o.
Proof. intros [?| ->]; [by apply reads_no_apply|by intros []]. Qed.
#[local] Hint Resolve reads_no_apply writes_no_apply local_no_apply tenant_ns_no_apply : core.

Lemma wpn_checkLocalCluster : wpn (checkLocalCluster g) (λ _, True).
Proof.
  unfold checkLocalCluster. apply wpn_bind; [by apply wpn_check; split; [intros []|]|]. intros [].
  apply wpn_bind; [by apply wpn_check; split; [intros []|]|]. intros [].
  cbn [wp prog_bind call]. split; [by intros []|]. intros [err|] _; [|apply HasPrefix_app].
  apply wpn_bind; [eapply wpn_check, wpn_mono, ensureTenantMainNamespace_writes; auto|]. intros [].
  apply wpn_bind; [by apply wpn_check; split; [intros []|]|]. intros [].
  eapply wpn_check, wpn_mono, reads_checkRobotName; auto.
Qed.
Lemma wpn_register labels annotations : wpn (register f g labels annotations) (λ _, True).
Proof.
  unfold register. apply wpn_bind; [by apply wpn_check; split; [intros []|]|]. intros [].
  apply wpn_bind; [eapply wpn_or_fatal, wpn_mono, waitForServiceAccountToken_writes; apply writes_no_apply|]. intros token.
  apply wpn_bind; [eapply wpn_or_fatal, wpn_mono, reads_getRobotSetupConfigmap; auto|]. intros cm.
  apply wpn_bind; [by apply wpn_check; split; [intros []|]|]. intros [].
  apply wpn_bind; [eapply wpn_check, wpn_mono, createOrUpdateRobot_writes; apply writes_no_apply|]. done.
Qed.
Lemma wpn_syncDockerSecret fuel : wpn (syncDockerSecret g fuel Cloud Local) (λ _, True).
Proof.
  unfold syncDockerSecret. cbn [wp prog_bind call]. split; [by intros []|]. intros [remote|err] _; [|done].
  cbn [wp prog_bind call]. split; [by intros []|]. intros [l|err] _; [|done].
  apply wpn_bind; [|by intros [r|[]]]. apply (wp_for_each _ _ _ _ _ (λ _, True)); [|done|done].
  intros ns [] _ _. eapply wp_mono; [|eapply wpn_mono, syncDockerSecret_body_writes; apply local_no_apply]. by intros [].
Qed.
Lemma wpn_storeSecrets fuel publicRegistry token :
  wpn (storeSecrets marshalRobotAuth fuel f g publicRegistry token) (λ _, True).
Proof.
  unfold storeSecrets. apply wpn_bind; [eapply wpn_check, wpn_mono, storeInK8sSecret_writes; apply local_no_apply|]. intros [].
  case_bool_decide; [done|]. apply wpn_bind; [apply wpn_syncDockerSecret|]. intros [[err|]|]; [apply HasPrefix_app|done..].
Qed.
(** The chart is applied in the last call of [install]. *)
Lemma install_last registry publicRegistry cm :
  apply_last (install b64 pemEncode MarshalPKCS8PrivateKey in100Years f g registry publicRegistry cm ;;! Ret true).
Proof.
  unfold install. apply apply_last_then.
  { eapply wpn_or_fatal, wpn_mono, reads_ensureWebhookCerts; auto. }
  intros [crt key]. cbn [apply_last prog_bind call]. split; [by intros []|]. intros [out [err|]]; [done|].
  unfold installChartOrDie. cbn [apply_last prog_bind call]. split; [by intros []|]. intros err.
  destruct (match err with Some err => negb (IsAlreadyExists err) | None => false end); [done|].
  cbn [apply_last prog_bind call helmValuesStringFromMap]. split; [by intros []|]. intros l.
  split; [by intros []|]. intros [output [e|]]; [done|]. cbn [apply_last prog_bind call].
  split; [by intros _ [o [e|]]|]. by intros [o [e|]].
Qed.
Lemma main_last fuel : f_Args f = [name] →
  apply_last (main ValidateClusterName b64 pemEncode MarshalPKCS8PrivateKey marshalRobotAuth in100Years fuel f).
Proof.
  intros Hargs. unfold main, parseFlags. rewrite Hargs. destruct (ValidateClusterName name); [|done]. cbn [prog_bind].
  do 3 (apply apply_last_bind; [eapply wpn_mono, reads_env; auto|]; intros ?).
  destruct (parseKeyValues (f_labels f)) as [labels|]; [|done]. destruct (parseKeyValues (f_annotations f)) as [annotations|]; [|done].
  apply apply_last_bind; [eapply wpn_check, wpn_mono, reads_waitForDNS; auto|]. intros [].
  apply apply_last_bind; [eapply wpn_check, wpn_mono, reads_waitForService; auto|]. intros [].
  apply apply_last_bind; [apply wpn_checkLocalCluster|]. intros [].
  apply apply_last_bind; [apply wpn_register|]. intros [token cm].
  apply apply_last_bind; [apply wpn_storeSecrets|]. intros []; cbn [negb]; [|done]. apply install_last.
Qed.

(** C38: The set-up touches only what it is for, in the right order.  Whatever
    the clusters, the environment and the commands answer, every call meets
    the rule [guarded]: it creates no namespace but the tenant's and the
    default one, writes in the cloud only this robot's object and token, in
    the robot's cluster only the secret with its ID, pull secrets with the
    content the cloud has, and the default service account, and runs only helm
    and synk; it writes nothing before the read of the cloud's deployment in
    the local cluster has failed, and, but for the tenant's namespace in the
    local cluster, nothing in either cluster before the local one is known to
    have no other robot's name; it installs the chart only after the Robot
    object and the ID are written, and after that makes no call at all.  It
    ends by reporting success after all three, or in a fatal error, and never
    panics. *)
Theorem setup_confined (fuel : nat) (t : list (event uop)) (out : outcome bool) :
  f_Args f = [name] →
  exec (main ValidateClusterName b64 pemEncode MarshalPKCS8PrivateKey marshalRobotAuth in100Years fuel f) t out →
  (∀ pre e post, t = (pre ++ e :: post)%list →
     guarded pre (projT1 e) ∧ (is_apply (projT1 e) → post = [])) ∧
  match out with
  | Done true => registered t ∧ id_stored t ∧ applied t
  | Done false => True
  | Panicked m => HasPrefix m "log.Fatal: " = true
  end.
Proof.
  intros Hargs HE. destruct (hwp_exec _ _ _ _ _ _ _ _ (main_guarded fuel Hargs) HE) as [HG Hout].
  { clear. induction t; cbn; [done|by split]. }
  split; [|destruct out as [[]|m]; [by apply Hout|done|exact Hout]].
  intros pre e post Ht. split; [by apply (HG pre e post)|]. intros Ha.
  by eapply apply_last_exec; [apply main_last|..].
Qed.
End confined.

(** ** The Robot object *)

Fixpoint field (k : string) (l : list (string * json)) : option json :=
  match l with [] => None | (k', v) :: l => if bool_decide (k' = k) then Some v else field k l end.
Lemma field_setField k k' v l : field k' (setField k v l) = if bool_decide (k' = k) then Some v else field k' l.
Proof.
  induction l as [|[k1 v1] l IH]; cbn [setField field].
  - repeat case_bool_decide; subst; done.
  - destruct (decide (k1 = k)) as [->|H1].
    + rewrite bool_decide_eq_true_2 by done. cbn [field]. repeat case_bool_decide; subst; done.
    + rewrite (bool_decide_eq_false_2 (k1 = k)) by done. cbn [field]. rewrite IH. repeat case_bool_decide; subst; done.
Qed.

Section robot.
Context (f : Flags) (g : Globals).

(** The labels the set-up asks for. *)
Definition wanted_label (labels : gmap string string) (host k : string) : option string :=
  if bool_decide (k = "cloudrobotics.com/robot-name") then Some (robotName g)
  else if bool_decide (k = "cloudrobotics.com/master-host") then
    match labels !! k with
    | Some v => if bool_decide (v = "") && negb (bool_decide (host = "")) then Some host else Some v
    | None => if bool_decide (host = "") then None else Some host
    end
  else labels !! k.
Lemma robotLabels_wanted labels host k : robotLabels g labels host !! k = wanted_label labels host k.
Proof.
  unfold robotLabels, wanted_label, mget. rewrite (lookup_insert_ne labels) by done.
  destruct (decide (k = "cloudrobotics.com/robot-name")) as [->|H1].
  { rewrite (bool_decide_eq_true_2 ("cloudrobotics.com/robot-name" = _)) by done. case_match; [rewrite lookup_insert_ne by done|]; by rewrite lookup_insert_eq. }
  rewrite (bool_decide_eq_false_2 (k = _)) by done.
  destruct (decide (k = "cloudrobotics.com/master-host")) as [->|H2].
  - rewrite (bool_decide_eq_true_2 ("cloudrobotics.com/master-host" = "cloudrobotics.com/master-host")) by done.
    destruct (labels !! "cloudrobotics.com/master-host") as [v|] eqn:Hl; cbn [default from_option id];
      repeat case_bool_decide; cbn [negb andb]; try done; rewrite ?lookup_insert_eq; try done; by rewrite lookup_insert_ne.
  - rewrite (bool_decide_eq_false_2 (k = _)) by done. case_match; by rewrite !lookup_insert_ne.
Qed.
Definition wanted_annotation (annotations : gmap string string) (cm : ConfigMap) (k : string) : option string :=
  let crc := sm_get (cm_Data cm) "setup_robot_crc" in
  if bool_decide (k = "cloudrobotics.com/crc-version") && negb (bool_decide (crc = "")) then Some crc else annotations !! k.
Lemma robotAnnotations_wanted annotations cm k : robotAnnotations annotations cm !! k = wanted_annotation annotations cm k.
Proof.
  unfold robotAnnotations, wanted_annotation. repeat case_bool_decide; cbn [negb andb]; subst; rewrite ?lookup_insert_eq; try done.
  by rewrite lookup_insert_ne.
Qed.

(** An object as asked for, over what [old] had. *)
Definition as_wanted (labels annotations : gmap string string) (cm : ConfigMap) (host : string)
    (oldLabels oldAnnotations : strmap) (r : Unstructured) : Prop :=
  (∀ k, sm_lookup (om_Labels (u_meta r)) k =
     match wanted_label labels host k with Some v => Some v | None => sm_lookup oldLabels k end) ∧
  (∀ k, sm_lookup (om_Annotations (u_meta r)) k =
     match wanted_annotation annotations cm k with Some v => Some v | None => sm_lookup oldAnnotations k end).

Lemma setMetaMaps_wanted labels annotations cm host (l a : strmap) m :
  let m' := setMetaMaps (mergeMaps (default ∅ l) (robotLabels g labels host))
              (mergeMaps (default ∅ a) (robotAnnotations annotations cm)) m in
  (∀ k, sm_lookup (om_Labels m') k = match wanted_label labels host k with Some v => Some v | None => sm_lookup l k end) ∧
  (∀ k, sm_lookup (om_Annotations m') k =
     match wanted_annotation annotations cm k with Some v => Some v | None => sm_lookup a k end).
Proof.
  assert (∀ (o : strmap) (w : gmap string string) k,
    (mergeMaps (default ∅ o) w) !! k = match w !! k with Some v => Some v | None => sm_lookup o k end) as Hm.
  { intros o w k. unfold mergeMaps, sm_lookup. rewrite lookup_union. destruct (w !! k), o as [o|]; cbn; try done;
      rewrite ?lookup_empty; try done; by destruct (o !! k). }
  destruct m. cbn. split; intros k; rewrite Hm, ?robotLabels_wanted, ?robotAnnotations_wanted; done.
Qed.

(** The Robot object ends up as asked for.  Exactly one of these: the
    object does not exist and is created with the wanted labels and
    annotations and the type of the flag; it exists and is updated: labels and
    annotations that are not wanted otherwise, and all other fields of the
    object and of its spec stay as they are, but the type becomes the flag's
    even if the flag was not given; it is not written at all, with an error.
    The error returned is that of the write. *)
Theorem robot_as_wanted (c : cluster) (labels annotations : gmap string string) (cm : ConfigMap)
    (t : list (event uop)) (out : outcome (option error)) :
  exec (createOrUpdateRobot f g c labels annotations cm) t out →
  ∃ host ans t', t = (Getenv "HOST_HOSTNAME" ▷ host) :: (GetRobot c (mainNamespace g) (robotName g) ▷ ans) :: t' ∧
  match ans with
  | Ok old =>
      match u_Object old !! "spec" with
      | Some (JObj spec) => ∃ new spec' err, t' = [UpdateRobot c (mainNamespace g) new ▷ err] ∧ out = Done err ∧
          as_wanted labels annotations cm host (om_Labels (u_meta old)) (om_Annotations (u_meta old)) new ∧
          om_Name (u_meta new) = om_Name (u_meta old) ∧ om_ResourceVersion (u_meta new) = om_ResourceVersion (u_meta old) ∧
          u_Object new = <["spec" := JObj spec']> (u_Object old) ∧
          ∀ k, field k spec' = if bool_decide (k = "type") then Some (JString (f_robotType f)) else field k spec
      | _ => t' = [] ∧ ∃ err, out = Done (Some err)
      end
  | Err e =>
      if isStatusNotFound e then ∃ new err, t' = [CreateRobot c (mainNamespace g) new ▷ err] ∧ out = Done err ∧
        as_wanted labels annotations cm host None None new ∧ om_Name (u_meta new) = robotName g ∧
        u_Object new = <["spec" := JObj [("type", JString (f_robotType f))]]> (<["status" := JObj []]> ∅)
      else t' = [] ∧ ∃ err, out = Done (Some err)
  end.
Proof.
  unfold createOrUpdateRobot. cbn [exec prog_bind call]. intros (host & t1 & -> & ans & t2 & -> & HE).
  exists host, ans, t2. split; [done|]. destruct ans as [old|e].
  - destruct (u_Object old !! "spec") as [[| | | | |spec]|];
      try (destruct HE as [-> ->]; split; [done|by eexists]).
    destruct HE as (err & t3 & -> & -> & ->). eexists _, _, err. split; [done|]. split; [done|].
    split; [exact (setMetaMaps_wanted labels annotations cm host (om_Labels (u_meta old)) (om_Annotations (u_meta old)) (u_meta old))|].
    split; [by destruct (u_meta old)|]. split; [by destruct (u_meta old)|]. split; [done|]. intros k. apply field_setField.
  - destruct (isStatusNotFound e); [|destruct HE as [-> ->]; split; [done|by eexists]].
    destruct HE as (err & t3 & -> & -> & ->). eexists _, err. split; [done|]. split; [done|]. split; [|done].
    split; intros k; cbn; rewrite ?robotLabels_wanted, ?robotAnnotations_wanted; by case_match.
Qed.
End robot.

(** ** Pull secrets *)

Section pulls.
Context (g : Globals) (remote : Secret) (nss : list string).

(** A robot's cluster: the pull secret of each namespace that has one. *)
Definition pulls (o : uop) (w : gmap string Secret) : option (resp o * gmap string Secret) :=
  match o with
  | GetSecret Cloud _ _ => Some (Ok remote, w)
  | GetSecret Local ns _ =>
      Some (match w !! ns with Some s => Ok s | None => Err (EStatus 404 "NotFound" "secret not found") end, w)
  | ListNamespaces _ => Some (Ok nss, w)
  | CreateSecret Local ns s | UpdateSecret Local ns s => Some (None, <[ns:=s]> w)
  | PatchServiceAccount _ _ _ _ => Some (None, w)
  | _ => None
  end.

(** What the function makes of the secret of one namespace. *)
Definition refreshed (ns : string) (old : option Secret) : option Secret :=
  match old with
  | Some s => Some (mkSecret (sec_meta s) (sec_Data remote) (sec_Type remote))
  | None =>
      if bool_decide (ns = baseNamespace)
      then Some (mkSecret (namedMeta ns (om_Name (sec_meta remote))) (sec_Data remote) (sec_Type remote)) else None
  end.
(** The namespaces it gets to. *)
Fixpoint upTo (ns : string) (l : list string) : list string :=
  match l with [] => [] | x :: l => x :: (if bool_decide (x = ns) then [] else upTo ns l) end.
Definition reached (w : gmap string Secret) (l : list string) : list string :=
  match w !! baseNamespace with Some _ => l | None => upTo baseNamespace l end.
Definition refresh_all (w : gmap string Secret) (l : list string) (w' : gmap string Secret) : Prop :=
  ∀ ns, w' !! ns = if decide (ns ∈ reached w l) then refreshed ns (w !! ns) else w !! ns.

Lemma upTo_subset ns l : ∀ x, x ∈ upTo ns l → x ∈ l.
Proof.
  induction l as [|y l IH]; intros x; cbn; [done|]. intros [->|Hx]%elem_of_cons; [by left|].
  destruct (bool_decide _); [by apply not_elem_of_nil in Hx|]. right. by apply IH.
Qed.
Lemma reached_subset w l x : x ∈ reached w l → x ∈ l.
Proof. unfold reached. destruct (w !! _); [done|apply upTo_subset]. Qed.

Lemma run_body fuel ns w :
  ∃ t, run pulls (syncDockerSecret_body (S fuel) Local remote ns tt) w =
    Some (t, Done (match w !! ns with Some _ => inr tt | None => if bool_decide (ns = baseNamespace) then inl (Some None) else inr tt end),
          match refreshed ns (w !! ns) with Some s => <[ns:=s]> w | None => w end).
Proof.
  unfold syncDockerSecret_body. cbn [run prog_bind call pulls]. destruct (w !! ns) as [s|]; cbn [refreshed].
  - cbn [run prog_bind call pulls]. by eexists.
  - change (IsNotFound _) with true. cbn iota. destruct (bool_decide (ns = baseNamespace)); by eexists.
Qed.
Lemma run_sync_loop fuel l w : NoDup l →
  ∃ t r w', run pulls (for_each (syncDockerSecret_body (S fuel) Local remote) l tt) w = Some (t, Done r, w') ∧
    (r = inr tt ∨ r = inl (Some None)) ∧ refresh_all w l w'.
Proof.
  revert w. induction l as [|ns l IH]; intros w Hnd.
  { eexists _, _, w. split; [reflexivity|]. split; [by left|]. intros ns. unfold reached.
    rewrite decide_False; [done|]. by destruct (w !! baseNamespace); cbn; apply not_elem_of_nil. }
  apply NoDup_cons in Hnd as [Hnot Hnd]. cbn [for_each]. destruct (run_body fuel ns w) as [tb Hb].
  destruct (w !! ns) as [s|] eqn:Hs; cbn [refreshed] in Hb.
  - set (w1 := <[ns:=mkSecret (sec_meta s) (sec_Data remote) (sec_Type remote)]> w) in *.
    destruct (IH w1 Hnd) as (t & r & w' & Hr & Hres & Hw). eexists _, r, w'.
    split; [eapply run_bind; [exact Hb|exact Hr]|].
    split; [done|]. intros x. rewrite Hw.
    assert (reached w (ns :: l) = ns :: reached w1 l ∨ (ns = baseNamespace ∧ reached w (ns :: l) = ns :: l ∧ reached w1 l = l)) as Hreach.
    { unfold reached, w1. destruct (decide (ns = baseNamespace)) as [->|Hbase]; [right; by rewrite Hs, lookup_insert_eq|left].
      rewrite lookup_insert_ne by done. destruct (w !! baseNamespace); [done|]. cbn. by rewrite bool_decide_eq_false_2. }
    assert (x ∈ reached w (ns :: l) ↔ x = ns ∨ x ∈ reached w1 l) as Hx.
    { destruct Hreach as [->|(_ & -> & ->)]; apply elem_of_cons. }
    destruct (decide (x = ns)) as [->|Hne].
    + rewrite decide_False by (intros ?%reached_subset; done). rewrite decide_True by (apply Hx; by left).
      unfold w1. by rewrite lookup_insert_eq, Hs.
    + assert (w1 !! x = w !! x) as -> by (by unfold w1; rewrite lookup_insert_ne).
      repeat case_decide; try done; naive_solver.
  - destruct (decide (ns = baseNamespace)) as [->|Hbase].
    + rewrite !bool_decide_eq_true_2 in Hb by done. eexists _, (inl (Some None)), _.
      split; [eapply run_bind; [exact Hb|reflexivity]|].
      split; [by right|]. intros x. unfold reached. rewrite Hs. cbn. rewrite bool_decide_eq_true_2 by done.
      destruct (decide (x = baseNamespace)) as [->|Hne].
      * rewrite lookup_insert_eq, decide_True by (by left). by rewrite Hs.
      * rewrite lookup_insert_ne by done. rewrite decide_False; [done|]. by intros [->|[]%not_elem_of_nil]%elem_of_cons.
    + rewrite !bool_decide_eq_false_2 in Hb by done. destruct (IH w Hnd) as (t & r & w' & Hr & Hres & Hw). eexists _, r, w'.
      split; [eapply run_bind; [exact Hb|exact Hr]|].
      split; [done|]. intros x. rewrite Hw.
      assert (x ∈ reached w (ns :: l) ↔ x = ns ∨ x ∈ reached w l) as Hx.
      { unfold reached. destruct (w !! baseNamespace); cbn; rewrite ?(bool_decide_eq_false_2 (ns = _)) by done; apply elem_of_cons. }
      destruct (decide (x = ns)) as [->|Hne]; [|repeat case_decide; try done; naive_solver].
      rewrite decide_False by (intros ?%reached_subset; done). rewrite decide_True by (apply Hx; by left).
      unfold refreshed. by rewrite Hs, bool_decide_eq_false_2.
Qed.

(** Pull secrets are brought up to date where the function gets to.  If the
    default namespace has a pull secret, every listed namespace that has one
    afterwards has the cloud's content, and nothing else changes.  If it has
    none, it gets one, but the function returns there: the namespaces listed
    after it keep what they had.  It reports success in both cases. *)
Theorem pull_secrets_reached (fuel : nat) (w : gmap string Secret) :
  NoDup nss → (0 < fuel)%nat →
  ∃ t w', run pulls (syncDockerSecret g fuel Cloud Local) w = Some (t, Done (Some None), w') ∧ refresh_all w nss w'.
Proof.
  intros Hnd Hf. destruct fuel as [|fuel]; [lia|]. destruct (run_sync_loop fuel nss w Hnd) as (t & r & w' & Hr & Hres & Hw).
  eexists _, w'. split; [|exact Hw]. unfold syncDockerSecret. cbn [run prog_bind call pulls].
  erewrite run_bind; [reflexivity|exact Hr|]. by destruct Hres as [->| ->].
Qed.
End pulls.

(** [UpdateSecret] makes at most six attempts of two calls. *)
Lemma updateSecret_bounded c name ns ty data : cost_le (λ _, 1%nat) (updateSecret c name ns ty data) 12.
Proof.
  unfold updateSecret. apply (cost_le_bind _ _ _ 12 0); [|by intros [err []]]. apply (Retry_cost _ 5 _ 2). intros [].
  unfold UpdateSecret_op. cbn. split; [lia|]. intros [s|err]; [|destruct (IsNotFound err)]; cbn; [split; [lia|]..|done].
  - intros [e|]; [|done]. by destruct (IsConflict e).
  - done.
Qed.
(** The sentinel for escaped commas is not kept apart from the same text. *)
Example sentinel_given : parseKeyValues "a=x_COMMA_SENTINEL_y" = Ok {["a" := "x,y"]}.
Proof. vm_compute. reflexivity. Qed.

(** ** A robot that is set up for the first time *)

Example notFound : error := EStatus 404 "NotFound" "not found".
Example some_config : ConfigMap :=
  mkConfigMap emptyMeta (Some (list_to_map ((λ k, (k, "v1")) <$> requiredKeys))).
Example some_remote : Secret := mkSecret (namedMeta "t-acme-robot-config" "s") (Some {["token" := "secret"]}) "Opaque".
Example api (robot : result Unstructured) (o : uop) (s : unit) : option (resp o * unit) :=
  match o with
  | Getenv n => Some ("value", s)
  | LookupIP _ => Some (Ok [[10; 0; 0; 1]%Z], s)
  | ListNamespaces _ => Some (Ok ["apps"; "default"; "kube-system"], s)
  | ListRobots _ _ => Some (Ok [], s)
  | GetRobot _ _ _ => Some (robot, s)
  | GetConfigMap _ _ _ => Some (Ok some_config, s)
  | GetSecret Cloud _ _ => Some (Ok some_remote, s)
  | GetSecret Local _ _ => Some (Err notFound, s)
  | GenerateKey => Some (Ok "key", s)
  | RandInt _ => Some (Ok 7%Z, s)
  | Now => Some (0%Z, s)
  | CreateCertificate _ _ => Some (Ok "der", s)
  | RangeMap m => Some (map_to_list m, s)
  | Exec _ _ _ => Some (("manifests", None), s)
  | GetDeployment _ _ _ | GetNamespace _ _ => Some (Some notFound, s)
  | Head _ | InClusterConfig | NewClient _ | NewDynamicClient _ | CreateNamespace _ _ | CreateRobot _ _ _ | UpdateRobot _ _ _
  | CreateSecret _ _ _ | UpdateSecret _ _ _ | PatchServiceAccount _ _ _ _ => Some (None, s)
  end.
Example some_flags : Flags := mkFlags "example.com" "acme" "amr" "site=hall 1\, 2,floor=3" "" "/var/lib/docker" "192.168.9.0/24" ["r1"].
Example some_main : option (list (event uop) * outcome bool * unit) :=
  run (api (Err notFound)) (main (λ _, []) id (λ _ s, Ok s) Ok (λ r, Ok (MetadataServer.Model.ra_UpstreamAuthToken r)) (Z.add 100) 1 some_flags) tt.

Lemma setup_confined_witness :
  outcome_of some_main = Some (Done true) ∧ registered some_flags (trace_of some_main) ∧ applied (trace_of some_main) ∧
  not_the_cloud (trace_of some_main).
Proof.
  assert (outcome_of some_main = Some (Done true)) as Ho by (vm_compute; reflexivity).
  split; [exact Ho|].
  destruct (setup_confined (λ _, []) id (λ _ s, Ok s) Ok (λ r, Ok (MetadataServer.Model.ra_UpstreamAuthToken r)) (Z.add 100)
    some_flags "r1" 1 (trace_of some_main) (Done true)) as [HG (Hr & _ & Ha)].
  - reflexivity.
  - apply run_exec. vm_compute. reflexivity.
  - split; [exact Hr|]. split; [exact Ha|]. destruct Ha as (stdin & o & Ha).
    apply list_elem_of_split in Ha as (pre & post & Ht). destruct (HG pre _ post Ht) as ((_ & Hn & _) & _).
    destruct (Hn I) as [err He]. exists err. rewrite Ht. apply elem_of_app. left. exact He.
Defined.

Example labels_given : parseKeyValues (f_labels some_flags) = Ok (<["floor" := "3"]> {["site" := "hall 1, 2"]}).
Proof. vm_compute. reflexivity. Qed.

(** Run again without a type, the set-up clears the type of the Robot. *)
Example some_robot : Unstructured :=
  mkUnstructured "Robot" "registry.cloudrobotics.com/v1alpha1" (namedMeta "t-acme" "r1")
    {["spec" := JObj [("type", JString "amr"); ("project", JString "p")]]}.
Example some_update : list (event uop) :=
  trace_of (run (api (Ok some_robot)) (createOrUpdateRobot (mkFlags "" "acme" "" "" "" "" "" ["r1"]) (mkGlobals "r1" "t-acme" "t-acme-robot-config") Cloud ∅ ∅ some_config) tt).
Lemma robot_as_wanted_witness : ∃ new spec',
  (UpdateRobot Cloud "t-acme" new ▷ None) ∈ some_update ∧ u_Object new = {["spec" := JObj spec']} ∧
  field "type" spec' = Some (JString "") ∧ field "project" spec' = Some (JString "p").
Proof.
  destruct (robot_as_wanted (mkFlags "" "acme" "" "" "" "" "" ["r1"]) (mkGlobals "r1" "t-acme" "t-acme-robot-config") Cloud ∅ ∅ some_config
    some_update (Done None)) as (host & ans & t' & Ht & Hans).
  - apply run_exec. vm_compute. reflexivity.
  - assert (ans = Ok some_robot) as ->.
    { apply (f_equal (λ t, match t with _ :: existT (GetRobot _ _ _) a :: _ => a | _ => Err notFound end)) in Ht. symmetry. exact Ht. }
    destruct Hans as (new & spec' & err & -> & [= <-] & _ & _ & _ & Ho & Hf).
    exists new, spec'. split; [rewrite Ht; do 2 right; left|]. split; [rewrite Ho; vm_compute; reflexivity|].
    split; [exact (Hf "type")|exact (Hf "project")].
Defined.

Lemma pull_secrets_reached_witness : ∃ t w',
  run (pulls some_remote ["apps"; "default"; "robots"]) (syncDockerSecret (mkGlobals "r1" "t-acme" "t-acme-robot-config") 1 Cloud Local)
    {["robots" := mkSecret (namedMeta "robots" ImagePullSecret) None "Opaque"]} = Some (t, Done (Some None), w') ∧
  w' !! "default" ≠ None ∧ w' !! "robots" = Some (mkSecret (namedMeta "robots" ImagePullSecret) None "Opaque").
Proof.
  destruct (pull_secrets_reached (mkGlobals "r1" "t-acme" "t-acme-robot-config") some_remote ["apps"; "default"; "robots"] 1
    {["robots" := mkSecret (namedMeta "robots" ImagePullSecret) None "Opaque"]}) as (t & w' & Hr & Hw).
  - apply (bool_decide_unpack _). vm_compute. exact I.
  - exact (le_n 1).
  - exists t, w'. split; [exact Hr|]. split; rewrite Hw; vm_compute; [discriminate|reflexivity].
Defined.
