(* ===== verification/LoggingProxy.v ===== *)
(** * src/go/cmd/logging-proxy: log requests to fluentd, with the robot's token

    [Module Model] translates main.go: one handler that rewrites a request,
    sends it through an authenticated client and copies the response. *)
From stdpp Require Import prelude strings gmap list.
From Stdlib Require Import Ascii ZArith.
From S2P Require Import Prelude GoErr GoStr.

Open Scope string_scope.
Open Scope prog_scope.

Module Model.

(** An [http.Header] in the order in which [range] visits it; the keys are
    canonical. *)
Abbreviation Header := (list (string * list string)).
Abbreviation Values := (gmap string (list string)).
Record URL := mkURL { u_Path : string; u_RawQuery : string; u_Fragment : string; u_rest : string }.
(** The client's body, the server's, or one read before. *)
Inductive body := RequestBody | ResponseBody | Buffer (s : string).
Record Request := mkRequest {
  r_Method : string; r_URL : URL; r_Header : Header; r_Host : string; r_RequestURI : string; r_Body : body }.
Record Response := mkResponse { StatusCode : Z; resp_Header : Header; resp_Body : body }.

(** The lock and the counter of debug IDs, bodies, the client, the response
    writer, start-up. *)
Inductive lop : Type :=
| Lock
| Unlock
| GetRequestID
| SetRequestID (id : Z)
| ReadAll (b : body)
| Close (b : body)
| Do (r : Request)
| HeaderAdd (k v : string)
| WriteHeader (code : Z)
| Copy (b : body)
| Write (s : string)
| Error (msg : string) (code : Z)
| Getenv (name : string)
| DefaultClient (scope : string)
| ListenAndServe (addr : string).
#[export] Instance lop_effect : Effect lop := λ o,
  match o with
  | GetRequestID => Z
  | ReadAll _ => (string * option error)%type
  | Do _ => result Response
  | Copy _ | Write _ | DefaultClient _ | ListenAndServe _ => option error
  | Getenv _ => string
  | _ => unit
  end.

Definition oauth2Scope : string := "https://www.googleapis.com/auth/cloud-platform.read-only".
Definition StatusBadGateway : Z := 502.
Definition hopByHopHeaders : list string :=
  ["Upgrade"; "Proxy-Authorization"; "Connection"; "Proxy-Authenticate"; "Keep-Alive"; "Transfer-Encoding"; "Trailers"; "Te"].

(** [p] and then [c], also after a panic. *)
Fixpoint defer {A : Type} (c : prog lop unit) (p : prog lop A) : prog lop A :=
  match p with
  | Ret a => c ;;! Ret a
  | Vis o k => Vis o (λ r, defer c (k r))
  | Panic m => c ;;! Panic m
  end.

Section proxy.
(** Package url. *)
Context (url_Parse : string → result URL) (Query : string → Values) (Encode : Values → string).
(** The package's variables. *)
Context (remoteHost tenantNamespace : string) (debug : bool).

(** What [reroute] parses. *)
Definition target (u : URL) : string :=
  "https://" ++ remoteHost ++ u_Path u ++
  (if bool_decide (u_RawQuery u = "") then "" else "?" ++ u_RawQuery u) ++
  (if bool_decide (u_Fragment u = "") then "" else "#" ++ u_Fragment u).
(** An error of [url.Parse] leaves a nil URL, which the log call dereferences. *)
Definition reroute (r : Request) : prog lop Request :=
  match url_Parse (target (r_URL r)) with
  | Err _ => Panic "nil dereference"
  | Ok u => Ret (mkRequest (r_Method r) u (r_Header r) (r_Host r) (r_RequestURI r) (r_Body r))
  end.

(** [dst.Add] for every value. *)
Definition cpHeader (src : Header) : prog lop unit :=
  loop (λ kvs _, loop (λ v _, call (HeaderAdd kvs.1 v)) kvs.2 tt) src tt.
Definition Del (k : string) (h : Header) : Header := filter (λ kvs, kvs.1 ≠ k) h.
Definition rmHopByHopHeaders (h : Header) : Header := fold_left (λ h k, Del k h) hopByHopHeaders h.

Definition debugLogBody (b : body) : prog lop body :=
  let! ' (bodyByte, _) := call (ReadAll b) in
  call (Close b) ;;! Ret (Buffer bodyByte).
Definition Add (k v : string) (q : Values) : Values := <[k := (default [] (q !! k) ++ [v])%list]> q.
Definition setQuery (u : URL) : URL :=
  mkURL (u_Path u) (Encode (Add "tenant-namespace" tenantNamespace (Query (u_RawQuery u)))) (u_Fragment u) (u_rest u).

(** Counting a request in debug mode. *)
Definition nextRequestID : prog lop unit :=
  if debug then
    call Lock ;;! let! id := call GetRequestID in call (SetRequestID (id + 1)%Z) ;;! call Unlock
  else Ret tt.
Definition copyResponse (resp : Response) : prog lop unit :=
  cpHeader (rmHopByHopHeaders (resp_Header resp)) ;;!
  call (WriteHeader (StatusCode resp)) ;;!
  let! err := call (Copy (resp_Body resp)) in
  match err with
  | Some _ =>
      let! _ := call (Write "CRITICAL ERROR: PROXY: COPYING RESPONSE BODY FAILED: SEE PROXY LOGS FOR MORE DETAILS") in Ret tt
  | None => Ret tt
  end.
Definition forward (r : Request) : prog lop unit :=
  let! r := reroute (mkRequest (r_Method r) (r_URL r) (rmHopByHopHeaders (r_Header r)) (r_Host r) "" (r_Body r)) in
  let! resp := call (Do (mkRequest (r_Method r) (setQuery (r_URL r)) (r_Header r) remoteHost (r_RequestURI r) (r_Body r))) in
  match resp with
  | Err _ => call (Error "error: proxy: check proxy logs for details" StatusBadGateway)
  | Ok resp =>
      let! b := (if debug then debugLogBody (resp_Body resp) else Ret (resp_Body resp)) in
      defer (call (Close b)) (copyResponse (mkResponse (StatusCode resp) (resp_Header resp) b))
  end.
Definition ServeHTTP (r : Request) : prog lop unit :=
  nextRequestID ;;!
  let! b := (if debug then debugLogBody (r_Body r) else Ret (r_Body r)) in
  defer (call (Close b)) (forward (mkRequest (r_Method r) (r_URL r) (r_Header r) (r_Host r) (r_RequestURI r) b)).
End proxy.

Definition fatal {A} (msg : string) : prog lop A := Panic ("log.Fatal: " ++ msg).
Definition init : prog lop bool :=
  let! d := call (Getenv "ENABLE_DEBUG") in
  Ret (bool_decide (d = "1") || bool_decide (ToLower d = "true")).
Definition initClient : prog lop unit :=
  let! err := call (DefaultClient oauth2Scope) in
  match err with Some err => fatal ("fatal error: main: DefaultClient:" ++ error_text err) | None => Ret tt end.
(** The host and the namespace it serves, and its life. *)
Definition main : prog lop (string * string) :=
  let! remoteHost := call (Getenv "FLUENTD_HOST") in
  let! listeningAddr := call (Getenv "LISTENING_ADDR") in
  let! tenantNamespace := call (Getenv "TENANT_NAMESPACE") in
  if bool_decide (remoteHost = "") then fatal "Environment variable FLUENTD_HOST is not set"
  else if bool_decide (listeningAddr = "") then fatal "Environment variable LISTENING_ADDR is not set"
  else
    let tenantNamespace := if bool_decide (tenantNamespace = "") then "default" else tenantNamespace in
    initClient ;;!
    let! err := call (ListenAndServe listeningAddr) in
    match err with
    | Some err => fatal ("fatal error: main: ListenAndServe:" ++ error_text err)
    | None => Ret (remoteHost, tenantNamespace)
    end.
End Model.
Import Model.

(** ** What is forwarded *)

Lemma exec_defer_close {A} b (p : prog lop A) t out :
  exec (defer (call (Close b)) p) t out ↔ ∃ t1, exec p t1 out ∧ t = (t1 ++ [Close b ▷ tt])%list.
Proof.
  revert t. induction p as [a|o k IH|m]; intros t; cbn.
  - split.
    + intros ([] & t' & -> & -> & ->). by exists [].
    + intros (t1 & [-> ->] & ->). by exists tt, [].
  - split.
    + intros (r & t' & -> & HE). apply IH in HE as (t1 & HE & ->). exists (existT o r :: t1). split; [by exists r, t1|done].
    + intros (t1 & (r & t' & -> & HE) & ->). exists r, (t' ++ [Close b ▷ tt])%list. split; [done|]. apply IH. by exists t'.
  - split.
    + intros ([] & t' & -> & -> & ->). by exists [].
    + intros (t1 & [-> ->] & ->). by exists tt, [].
Qed.

Definition end_to_end (h : Header) : Header := filter (λ kvs, kvs.1 ∉ hopByHopHeaders) h.
Lemma rmHopByHopHeaders_spec h : rmHopByHopHeaders h = end_to_end h.
Proof.
  unfold rmHopByHopHeaders, end_to_end.
  assert (∀ l h, fold_left (λ h k, Del k h) l h = filter (λ kvs, kvs.1 ∉ l) h) as ->; [|done].
  intros l. induction l as [|k l IH]; intros h0; cbn.
  - induction h0 as [|x h0 IHh]; [done|]. rewrite filter_cons_True by apply not_elem_of_nil. by rewrite <-IHh.
  - rewrite IH. unfold Del. rewrite list_filter_filter. apply list_filter_iff. intros x. rewrite not_elem_of_cons. naive_solver.
Qed.
(** The header lines the client of the proxy gets. *)
Definition header_lines (h : Header) : list (event lop) :=
  flat_map (λ kvs : string * list string, (λ v, HeaderAdd kvs.1 v ▷ tt) <$> kvs.2) h.
Lemma exec_cpHeader h t out : exec (cpHeader h) t out ↔ t = header_lines h ∧ out = Done tt.
Proof.
  assert (∀ k vs t out, exec (loop (λ v _, call (HeaderAdd k v)) vs tt) t out ↔
    t = ((λ v, HeaderAdd k v ▷ tt) <$> vs) ∧ out = Done tt) as Hvs.
  { intros k vs. induction vs as [|v vs IH]; intros t0 out0; cbn; [done|]. split.
    - intros ([] & t' & -> & HE). apply IH in HE as [-> ->]. done.
    - intros [-> ->]. eexists tt, _. split; [done|]. by apply IH. }
  unfold cpHeader. revert t. induction h as [|[k vs] h IH]; intros t; cbn [loop]; [done|]. rewrite exec_bind. cbn [fst snd]. split.
  - intros [(m & HE & _)|(t1 & t2 & [] & -> & HE1 & HE2)]; [by apply Hvs in HE as [_ ?]|].
    apply Hvs in HE1 as [-> _]. apply IH in HE2 as [-> ->]. done.
  - intros [-> ->]. right. eexists _, _, tt. split; [reflexivity|]. split; [by apply Hvs|]. by apply IH.
Qed.

Section forward.
Context (url_Parse : string → result URL) (Query : string → Values) (Encode : Values → string).
Context (remoteHost tenantNamespace : string).

Definition forwarded (r : Request) (u : URL) : Request :=
  mkRequest (r_Method r) (setQuery Query Encode tenantNamespace u) (end_to_end (r_Header r)) remoteHost "" (r_Body r).
(** What follows the server's answer. *)
Definition answered (ans : result Response) (t : list (event lop)) : Prop :=
  match ans with
  | Err _ => t = [Error "error: proxy: check proxy logs for details" 502 ▷ tt]
  | Ok resp => ∃ err tw,
      t = (header_lines (end_to_end (resp_Header resp)) ++
           (WriteHeader (StatusCode resp) ▷ tt) :: (Copy (resp_Body resp) ▷ err) :: tw ++ [Close (resp_Body resp) ▷ tt])%list ∧
      match err with
      | None => tw = []
      | Some _ => ∃ e, tw = [Write "CRITICAL ERROR: PROXY: COPYING RESPONSE BODY FAILED: SEE PROXY LOGS FOR MORE DETAILS" ▷ e]
      end
  end.

(** The proxy forwards every request once, or panics.  Outside debug mode:
    if the decoded path does not make a URL again, the handler panics before
    it sends anything; else exactly one request goes to the remote host, with
    the method, the body and the end-to-end headers of the client's; its
    answer's status, end-to-end headers and body are copied, or 502 is
    answered; the bodies are closed in the end. *)
Theorem proxy_forwards (r : Request) (t : list (event lop)) (out : outcome unit) :
  exec (ServeHTTP url_Parse Query Encode remoteHost tenantNamespace false r) t out ↔
  match url_Parse (target remoteHost (r_URL r)) with
  | Err _ => t = [Close (r_Body r) ▷ tt] ∧ out = Panicked "nil dereference"
  | Ok u => ∃ ans t', t = ((Do (forwarded r u) ▷ ans) :: t' ++ [Close (r_Body r) ▷ tt])%list ∧ out = Done tt ∧ answered ans t'
  end.
Proof.
  unfold ServeHTTP, nextRequestID. cbn [prog_bind]. rewrite exec_defer_close. unfold forward, reroute. cbn [r_URL].
  destruct (url_Parse (target remoteHost (r_URL r))) as [u|e]; cbn [prog_bind]; [|cbn; naive_solver].
  cbn [r_Method r_URL r_Header r_Body r_RequestURI]. rewrite rmHopByHopHeaders_spec. fold (forwarded r u).
  assert (∀ ans t, exec (match ans with
      | Err _ => call (Error "error: proxy: check proxy logs for details" StatusBadGateway)
      | Ok resp => defer (call (Close (resp_Body resp))) (copyResponse (mkResponse (StatusCode resp) (resp_Header resp) (resp_Body resp)))
      end) t out ↔ out = Done tt ∧ answered ans t) as Hans.
  { intros [resp|err] t0; cbn [answered]; [|cbn; split; [by intros ([] & ? & -> & -> & ->)|intros [-> ->]; by exists tt, []]].
    rewrite exec_defer_close. unfold copyResponse. cbn [resp_Header StatusCode resp_Body]. rewrite rmHopByHopHeaders_spec.
    setoid_rewrite exec_bind. setoid_rewrite exec_cpHeader. cbn [exec prog_bind call]. split.
    - intros (t1 & [(m & [_ ?] & _)|(ta & tb & [] & -> & [-> _] & ([] & t2 & -> & err & t3 & -> & HE))] & ->); [done|].
      destruct err as [err|]; cbn in HE.
      + destruct HE as (e & t4 & -> & -> & ->). split; [done|]. eexists (Some err), _. split; [by rewrite <-(assoc_L (++))|]. by eexists.
      + destruct HE as [-> ->]. split; [done|]. exists None, []. by rewrite <-(assoc_L (++)).
    - intros [-> (err & tw & -> & Htw)]. exists (header_lines (end_to_end (resp_Header resp)) ++ (WriteHeader (StatusCode resp) ▷ tt) :: (Copy (resp_Body resp) ▷ err) :: tw)%list.
      split; [|by rewrite <-!(assoc_L (++))].
      right. eexists _, _, tt. split; [reflexivity|]. split; [done|]. eexists tt, _. split; [reflexivity|].
      eexists err, tw. split; [reflexivity|]. destruct err; [destruct Htw as [e' ->]; by exists e', []|by subst]. }
  cbn [exec prog_bind call]. split.
  - intros (t1 & (ans & t2 & -> & HE) & ->). apply Hans in HE as [-> Ha]. by exists ans, t2.
  - intros (ans & t' & -> & -> & Ha). eexists (_ :: t'). split; [|done]. exists ans, t'. split; [done|]. by apply Hans.
Qed.

(** Which tenant the remote host sees: the parameter is added to the client's
    own, so that the first one counts is the client's. *)
Lemma forwarded_tenant (r : Request) (u : URL) :
  (∀ q, Query (Encode q) = q) →
  Query (u_RawQuery (r_URL (forwarded r u))) !! "tenant-namespace" =
    Some (default [] (Query (u_RawQuery u) !! "tenant-namespace") ++ [tenantNamespace])%list ∧
  ∀ k, k ≠ "tenant-namespace" → Query (u_RawQuery (r_URL (forwarded r u))) !! k = Query (u_RawQuery u) !! k.
Proof.
  intros Hq. cbn. rewrite Hq. unfold Add. split; [by rewrite lookup_insert_eq|]. intros k Hk. by rewrite lookup_insert_ne.
Qed.
End forward.

(** In debug mode an error of reading a body is lost: the part that was read
    is passed on as the whole. *)
Example debug_truncates r u err :
  let t := [Lock ▷ tt; GetRequestID ▷ 0%Z; SetRequestID 1 ▷ tt; Unlock ▷ tt;
            ReadAll RequestBody ▷ ("half", Some err); Close RequestBody ▷ tt] in
  r_Body r = RequestBody →
  ∃ t' rq, r_Body rq = Buffer "half" ∧
    exec (ServeHTTP (λ _, Ok u) (λ _, ∅) (λ _, "") "h" "t" true r)
      (t ++ (Do rq ▷ Err (EText "refused")) :: t')%list (Done tt).
Proof.
  intros t Hb. exists [Error "error: proxy: check proxy logs for details" 502 ▷ tt; Close (Buffer "half") ▷ tt],
    (mkRequest (r_Method r) (setQuery (λ _, ∅) (λ _, "") "t" u) (rmHopByHopHeaders (r_Header r)) "h" "" (Buffer "half")).
  split; [done|]. unfold ServeHTTP, nextRequestID. cbn. rewrite Hb. repeat (eexists _, _; split; [reflexivity|]). done.
Qed.
