(* ===== verification/Base64.v ===== *)
(** * Go's [encoding/base64], the standard encoding

    [EncodeToString] and [DecodeString] of [base64.StdEncoding] on byte
    strings, and their round trip.  An error of the decoder is [None]: the
    position its message gives is not modelled. *)
From stdpp Require Import prelude strings list.
From Stdlib Require Import Ascii NArith ZArith Lia.
From S2P Require Import Prelude GoStr.

Open Scope string_scope.

Definition alphabet : string := "ABCDEFGHIJKLMNOPQRSTUVWXYZabcdefghijklmnopqrstuvwxyz0123456789+/".
Definition encodeChar (n : N) : ascii := default "A"%char (String.get (N.to_nat n) alphabet).

(** The position of a character in the alphabet. *)
Fixpoint index_of (c : ascii) (s : string) : option nat :=
  match s with
  | EmptyString => None
  | String d s => if Ascii.eqb c d then Some 0 else S <$> index_of c s
  end.
Definition decodeChar (c : ascii) : option N := N.of_nat <$> index_of c alphabet.
Definition padChar : ascii := "="%char.

(** The four digits of three bytes. *)
Definition bytes3 (a b c : N) : N := (a * 65536 + b * 256 + c)%N.
Definition digits (a b c : N) : N * N * N * N :=
  let v := bytes3 a b c in
  (v / 262144, v / 4096 mod 64, v / 64 mod 64, v mod 64)%N.

Fixpoint EncodeToString (s : string) : string :=
  match s with
  | EmptyString => ""
  | String a EmptyString =>
      let '(w, x, _, _) := digits (N_of_ascii a) 0 0 in
      String (encodeChar w) (String (encodeChar x) (String padChar (String padChar "")))
  | String a (String b EmptyString) =>
      let '(w, x, y, _) := digits (N_of_ascii a) (N_of_ascii b) 0 in
      String (encodeChar w) (String (encodeChar x) (String (encodeChar y) (String padChar "")))
  | String a (String b (String c s)) =>
      let '(w, x, y, z) := digits (N_of_ascii a) (N_of_ascii b) (N_of_ascii c) in
      String (encodeChar w) (String (encodeChar x) (String (encodeChar y) (String (encodeChar z)
        (EncodeToString s))))
  end.

(** The decoder skips newlines anywhere; otherwise it takes quanta of four
    characters, of which only the last may be padded. *)
Definition is_newline (c : ascii) : bool := Ascii.eqb c "010"%char || Ascii.eqb c "013"%char.
Fixpoint strip (s : string) : string :=
  match s with
  | EmptyString => ""
  | String c s => if is_newline c then strip s else String c (strip s)
  end.
Definition byte (n : N) : ascii := ascii_of_N (n mod 256).
Definition quantum (w x y z : N) : N := (w * 262144 + x * 4096 + y * 64 + z)%N.

Fixpoint decode (s : string) : option string :=
  match s with
  | EmptyString => Some ""
  | String w (String x (String y (String z s))) =>
      match decodeChar w, decodeChar x with
      | Some w, Some x =>
          if Ascii.eqb y padChar then
            if Ascii.eqb z padChar && bool_decide (s = "") then Some (String (byte (quantum w x 0 0 / 65536)%N) "")
            else None
          else match decodeChar y with
               | Some y =>
                   if Ascii.eqb z padChar then
                     if bool_decide (s = "") then
                       let v := quantum w x y 0 in
                       Some (String (byte (v / 65536)%N) (String (byte (v / 256)%N) ""))
                     else None
                   else match decodeChar z with
                        | Some z =>
                            let v := quantum w x y z in
                            (λ r, String (byte (v / 65536)%N) (String (byte (v / 256)%N) (String (byte v) r))) <$> decode s
                        | None => None
                        end
               | None => None
               end
      | _, _ => None
      end
  | _ => None
  end.
Definition DecodeString (s : string) : option string := decode (strip s).

(** ** Facts *)

Lemma encodeChar_ok n : (n < 64)%N →
  decodeChar (encodeChar n) = Some n ∧ Ascii.eqb (encodeChar n) padChar = false ∧ is_newline (encodeChar n) = false.
Proof.
  intros Hn.
  assert (forallb (λ n, let n := N.of_nat n in
    match decodeChar (encodeChar n) with Some m => bool_decide (m = n) | None => false end
    && negb (Ascii.eqb (encodeChar n) padChar) && negb (is_newline (encodeChar n))) (seq 0 64) = true) as Hall
    by by vm_compute.
  rewrite forallb_forall in Hall. specialize (Hall (N.to_nat n)). rewrite in_seq in Hall.
  specialize (Hall ltac:(lia)). cbn zeta in Hall. rewrite N2Nat.id in Hall. apply andb_true_iff in Hall as [Hall Hnl].
  apply andb_true_iff in Hall as [Hd Hp]. apply negb_true_iff in Hp, Hnl.
  destruct (decodeChar (encodeChar n)) as [m|]; [|done]. apply bool_decide_eq_true in Hd as ->. done.
Qed.

Lemma digits_ok a b c : (a < 256 → b < 256 → c < 256 →
  let '(w, x, y, z) := digits a b c in
  (w < 64 ∧ x < 64 ∧ y < 64 ∧ z < 64) ∧ quantum w x y z = bytes3 a b c)%N.
Proof.
  intros Ha Hb Hc. unfold digits, quantum, bytes3. set (v := (a * 65536 + b * 256 + c)%N).
  assert (v < 16777216)%N by (unfold v; lia).
  pose proof (N.div_mod v 64 ltac:(done)). pose proof (N.div_mod (v / 64) 64 ltac:(done)).
  pose proof (N.div_mod (v / 4096) 64 ltac:(done)).
  assert (v / 64 / 64 = v / 4096)%N as E1 by by rewrite N.Div0.div_div.
  assert (v / 4096 / 64 = v / 262144)%N as E2 by by rewrite N.Div0.div_div.
  rewrite E1 in *. rewrite E2 in *.
  assert (v / 262144 < 64)%N by (apply N.Div0.div_lt_upper_bound; lia).
  pose proof (N.mod_upper_bound v 64 ltac:(done)). pose proof (N.mod_upper_bound (v / 64) 64 ltac:(done)).
  pose proof (N.mod_upper_bound (v / 4096) 64 ltac:(done)). lia.
Qed.

(** The digits that one or two bytes leave unused are zero. *)
Lemma digits_1 a : (a < 256)%N → let '(w, x, y, z) := digits a 0 0 in y = 0%N ∧ z = 0%N.
Proof.
  intros Ha. unfold digits, bytes3. rewrite !N.add_0_r. split.
  - replace (a * 65536 / 64)%N with (a * 16 * 64)%N; [by rewrite N.Div0.mod_mul|].
    apply (N.div_unique _ 64 _ 0); lia.
  - replace (a * 65536)%N with (a * 1024 * 64)%N by lia. by rewrite N.Div0.mod_mul.
Qed.
Lemma digits_2 a b : let '(w, x, y, z) := digits a b 0 in z = 0%N.
Proof.
  unfold digits, bytes3. rewrite !N.add_0_r.
  replace (a * 65536 + b * 256)%N with ((a * 1024 + b * 4) * 64)%N by lia. by rewrite N.Div0.mod_mul.
Qed.

Lemma bytes_back a b c : let n := bytes3 (N_of_ascii a) (N_of_ascii b) (N_of_ascii c) in
  byte (n / 65536) = a ∧ byte (n / 256) = b ∧ byte n = c.
Proof.
  intros n. pose proof (N_ascii_bounded a) as Ha. pose proof (N_ascii_bounded b) as Hb.
  pose proof (N_ascii_bounded c) as Hc. unfold n, bytes3.
  set (a' := N_of_ascii a) in *. set (b' := N_of_ascii b) in *. set (c' := N_of_ascii c) in *.
  set (v := (a' * 65536 + b' * 256 + c')%N).
  assert (v / 256 = a' * 256 + b')%N as E by (symmetry; apply (N.div_unique v 256 _ c'); unfold v; lia).
  assert (v / 65536 = a')%N as E2 by (symmetry; apply (N.div_unique v 65536 _ (b' * 256 + c')); unfold v; lia).
  unfold byte. rewrite E, E2. split_and!.
  - rewrite N.mod_small by done. apply ascii_N_embedding.
  - rewrite <-(ascii_N_embedding b). f_equal. symmetry. apply (N.mod_unique _ 256 a'); lia.
  - rewrite <-(ascii_N_embedding c). f_equal. symmetry. apply (N.mod_unique _ 256 (a' * 256 + b')); unfold v; lia.
Qed.

(** Induction by three bytes. *)
Lemma string_ind3 (P : string → Prop) :
  P "" → (∀ a, P (String a "")) → (∀ a b, P (String a (String b ""))) →
  (∀ a b c s, P s → P (String a (String b (String c s)))) → ∀ s, P s.
Proof.
  intros H0 H1 H2 H3 s. assert (∀ (n : nat) s, (String.length s ≤ n)%nat → P s) as Hn; [|by eapply Hn].
  clear s. induction n as [|n IH]; intros [|a [|b [|c t]]] Hl; cbn [String.length] in Hl; try lia; auto.
  apply H3, IH. lia.
Qed.

(** What a padded or full quantum decodes to. *)
Ltac quantum_step a b c :=
  pose proof (digits_ok a b c) as Hd;
  repeat match type of Hd with (?P → _) => specialize (Hd ltac:(lia || apply N_ascii_bounded)) end;
  cbn [EncodeToString]; destruct (digits a b c) as [[[w x] y] z] eqn:Ed;
  destruct Hd as [(Hw & Hx & Hy & Hz) Hq];
  destruct (encodeChar_ok w Hw) as (Dw & Pw & Nw), (encodeChar_ok x Hx) as (Dx & Px & Nx),
    (encodeChar_ok y Hy) as (Dy & Py & Ny), (encodeChar_ok z Hz) as (Dz & Pz & Nz).

Lemma EncodeToString_strip s : strip (EncodeToString s) = EncodeToString s.
Proof.
  induction s as [|a|a b|a b c s IH] using string_ind3; [done|..].
  - quantum_step (N_of_ascii a) 0%N 0%N. cbn [strip]. by rewrite Nw, Nx.
  - quantum_step (N_of_ascii a) (N_of_ascii b) 0%N. cbn [strip]. by rewrite Nw, Nx, Ny.
  - quantum_step (N_of_ascii a) (N_of_ascii b) (N_of_ascii c). cbn [strip]. by rewrite Nw, Nx, Ny, Nz, IH.
Qed.

Lemma decode_encode s : decode (EncodeToString s) = Some s.
Proof.
  induction s as [|a|a b|a b c s IH] using string_ind3; [done|..].
  - quantum_step (N_of_ascii a) 0%N 0%N. cbn [decode]. rewrite Dw, Dx. cbn [andb Ascii.eqb].
    pose proof (digits_1 _ (N_ascii_bounded a)) as H1. rewrite Ed in H1. destruct H1 as [-> ->].
    destruct (bytes_back a "000"%char "000"%char) as (Ba & _ & _).
    change (N_of_ascii "000"%char) with 0%N in *. change (Ascii.eqb padChar padChar) with true.
    cbn [andb]. rewrite bool_decide_eq_true_2 by done. by rewrite Hq, Ba.
  - quantum_step (N_of_ascii a) (N_of_ascii b) 0%N. cbn [decode]. rewrite Dw, Dx, Py, Dy.
    pose proof (digits_2 (N_of_ascii a) (N_of_ascii b)) as H2. rewrite Ed in H2. subst z.
    destruct (bytes_back a b "000"%char) as (Ba & Bb & _).
    change (N_of_ascii "000"%char) with 0%N in *. cbn zeta. rewrite Hq, Ba, Bb. done.
  - quantum_step (N_of_ascii a) (N_of_ascii b) (N_of_ascii c). cbn [decode]. rewrite Dw, Dx, Py, Dy, Pz, Dz, IH.
    destruct (bytes_back a b c) as (Ba & Bb & Bc). cbn zeta. by rewrite Hq, Ba, Bb, Bc.
Qed.

(** [DecodeString] undoes [EncodeToString]. *)
Lemma DecodeString_EncodeToString s : DecodeString (EncodeToString s) = Some s.
Proof. unfold DecodeString. rewrite EncodeToString_strip. apply decode_encode. Qed.
Lemma EncodeToString_empty s : EncodeToString s = "" ↔ s = "".
Proof.
  split; [|by intros ->]. intros H. pose proof (DecodeString_EncodeToString s) as Hd. rewrite H in Hd.
  cbn in Hd. congruence.
Qed.

Example encode_example : EncodeToString "Many hands" = "TWFueSBoYW5kcw==".
Proof. reflexivity. Qed.
Example decode_example : DecodeString "TWFueSBoYW5kcw" = None.
Proof. reflexivity. Qed.
