(* ===== verification/SynkCmd.v ===== *)
(** * The [synk] command (src/go/cmd/synk)

    [Model] is synk.go: the three subcommands, each a client of the package
    modelled in [Synk].  The package's calls are made by [interp callee]: all
    of them go to the cluster, except that its log function is [logAction]. *)
From stdpp Require Import prelude strings list gmap.
From Stdlib Require Import Ascii ZArith.
From S2P Require Import Prelude GoStr GoErr Kube Synk.
Import Synk.Model.

Open Scope string_scope.
Open Scope prog_scope.

Module Model.

(** ** Calls *)

(** What cobra's [Execute] finds on the command line: a subcommand with its
    positional arguments, and [--retries] where it is given. *)
Inductive invocation :=
| ShowUsage
| CmdInit (args : list string)
| CmdApply (retries : option nat) (args : list string)
| CmdDelete (args : list string).

(** The object of a [resource.Info]: an [*unstructured.Unstructured], or a
    value of another type. *)
Inductive object := Obj (u : Unstructured) | OtherType.

Inductive cop : Type :=
| Sy (o : sop)                (* the package's own calls *)
| Execute                     (* cmdRoot.Execute, up to the Run function *)
| RawNamespace                (* restOpts.ToRawKubeConfigLoader().Namespace() *)
| ResultErr                   (* resource.NewBuilder(...).Do().Err() *)
| ResultInfos                 (* ....Infos() *)
| ToRESTConfig
| ToDiscoveryClient
| NewForConfig                (* dynamic.NewForConfig *)
| Stderr (text : string).
#[export] Instance cop_effect : Effect cop := λ o,
  match o with
  | Sy o => resp o
  | Execute => result invocation
  | RawNamespace => result (string * bool)
  | ResultErr => option error
  | ResultInfos => result (list object)
  | ToRESTConfig | ToDiscoveryClient | NewForConfig => option error
  | Stderr _ => unit
  end.

(** How a process ends; [Running]: not within the model's fuel. *)
Inductive exit := Exit (code : Z) | Running.

Definition newline : string := String "010"%char "".
Definition println (s : string) : prog cop unit := call (Stderr (s ++ newline)).

(** ** Logging *)

Definition action_text (a : ResourceAction) : string :=
  match a with
  | ActionNone => "None" | ActionCreate => "Create"
  | ActionUpdate => "Update" | ActionReplace => "Replace"
  end.
Definition StatusSuccess := "success".
Definition StatusFailure := "failure".

Definition logAction (r : Unstructured) (action : ResourceAction) (status msg : string) : prog cop unit :=
  let head := "[" ++ ToUpper status ++ "] " ++ action_text action ++ " " ++ u_APIVersion r ++ "/"
              ++ u_Kind r ++ " " ++ u_Namespace r ++ "/" ++ u_Name r in
  if bool_decide (status = StatusSuccess) then call (Stderr (head ++ newline))
  else call (Stderr (head ++ ": " ++ msg ++ newline)).

(** The package's calls, made by this program. *)
Definition callee (o : sop) : prog cop (resp o) :=
  match o return prog cop (resp o) with
  | Log u a ok msg => logAction u a (if ok then StatusSuccess else StatusFailure) msg
  | o => call (Sy o)
  end.
Definition synk {A : Type} (p : prog sop A) : prog cop A := interp callee p.

(** ** Clients *)

Definition newSynk : prog cop (option error) :=
  let! c := call ToRESTConfig in
  match c with
  | Some err => Ret (Some (EWrap "get config" err))
  | None =>
  let! d := call ToDiscoveryClient in
  match d with
  | Some err => Ret (Some (EWrap "get discovery client" err))
  | None =>
  let! n := call NewForConfig in
  match n with
  | Some err => Ret (Some (EWrap "create dynamic client" err))
  | None => synk (call Invalidate) ;;! Ret None
  end end end.

(** ** [backoff.Retry] with [backoff.WithMaxRetries]

    [numTries] counts as [backOffTries.NextBackOff] does: a maximum of 0 never
    stops.  [None] is a loop that runs on when the fuel ends. *)
Fixpoint RetryTries {S : Type} (fuel maxTries numTries : nat)
    (op : S → prog cop (option error * S)) (s : S) : prog cop (option (option error)) :=
  match fuel with
  | O => Ret None
  | Datatypes.S fuel =>
      let! ' (r, s) := op s in
      match r with
      | None => Ret (Some None)
      | Some (EPermanent e) => Ret (Some e)
      | Some e =>
          if (0 <? maxTries)%nat then
            if (maxTries <=? numTries)%nat then Ret (Some (Some e))
            else RetryTries fuel maxTries (Datatypes.S numTries) op s
          else RetryTries fuel maxTries numTries op s
      end
  end.

(** ** The subcommands *)

Definition defaultRetries : nat := 60.

(** The function given to [backoff.Retry]: [opts] is a pointer, and [Apply]
    writes the name into it.  The version it writes there as well is not kept:
    the next [Apply] overwrites it before anything reads it ([Apply_version]).
    [Apply] copies the resources, so that each attempt starts from the same
    ones. *)
Definition attempt (L : Libs) (name : string) (resources : list Unstructured) (opts : ApplyOptions)
    : prog cop (option error * ApplyOptions) :=
  let! ' (_, e) := synk (Apply L name (Some opts) resources) in
  let opts := setName name opts in
  match e with
  | Some err => if IsTransientErr err then Ret (Some err, opts)
                else Ret (Some (EPermanent (Some err)), opts)
  | None => Ret (None, opts)
  end.

(** [i.Object.(\*unstructured.Unstructured)] for each info. *)
Fixpoint objects (infos : list object) : option (list Unstructured) :=
  match infos with
  | [] => Some []
  | Obj u :: infos => (u ::.) <$> objects infos
  | OtherType :: _ => None
  end.
Definition conversionPanic : string := "interface conversion: interface is not *unstructured.Unstructured".

Definition apply (L : Libs) (fuel retries : nat) (name : string) : prog cop (option (option error)) :=
  let! n := call RawNamespace in
  match n with
  | Err err => Ret (Some (Some err))
  | Ok (namespace, enforceNamespace) =>
  let! e := call ResultErr in
  match e with
  | Some err => Ret (Some (Some (EWrap "get files" err)))
  | None =>
  let! i := call ResultInfos in
  match i with
  | Err err => Ret (Some (Some (EWrap "get file information" err)))
  | Ok infos =>
  match objects infos with
  | None => Panic conversionPanic
  | Some resources =>
  let! s := newSynk in
  match s with
  | Some err => Ret (Some (Some err))
  | None =>
      let opts := mkApplyOptions "" 0 namespace enforceNamespace true in
      let! r := RetryTries fuel retries 0 (attempt L name resources) opts in
      Ret (match r with
           | None => None
           | Some None => Some None
           | Some (Some err) => Some (Some (EWrap "apply files" err))
           end)
  end end end end end.

Definition fatal (err : error) : prog cop exit := println (error_text err) ;;! Ret (Exit 1).
Definition wrongArgs : prog cop exit :=
  println "unrecognized number of arguments, exactly one (name) expected" ;;! Ret (Exit 2).

Definition runInit (L : Libs) (args : list string) : prog cop exit :=
  let! s := newSynk in
  match s with
  | Some err => fatal err
  | None =>
      let! e := synk (Init L) in
      match e with
      | Some err => fatal err
      | None => println "Initialized successfully" ;;! Ret (Exit 0)
      end
  end.

Definition runDelete (args : list string) : prog cop exit :=
  match args with
  | [name] =>
      let! s := newSynk in
      match s with
      | Some err => fatal err
      | None =>
          let! e := synk (DeleteSet name) in
          match e with
          | Some err => fatal err
          | None => println "Deleted successfully" ;;! Ret (Exit 0)
          end
      end
  | _ => wrongArgs
  end.

Definition runApply (L : Libs) (fuel retries : nat) (args : list string) : prog cop exit :=
  match args with
  | [name] =>
      let! r := apply L fuel retries name in
      match r with
      | None => Ret Running
      | Some (Some err) => fatal err
      | Some None => Ret (Exit 0)
      end
  | _ => wrongArgs
  end.

Definition main (L : Libs) (fuel : nat) : prog cop exit :=
  let! c := call Execute in
  match c with
  | Err err => fatal err
  | Ok ShowUsage => Ret (Exit 0)
  | Ok (CmdInit args) => runInit L args
  | Ok (CmdApply retries args) => runApply L fuel (default defaultRetries retries) args
  | Ok (CmdDelete args) => runDelete args
  end.

End Model.

(** * Properties *)
Import Model.

(** ** The package inside the command *)

(** The event the command makes of an event of the package. *)
Definition lower (e : event sop) : event cop :=
  match e with
  | existT o r =>
      match o return resp o → event cop with
      | Log u a ok msg => λ _,
          let status := if ok then StatusSuccess else StatusFailure in
          let head := "[" ++ ToUpper status ++ "] " ++ action_text a ++ " " ++ u_APIVersion u ++ "/"
                      ++ u_Kind u ++ " " ++ u_Namespace u ++ "/" ++ u_Name u in
          existT (Stderr (if ok then head ++ newline else head ++ ": " ++ msg ++ newline)) tt
      | o => λ r, existT (Sy o) r
      end r
  end.
Lemma callee_exec o t out : exec (callee o) t out → ∃ r, t = [lower (existT o r)] ∧ out = Done r.
Proof.
  destruct o; cbn; try (intros (x & t' & -> & -> & ->); by exists x).
  unfold logAction. destruct ok; cbn; intros ([] & t' & -> & -> & ->); by exists tt.
Qed.
Lemma callee_lower o r : exec (callee o) [lower (existT o r)] (Done r).
Proof.
  destruct o; cbn; try (by exists r, []).
  unfold logAction. destruct r, ok; cbn; by exists tt, [].
Qed.
(** Runs of the package in the command are the package's runs. *)
Lemma synk_exec {A} (p : prog sop A) t out :
  exec (synk p) t out ↔ ∃ t', t = map lower t' ∧ exec p t' out.
Proof.
  split.
  - apply exec_interp, callee_exec.
  - intros (t' & -> & HE). apply interp_exec; [apply callee_lower|done].
Qed.

(** The version in the options is overwritten before it is read. *)
Lemma Apply_version L name v opts resources :
  Apply L name (Some (setVersion v opts)) resources = Apply L name (Some opts) resources.
Proof. done. Qed.

(** No error of [Apply] is a [*backoff.PermanentError]. *)
Definition plain (e : option error) : Prop :=
  match e with Some (EPermanent _) => False | _ => True end.
Definition plain_err {A} (r : result A) : Prop :=
  match r with Err e => plain (Some e) | Ok _ => True end.
Abbreviation returns p Φ := (wp any_answer any_call any_panic p Φ).

Lemma wp_true {A} (p : prog sop A) : returns p (λ _, True).
Proof. by induction p as [a|o k IH|m]; cbn. Qed.

Lemma deleteResourceSets_plain name version : returns (deleteResourceSets name version) plain.
Proof.
  unfold deleteResourceSets. cbn [wp prog_bind call]. split; [done|]. intros [items|e] _; [|done].
  apply wp_bind, wp_mono with (λ r, match r with inl e => plain (Some e) | _ => True end); [by intros []|].
  apply (wp_for_each _ _ _ _ _ (λ _, True)); [|done..].
  intros u [] _ _. unfold deleteResourceSets_body.
  destruct (decodeResourceSetName _) as [[[n v]|]|]; [|done..].
  case_match; [done|]. cbn. split; [done|]. by intros [e|] _.
Qed.
Lemma initialize_plain L opts resources : returns (initialize L opts resources) plain_err.
Proof.
  unfold initialize, populateNamespaces, next. cbn [wp prog_bind call]. split; [done|].
  intros [l|e] _; [|done]. destruct (crdsNamespaced _ _ _); [|done]. cbn [wp prog_bind].
  destruct (if o_EnforceNamespace opts then _ else _); [done|]. cbn [wp prog_bind call]. split; [done|].
  intros [items|e] _; [|done]. destruct (maxVersion _ _ _); [|done]. cbn [wp prog_bind call].
  split; [done|]. intros now _. split; [done|]. by intros [rs|e] _.
Qed.
Lemma applyError_plain store l : plain (applyError store l).
Proof. unfold applyError. destruct (failures l) as [|[f e] fs]; [done|]. by case_match. Qed.
Lemma applyAll_plain L rs opts store : returns (applyAll L rs opts store) (λ r, plain r.1.2).
Proof.
  unfold applyAll. destruct (separateCRDsFromResources 0 store) as [crds regulars].
  apply wp_bind. eapply wp_mono; [|apply wp_true]. intros [store1 res1] _.
  apply wp_bind. eapply wp_mono; [|apply wp_true]. intros [[e|] []] _; [done|].
  cbn [wp prog_bind call]. split; [done|]. intros _ _.
  apply wp_bind. eapply wp_mono; [|apply wp_true]. intros [store2 res2] _.
  cbn [wp prog_bind call]. split; [done|]. intros order _. apply applyError_plain.
Qed.
Lemma Apply_plain L name opts resources : returns (Apply L name opts resources) (λ r, plain r.2).
Proof.
  unfold Apply. apply wp_bind. eapply wp_mono; [|apply initialize_plain].
  intros [[[rs prepared] opts1]|e] He; [|done].
  apply wp_bind. eapply wp_mono; [|apply applyAll_plain]. intros [[res e] store] Hp.
  unfold updateResourceSetStatus. cbn [wp prog_bind call]. split; [done|]. intros order _.
  split; [done|]. intros now _. split; [done|]. intros [rs1|e1] _; [|done].
  destruct e as [e|]; [done|]. cbn [wp prog_bind]. apply wp_bind.
  eapply wp_mono; [|apply deleteResourceSets_plain]. done.
Qed.

(** ** The attempts

    [attempts n t r]: what applying a set of resources with [n] retries left
    means, in terms of the package: runs of [Apply] on the same resources, each
    but the last ended by a transient error.  The last one succeeded, or ended
    in an error that is not transient, or left no retry.  [t] has the package's
    calls, [r] is the result. *)
Inductive attempts (L : Libs) (name : string) (opts : ApplyOptions) (resources : list Unstructured)
    : nat → list (event sop) → option error → Prop :=
| attempts_ok n t rs :
    exec (Apply L name (Some opts) resources) t (Done (rs, None)) →
    attempts L name opts resources n t None
| attempts_permanent n t rs e :
    exec (Apply L name (Some opts) resources) t (Done (rs, Some e)) → IsTransientErr e = false →
    attempts L name opts resources n t (Some e)
| attempts_exhausted t rs e :
    exec (Apply L name (Some opts) resources) t (Done (rs, Some e)) → IsTransientErr e = true →
    attempts L name opts resources 0 t (Some e)
| attempts_again n t1 rs e t2 r :
    exec (Apply L name (Some opts) resources) t1 (Done (rs, Some e)) → IsTransientErr e = true →
    attempts L name opts resources n t2 r →
    attempts L name opts resources (S n) (t1 ++ t2)%list r.

Lemma Apply_setName L name n opts resources :
  Apply L name (Some (setName n opts)) resources = Apply L name (Some opts) resources.
Proof. done. Qed.

Lemma attempt_exec L name resources opts t e opts' :
  exec (attempt L name resources opts) t (Done (e, opts')) →
  opts' = setName name opts ∧ ∃ t' rs e0, t = map lower t' ∧
    exec (Apply L name (Some opts) resources) t' (Done (rs, e0)) ∧ plain e0 ∧
    e = match e0 with
        | Some err => Some (if IsTransientErr err then err else EPermanent (Some err))
        | None => None
        end.
Proof.
  unfold attempt. intros HE. apply exec_bind in HE as [(m & _ & ?)|(t1 & t2 & [rs e0] & -> & HE1 & HE2)]; [done|].
  apply synk_exec in HE1 as (t' & -> & HE1).
  assert (plain e0) as Hp by by apply (wp_exec_any _ _ _ _ _ _ (Apply_plain L name (Some opts) resources)) in HE1 as [_ ?].
  assert (t2 = [] ∧ opts' = setName name opts ∧ e = match e0 with
        | Some err => Some (if IsTransientErr err then err else EPermanent (Some err))
        | None => None
        end) as (-> & -> & ->).
  { destruct e0 as [err|]; [destruct (IsTransientErr err)|]; destruct HE2 as [-> [= -> ->]]; done. }
  split; [done|]. exists t', rs, e0. by rewrite app_nil_r.
Qed.

(** [setName] again and again is [setName] once. *)
Lemma RetryTries_attempts L name resources fuel maxTries numTries opts t r :
  (0 < maxTries)%nat → (numTries ≤ maxTries)%nat → (maxTries - numTries < fuel)%nat →
  exec (RetryTries fuel maxTries numTries (attempt L name resources) opts) t (Done r) →
  ∃ t' r', t = map lower t' ∧ r = Some r' ∧ attempts L name opts resources (maxTries - numTries) t' r'.
Proof.
  intros Hmax. revert numTries opts t. induction fuel as [|fuel IH]; intros numTries opts t Hn Hf HE; [lia|].
  cbn [RetryTries] in HE.
  apply exec_bind in HE as [(m & _ & ?)|(t1 & t2 & [e opts1] & -> & HE1 & HE2)]; [done|].
  apply attempt_exec in HE1 as (-> & t1' & rs & e0 & -> & HA & Hp & ->).
  destruct e0 as [err|].
  2: { destruct HE2 as [-> [= ->]]. exists t1', None. rewrite app_nil_r. split_and!; [done..|]. by eapply attempts_ok. }
  destruct (IsTransientErr err) eqn:Htr.
  2: { destruct HE2 as [-> [= ->]]. exists t1', (Some err). rewrite app_nil_r. split_and!; [done..|].
       by eapply attempts_permanent. }
  assert (exec (if (maxTries <=? numTries)%nat then Ret (Some (Some err))
     else RetryTries fuel maxTries (S numTries) (attempt L name resources) (setName name opts)) t2 (Done r)) as HE.
  { apply Nat.ltb_lt in Hmax. rewrite Hmax in HE2. destruct err; done. }
  clear HE2. destruct (Nat.leb_spec maxTries numTries).
  - destruct HE as [-> [= ->]]. exists t1', (Some err). rewrite app_nil_r. split_and!; [done..|].
    replace (maxTries - numTries)%nat with 0%nat by lia. by eapply attempts_exhausted.
  - apply IH in HE as (t2' & r' & -> & -> & Hatt); [|lia..].
    exists (t1' ++ t2')%list, r'. rewrite map_app. split_and!; [done..|].
    replace (maxTries - numTries)%nat with (S (maxTries - S numTries)) by lia.
    eapply attempts_again; [exact HA|done|]. revert Hatt. clear. intros Hatt.
    induction Hatt; [eapply attempts_ok|eapply attempts_permanent|eapply attempts_exhausted|eapply attempts_again]; eauto.
Qed.

Lemma attempts_prune L name opts resources n t r pre m a post :
  attempts L name opts resources n t r →
  t = (pre ++ existT (DeleteResourceSet m) a :: post)%list → prune_guard name pre (DeleteResourceSet m).
Proof.
  assert (∀ t out pre post, exec (Apply L name (Some opts) resources) t out →
    t = (pre ++ existT (DeleteResourceSet m) a :: post)%list → prune_guard name pre (DeleteResourceSet m)) as Hone.
  { intros t' out pre' post' HE Ht. assert (answers any_answer t') as HA by (clear HE Ht; by induction t').
    destruct (hwp_exec _ _ _ _ _ _ _ _ (Apply_guard L name (Some opts) resources) HE HA) as [HG _].
    by apply (HG pre' (existT (DeleteResourceSet m) a) post'). }
  intros Hatt. revert pre post.
  induction Hatt as [n t rs HE|n t rs e HE|t rs e HE|n t1 rs e t2 r HE Htr Hatt IH]; intros pre post Ht;
    [by eapply Hone..|].
  apply app_eq_app in Ht as (k & [[-> Ht]|[-> Ht]]).
  - destruct k as [|ev k].
    + rewrite app_nil_r in *. rewrite <-(app_nil_r pre). by apply prune_guard_app, (IH [] post).
    + injection Ht as <- _. by eapply (Hone (pre ++ _ :: k)%list).
  - by apply prune_guard_app, (IH k post).
Qed.

(** One attempt creates at most one ResourceSet. *)
Definition is_create (o : sop) : nat := match o with CreateResourceSet _ => 1 | _ => 0 end.

Lemma applyOne_creates L r set : cost_le is_create (applyOne L r set) 0.
Proof.
  assert (∀ u, cost_le is_create (u : prog sop applied) 0 → cost_le is_create u 0) by done.
  unfold applyOne, applyOne_update, applyOne_replace, replace.
  repeat (cbn [cost_le prog_bind call];
    first [ match goal with
            | |- cost_le _ (match ?x with _ => _ end) _ => destruct x eqn:?
            | |- cost_le _ (let '_ := ?x in _) _ => destruct x eqn:?
            | |- cost_le _ (prog_bind _ _) 0 => apply (cost_le_bind _ _ _ 0 0); [|intros ?]
            end
          | split; [cbn; lia|intros ?; cbn [is_create Nat.sub]]
          | done ]).
Qed.
Lemma Apply_creates L name opts resources : cost_le is_create (Apply L name opts resources) 1.
Proof.
  unfold Apply. apply (cost_le_mono _ _ (1 + (0 + (0 + 0)))); [lia|]. apply cost_le_bind.
  { unfold initialize, populateNamespaces, next. cbn. split; [lia|]. intros [l|e]; [|done].
    destruct (crdsNamespaced _ _ _); [|done]. cbn.
    destruct (if o_EnforceNamespace _ then _ else _); [done|]. cbn. split; [lia|].
    intros [items|e]; [|done]. destruct (maxVersion _ _ _); [|done]. cbn.
    split; [lia|]. intros now. split; [lia|]. by intros [|]. }
  intros [[[rs prepared] opts1]|e]; [|done]. apply cost_le_bind.
  { pose proof (applyAll_cost L rs opts1 prepared is_create 0) as Hc.
    destruct (separateCRDsFromResources 0 prepared) as [crds regulars].
    eapply cost_le_mono; [|apply Hc; intros; done || apply applyOne_creates]. cbn. lia. }
  intros [[res e] store]. apply cost_le_bind.
  { cbn. split; [lia|]. intros order. split; [lia|]. intros now. split; [lia|]. by intros [|]. }
  intros [[e1|] rs1]; [done|]. destruct e as [e|]; [done|]. apply (cost_le_mono _ _ (0 + 0)); [lia|].
  apply cost_le_bind; [|done]. unfold deleteResourceSets. cbn. split; [lia|]. intros [items|e]; [|done].
  apply (cost_le_mono _ _ (length items * 0 + 0)); [lia|]. apply cost_le_bind; [|by intros [|]].
  apply cost_le_for_each. intros u [] _. unfold deleteResourceSets_body.
  destruct (decodeResourceSetName _) as [[[m v]|]|]; [|done..]. case_match; [done|]. cbn.
  split; [lia|]. by intros [|].
Qed.
Lemma attempts_creates L name opts resources n t r :
  attempts L name opts resources n t r → (cost is_create t ≤ S n)%nat.
Proof.
  assert (∀ t out, exec (Apply L name (Some opts) resources) t out → (cost is_create t ≤ 1)%nat) as Hone.
  { intros t' out. apply cost_le_exec, Apply_creates. }
  induction 1 as [n t rs HE|n t rs e HE|t rs e HE|n t1 rs e t2 r HE Htr Hatt IH];
    try (apply Hone in HE; lia). rewrite cost_app. apply Hone in HE. lia.
Qed.
Lemma attempts_settled L name opts resources n t :
  attempts L name opts resources n t None → ∃ version, settled name version t.
Proof.
  intros Hatt. remember None as r eqn:Hr. revert Hr.
  induction Hatt as [n t rs HE|n t rs e HE|t rs e HE|n t1 rs e t2 r HE Htr Hatt IH]; intros Hr; [|done..|].
  - assert (answers any_answer t) as HA by (clear HE; by induction t).
    destruct (hwp_exec _ _ _ _ _ _ _ _ (Apply_guard L name (Some opts) resources) HE HA) as [_ Hs].
    by apply Hs.
  - destruct (IH Hr) as (version & prepared & Hs). exists version, prepared.
    rewrite <-(app_nil_r t2). by apply settled_app.
Qed.

(** ** The command *)

(** An event that changes nothing in the cluster. *)
Definition harmless (o : cop) : Prop :=
  match o with Sy o => o = Invalidate | _ => True end.

Lemma newSynk_harmless : wp any_answer harmless no_panic newSynk (λ _, True).
Proof.
  unfold newSynk. cbn. split; [done|]. intros [e|] _; [done|]. cbn. split; [done|].
  intros [e|] _; [done|]. cbn. split; [done|]. intros [e|] _; [done|]. by repeat split.
Qed.

(** What [apply] does: it reads the resources and the namespace of the
    kubeconfig, and then makes attempts with as many retries as there are. *)
Definition applied_as (L : Libs) (retries : nat) (name : string) (t : list (event cop)) (r : option error) : Prop :=
  ∃ pre t' namespace enforce resources r',
    t = (pre ++ map lower t')%list ∧ calls harmless pre ∧
    existT RawNamespace (Ok (namespace, enforce)) ∈ pre ∧
    existT ResultInfos (Ok (map Obj resources)) ∈ pre ∧
    attempts L name (mkApplyOptions "" 0 namespace enforce true) resources retries t' r' ∧
    r = Wrap r' "apply files".

Lemma objects_Some infos us : objects infos = Some us → infos = map Obj us.
Proof.
  revert us. induction infos as [|[u|] infos IH]; intros us; cbn; [by intros [= <-]| |done].
  destruct (objects infos) as [us'|]; cbn; [|done]. intros [= <-]. cbn. by rewrite (IH us').
Qed.

Lemma apply_cases L fuel retries name t r :
  (0 < retries < fuel)%nat → exec (apply L fuel retries name) t (Done r) →
  ∃ r', r = Some r' ∧
    ((calls harmless t ∧ is_some r' = true) ∨ applied_as L retries name t r').
Proof.
  intros Hr HE. unfold apply in HE. cbn [exec prog_bind call] in HE.
  destruct HE as ([[namespace enforce]|err] & t0 & -> & HE).
  2: { destruct HE as [-> [= ->]]. eexists. split; [done|]. left. by repeat split. }
  cbn [exec prog_bind call] in HE. destruct HE as ([err|] & t1 & -> & HE).
  { destruct HE as [-> [= ->]]. eexists. split; [done|]. left. by repeat split. }
  cbn [exec prog_bind call] in HE. destruct HE as ([infos|err] & t2 & -> & HE).
  2: { destruct HE as [-> [= ->]]. eexists. split; [done|]. left. by repeat split. }
  destruct (objects infos) as [resources|] eqn:Ho; [|by destruct HE]. apply objects_Some in Ho as ->.
  apply exec_bind in HE as [(m & _ & ?)|(t3 & t4 & s & -> & HE1 & HE2)]; [done|].
  apply (wp_exec_any _ _ _ _ _ _ newSynk_harmless) in HE1 as [Hh _].
  destruct s as [err|].
  { destruct HE2 as [-> [= ->]]. eexists. split; [done|]. left. rewrite app_nil_r. by repeat split. }
  apply exec_bind in HE2 as [(m & _ & ?)|(t5 & t6 & r1 & -> & HE1 & HE2)]; [done|].
  destruct HE2 as [-> [= ->]]. rewrite app_nil_r.
  apply RetryTries_attempts in HE1 as (t' & r' & -> & -> & Hatt); [|lia..]. rewrite Nat.sub_0_r in Hatt.
  exists (Wrap r' "apply files"). split; [by destruct r'|]. right.
  exists (existT RawNamespace (Ok (namespace, enforce)) :: existT ResultErr None
          :: existT ResultInfos (Ok (map Obj resources)) :: t3), t', namespace, enforce, resources, r'.
  split_and!; [done|by repeat split|by left|do 2 right; by left|done|done].
Qed.

Lemma fatal_exec err t x : exec (fatal err) t (Done x) → calls harmless t ∧ x = Exit 1.
Proof. cbn. by intros (r & t' & -> & -> & [= ->]). Qed.

Lemma runApply_cases L fuel retries name t x :
  (0 < retries < fuel)%nat → exec (runApply L fuel retries [name]) t (Done x) →
  ∃ t1 t2 r, t = (t1 ++ t2)%list ∧ calls harmless t2 ∧
    x = Exit (if is_some r then 1 else 0) ∧
    ((calls harmless t1 ∧ is_some r = true) ∨ applied_as L retries name t1 r).
Proof.
  intros Hr HE. unfold runApply in HE.
  apply exec_bind in HE as [(m & _ & ?)|(t1 & t2 & r & -> & HE1 & HE2)]; [done|].
  apply apply_cases in HE1 as (r' & -> & Hcases); [|done]. exists t1, t2, r'. split; [done|].
  destruct r' as [err|].
  - by apply fatal_exec in HE2 as [? ->].
  - by destruct HE2 as [-> [= ->]].
Qed.

Definition invocation_of (e : event cop) : option (result invocation) :=
  match e with existT Execute r => Some r | _ => None end.
Lemma main_apply L fuel retries args t x :
  exec (main L fuel) (existT Execute (Ok (CmdApply retries args)) :: t) (Done x) →
  exec (runApply L fuel (default defaultRetries retries) args) t (Done x).
Proof.
  intros (c & t' & Ht & HE). pose proof (f_equal tail Ht) as Hl. cbn in Hl. subst t'.
  apply (f_equal (λ t, head t ≫= invocation_of)) in Ht. cbn in Ht. by injection Ht as <-.
Qed.

(** C23: [synk apply name] with [n] retries ([n > 0]) ends, and is what retrying
    the package's [Apply] means: unless it fails before (no cluster write is
    made then, and the exit code is 1), it runs [Apply name] with the
    kubeconfig's namespace on the resources of the given files, again as long
    as the error is transient and a retry is left, and exits with 0 exactly if
    the last run succeeded. *)
Theorem synk_apply_retries L fuel retries name t x :
  (0 < default defaultRetries retries < fuel)%nat →
  exec (main L fuel) (existT Execute (Ok (CmdApply retries [name])) :: t) (Done x) →
  ∃ t1 t2 r, t = (t1 ++ t2)%list ∧ calls harmless t2 ∧
    x = Exit (if is_some r then 1 else 0) ∧
    ((calls harmless t1 ∧ is_some r = true) ∨ applied_as L (default defaultRetries retries) name t1 r).
Proof.
  intros Hr HE%main_apply. by eapply runApply_cases.
Qed.

Definition lowered (o : cop) : nat := match o with Sy o => is_create o | _ => 0 end.
Lemma lower_cost t : cost lowered (map lower t) = cost is_create t.
Proof. induction t as [|[o r] t IH]; [done|]. cbn. rewrite IH. by destruct o. Qed.
Lemma harmless_cost t : calls harmless t → cost lowered t = 0%nat.
Proof.
  induction t as [|[o r] t IH]; cbn; [done|]. intros [Ho Hc]. rewrite IH by done.
  destruct o; [|done..]. cbn in Ho. by subst.
Qed.

(** C24: however often the cluster fails, [synk apply name] with [n] retries
    ([n > 0]) ends and creates at most [n + 1] ResourceSets; an exit code of 0
    says that a version of the application was created and its status stored,
    Settled; and no version is pruned before a newer one is settled so. *)
Theorem synk_apply_bounded L fuel retries name t x :
  (0 < default defaultRetries retries < fuel)%nat →
  exec (main L fuel) (existT Execute (Ok (CmdApply retries [name])) :: t) (Done x) →
  x ≠ Running ∧ (cost lowered t ≤ S (default defaultRetries retries))%nat ∧
  ∃ pre t' post, t = (pre ++ map lower t' ++ post)%list ∧ calls harmless pre ∧ calls harmless post ∧
    (x = Exit 0 → ∃ version, settled name version t') ∧
    (∀ before m a after, t' = (before ++ existT (DeleteResourceSet m) a :: after)%list →
       prune_guard name before (DeleteResourceSet m)).
Proof.
  intros Hr HE%main_apply.
  apply runApply_cases in HE as (t1 & t2 & r & -> & Hh2 & -> & Hcases); [|done]. split; [done|].
  rewrite cost_app, (harmless_cost t2) by done.
  destruct Hcases as [[Hh1 Hs]|(pre & t' & namespace & enforce & resources & r' & -> & Hpre & _ & _ & Hatt & ->)].
  - rewrite (harmless_cost t1) by done. split; [lia|]. exists t1, [], t2. split_and!; [done..| |].
    + by rewrite Hs.
    + intros [] m a after ?; done.
  - rewrite cost_app, (harmless_cost pre), lower_cost by done. pose proof (attempts_creates _ _ _ _ _ _ _ Hatt).
    split; [lia|]. exists pre, t', t2. rewrite (assoc_L (++)). split_and!; [done..| |].
    + destruct r'; [done|]. intros _. by eapply attempts_settled.
    + intros before m a after Ht. by eapply attempts_prune.
Qed.

(** *** Witnesses *)

(** [demoAPI] with a kubeconfig and two files. *)
Definition demoShell (inv : invocation) (o : cop) (s : unit) : option (resp o * unit) :=
  match o return option (resp o * unit) with
  | Sy o => demoAPI [] ["app.v1"; "other.v1"] o s
  | Execute => Some (Ok inv, s)
  | RawNamespace => Some (Ok ("ns", true), s)
  | ResultErr | ToRESTConfig | ToDiscoveryClient | NewForConfig => Some (None, s)
  | ResultInfos => Some (Ok (map Obj demoResources), s)
  | Stderr _ => Some (tt, s)
  end.
Definition demoRun (inv : invocation) := run (demoShell inv) (main demoLibs 9) tt.
Lemma demoRun_ok :
  match demoRun (CmdApply (Some 2%nat) ["app"]) with
  | Some (existT Execute (Ok (CmdApply (Some 2%nat) ["app"])) :: _, Done (Exit 0), _) => true
  | _ => false
  end = true.
Proof. by vm_compute. Qed.

Lemma synk_apply_retries_witness :
  let t := tail (trace_of (demoRun (CmdApply (Some 2%nat) ["app"]))) in
  ∃ t1 t2, t = (t1 ++ t2)%list ∧ applied_as demoLibs 2 "app" t1 None.
Proof.
  intros t.
  assert (exec (main demoLibs 9) (existT Execute (Ok (CmdApply (Some 2%nat) ["app"])) :: t) (Done (Exit 0))) as HE.
  { apply (run_exec (demoShell (CmdApply (Some 2%nat) ["app"])) (main demoLibs 9) tt). by vm_compute. }
  destruct (synk_apply_retries demoLibs 9 (Some 2%nat) "app" t (Exit 0) ltac:(cbn; lia) HE)
    as (t1 & t2 & r & Ht & _ & Hx & Hcases).
  exists t1, t2. split; [done|]. destruct r; [done|]. by destruct Hcases as [[_ ?]|?].
Defined.

Lemma synk_apply_bounded_witness :
  let t := tail (trace_of (demoRun (CmdApply (Some 2%nat) ["app"]))) in
  (cost lowered t ≤ 3)%nat.
Proof.
  intros t.
  assert (exec (main demoLibs 9) (existT Execute (Ok (CmdApply (Some 2%nat) ["app"])) :: t) (Done (Exit 0))) as HE.
  { apply (run_exec (demoShell (CmdApply (Some 2%nat) ["app"])) (main demoLibs 9) tt). by vm_compute. }
  exact (proj1 (proj2 (synk_apply_bounded demoLibs 9 (Some 2%nat) "app" t (Exit 0) ltac:(cbn; lia) HE))).
Defined.

(** ** [--retries 0]

    The flag is described as the maximal number of retries, but 0 is no limit:
    while the API server is unavailable, the command goes on for ever. *)
Definition unavailable : error := EStatus 503 "ServiceUnavailable" "the server is currently unable to handle the request".
Definition unavailableEvent : event cop := existT (Sy ServerResources) (Err unavailable).

Lemma attempt_unavailable L name resources opts : ∃ e,
  exec (attempt L name resources opts) [unavailableEvent] (Done (Some e, setName name opts)) ∧
  match e with EPermanent _ => False | _ => True end.
Proof.
  exists (EWrap "set default namespaces" (EWrap "discover server resources" unavailable)). split; [|done].
  unfold attempt. apply exec_bind. right. exists [unavailableEvent], [], (None, Some (EWrap "set default namespaces" (EWrap "discover server resources" unavailable))).
  split; [done|]. split.
  - apply synk_exec. exists [existT ServerResources (Err unavailable)]. split; [done|].
    unfold Apply, initialize, populateNamespaces. cbn. by eexists _, [].
  - by cbn.
Qed.

Theorem zero_retries_never_stop L name fuel :
  ∃ pre, exec (main L fuel)
    (existT Execute (Ok (CmdApply (Some 0%nat) [name])) :: pre ++ replicate fuel unavailableEvent) (Done Running).
Proof.
  exists [existT RawNamespace (Ok ("default", false)); existT ResultErr None; existT ResultInfos (Ok []);
          existT ToRESTConfig None; existT ToDiscoveryClient None; existT NewForConfig None; existT (Sy Invalidate) tt].
  assert (∀ opts, exec (RetryTries fuel 0 0 (attempt L name []) opts) (replicate fuel unavailableEvent) (Done None)) as Hrun.
  { induction fuel as [|fuel IH]; intros opts; [done|]. cbn [RetryTries replicate].
    destruct (attempt_unavailable L name [] opts) as (e & HE & Hp).
    apply exec_bind. right. exists [unavailableEvent], (replicate fuel unavailableEvent), (Some e, setName name opts).
    split; [done|]. split; [exact HE|]. destruct e; apply IH || done. }
  cbn. eexists _, _. split; [done|]. apply exec_bind. right.
  eexists _, [], None. split; [by rewrite app_nil_r|]. split; [|done].
  do 7 (cbn; eexists _, _; split; [done|]). cbn -[RetryTries]. apply exec_bind. right. eexists _, [], None. split; [by rewrite app_nil_r|]. split; [apply Hrun|done].
Qed.

(** With a limit, [RetryTries] is [Retry]. *)
Lemma RetryTries_Retry {S} fuel maxTries numTries (op : S → prog cop (option error * S)) s t r :
  (0 < maxTries)%nat → (numTries ≤ maxTries)%nat → (maxTries - numTries < fuel)%nat →
  exec (RetryTries fuel maxTries numTries op s) t (Done r) →
  ∃ e s', r = Some e ∧ exec (Retry (maxTries - numTries) op s) t (Done (e, s')).
Proof.
  intros Hmax. revert numTries s t. induction fuel as [|fuel IH]; intros numTries s t Hn Hf HE; [lia|].
  cbn [RetryTries] in HE.
  apply exec_bind in HE as [(m & _ & ?)|(t1 & t2 & [e s1] & -> & HE1 & HE2)]; [done|].
  assert ((∃ e', r = Some e' ∧ t2 = [] ∧ (e = None ∧ e' = None ∨ e = Some (EPermanent e'))) ∨
          (∃ err, e = Some err ∧ match err with EPermanent _ => False | _ => True end ∧
            exec (if (maxTries <=? numTries)%nat then Ret (Some (Some err))
                  else RetryTries fuel maxTries (Datatypes.S numTries) op s1) t2 (Done r))) as [Hend|Hgo].
  { apply Nat.ltb_lt in Hmax. rewrite Hmax in HE2.
    destruct e as [[]|]; try (right; eexists; split_and!; [done|done|exact HE2]);
      left; destruct HE2 as [-> [= ->]]; eexists; split_and!; eauto. }
  - destruct Hend as (e' & -> & -> & He). exists e', s1. split; [done|].
    destruct (maxTries - numTries)%nat; cbn [Retry]; apply exec_bind; right;
      exists t1, [], (e, s1); split_and!; [done|done| |done|done|];
      destruct He as [(-> & ->)| ->]; done.
  - destruct Hgo as (err & -> & Herr & HE). destruct (Nat.leb_spec maxTries numTries).
    + destruct HE as [-> [= ->]]. exists (Some err), s1. split; [done|].
      replace (maxTries - numTries)%nat with 0%nat by lia. cbn [Retry]. apply exec_bind. right.
      exists t1, [], (Some err, s1). split_and!; [done|done|]. by destruct err.
    + apply IH in HE as (e & s' & -> & HE); [|lia..]. exists e, s'. split; [done|].
      replace (maxTries - numTries)%nat with (Datatypes.S (maxTries - Datatypes.S numTries)) by lia.
      cbn [Retry]. apply exec_bind. right. exists t1, t2, (Some err, s1). split_and!; [done|done|].
      by destruct err.
Qed.
