(* ===== verification/CrdGenerator.v ===== *)
(** * The generator of custom resource definitions (src/go/cmd/crd-generator)

    [Model] is main.go: a proto message's descriptor and the OpenAPI schemas of
    its spec and status become a CustomResourceDefinition with the annotations
    that the cr-syncer and grpc2rest read. *)
From stdpp Require Import prelude strings list gmap.
From Stdlib Require Import Ascii ZArith.
From S2P Require Import Prelude GoStr GoErr Kube Base64 CrSyncer Grpc2Rest.

Open Scope string_scope.
Open Scope prog_scope.

Module Model.

(** ** Schemas as JSON objects

    A [map[string]interface{}] is the list of its entries, in any order; its
    keys are distinct.  Both functions go down into objects, not into lists. *)

Section entries.
Context (f : json → json).
Fixpoint deleteEntries (l : list (string * json)) : list (string * json) :=
  match l with
  | [] => []
  | (k, v) :: l => if bool_decide (k = "default") then deleteEntries l else (k, f v) :: deleteEntries l
  end.
End entries.
Fixpoint deleteDefaults_value (j : json) : json :=
  match j with
  | JObj l => JObj (deleteEntries deleteDefaults_value l)
  | _ => j
  end.
Definition deleteDefaults (input : list (string * json)) : list (string * json) :=
  deleteEntries deleteDefaults_value input.

Definition has_key (k : string) (l : list (string * json)) : bool :=
  existsb (λ kv, bool_decide (kv.1 = k)) l.
Fixpoint hasReferences_value (j : json) : bool :=
  match j with
  | JObj l => has_key "$ref" l || existsb (λ kv, hasReferences_value kv.2) l
  | _ => false
  end.
Definition hasReferences (input : list (string * json)) : bool :=
  has_key "$ref" input || existsb (λ kv, hasReferences_value kv.2) input.

(** ** Calls

    [os.Stdout.Write] answers with an error as well, which the program does not
    look at. *)

Inductive gop : Type :=
| ReadFile (name : string)
| WriteFile (name content : string) (mode : Z)
| Stdout (content : string)
| Fatal (text : string). (* log.Fatalf's line *)
#[export] Instance gop_effect : Effect gop := λ o,
  match o with
  | ReadFile _ => result string
  | WriteFile _ _ _ => option error
  | Stdout _ | Fatal _ => unit
  end.

Record flags := mkFlags {
  protoDescriptorFile : string; message : string; swaggerFile : string; plural : string;
  group : string; namespaced : bool; output : string; filterByRobotName : bool; specSource : string }.

Section generator.
(** The libraries: go-openapi's documents and schemas, the JSON of a schema and
    of a JSON object, the validation schemas of apiextensions, and the YAML of
    the result.  [ExpandSchema] replaces the references of a schema by what they
    refer to; it is a function of the document, which has references to itself
    only. *)
Context {swagger schema props : Type} (UnmarshalSwagger : string → result swagger)
  (Definitions : swagger → gmap string schema) (ExpandSchema : swagger → schema → result schema)
  (MarshalSchema : schema → result string) (UnmarshalObject : string → result (list (string * json)))
  (MarshalObject : list (string * json) → result string) (UnmarshalProps : string → result props).

(** ** The validation *)

(** The schema of one field, found in the document. *)
Definition fieldProps (sw : swagger) (sch : schema) : result props :=
  match ExpandSchema sw sch with
  | Err err => Err err
  | Ok sch =>
  match MarshalSchema sch with
  | Err err => Err err
  | Ok b =>
  match UnmarshalObject b with
  | Err err => Err err
  | Ok unstructured =>
      let unstructured := deleteDefaults unstructured in
      if hasReferences unstructured then
        Err (EText "Kubernetes API server's validation does not support self-referencing protos")
      else
      match MarshalObject unstructured with
      | Err err => Err err
      | Ok b => UnmarshalProps b
      end
  end end end.
Fixpoint validationFields (file : string) (sw : swagger) (version kind : string) (fields : list string)
    (properties : gmap string props) : result (gmap string props) :=
  match fields with
  | [] => Ok properties
  | field :: fields =>
      let msg := version ++ kind ++ field in
      match Definitions sw !! msg with
      | None => Err (EText ("Expected definition for " ++ msg ++ " in " ++ file))
      | Some sch =>
          match fieldProps sw sch with
          | Err err => Err err
          | Ok p => validationFields file sw version kind fields (<[ToLower field := p]> properties)
          end
      end
  end.
Definition createValidation (file version kind : string) : prog gop (result (gmap string props)) :=
  let! f := call (ReadFile file) in
  Ret (match f with
       | Err err => Err err
       | Ok swaggerJson =>
           match UnmarshalSwagger swaggerJson with
           | Err err => Err err
           | Ok sw => validationFields file sw version kind ["Spec"; "Status"] ∅
           end
       end).

(** ** The definition *)

Record CRDVersion := mkVersion { v_Name : string; v_Storage : bool; v_Served : bool; v_Schema : gmap string props }.
Record CRD := mkCRD {
  c_APIVersion : string; c_TypeKind : string; c_Name : string; c_Annotations : gmap string string;
  c_Group : string; c_Plural : string; c_Kind : string; c_Scope : string; c_Versions : list CRDVersion;
  c_StoredVersions : list string }.

Definition FormatBool (b : bool) : string := if b then "true" else "false".

Definition newCRD (f : flags) (kind version pluralName descriptor : string) (validation : gmap string props) : CRD :=
  mkCRD "apiextensions.k8s.io/v1" "CustomResourceDefinition" (pluralName ++ "." ++ group f)
    (list_to_map
       [("crc.cloudrobotics.com/proto-descriptor", EncodeToString descriptor);
        ("cr-syncer.cloudrobotics.com/filter-by-robot-name", FormatBool (filterByRobotName f));
        ("cr-syncer.cloudrobotics.com/spec-source", specSource f)])
    (group f) pluralName kind "Namespaced" [mkVersion version true true validation] [version].

(** The YAML serializer. *)
Context (Encode : CRD → result string).

Definition fatal (text : string) : prog gop Z := call (Fatal text) ;;! Ret 1%Z.

(** The kind, the version and the plural name of the message: its last two
    parts, and the flag or the kind in lower case with an s. *)
Definition messageNames (f : flags) : option (string * string * string) :=
  let messageParts := Split (message f) "." in
  let n := length messageParts in
  if (n <? 3)%nat then None
  else
    let kind := default "" (messageParts !! (n - 1)%nat) in
    let version := default "" (messageParts !! (n - 2)%nat) in
    Some (kind, version, if bool_decide (plural f = "") then ToLower kind ++ "s" else plural f).

Definition main (f : flags) : prog gop Z :=
  match messageNames f with
  | None => fatal ("Want fully qualified proto message name with at least 2 dots, got " ++ message f)
  | Some (kind, version, pluralName) =>
  let! d := call (ReadFile (protoDescriptorFile f)) in
  match d with
  | Err err => fatal ("Unable to read proto descriptor file " ++ protoDescriptorFile f ++ ": " ++ error_text err)
  | Ok descriptor =>
  let! v := createValidation (swaggerFile f) version kind in
  match v with
  | Err err => fatal ("Unable to convert Swagger definition to validation: " ++ error_text err)
  | Ok validation =>
  match Encode (newCRD f kind version pluralName descriptor validation) with
  | Err err => fatal ("Unable to serialize CRD: " ++ error_text err)
  | Ok buf =>
      if negb (bool_decide (output f = "")) then
        let! w := call (WriteFile (output f) buf 420) in
        match w with
        | Some err => fatal ("Unable to write " ++ output f ++ ": " ++ error_text err)
        | None => Ret 0%Z
        end
      else call (Stdout buf) ;;! Ret 0%Z
  end end end end.
End generator.

End Model.

(** * Properties *)
Import Model.

(** ** Induction on JSON documents *)

Section json_ind.
Context (P : json → Prop).
Context (HNull : P JNull) (HBool : ∀ b, P (JBool b)) (HNum : ∀ n, P (JNum n)) (HString : ∀ s, P (JString s)).
Context (HList : ∀ l, Forall P l → P (JList l)) (HObj : ∀ l, Forall (λ kv, P kv.2) l → P (JObj l)).

Fixpoint json_nested_ind (j : json) : P j :=
  match j with
  | JNull => HNull
  | JBool b => HBool b
  | JNum n => HNum n
  | JString s => HString s
  | JList l =>
      HList l ((fix go (l : list json) : Forall P l :=
        match l with
        | [] => Forall_nil_2 _
        | j :: l => Forall_cons_2 _ _ _ (json_nested_ind j) (go l)
        end) l)
  | JObj l =>
      HObj l ((fix go (l : list (string * json)) : Forall (λ kv, P kv.2) l :=
        match l with
        | [] => Forall_nil_2 _
        | kv :: l => Forall_cons_2 _ _ _ (json_nested_ind kv.2) (go l)
        end) l)
  end.
End json_ind.

(** ** What the two traversals see *)

(** [reaches l m]: the object [m] is [l], or lies in [l] below fields that
    hold objects; [plain_reaches] only follows fields not called "default". *)
Inductive reaches : list (string * json) → list (string * json) → Prop :=
| reaches_here l : reaches l l
| reaches_field l k m n : (k, JObj m) ∈ l → reaches m n → reaches l n.
Inductive plain_reaches : list (string * json) → list (string * json) → Prop :=
| plain_here l : plain_reaches l l
| plain_field l k m n : k ≠ "default" → (k, JObj m) ∈ l → plain_reaches m n → plain_reaches l n.

Lemma has_key_iff k l : has_key k l = true ↔ ∃ v, (k, v) ∈ l.
Proof.
  unfold has_key. rewrite existsb_exists. split.
  - intros ([k' v] & Hin & Hk%bool_decide_eq_true). cbn in Hk. subst. exists v. by apply list_elem_of_In.
  - intros [v Hin]. exists (k, v). split; [by apply list_elem_of_In|]. by apply bool_decide_eq_true.
Qed.

Lemma hasReferences_value_obj l : hasReferences_value (JObj l) = hasReferences l.
Proof. done. Qed.

(** [hasReferences] finds exactly the references in objects that can be
    reached without passing through a list. *)
Lemma hasReferences_iff l : hasReferences l = true ↔ ∃ m v, reaches l m ∧ ("$ref", v) ∈ m.
Proof.
  split.
  - rewrite <-hasReferences_value_obj. remember (JObj l) as j eqn:Hj. revert l Hj. induction j as [| | | |l' _|l' IH] using json_nested_ind; intros l Heq; try discriminate.
    injection Heq as <-.
    cbn [hasReferences_value]. rewrite orb_true_iff, has_key_iff, existsb_exists.
    intros [[v Hin]|([k v] & Hin & Hr)].
    + exists l', v. split; [constructor|done].
    + apply list_elem_of_In in Hin. cbn in Hr. destruct v as [| | | | |m]; try done.
      rewrite Forall_forall in IH. destruct (IH _ Hin m eq_refl Hr) as (n & v & Hn & Hv).
      exists n, v. split; [by eapply reaches_field|done].
  - intros (m & v & Hreach & Hin). unfold hasReferences. rewrite orb_true_iff, has_key_iff, existsb_exists.
    induction Hreach as [l|l k m n Hkm Hreach IH]; [left; by exists v|].
    right. exists (k, JObj m). split; [by apply list_elem_of_In|]. cbn.
    rewrite orb_true_iff, has_key_iff, existsb_exists. by apply IH.
Qed.

Lemma deleteEntries_elem f l k v :
  (k, v) ∈ deleteEntries f l ↔ k ≠ "default" ∧ ∃ w, (k, w) ∈ l ∧ v = f w.
Proof.
  induction l as [|[k' w'] l IH]; cbn; [set_solver|]. case_bool_decide as Hk.
  - rewrite IH. subst. set_solver.
  - rewrite elem_of_cons, IH. set_solver.
Qed.
Lemma deleteEntries_keys f l : map fst (deleteEntries f l) = filter (.≠ "default") (map fst l).
Proof.
  induction l as [|[k v] l IH]; [done|]. cbn [deleteEntries map fst]. case_bool_decide as Hk.
  - subst. rewrite filter_cons_False by (intros H; by apply H). exact IH.
  - rewrite filter_cons_True by done. cbn. by rewrite IH.
Qed.

(** The objects of the result are those below fields not called "default",
    each without its own field of that name. *)
Lemma deleteDefaults_reaches l m :
  reaches (deleteDefaults l) m ↔ ∃ n, plain_reaches l n ∧ m = deleteDefaults n.
Proof.
  split.
  - remember (deleteDefaults l) as d eqn:Hd. intros Hreach. revert l Hd.
    induction Hreach as [d|d k m n Hin Hreach IH]; intros l ->.
    + exists l. split; [constructor|done].
    + apply deleteEntries_elem in Hin as (Hk & [| | | | |w] & Hin & Heq); try done.
      injection Heq as Heq. destruct (IH w Heq) as (n' & Hn & ->). exists n'. split; [by eapply plain_field|done].
  - intros (n & Hreach & ->). induction Hreach as [l|l k m n Hk Hin Hreach IH]; [constructor|].
    eapply (reaches_field _ k); [|exact IH]. apply deleteEntries_elem. split; [done|]. by exists (JObj m).
Qed.

(** No object of the result that can be reached has a default. *)
Lemma deleteDefaults_clean l m v : reaches (deleteDefaults l) m → ("default", v) ∉ m.
Proof. intros (n & _ & ->)%deleteDefaults_reaches Hin. by apply deleteEntries_elem in Hin as [? _]. Qed.

Lemma deleteDefaults_value_idemp j : deleteDefaults_value (deleteDefaults_value j) = deleteDefaults_value j.
Proof.
  induction j as [| | | |l _|l IH] using json_nested_ind; try done. cbn. f_equal.
  induction IH as [|[k v] l Hv _ IHl]; cbn; [done|]. case_bool_decide as Hk; [done|]. cbn.
  rewrite bool_decide_eq_false_2 by done. cbn in Hv. by rewrite Hv, IHl.
Qed.
Lemma deleteDefaults_idemp l : deleteDefaults (deleteDefaults l) = deleteDefaults l.
Proof. pose proof (deleteDefaults_value_idemp (JObj l)) as H. cbn in H. by injection H. Qed.

(** What the traversals do not see: a default inside a list stays, a property
    that is called "default" goes, and a reference inside a list passes. *)
Example default_in_list_stays :
  deleteDefaults [("allOf", JList [JObj [("default", JNum 1)]])] = [("allOf", JList [JObj [("default", JNum 1)]])].
Proof. reflexivity. Qed.
Example property_named_default_goes :
  deleteDefaults [("properties", JObj [("default", JObj [("type", JString "string")])])] = [("properties", JObj [])].
Proof. reflexivity. Qed.
Example reference_in_list_passes :
  hasReferences [("allOf", JList [JObj [("$ref", JString "#/definitions/v1Goal")]])] = false.
Proof. reflexivity. Qed.

(** ** The program *)

Section spec.
Context {swagger schema props : Type} (UnmarshalSwagger : string → result swagger)
  (Definitions : swagger → gmap string schema) (ExpandSchema : swagger → schema → result schema)
  (MarshalSchema : schema → result string) (UnmarshalObject : string → result (list (string * json)))
  (MarshalObject : list (string * json) → result string) (UnmarshalProps : string → result props)
  (Encode : CRD (props:=props) → result string).

(** [p] is the schema called [msg] of the document, expanded, with the
    defaults taken out; nothing in it refers to another schema. *)
Definition schema_of (sw : swagger) (msg : string) (p : props) : Prop :=
  ∃ sch expanded b doc b',
    Definitions sw !! msg = Some sch ∧ ExpandSchema sw sch = Ok expanded ∧
    MarshalSchema expanded = Ok b ∧ UnmarshalObject b = Ok doc ∧
    MarshalObject (deleteDefaults doc) = Ok b' ∧ UnmarshalProps b' = Ok p ∧
    (∀ m v, reaches (deleteDefaults doc) m → ("$ref", v) ∉ m) ∧
    (∀ m v, reaches (deleteDefaults doc) m → ("default", v) ∉ m).

Abbreviation fieldProps :=
  (fieldProps ExpandSchema MarshalSchema UnmarshalObject MarshalObject UnmarshalProps).

Lemma fieldProps_iff sw msg p :
  schema_of sw msg p ↔ ∃ sch, Definitions sw !! msg = Some sch ∧ fieldProps sw sch = Ok p.
Proof.
  split.
  - intros (sch & e & b & doc & b' & Hd & He & Hb & Hdoc & Hb' & Hp & Hr & _). exists sch. split; [done|].
    unfold Model.fieldProps. rewrite He, Hb, Hdoc. cbn zeta. destruct (hasReferences (deleteDefaults doc)) eqn:E.
    + apply hasReferences_iff in E as (m & v & Hm & Hv). by destruct (Hr m v).
    + by rewrite Hb'.
  - intros (sch & Hd & H). revert H. unfold Model.fieldProps. destruct (ExpandSchema sw sch) as [e|] eqn:He; [|done].
    destruct (MarshalSchema e) as [b|] eqn:Hb; [|done]. destruct (UnmarshalObject b) as [doc|] eqn:Hdoc; [|done].
    cbn zeta. destruct (hasReferences (deleteDefaults doc)) eqn:Hr; [done|].
    destruct (MarshalObject (deleteDefaults doc)) as [b'|] eqn:Hb'; [|done]. intros Hp.
    exists sch, e, b, doc, b'. split_and!; try done.
    + intros m v Hreach Hin. assert (hasReferences (deleteDefaults doc) = true) as Ht; [|congruence].
      apply hasReferences_iff. by exists m, v.
    + intros m v. apply deleteDefaults_clean.
Qed.

(** The properties of a validation: the schemas of the message's spec and of
    its status, and nothing else. *)
Definition validates (sw : swagger) (version kind : string) (properties : gmap string props) : Prop :=
  ∃ spec status, properties = <["status" := status]> {["spec" := spec]} ∧
    schema_of sw (version ++ kind ++ "Spec") spec ∧ schema_of sw (version ++ kind ++ "Status") status.

Abbreviation validationFields :=
  (validationFields Definitions ExpandSchema MarshalSchema UnmarshalObject MarshalObject UnmarshalProps).

(** The code finds a validation exactly if there is one, and it is the only one. *)
Lemma validationFields_iff file sw version kind properties :
  validationFields file sw version kind ["Spec"; "Status"] ∅ = Ok properties ↔ validates sw version kind properties.
Proof.
  cbn [Model.validationFields]. split.
  - destruct (Definitions sw !! _) as [sch1|] eqn:H1; [|done].
    destruct (fieldProps sw sch1) as [spec|] eqn:P1; [|done].
    destruct (Definitions sw !! (version ++ kind ++ "Status")) as [sch2|] eqn:H2; [|done].
    destruct (fieldProps sw sch2) as [status|] eqn:P2; [|done].
    intros [= <-]. exists spec, status. split_and!; [done|apply fieldProps_iff; by eexists..].
  - intros (spec & status & -> & (sch1 & H1 & P1)%fieldProps_iff & (sch2 & H2 & P2)%fieldProps_iff).
    by rewrite H1, P1, H2, P2.
Qed.

(** [named f kind version]: the message is pkg.version.kind, for a package
    whose name may have dots. *)
Definition named (f : flags) (kind version : string) : Prop :=
  ∃ pkg, message f = pkg ++ "." ++ version ++ "." ++ kind ∧
    Contains version "." = false ∧ Contains kind "." = false.

Lemma no_dot s : Contains s "." = false ↔ cut s "." = None.
Proof. unfold Contains. by destruct (cut s "."). Qed.
Lemma messageNames_iff f kind version pluralName :
  messageNames f = Some (kind, version, pluralName) ↔
  named f kind version ∧ pluralName = if bool_decide (plural f = "") then ToLower kind ++ "s" else plural f.
Proof.
  unfold messageNames, named. cbn zeta. split.
  - pose proof (Join_Split (message f) ".") as Hj. pose proof (Split_char_parts "." (message f)) as Hparts.
    destruct (Nat.ltb_spec (length (Split (message f) ".")) 3) as [|Hlen]; [done|].
    destruct (Split (message f) ".") as [|kind' l _] using rev_ind; [cbn in Hlen; lia|].
    destruct l as [|version' l _] using rev_ind; [cbn in Hlen; lia|].
    assert (l ≠ []) as Hl. { intros ->. cbn in Hlen. lia. }
    rewrite !length_app in *. cbn [length] in *.
    replace (length l + 1 + 1 - 1)%nat with (length (l ++ [version'])) by (rewrite length_app; cbn; lia).
    rewrite lookup_app_r, Nat.sub_diag by lia. cbn [default lookup list_lookup].
    replace (length l + 1 + 1 - 2)%nat with (length l) by lia. rewrite <-app_assoc, lookup_app_r, Nat.sub_diag by lia.
    cbn. intros [= <- <- <-]. split; [|done]. exists (Join l "."). rewrite !no_dot.
    split_and!; [|apply Hparts; set_solver..].
    rewrite <-Hj, !Join_snoc by (try done; by destruct l). by rewrite !app_assoc_s.
  - intros [(pkg & -> & Hv%no_dot & Hk%no_dot) ->].
    assert (Split (pkg ++ "." ++ version ++ "." ++ kind) "." = (Split pkg "." ++ [version; kind])%list) as ->.
    { transitivity (Split ((pkg ++ String "." version) ++ String "." kind) "."); [by rewrite app_assoc_s|].
      rewrite (Split_char_snoc "." _ kind Hk), (Split_char_snoc "." pkg version Hv). by rewrite <-app_assoc. }
    assert (length (Split pkg ".") ≠ 0)%nat as Hn.
    { rewrite Split_char_eq. by destruct (cut pkg ".") as [[??]|]. }
    rewrite length_app. cbn [length]. destruct (Nat.ltb_spec (length (Split pkg ".") + 2) 3) as [|_]; [lia|].
    rewrite !lookup_app_r by lia.
    replace (_ + 2 - 1 - _)%nat with 1%nat by lia. by replace (_ + 2 - 2 - _)%nat with 0%nat by lia.
Qed.

(** The definition of the message pkg.version.kind: named after the plural and
    the group, namespaced, with the version as its only one, the schemas of the
    spec and the status, and the three annotations. *)
Record describes (f : flags) (kind version descriptor : string) (sw : swagger) (crd : CRD (props:=props)) : Prop :=
  mkDescribes {
    d_APIVersion : c_APIVersion crd = "apiextensions.k8s.io/v1";
    d_TypeKind : c_TypeKind crd = "CustomResourceDefinition";
    d_Name : c_Name crd = c_Plural crd ++ "." ++ c_Group crd;
    d_Group : c_Group crd = group f;
    d_Plural : c_Plural crd = if bool_decide (plural f = "") then ToLower kind ++ "s" else plural f;
    d_Kind : c_Kind crd = kind;
    d_Scope : c_Scope crd = "Namespaced";
    d_Versions : ∃ properties, c_Versions crd = [mkVersion version true true properties] ∧
      validates sw version kind properties;
    d_StoredVersions : c_StoredVersions crd = [version];
    d_Annotations : c_Annotations crd =
      <["crc.cloudrobotics.com/proto-descriptor" := EncodeToString descriptor]>
      (<["cr-syncer.cloudrobotics.com/filter-by-robot-name" := if filterByRobotName f then "true" else "false"]>
      {["cr-syncer.cloudrobotics.com/spec-source" := specSource f]}) }.

Lemma describes_iff f kind version descriptor sw crd :
  describes f kind version descriptor sw crd ↔ ∃ properties, validates sw version kind properties ∧
    crd = newCRD f kind version
      (if bool_decide (plural f = "") then ToLower kind ++ "s" else plural f) descriptor properties.
Proof.
  split.
  - intros [HA HT HN HG HP HK HS (properties & HV & Hval) HSt HAn]. exists properties. split; [done|].
    destruct crd. cbn in *. by subst.
  - intros (properties & Hval & ->). constructor; try done. by exists properties.
Qed.

(** The text of the definition, from the bytes of the two files. *)
Definition content (f : flags) (descriptor swaggerJson buf : string) : Prop :=
  ∃ kind version sw crd, named f kind version ∧ UnmarshalSwagger swaggerJson = Ok sw ∧
    describes f kind version descriptor sw crd ∧ Encode crd = Ok buf.

Lemma content_code f kind version pluralName descriptor swaggerJson buf :
  messageNames f = Some (kind, version, pluralName) →
  content f descriptor swaggerJson buf ↔ ∃ sw properties, UnmarshalSwagger swaggerJson = Ok sw ∧
    validationFields (swaggerFile f) sw version kind ["Spec"; "Status"] ∅ = Ok properties ∧
    Encode (newCRD f kind version pluralName descriptor properties) = Ok buf.
Proof.
  intros Hn. split.
  - intros (kind' & version' & sw & crd & Hnm & Hsw & (properties & Hval & ->)%describes_iff & Hbuf).
    pose proof (proj2 (messageNames_iff f kind' version' _) (conj Hnm eq_refl)) as Hn'. rewrite Hn in Hn'.
    exists sw, properties. simplify_eq. split_and!; [done|by apply validationFields_iff|done].
  - intros (sw & properties & Hsw & Hval%validationFields_iff & Hbuf). apply messageNames_iff in Hn as [Hnm ->].
    eexists kind, version, sw, _. split_and!; [done|done| |exact Hbuf]. apply describes_iff. by exists properties.
Qed.

Definition sink (f : flags) (buf : string) : event gop :=
  if bool_decide (output f = "") then existT (Stdout buf) tt else existT (WriteFile (output f) buf 420) None.

(** The runs of the generator: the calls with their answers, and the code.  A
    file that could not be written may hold a part of the content. *)
Inductive outcome (f : flags) : list (event gop) → Z → Prop :=
| written descriptor swaggerJson buf : content f descriptor swaggerJson buf →
    outcome f [existT (ReadFile (protoDescriptorFile f)) (Ok descriptor);
      existT (ReadFile (swaggerFile f)) (Ok swaggerJson); sink f buf] 0
| not_a_message text : (∀ kind version, ¬ named f kind version) → outcome f [existT (Fatal text) tt] 1
| no_descriptor e text :
    outcome f [existT (ReadFile (protoDescriptorFile f)) (Err e); existT (Fatal text) tt] 1
| no_document descriptor e text :
    outcome f [existT (ReadFile (protoDescriptorFile f)) (Ok descriptor);
      existT (ReadFile (swaggerFile f)) (Err e); existT (Fatal text) tt] 1
| no_content descriptor swaggerJson text : (∀ buf, ¬ content f descriptor swaggerJson buf) →
    outcome f [existT (ReadFile (protoDescriptorFile f)) (Ok descriptor);
      existT (ReadFile (swaggerFile f)) (Ok swaggerJson); existT (Fatal text) tt] 1
| not_written descriptor swaggerJson buf e text : content f descriptor swaggerJson buf → output f ≠ "" →
    outcome f [existT (ReadFile (protoDescriptorFile f)) (Ok descriptor);
      existT (ReadFile (swaggerFile f)) (Ok swaggerJson);
      existT (WriteFile (output f) buf 420) (Some e); existT (Fatal text) tt] 1.

Abbreviation generate :=
  (main UnmarshalSwagger Definitions ExpandSchema MarshalSchema UnmarshalObject MarshalObject UnmarshalProps Encode).

Lemma fatal_inv text t o : exec (fatal text) t o → t = [existT (Fatal text) tt] ∧ o = Done 1%Z.
Proof. cbn. by intros ([] & ? & -> & -> & ->). Qed.

(** C39: the generator reads the two input files and writes, as its only
    output, the definition of the message, to the file of the flag or to the
    standard output, and ends with code 0; or it ends with code 1 after a
    message, and then either nothing was written, because the message's name
    has not three parts, a file could not be read or there is no such
    definition that can be serialized, or writing the right text to the file
    failed (part of it may be there).  The definition is named after the plural
    and the group, namespaced, has the kind and the version of the message's
    name, only that version, the three annotations, and exactly the schemas of
    the message's spec and status, free of references and defaults in all
    objects that can be reached. *)
Theorem generator_outcome (f : flags) t o :
  exec (generate f) t o → ∃ c, o = Done c ∧ outcome f t c.
Proof.
  unfold main. destruct (messageNames f) as [[[kind version] pluralName]|] eqn:Hn; cycle 1.
  { intros [-> ->]%fatal_inv. eexists. split; [done|]. apply not_a_message. intros kind version Hnm.
    pose proof (proj2 (messageNames_iff f kind version _) (conj Hnm eq_refl)). congruence. }
  cbn [exec prog_bind call]. intros ([descriptor|e] & t1 & -> & HE); cycle 1.
  { apply fatal_inv in HE as [-> ->]. eexists. split; [done|]. apply no_descriptor. }
  cbn [exec prog_bind call createValidation] in HE. destruct HE as ([swaggerJson|e] & t2 & -> & HE); cycle 1.
  { apply fatal_inv in HE as [-> ->]. eexists. split; [done|]. apply no_document. }
  pose proof (λ buf, content_code f kind version pluralName descriptor swaggerJson buf Hn) as Hcode.
  assert (∀ text, exec (fatal text) t2 o → (∀ buf, ¬ content f descriptor swaggerJson buf) →
    ∃ c, o = Done c ∧ outcome f (existT (ReadFile (protoDescriptorFile f)) (Ok descriptor) ::
      existT (ReadFile (swaggerFile f)) (Ok swaggerJson) :: t2) c) as Hnone.
  { intros text [-> ->]%fatal_inv Hno. eexists. split; [done|]. by apply no_content. }
  destruct (UnmarshalSwagger swaggerJson) as [sw|] eqn:Hsw.
  2: { eapply Hnone; [exact HE|]. intros buf (? & ? & [=] & _)%Hcode. }
  destruct (validationFields (swaggerFile f) sw version kind ["Spec"; "Status"] ∅) as [properties|] eqn:Hv.
  2: { eapply Hnone; [exact HE|]. intros buf (? & ? & [= <-] & ? & _)%Hcode. congruence. }
  destruct (Encode _) as [buf|] eqn:Hbuf.
  2: { eapply Hnone; [exact HE|]. intros buf (? & ? & [= <-] & ? & ?)%Hcode. congruence. }
  assert (content f descriptor swaggerJson buf) as Hc. { apply Hcode. by exists sw, properties. }
  destruct (bool_decide (output f = "")) eqn:Ho; cbn in HE.
  - destruct HE as ([] & ? & -> & -> & ->). eexists. split; [done|].
    pose proof (written f _ _ _ Hc) as H. unfold sink in H. by rewrite Ho in H.
  - destruct HE as ([e|] & t3 & -> & HE).
    + apply fatal_inv in HE as [-> ->]. eexists. split; [done|].
      apply not_written; [done|by apply bool_decide_eq_false in Ho].
    + destruct HE as [-> ->]. eexists. split; [done|].
      pose proof (written f _ _ _ Hc) as H. unfold sink in H. by rewrite Ho in H.
Qed.

(** ** What the other programs make of the result *)

(** The definition as the API server gives it to the cr-syncer, and to
    grpc2rest. *)
Definition syncer_view (crd : CRD (props:=props)) : CrSyncer.Model.CRD :=
  CrSyncer.Model.mkCRD (c_Name crd) (Some (c_Annotations crd)) (c_Group crd) (c_Plural crd)
    (bool_decide (c_Scope crd = "Namespaced"))
    (map (λ v, CrSyncer.Model.mkCRDVersion (v_Name v) (v_Storage v) false) (c_Versions crd)).
Definition grpc_view (crd : CRD (props:=props)) : Grpc2Rest.Model.CRD :=
  Grpc2Rest.Model.mkCRD (c_Name crd) (Some (c_Annotations crd)) (c_Group crd) (c_Kind crd) (c_Plural crd)
    (c_Scope crd) (map v_Name (c_Versions crd)).
Definition base64Decode (s : string) : result string :=
  match DecodeString s with Some b => Ok b | None => Err (EText "illegal base64 data") end.

(** The direction the flag asks for. *)
Definition from_cloud (f : flags) : bool := bool_decide (specSource f = "cloud").

(** C40: a generated definition is understood by the programs it is made for.
    The cr-syncer creates a syncer for its version, in the given namespace,
    that copies the spec from where the flag says and filters by the robot's
    name exactly if the flag says so (and the robot has a name); grpc2rest
    finds in the annotation the bytes of the descriptor file. *)
Theorem generated_crd_understood (f : flags) kind version pluralName descriptor properties unmarshal namespace robotName :
  specSource f = "cloud" ∨ specSource f = "robot" → descriptor ≠ "" →
  let crd := newCRD f kind version pluralName descriptor properties in
  Grpc2Rest.Model.getFileDescriptor base64Decode unmarshal (grpc_view crd) = unmarshal descriptor ∧
  ∃ s, CrSyncer.Model.newCRSyncer namespace (syncer_view crd) robotName = Ok s ∧
    CrSyncer.Model.s_versionIx s = 0%nat ∧
    CrSyncer.Model.s_upstream s = CrSyncer.Model.mkClient (from_cloud f) (group f, version, pluralName) namespace ∧
    CrSyncer.Model.s_downstream s = CrSyncer.Model.mkClient (negb (from_cloud f)) (group f, version, pluralName) namespace ∧
    CrSyncer.Model.s_labelSelector s =
      if filterByRobotName f && negb (bool_decide (robotName = ""))
      then CrSyncer.Model.labelRobotName ++ "=" ++ robotName else "".
Proof.
  intros Hsrc Hd crd.
  assert (sm_get (Some (c_Annotations crd)) Grpc2Rest.Model.protoDescriptor = EncodeToString descriptor) as H1.
  { unfold sm_get, sm_lookup. cbn. by rewrite lookup_insert_eq. }
  assert (sm_get (Some (c_Annotations crd)) CrSyncer.Model.annotationFilterByRobotName = FormatBool (filterByRobotName f)) as H2.
  { unfold sm_get, sm_lookup. cbn. rewrite lookup_insert_ne by done. by rewrite lookup_insert_eq. }
  assert (sm_get (Some (c_Annotations crd)) CrSyncer.Model.annotationSpecSource = specSource f) as H3.
  { unfold sm_get, sm_lookup. cbn. rewrite !lookup_insert_ne by done. by rewrite lookup_insert_eq. }
  assert (sm_get (Some (c_Annotations crd)) CrSyncer.Model.annotationStatusSubtree = "") as H4.
  { unfold sm_get, sm_lookup. cbn. by rewrite !lookup_insert_ne by done. }
  split.
  - unfold Grpc2Rest.Model.getFileDescriptor. cbn [grpc_view Grpc2Rest.Model.crd_annotations]. rewrite H1.
    rewrite bool_decide_eq_false_2 by (by rewrite EncodeToString_empty).
    unfold base64Decode. by rewrite DecodeString_EncodeToString.
  - unfold CrSyncer.Model.newCRSyncer. cbn [syncer_view CrSyncer.Model.crd_Annotations]. rewrite H2, H3, H4.
    assert (CrSyncer.Model.ParseBool (FormatBool (filterByRobotName f)) = Some (filterByRobotName f)) as ->
      by by destruct (filterByRobotName f).
    rewrite (bool_decide_eq_false_2 (FormatBool _ = "")) by by destruct (filterByRobotName f).
    cbn. unfold from_cloud. by destruct Hsrc as [->| ->]; cbn; eexists; split_and!.
Qed.
End spec.

(** *** Witnesses: a document in which a schema is one JSON object *)

Definition demoDoc : gmap string (list (string * json)) :=
  list_to_map
    [("v1alpha1GoalSpec", [("type", JString "object");
       ("properties", JObj [("speed", JObj [("type", JString "number"); ("default", JNum 1)])])]);
     ("v1alpha1GoalStatus", [("type", JString "object")])].
Definition demoFlags (src : string) : flags :=
  mkFlags "goal.pb" "crc.v1alpha1.Goal" "goal.json" "" "crc.io" false "" true src.
Definition demoParse (b : string) : result (list (string * json)) :=
  match demoDoc !! b with Some l => Ok l | None => Ok [] end.
Definition demoProps (b : string) : result string := Ok b.
(** The example's JSON of an object: the names of its fields. *)
Definition demoMarshal (l : list (string * json)) : result string :=
  Ok (Join (map (λ kv, kv.1 ++ match kv.2 with JObj [(k, JObj m)] => "{" ++ k ++ ":" ++ Join (map fst m) "," ++ "}" | _ => "" end) l) ",").
Definition demoFiles (o : gop) (s : unit) : option (resp o * unit) :=
  match o return option (resp o * unit) with
  | ReadFile n => Some (if bool_decide (n = "goal.pb") then Ok "Many hands" else Ok "{}", s)
  | WriteFile _ _ _ => Some (None, s)
  | Stdout _ | Fatal _ => Some (tt, s)
  end.
Abbreviation demoMain :=
  (main (λ _, Ok (map fst (map_to_list demoDoc))) (λ ks, list_to_map (map (λ k, (k, k)) ks)) (λ _ sch, Ok sch)
     (λ sch, Ok sch) demoParse demoMarshal demoProps
     (λ c : CRD, Ok (c_Name c ++ " " ++ c_Kind c ++ " " ++
        match c_Versions c with v :: _ => default "" (v_Schema v !! "spec") | [] => "" end ++ " " ++
        default "" (c_Annotations c !! "crc.cloudrobotics.com/proto-descriptor")))).

Example demo_output :
  outcome_of (run demoFiles (demoMain (demoFlags "robot")) tt) = Some (Done 0%Z) ∧
  match trace_of (run demoFiles (demoMain (demoFlags "robot")) tt) !! 2%nat with
  | Some (existT (Stdout b) _) => b = "goals.crc.io Goal type,properties{speed:type} TWFueSBoYW5kcw=="
  | _ => False
  end.
Proof. vm_compute. done. Qed.

Lemma generator_outcome_witness :
  exec (demoMain (demoFlags "robot")) (trace_of (run demoFiles (demoMain (demoFlags "robot")) tt)) (Done 0%Z) ∧
  ∃ descriptor swaggerJson buf kind version,
    trace_of (run demoFiles (demoMain (demoFlags "robot")) tt) =
      [existT (ReadFile "goal.pb") (Ok descriptor); existT (ReadFile "goal.json") (Ok swaggerJson);
       existT (Stdout buf) tt] ∧ named (demoFlags "robot") kind version.
Proof.
  assert (exec (demoMain (demoFlags "robot")) (trace_of (run demoFiles (demoMain (demoFlags "robot")) tt)) (Done 0%Z)) as HE.
  { apply run_exec. vm_compute. reflexivity. }
  split; [exact HE|]. remember (trace_of _) as t eqn:Ht in HE |- *. clear Ht.
  destruct (generator_outcome _ _ _ _ _ _ _ _ (demoFlags "robot") _ _ HE) as (c & [= Hc] & Ho).
  destruct Ho as [d js buf (kind & version & sw & crd & Hn & _)| | | | |]; try discriminate Hc.
  by exists d, js, buf, kind, version.
Defined.

Lemma generated_crd_understood_witness :
  let crd := newCRD (demoFlags "robot") "Goal" "v1alpha1" "goals" "Many hands" (∅ : gmap string string) in
  ∃ s, CrSyncer.Model.newCRSyncer "default" (syncer_view crd) "r2d2" = Ok s ∧
    CrSyncer.Model.s_labelSelector s = "cloudrobotics.com/robot-name=r2d2".
Proof.
  intros crd.
  destruct (generated_crd_understood (props:=string) (demoFlags "robot") "Goal" "v1alpha1" "goals" "Many hands" ∅
    (λ _, Ok []) "default" "r2d2" ltac:(by right) ltac:(done)) as (_ & s & Hs & _ & _ & _ & Hl).
  exists s. split; [exact Hs|exact Hl].
Defined.

(** The flag -namespaced has no effect: every definition is namespaced. *)
Lemma namespaced_without_effect {props : Type} (f : flags) b kind version pluralName descriptor (p : gmap string props) :
  newCRD (mkFlags (protoDescriptorFile f) (message f) (swaggerFile f) (plural f) (group f) b (output f)
    (filterByRobotName f) (specSource f)) kind version pluralName descriptor p =
  newCRD f kind version pluralName descriptor p ∧
  c_Scope (newCRD f kind version pluralName descriptor p) = "Namespaced".
Proof. done. Qed.
