(* ===== verification/Commands.v ===== *)
(** * The controller programs (src/go/cmd/tenant-controller,
    app-rollout-controller and chart-assignment-controller) and the [Add]
    functions of the controllers they run

    [Manager] is what they use of controller-runtime: watches with their
    handlers, and the calls that set a manager up.  [Tenants], [Rollouts] and
    [Assignments] are the three programs. *)
From stdpp Require Import prelude strings list gmap.
From Stdlib Require Import Ascii ZArith.
From S2P Require Import Prelude GoStr GoErr Kube Coretools Tenant Apps Rollout ChartAssign.

Open Scope string_scope.
Open Scope prog_scope.

(** ** Watches *)
Module Manager.

Abbreviation request := (string * string)%type. (* namespace, name *)

(** What the API server tells a watch about an object. *)
Inductive wevent :=
| Created (m : ObjectMeta)
| Updated (old new : ObjectMeta)
| Deleted (m : ObjectMeta).

Section handlers.
Context {Op : Type} `{Effect Op}.

(** [handler.EnqueueRequestForObject], [handler.EnqueueRequestForOwner] for an
    owner's group and kind, and [handler.Funcs], where [None] is a missing
    function. *)
Inductive handler : Type :=
| EnqueueRequestForObject
| EnqueueRequestForOwner (group kind : string) (namespaced : bool)
| Funcs (create : option (ObjectMeta → prog Op (list request)))
    (update : option (ObjectMeta → ObjectMeta → prog Op (list request)))
    (delete : option (ObjectMeta → prog Op (list request))).

(** [getOwnerReconcileRequest]: an owner whose version does not parse ends it.
    The REST mapping of the owner's kind, which tells whether it is namespaced,
    is taken to exist; the code collects the requests in a set. *)
Fixpoint ownerRequests (group kind : string) (namespaced : bool) (ns : string) (refs : list OwnerReference)
    : list request :=
  match refs with
  | [] => []
  | ref :: refs =>
      match gv_group (or_APIVersion ref) with
      | None => []
      | Some g =>
          let rest := ownerRequests group kind namespaced ns refs in
          if bool_decide (or_Kind ref = kind) && bool_decide (g = group)
          then (if namespaced then ns else "", or_Name ref) :: rest else rest
      end
  end.
Definition ownersOf (group kind : string) (namespaced : bool) (m : ObjectMeta) : list request :=
  ownerRequests group kind namespaced (om_Namespace m) (om_OwnerReferences m).
Definition objectRequest (m : ObjectMeta) : request := (om_Namespace m, om_Name m).

Definition deliver (h : handler) (e : wevent) : prog Op (list request) :=
  match h, e with
  | EnqueueRequestForObject, (Created m | Updated _ m | Deleted m) => Ret [objectRequest m]
  | EnqueueRequestForOwner g k n, (Created m | Deleted m) => Ret (ownersOf g k n m)
  | EnqueueRequestForOwner g k n, Updated old new => Ret (ownersOf g k n old ++ ownersOf g k n new)%list
  | Funcs (Some f) _ _, Created m => f m
  | Funcs _ (Some f) _, Updated old new => f old new
  | Funcs _ _ (Some f), Deleted m => f m
  | Funcs _ _ _, _ => Ret []
  end.
End handlers.
Arguments handler Op {_}.

(** The calls that set up a manager: [R] is the controller's reconciler, [W]
    the kinds of its watches, [V] the webhook's handler. *)
Section calls.
Context (Op : Type) `{Effect Op} (R W V : Type).

(** Why a program that serves its liveness probe ends: the manager failed, or
    the probe's server did.  (A manager that ends well, after a signal, does
    not end the program.) *)
Inductive ended := ManagerFailed (e : error) | ServerEnded (e : error).

Inductive mop : Type :=
| InClusterConfig
| SetLimits (qps burst : Z)                  (* config.QPS, as a float32, and config.Burst *)
| ParseParams (params : string)             (* strvals.ParseString *)
| Getenv (name : string)
| NewManager (port : Z)
| NewReleases                               (* synk.NewForConfig *)
| NewController (name : string) (r : R)
| IndexField (kind field : string)
| Watch (k : W) (h : handler Op)
| SetCertDir (dir : string)
| Register (path : string) (v : V)
| Start
| Serve (addr : string)                     (* with the manager in a goroutine *)
| Fatal (text : string).
#[export] Instance mop_effect : Effect mop := λ o,
  match o with
  | InClusterConfig | NewManager _ | NewReleases | NewController _ _ | IndexField _ _ | Watch _ _ | Start => option error
  | ParseParams _ => result ConfigValues
  | Getenv _ => string
  | SetLimits _ _ | SetCertDir _ | Register _ _ | Fatal _ => unit
  | Serve _ => ended
  end.

(** [log.Fatal]. *)
Definition fatal (text : string) : prog mop Z := call (Fatal text) ;;! Ret 1%Z.

(** A sequence of steps of [Add] that end it with a wrapped error; [None] is
    an error returned as it is. *)
Definition wrapped (wrap : option string) (err : error) : error :=
  match wrap with Some m => EWrap m err | None => err end.
Fixpoint watchAll (l : list (W * handler Op * option string)) : prog mop (option error) :=
  match l with
  | [] => Ret None
  | (k, h, wrap) :: l =>
      let! w := call (Watch k h) in
      match w with
      | Some err => Ret (Some (wrapped wrap err))
      | None => watchAll l
      end
  end.
End calls.
Arguments InClusterConfig {Op _ R W V}.
Arguments SetLimits {Op _ R W V} qps burst.
Arguments ParseParams {Op _ R W V} params.
Arguments Getenv {Op _ R W V} name.
Arguments NewManager {Op _ R W V} port.
Arguments NewReleases {Op _ R W V}.
Arguments NewController {Op _ R W V} name r.
Arguments IndexField {Op _ R W V} kind field.
Arguments Watch {Op _ R W V} k h.
Arguments SetCertDir {Op _ R W V} dir.
Arguments Register {Op _ R W V} path v.
Arguments Start {Op _ R W V}.
Arguments Serve {Op _ R W V} addr.
Arguments Fatal {Op _ R W V} text.
Arguments fatal {Op _ R W V} text.
Arguments watchAll {Op _ R W V} l.

End Manager.

Import Manager.

(** ** tenant-controller *)
Module Tenants.
Import Tenant.Model.

Record flags := mkFlags {
  certDir : string; domain : string; webhookPort : Z; defaultGateway : string; tenantSpecificGateways : string }.

Definition named (l : list string) : list request := map (λ n, ("", n)) l.
(** [EnqueueRequestForOwner] with [OwnerType: &config.Tenant{}]; tenants are
    not namespaced. *)
Definition forOwner : handler top := EnqueueRequestForOwner "config.cloudrobotics.com" "Tenant" false.
Definition onNamespace (m : ObjectMeta) : prog top (list request) :=
  let! l := enqueueFromNamespaceName (om_Name m) in Ret (named l).
Definition onConfigMap (m : ObjectMeta) : prog top (list request) :=
  let! l := watchedConfigMap (om_Namespace m) (om_Name m) in Ret (named l).
Definition onRobot (m : ObjectMeta) : prog top (list request) :=
  Ret (named (enqueueFromObjectNamespace (om_Namespace m))).

Definition watches (gateways : bool) : list (tkind * handler top * option string) :=
  ([(KTenant, EnqueueRequestForObject, Some "watch Tenant");
    (KNamespace, Funcs (Some onNamespace) None (Some onNamespace), Some "watch Namespace");
    (KServiceAccount, forOwner, Some "watch ServiceAccount");
    (KRoleBinding, forOwner, Some "watch RoleBinding");
    (KSecret, forOwner, Some "watch Secret");
    (KConfigMap, Funcs (Some onConfigMap) (Some (λ _ new, onConfigMap new)) (Some onConfigMap), Some "watch Namespace")]
   ++ (if gateways
       then [(KDNSEntry, forOwner, Some "watch DNSEntry");
             (KCertificate, forOwner, Some "watch Certificate");
             (KGateway, forOwner, Some "watch Gateway")]
       else [])
   ++ [(KRobot, Funcs (Some onRobot) None (Some onRobot), Some "watch Robot")])%list.

(** The webhook keeps the flag it was created with. *)
Abbreviation mopT := (mop top Reconciler tkind bool).

Definition Add (domain defaultGateway : string) (gateways : bool) : prog mopT (option error) :=
  let r := mkReconciler domain defaultGateway gateways in
  let! c := call (NewController "tenant-controller" r) in
  match c with
  | Some err => Ret (Some (EWrap "create controller" err))
  | None => watchAll (watches gateways)
  end.

Definition main (f : flags) : prog mopT Z :=
  let gatewaysEnabled := bool_decide (ToLower (tenantSpecificGateways f) = "true") in
  let! m := call (NewManager (webhookPort f)) in
  match m with
  | Some err => fatal ("Unable to create manager: " ++ error_text err)
  | None =>
  if bool_decide (domain f = "") then fatal "domain flag must not be empty"
  else
  let! a := Add (domain f) (defaultGateway f) gatewaysEnabled in
  match a with
  | Some err => fatal ("Unable to add tenant-controller to manager: " ++ error_text err)
  | None =>
  call (SetCertDir (certDir f)) ;;!
  call (Register "/tenant/validate" gatewaysEnabled) ;;!
  let! s := call Start in
  match s with
  | Some err => fatal ("Unable to start controller manager: " ++ error_text err)
  | None => Ret 0%Z
  end
  end end.

End Tenants.

(** ** app-rollout-controller *)
Module Rollouts.
Import Rollout.Model.

Record flags := mkFlags { params : string; webhookPort : Z; certDir : string }.

(** Handlers that run [onEvent]; the delay after a robot's deletion is in its
    answer. *)
Definition requests (e : watchEvent) : prog rop (list Manager.request) :=
  let! ' (_, l) := onEvent e in Ret l.
Definition watches : list (rkind * handler rop * option string) :=
  [(KAppRollout, EnqueueRequestForObject, Some "watch AppRollouts");
   (KChartAssignment,
     Funcs None (Some (λ old new, requests (AssignmentUpdated old new))) (Some (λ m, requests (AssignmentDeleted m))),
     Some "watch ChartAssignments");
   (KRobot,
     Funcs (Some (λ m, requests (RobotCreated m))) (Some (λ old new, requests (RobotUpdated old new)))
       (Some (λ m, requests (RobotDeleted m))), Some "watch Robots");
   (KApp,
     Funcs (Some (λ m, requests (AppEvent m))) (Some (λ _ new, requests (AppEvent new)))
       (Some (λ m, requests (AppEvent m))), Some "watch Apps")].

(** The reconciler's base values are the parsed parameters. *)
Abbreviation mopR := (mop rop ConfigValues rkind unit).

Definition Add (baseValues : ConfigValues) : prog mopR (option error) :=
  let! c := call (NewController "approllout" baseValues) in
  match c with
  | Some err => Ret (Some (EWrap "create controller" err))
  | None =>
  let! i := call (IndexField "ChartAssignment" fieldIndexOwners) in
  match i with
  | Some err => Ret (Some (EWrap "add field indexer" err))
  | None =>
  let! i := call (IndexField "AppRollout" fieldIndexAppName) in
  match i with
  | Some err => Ret (Some (EWrap "add field indexer" err))
  | None => watchAll watches
  end end end.

Definition setupAppV2 (f : flags) (params : ConfigValues) : prog mopR (option error) :=
  let! m := call (NewManager (webhookPort f)) in
  match m with
  | Some err => Ret (Some (EWrap "create controller manager" err))
  | None =>
  let! a := Add params in
  match a with
  | Some err => Ret (Some (EWrap "add AppRollout controller" err))
  | None =>
      call (SetCertDir (certDir f)) ;;!
      call (Register "/approllout/validate" tt) ;;!
      Ret None
  end end.

Definition main (f : flags) : prog mopR Z :=
  let! c := call InClusterConfig in
  match c with
  | Some err => fatal ("Failed to initialize Kubernetes config: " ++ error_text err)
  | None =>
  let! p := call (ParseParams (params f)) in
  match p with
  | Err err => fatal ("invalid Helm parameters: " ++ error_text err)
  | Ok helmParams =>
  let! s := setupAppV2 f helmParams in
  match s with
  | Some err => fatal (error_text err)
  | None =>
  let! e := call (Serve ":8080") in
  match e with
  | ManagerFailed err => fatal (error_text (EWrap "start controller manager" err))
  | ServerEnded err => fatal (error_text err)
  end end end end.

End Rollouts.

(** ** chart-assignment-controller *)
Module Assignments.
Import ChartAssign.Model.

Record flags := mkFlags {
  cloudCluster : bool; omitCopyingPullsecret : bool; webhookEnabled : bool; webhookPort : Z; certDir : string;
  maxQPS : Z }.

Definition onPod (m : ObjectMeta) : prog cop (list request) := enqueueForPod (om_Namespace m).
Definition watches : list (ckind * handler cop * option string) :=
  [(KChartAssignment, EnqueueRequestForObject, None);
   (KPod, Funcs (Some onPod) (Some (λ _ new, onPod new)) (Some onPod), Some "watch Apps")].

(** The webhook is given by the cluster name of its validator. *)
Abbreviation mopC := (mop cop Reconciler ckind string).

Definition Add (cluster : string) (copyPullSecret : bool) : prog mopC (option error) :=
  let r := mkReconciler cluster copyPullSecret in
  let! s := call NewReleases in
  match s with
  | Some err => Ret (Some err)
  | None =>
  let! c := call (NewController "chartassignment" r) in
  match c with
  | Some err => Ret (Some err)
  | None =>
  let! i := call (IndexField "ChartAssignment" fieldIndexNamespace) in
  match i with
  | Some err => Ret (Some (EWrap "add field indexer" err))
  | None => watchAll watches
  end end end.

(** [NewValidationWebhook], [NewValidationWebhookForEdgeCluster]. *)
Definition NewValidationWebhook : string := "".
Definition NewValidationWebhookForEdgeCluster (clusterName : string) : string := clusterName.

Definition setupAppV2 (f : flags) (cluster : string) : prog mopC (option error) :=
  let! m := call (NewManager (webhookPort f)) in
  match m with
  | Some err => Ret (Some (EWrap "create controller manager" err))
  | None =>
  let! a := Add cluster (negb (omitCopyingPullsecret f)) in
  match a with
  | Some err => Ret (Some (EWrap "add ChartAssignment controller" err))
  | None =>
      if webhookEnabled f then
        let webhook := if cloudCluster f then NewValidationWebhook
                       else NewValidationWebhookForEdgeCluster cluster in
        call (SetCertDir (certDir f)) ;;!
        call (Register "/chartassignment/validate" webhook) ;;!
        Ret None
      else Ret None
  end end.

Definition started (f : flags) (clusterName : string) : prog mopC Z :=
  let! c := call InClusterConfig in
  match c with
  | Some err => fatal (error_text err)
  | None =>
  call (SetLimits (maxQPS f) (int64 (maxQPS f * 2))) ;;!
  let! s := setupAppV2 f clusterName in
  match s with
  | Some err => fatal (error_text err)
  | None =>
  let! e := call (Serve ":8080") in
  match e with
  | ManagerFailed err => fatal (error_text (EWrap "start controller manager" err))
  | ServerEnded err => fatal (error_text err)
  end end end.

Definition main (f : flags) : prog mopC Z :=
  if cloudCluster f then started f "cloud"
  else
    let! name := call (Getenv "ROBOT_NAME") in
    if bool_decide (name = "")
    then fatal "expect ROBOT_NAME environment var to be set to an non-empty string"
    else started f name.

End Assignments.

(** * Properties *)

(** ** Setting up watches *)

Lemma watchAll_exec {Op R W V} `{Effect Op} (l : list (W * handler Op * option string)) t r :
  exec (watchAll (R:=R) (V:=V) l) t (Done r) →
  (t = map (λ x, existT (Watch x.1.1 x.1.2) None) l ∧ r = None) ∨
  (is_some r = true ∧ calls (λ o, match o with Watch _ _ => True | _ => False end) t).
Proof.
  revert t. induction l as [|[[k h] m] l IH]; intros t HE; cbn [watchAll] in HE.
  - destruct HE as [-> [= ->]]. by left.
  - cbn [exec prog_bind call] in HE. destruct HE as ([err|] & t' & -> & HE).
    + destruct HE as [-> [= ->]]. right. by repeat split.
    + destruct (IH _ HE) as [[-> ->]|[Hr Hc]].
      * by left.
      * right. split; [done|]. by split.
Qed.

Lemma watchAll_no_panic {Op R W V} `{Effect Op} (l : list (W * handler Op * option string)) t m :
  ¬ exec (watchAll (R:=R) (V:=V) l) t (Panicked m).
Proof.
  revert t. induction l as [|[[k h] w] l IH]; intros t HE; cbn [watchAll] in HE; [by destruct HE|].
  cbn [exec prog_bind call] in HE. destruct HE as ([e|] & t' & -> & HE); [by destruct HE|]. by eapply IH.
Qed.

(** ** chart-assignment-controller: who handles what the webhook admits *)
Section assignments.
Import ChartAssign.Model Assignments.

(** What is registered when the controller runs for [cluster]. *)
Definition registered (f : flags) (cluster : string) (o : mopC) : Prop :=
  match o with
  | NewController _ r => r = mkReconciler cluster (negb (omitCopyingPullsecret f))
  | Register _ v => webhookEnabled f = true ∧ v = if cloudCluster f then "" else cluster
  | Getenv n => n = "ROBOT_NAME"
  | _ => True
  end.
Lemma started_registers f cluster :
  wp any_answer (registered f cluster) no_panic (started f cluster) (λ c, c = 1%Z).
Proof.
  assert (∀ text, wp any_answer (registered f cluster) no_panic (fatal text) (λ c, c = 1%Z)) as Hfatal
    by (intros text; cbn; split; [done|]; by intros).
  unfold started, setupAppV2, Add. cbn [wp prog_bind call]. split; [done|]. intros [e|] _; [apply Hfatal|].
  cbn [wp prog_bind call]. split; [done|]. intros _ _.
  cbn [wp prog_bind call]. split; [done|]. intros [e|] _; [apply Hfatal|].
  cbn [wp prog_bind call]. split; [done|]. intros [e|] _; [apply Hfatal|].
  cbn [wp prog_bind call]. split; [done|]. intros [e|] _; [apply Hfatal|].
  cbn [wp prog_bind call]. split; [done|]. intros [e|] _; [apply Hfatal|].
  cbn [wp prog_bind call]. split; [done|]. intros [e|] _; [apply Hfatal|].
  cbn [wp prog_bind call]. split; [done|]. intros [e|] _; [apply Hfatal|].
  destruct (webhookEnabled f) eqn:Hw; cbn [wp prog_bind call].
  - split; [done|]. intros _ _. split; [cbn; rewrite Hw; by destruct (cloudCluster f)|]. intros _ _.
    split; [done|]. intros [e|e] _; apply Hfatal.
  - split; [done|]. intros [e|e] _; apply Hfatal.
Qed.

(** The cluster's name is not empty once a controller is created. *)
Lemma main_registers f t out :
  exec (main f) t out → ∃ cluster,
    calls (registered f cluster) t ∧ out = Done 1%Z ∧ (cloudCluster f = true → cluster = "cloud") ∧
    ((cluster ≠ "") ∨ calls (λ o, match o with NewController _ _ => False | _ => True end) t).
Proof.
  unfold main. destruct (cloudCluster f) eqn:Hc.
  - intros HE. exists "cloud". apply (wp_exec_any _ _ _ _ _ _ (started_registers f "cloud")) in HE as [Hcalls Hout].
    destruct out as [c|]; [|done]. subst. split_and!; [done..|by left].
  - cbn [exec prog_bind call]. intros (name & t' & -> & HE). exists name. case_bool_decide as Hn.
    + cbn in HE. destruct HE as ([] & ? & -> & -> & ->). split_and!; [by repeat split|done..|right; by repeat split].
    + apply (wp_exec_any _ _ _ _ _ _ (started_registers f name)) in HE as [Hcalls Hout].
      destruct out as [c|]; [|done]. subst. split_and!; [by split|done..|by left].
Qed.

Lemma Handle_cluster v vn vc ca old :
  Handle (mkValidator v vn vc) (Ok ca) old = Allowed → v = "" ∨ cas_ClusterName (ca_Spec ca) = v.
Proof.
  assert (∀ old, validate (mkValidator v vn vc) ca old = None → v = "" ∨ cas_ClusterName (ca_Spec ca) = v) as Hv.
  { intros o. unfold validate. cbn [v_clusterName]. case_bool_decide; [done|].
    destruct (decide (v = "")); [by left|]. rewrite (bool_decide_eq_false_2 (v = "")) by done. cbn.
    destruct (decide (cas_ClusterName (ca_Spec ca) = v)); [by right|].
    by rewrite (bool_decide_eq_false_2 (_ = v)) by done. }
  cbn. destruct old as [[old|e]|]; try done; destruct (validate _ _ _) eqn:E; try done; intros _; by eapply Hv.
Qed.

Lemma got_answer ns name (g g' : result ChartAssignment) :
  (existT (K (KGet KChartAssignment ns name)) g : event cop) = existT (K (KGet KChartAssignment ns name)) g' → g = g'.
Proof.
  intros Heq. apply (f_equal (λ e : event cop, match e with
    | existT o r => match o return resp o → option (result ChartAssignment) with
                    | K (KGet KChartAssignment _ _) => Some
                    | _ => λ _, None
                    end r
    end)) in Heq. cbn in Heq. by apply (inj Some).
Qed.

(** C15: the webhook and the reconciler of a chart-assignment controller agree
    on a robot. The controller runs for the cluster "cloud", or for the robot
    named in the environment, never for an unnamed one; it reconciles the
    assignments of its cluster and makes no call for any other. The webhook
    registered next to it is restricted to the same cluster on a robot and to
    none in the cloud; so on a robot, every assignment the webhook admits is
    one that the controller does reconcile. The webhook of the cloud admits
    assignments for every cluster, of which the cloud's controller reconciles
    its own. *)
Theorem admitted_assignments_are_handled f t out n r a :
  exec (main f) t out → existT (NewController n r) a ∈ t →
  r_cluster r ≠ "" ∧ r_copyPullSecret r = negb (omitCopyingPullsecret f) ∧
  (cloudCluster f = true → r_cluster r = "cloud") ∧
  (∀ ca ns name tr o, cas_ClusterName (ca_Spec ca) = r_cluster r → exec (reconcile r ca) tr o →
     exec (Reconcile r ns name) (existT (K (KGet KChartAssignment ns name)) (Ok ca) :: tr) o) ∧
  (∀ ca ns name tr o, cas_ClusterName (ca_Spec ca) ≠ r_cluster r →
     exec (Reconcile r ns name) (existT (K (KGet KChartAssignment ns name)) (Ok ca) :: tr) o → tr = []) ∧
  ∀ path v b, existT (Register path v) b ∈ t →
    webhookEnabled f = true ∧ v = (if cloudCluster f then "" else r_cluster r) ∧
    ∀ vn vc ca old ns name tr o, cloudCluster f = false →
      Handle (mkValidator v vn vc) (Ok ca) old = Allowed →
      exec (reconcile r ca) tr o →
      exec (Reconcile r ns name) (existT (K (KGet KChartAssignment ns name)) (Ok ca) :: tr) o.
Proof.
  intros (cluster & Hcalls & _ & Hcloud & Hne)%main_registers Hr.
  pose proof (answers_elem _ _ _ _ Hcalls Hr) as Hreg. cbn in Hreg. subst r. cbn [r_cluster r_copyPullSecret].
  assert (cluster ≠ "") as Hcl.
  { destruct Hne as [?|Hne]; [done|]. by pose proof (answers_elem _ _ _ _ Hne Hr). }
  assert (∀ ca ns name tr o, cas_ClusterName (ca_Spec ca) = cluster →
    exec (reconcile (mkReconciler cluster (negb (omitCopyingPullsecret f))) ca) tr o →
    exec (Reconcile (mkReconciler cluster (negb (omitCopyingPullsecret f))) ns name)
      (existT (K (KGet KChartAssignment ns name)) (Ok ca) :: tr) o) as Hown.
  { intros ca ns name tr o Hca HE. exists (Ok ca), tr. split; [done|]. cbn -[reconcile]. by rewrite bool_decide_eq_true_2. }
  split_and!; [done..| |].
  - intros ca ns name tr o Hca (g & t' & Ht & HE).
    pose proof (f_equal head Ht) as Hg. apply (f_equal tail) in Ht. cbn in Hg, Ht. subst t'.
    apply (inj Some), got_answer in Hg. subst g. cbn -[reconcile] in HE. rewrite bool_decide_eq_false_2 in HE by done.
    by destruct HE.
  - intros path v b Hv. pose proof (answers_elem _ _ _ _ Hcalls Hv) as [Hw ->].
    split_and!; [done..|]. intros vn vc ca old ns name tr o Hc Hadm HE. rewrite Hc in Hadm.
    apply Handle_cluster in Hadm as [?|Hadm]; [done|]. by apply Hown.
Qed.
End assignments.

(** ** tenant-controller: what it creates leads back to its tenant *)
Section tenants.
Import Tenant.Model Tenants.

(** The API server keeps tenants without a namespace, and renames none. *)
Definition tenant_answers (o : top) : resp o → Prop :=
  match o return resp o → Prop with
  | K (KGet KTenant _ name) => λ r,
      match r with Ok t => om_Name (t_meta t) = name ∧ om_Namespace (t_meta t) = "" | Err _ => True end
  | K (KUpdate KTenant x) => λ r,
      match r with Ok t => om_Name (t_meta t) = om_Name (t_meta x) ∧ om_Namespace (t_meta t) = "" | Err _ => True end
  | _ => λ _, True
  end.

Definition createdKinds (gateways : bool) : list tkind :=
  ([KNamespace; KServiceAccount; KRoleBinding; KSecret; KConfigMap]
   ++ if gateways then [KDNSEntry; KCertificate; KGateway] else [])%list.
(** The only owner of the object is the tenant [tn]. *)
Definition owned_by (tn : string) (m : ObjectMeta) : Prop :=
  ∃ ref, om_OwnerReferences m = [ref] ∧ or_APIVersion ref = "config.cloudrobotics.com/v1alpha1" ∧
    or_Kind ref = "Tenant" ∧ or_Name ref = tn.
Definition create_guard (gateways : bool) (tn : string) (o : top) : Prop :=
  match o with
  | K (KCreate k x) =>
      k ∈ createdKinds gateways ∧ owned_by tn (kmeta k x) ∧
      (k = KNamespace → tn ≠ DefaultTenantName ∧
         (om_Name (kmeta k x) = TenantMainNamespace tn ∨
          om_Name (kmeta k x) = RobotConfigNamespace (TenantMainNamespace tn)))
  | _ => True
  end.

(** The tenant's identity, which every step keeps. *)
Definition ident (tn : string) (t : Tenant) : Prop := t_Name t = tn ∧ om_Namespace (t_meta t) = "".

Lemma ident_setConditions tn l t : ident tn t → ident tn (t_setConditions l t).
Proof. by destruct t as [? ? []]. Qed.
Lemma ident_setTenantDomain tn l t : ident tn t → ident tn (t_setTenantDomain l t).
Proof. by destruct t as [? ? []]. Qed.
Lemma ident_setGateway tn l t : ident tn t → ident tn (t_setGateway l t).
Proof. by destruct t as [? ? []]. Qed.
Lemma ident_setLabel tn k v t : ident tn t → ident tn (t_setMeta (setLabel (t_meta t) k v) t).
Proof. by destruct t as [[] ? ?]. Qed.
Lemma ident_setFinalizers tn l t : ident tn t → ident tn (t_setMeta (om_setFinalizers l (t_meta t)) t).
Proof. by destruct t as [[] ? ?]. Qed.
Create HintDb ident.
#[local] Hint Resolve ident_setConditions ident_setTenantDomain ident_setGateway ident_setLabel ident_setFinalizers : ident.

Lemma ownTenant_fresh tn t m :
  ident tn t → om_OwnerReferences m = [] → owned_by tn (ownTenant t m).
Proof.
  intros [Hn Hns] Hm. exists (mkOwnerReference "config.cloudrobotics.com/v1alpha1" "Tenant" (om_Name (t_meta t))
    (om_UID (t_meta t)) (Some true) (Some true)). split_and!; [|done..].
  unfold ownTenant, SetControllerReference. rewrite Hns. cbn. unfold GetControllerOf. rewrite Hm. cbn.
  by destruct m.
Qed.

Abbreviation ok gw tn := (wp (Op:=top) tenant_answers (create_guard gw tn) any_panic).
Abbreviation keeps tn := (λ r : option error * Tenant, ident tn r.2).

Lemma ok_condition gw tn t tc v msg (Φ : Tenant → Prop) :
  ident tn t → (∀ t', ident tn t' → Φ t') → ok gw tn (setCondition t tc v msg) Φ.
Proof. intros Ht HΦ. cbn. split; [done|]. intros now _. apply HΦ. auto with ident. Qed.

(** The object is created only where none was found, and then is the fresh one
    the step had prepared. *)
Lemma ok_write gw tn k (g : result (obj k)) (z : obj k) (mk : obj k → obj k) (Φ : result (obj k) → Prop) :
  create_guard gw tn (K (KCreate k (mk z))) → (∀ r, Φ r) →
  ok gw tn (createOrUpdate (missing g) k (mk (got g z))) Φ.
Proof.
  intros HG HΦ. destruct g as [x|e]; cbn [missing got].
  - split; [exact I|]. intros r _. apply HΦ.
  - destruct (IsNotFound e); (split; [exact HG || exact I|]); intros r _; apply HΦ.
Qed.

Lemma ok_each {A} gw tn (f : A → Tenant → body) l t tc msg :
  ident tn t →
  (∀ x t', x ∈ l → ident tn t' → ok gw tn (f x t') (λ r, match r with
     | inl r => ident tn r.2 | inr t'' => ident tn t'' end)) →
  ok gw tn (let! r := for_each f l t in
      after_loop r (λ t, let! t := setCondition t tc ConditionTrue msg in Ret (None, t))) (keeps tn).
Proof.
  intros Ht Hf. apply wp_bind. apply (wp_for_each _ _ _ f l (λ t', ident tn t')); [| |done].
  - intros x t' Hx Ht'. eapply wp_mono; [|by apply Hf]. by intros [r|t''].
  - intros t' Ht'. apply wp_bind. by apply ok_condition.
Qed.

(** The steps: all calls but a creation are allowed. *)
Ltac step_tac :=
  repeat (cbn [wp prog_bind stop after_loop fst snd];
    first
    [ progress wp_case
    | match goal with
      | |- wp _ _ _ (prog_bind _ _) _ => apply wp_bind
      | |- wp _ _ _ (setCondition _ _ _ _) _ => apply ok_condition; [by auto with ident|intros ? ?]
      | |- wp _ _ _ (call (K (KGet _ _ _))) _ => cbn [wp call]; split; [exact I|intros ? _]
      | |- wp _ _ _ (call (K (KUpdate _ _))) _ => cbn [wp call]; split; [exact I|intros ? _]
      | |- wp _ _ _ (call (RandomStr _)) _ => cbn [wp call]; split; [exact I|intros ? _]
      end
    | by auto with ident ]).

Lemma ensureNamespace_creates gw tn t : ident tn t → ok gw tn (ensureNamespace t) (keeps tn).
Proof.
  intros Ht. unfold ensureNamespace. case_bool_decide as Hd; [step_tac|]. apply ok_each; [done|].
  intros ns t' Hns Ht'. unfold ensureNamespace_body. step_tac.
  set (t2 := t_setMeta _ t'). assert (ident tn t2) as Ht2 by (unfold t2; auto with ident).
  eapply (ok_write gw tn KNamespace _ _ (λ ns, mkNamespace (ownTenant t2 (ns_meta ns)))).
  - split; [by left|]. split; [by apply ownTenant_fresh|]. intros _. destruct Ht as [Hn _]. rewrite Hn in *.
    split; [done|]. cbn. rewrite ownTenant_name. cbn. set_solver.
  - intros [u|e]; step_tac.
Qed.

Lemma ensureServiceAccount_creates gw tn t : ident tn t → ok gw tn (ensureServiceAccount t) (keeps tn).
Proof.
  intros Ht. apply ok_each; [done|]. intros sa t' _ Ht'. unfold ensureServiceAccount_body. step_tac.
  eapply (ok_write gw tn KServiceAccount _ _ (λ sa, mkServiceAccount (ownTenant t' (sa_meta sa)) (sa_ImagePullSecrets sa))).
  - split; [by right; left|]. split; [by apply ownTenant_fresh|done].
  - intros [u|e]; step_tac.
Qed.

Lemma ensurePermissions_creates gw tn t : ident tn t → ok gw tn (ensurePermissions t) (keeps tn).
Proof.
  intros Ht. unfold ensurePermissions. cbn [wp prog_bind call]. split; [exact I|]. intros [order Hperm] _.
  apply ok_each; [done|]. intros [nn rrs] t' _ Ht'. unfold ensurePermissions_body. step_tac.
  eapply (ok_write gw tn KRoleBinding _ _ (λ rb, mkRoleBinding (ownTenant t' (rb_meta rb)) (roleRef rrs) (subjects rrs))).
  - split; [by do 2 right; left|]. split; [by apply ownTenant_fresh|done].
  - intros [u|e]; step_tac.
Qed.
Lemma ensurePullSecret_creates gw tn t : ident tn t → ok gw tn (ensurePullSecret t) (keeps tn).
Proof.
  intros Ht. unfold ensurePullSecret. cbn [wp prog_bind call]. split; [exact I|].
  intros [tpl|err] _; [|step_tac]. apply ok_each; [done|]. intros ns t' _ Ht'.
  unfold ensurePullSecret_body, ensurePullSecret_sa. case_bool_decide; [done|]. step_tac.
  eapply (ok_write gw tn KSecret _ _ (λ s, mkSecret (ownTenant t' (sec_meta s)) (sec_Data tpl) (sec_Type tpl))).
  - split; [by do 3 right; left|]. split; [by apply ownTenant_fresh|done].
  - intros [u|e]; step_tac.
Qed.
Lemma ensureRobotSetupConfig_creates gw tn t : ident tn t → ok gw tn (ensureRobotSetupConfig t) (keeps tn).
Proof.
  intros Ht. unfold ensureRobotSetupConfig. step_tac.
  match goal with |- wp _ _ _ (createOrUpdate _ _ (mkConfigMap _ ?d)) _ =>
    eapply (ok_write gw tn KConfigMap _ _ (λ c, mkConfigMap (ownTenant t (cm_meta c)) d)) end.
  - split; [by do 4 right; left|]. split; [by apply ownTenant_fresh|done].
  - intros [u|e]; step_tac.
Qed.

Lemma ensureDNS_creates r tn t : ident tn t → ok true tn (ensureDNS r t) (keeps tn).
Proof.
  intros Ht. unfold ensureDNS, ensureDNS_write, chooseTenantDomain, generateTenantDomain. step_tac;
  (match goal with |- wp _ _ _ (createOrUpdate _ _ (mkDNSEntry _ ?a ?b ?c _)) _ =>
    eapply (ok_write true tn KDNSEntry _ _ (λ d, mkDNSEntry (ownTenant t (setAnnotation (d_meta d)
      "dns.gardener.cloud/class" "garden")) a b c (d_State d))) end;
   [split; [by do 5 right; left|]; split; [by apply ownTenant_fresh|done]|intros [u|e]; step_tac]).
Qed.
Lemma ensureCertificate_creates tn t : ident tn t → ok true tn (ensureCertificate t) (keeps tn).
Proof.
  intros Ht. unfold ensureCertificate. step_tac.
  match goal with |- wp _ _ _ (createOrUpdate _ _ (mkCertificate _ ?a ?b _)) _ =>
    eapply (ok_write true tn KCertificate _ _ (λ c, mkCertificate (ownTenant t (c_meta c)) a b (c_State c))) end.
  - split; [by do 6 right; left|]. split; [by apply ownTenant_fresh|done].
  - intros [u|e]; step_tac.
Qed.
Lemma ensureGateway_creates tn t : ident tn t → ok true tn (ensureGateway t) (keeps tn).
Proof.
  intros Ht. unfold ensureGateway. step_tac.
  match goal with |- wp _ _ _ (createOrUpdate _ _ (mkGateway _ ?a ?b)) _ =>
    eapply (ok_write true tn KGateway _ _ (λ g, mkGateway (ownTenant t (g_meta g)) a b)) end.
  - split; [by do 7 right; left|]. split; [by apply ownTenant_fresh|done].
  - intros [u|e]; step_tac.
Qed.
Lemma collect_creates gw tn t :
  ident tn t → ok gw tn (collectTenantNamespaces t) (keeps tn) ∧ ok gw tn (collectRobots t) (keeps tn).
Proof.
  intros Ht. split.
  - unfold collectTenantNamespaces. cbn [wp prog_bind call]. split; [exact I|]. intros [items|e] _; [|done].
    apply wp_bind, (wp_for_each _ _ _ _ _ (λ _, True)); [| |done].
    + intros ns acc _ _. cbn. split; [exact I|]. by intros [|] _.
    + intros acc _. cbn [wp]. by destruct t as [? ? []].
  - unfold collectRobots. cbn [wp prog_bind call]. split; [exact I|]. intros [robots|e] _; [|done].
    cbn [wp prog_bind call]. split; [exact I|]. destruct t as [? ? []]. by intros [secrets|e] _.
Qed.

Lemma ensured_creates gw tn s last t :
  (∀ t, ident tn t → ok gw tn (s t) (keeps tn)) → ident tn t → ok gw tn (ensured s last t) (keeps tn).
Proof. intros Hs Ht. apply wp_bind. eapply wp_mono; [|by apply Hs]. by intros [e t'] Hr. Qed.

Lemma reconcileResources_creates r tn t :
  ident tn t → ok (r_tenantSpecificGateways r) tn (reconcileResources r t) (keeps tn).
Proof.
  intros Ht. unfold reconcileResources. set (gw := r_tenantSpecificGateways r).
  apply wp_bind. eapply wp_mono; [|by apply (ensured_creates _ _ _ _ _ (ensureServiceAccount_creates gw tn))].
  intros [l1 t1] Ht1. apply wp_bind.
  eapply wp_mono; [|by apply (ensured_creates _ _ _ _ _ (ensurePermissions_creates gw tn))].
  intros [l2 t2] Ht2. apply wp_bind.
  eapply wp_mono; [|by apply (ensured_creates _ _ _ _ _ (ensureRobotSetupConfig_creates gw tn))].
  intros [l3 t3] Ht3. apply wp_bind.
  eapply wp_mono; [|by apply (ensured_creates _ _ _ _ _ (ensurePullSecret_creates gw tn))].
  intros [l4 t4] Ht4. cbn [snd] in *. destruct gw; [|cbn [wp snd]; auto with ident].
  unfold ensureTenantGateway. apply wp_bind. eapply wp_mono; [|by apply ensureDNS_creates].
  intros [e5 t5] Ht5. cbn [snd] in Ht5. apply wp_bind. destruct e5 as [e5|]; cbn [negb andb is_some].
  - apply wp_bind, ok_condition; [done|]. intros t6 Ht6. cbn [wp]. apply wp_bind, ok_condition; [done|].
    by intros t7 Ht7.
  - apply wp_bind. eapply wp_mono; [|by apply ensureCertificate_creates].
    intros [[e6|] t6] Ht6; cbn [snd] in Ht6; cbn [wp negb].
    + apply wp_bind, ok_condition; [done|]. by intros t7 Ht7.
    + apply ensured_creates; [apply ensureGateway_creates|done].
Qed.

Lemma reconcileTenant_creates r tn t :
  ident tn t → ok (r_tenantSpecificGateways r) tn (reconcileTenant r t) (λ _, True).
Proof.
  intros Ht. unfold reconcileTenant. set (gw := r_tenantSpecificGateways r).
  assert (∀ t r, ok gw tn (updateAndReturn t r) (λ _, True)) as Hend.
  { intros t0 r0. cbn. split; [exact I|]. by intros [|] _. }
  apply wp_bind. eapply wp_mono; [|by apply ensureNamespace_creates].
  intros [[e|] t1] Ht1; cbn in Ht1; [destruct e; apply Hend|].
  apply wp_bind. eapply wp_mono; [|by apply (collect_creates gw tn t1)].
  intros [[e|] t2] Ht2; cbn in Ht2; [apply Hend|].
  apply wp_bind. eapply wp_mono; [|by apply (collect_creates gw tn t2)].
  intros [[e|] t3] Ht3; cbn in Ht3; [apply Hend|].
  apply wp_bind. eapply wp_mono; [|by apply reconcileResources_creates].
  intros [last t4] Ht4. cbn. split; [exact I|]. intros [u|e] _; [|done]. by destruct last.
Qed.

Lemma Reconcile_creates r tn : ok (r_tenantSpecificGateways r) tn (Reconcile r tn) (λ _, True).
Proof.
  unfold Reconcile. cbn [wp prog_bind call]. split; [exact I|]. intros [t|e] Hg; [|by case_match].
  destruct Hg as [Hn Hns]. assert (ident tn t) as Ht by done. case_match.
  - unfold reconcileDeleted, ensureDeleted. cbn [wp prog_bind call]. split; [exact I|].
    intros [rollouts|e] _; [|done]. destruct (0 <? length rollouts)%nat; cbn [wp prog_bind call].
    + split; [exact I|]. by intros [e|] _.
    + split; [exact I|]. intros [cas|e] _; [|done]. cbn [wp prog_bind call]. case_match; [|done].
      case_match; [|done]. cbn [wp prog_bind call]. split; [exact I|]. by intros [|] _.
  - case_match; [by apply reconcileTenant_creates|]. cbn [wp prog_bind call]. split; [exact I|].
    intros [t'|e] Hu; [|done]. apply reconcileTenant_creates. destruct Hu as [Hu1 Hu2].
    split; [|done]. unfold t_Name. rewrite Hu1. by destruct t as [[] ? ?].
Qed.

(** *** The watches *)

(** The object as the server keeps it: more may be in its metadata than the
    controller sent, but its key and its owners are the same. *)
Definition stored (m sent : ObjectMeta) : Prop :=
  om_Name m = om_Name sent ∧ om_Namespace m = om_Namespace sent ∧ om_OwnerReferences m = om_OwnerReferences sent.
Definition tells (e : wevent) (m : ObjectMeta) : Prop :=
  e = Created m ∨ e = Deleted m ∨ ∃ old, e = Updated old m.
(** Lists of tenants are answered, and [tn] is in them. *)
Definition lists_tenant (tn : string) (o : top) : resp o → Prop :=
  match o return resp o → Prop with
  | K (KList KTenant _) => λ r, match r with Ok l => ∃ t, t ∈ l ∧ t_Name t = tn | Err _ => False end
  | _ => λ _, True
  end.
(** The watch leads from the object to the tenant: it does so for any change
    of it, of a namespace for its creation and its deletion. *)
Definition leads_back (tn : string) (k : tkind) (h : handler top) (sent : ObjectMeta) : Prop :=
  ∀ m e tr l, stored m sent → tells e m → (k = KNamespace → ∀ old new, e ≠ Updated old new) →
    exec (deliver h e) tr (Done l) → answers (lists_tenant tn) tr → ("", tn) ∈ l.

Lemma owned_requests tn m : owned_by tn m → ("", tn) ∈ ownersOf "config.cloudrobotics.com" "Tenant" false m.
Proof.
  intros (ref & Hrefs & Ha & Hk & Hn). unfold ownersOf. rewrite Hrefs. cbn [ownerRequests]. rewrite Ha, Hk, Hn.
  change (gv_group "config.cloudrobotics.com/v1alpha1") with (Some "config.cloudrobotics.com").
  cbn. by left.
Qed.
Lemma forOwner_leads_back tn k sent : owned_by tn sent → leads_back tn k forOwner sent.
Proof.
  intros Ho m e tr l (_ & _ & Hrefs) He _ HE _.
  assert (("", tn) ∈ ownersOf "config.cloudrobotics.com" "Tenant" false m) as Hin.
  { apply owned_requests. destruct Ho as (ref & ? & ?). exists ref. by rewrite Hrefs. }
  destruct He as [-> |[-> |[old ->]]]; destruct HE as [_ [= ->]]; [done..|]. apply elem_of_app. by right.
Qed.

Lemma enqueueFromNamespaceName_tenant tn ns tr l :
  tn ≠ DefaultTenantName →
  ns = TenantMainNamespace tn ∨ ns = RobotConfigNamespace (TenantMainNamespace tn) →
  exec (enqueueFromNamespaceName ns) tr (Done l) → answers (lists_tenant tn) tr → tn ∈ l.
Proof.
  intros Hd Hns HE HA.
  assert (∃ s, ns = "t-" +:+ (tn +:+ s)) as [s ->].
  { assert (TenantMainNamespace tn = "t-" +:+ tn) as Hm.
    { unfold TenantMainNamespace. by rewrite bool_decide_eq_false_2. }
    rewrite Hm in Hns. destruct Hns as [-> | ->].
    - exists "". by rewrite app_empty_r.
    - exists ("-" +:+ RobotConfigCloudNamespace). unfold RobotConfigNamespace.
      rewrite bool_decide_eq_false_2 by done. by rewrite !app_assoc_s. }
  assert (∀ x, HasPrefix ("t-" +:+ x) TenantPrefix = true) as Hp by by intros [].
  assert (∀ x, SplitN2 ("t-" +:+ x) "-" = ["t"; x]) as Hsplit by by intros [].
  unfold enqueueFromNamespaceName in HE. rewrite Hp, Hsplit in HE. cbn [exec prog_bind call] in HE.
  destruct HE as ([items|e] & tr' & -> & HE); cbn in HA; [|by destruct HA].
  destruct HE as [_ [= ->]]. destruct HA as [(t & Hin & <-) _]. apply list_elem_of_filter. split.
  - apply HasPrefix_app.
  - apply list_elem_of_In, in_map, list_elem_of_In, Hin.
Qed.
Lemma onNamespace_leads_back tn sent (h := Funcs (Some onNamespace) None (Some onNamespace)) :
  tn ≠ DefaultTenantName →
  om_Name sent = TenantMainNamespace tn ∨ om_Name sent = RobotConfigNamespace (TenantMainNamespace tn) →
  leads_back tn KNamespace h sent.
Proof.
  intros Hd Hns m e tr l (Hn & _ & _) He Hu HE HA.
  assert (exec (onNamespace m) tr (Done l)) as HE'.
  { destruct He as [-> |[-> |[old ->]]]; [exact HE|exact HE|]. by destruct (Hu eq_refl old m). }
  unfold onNamespace in HE'. apply exec_bind in HE' as [(? & _ & ?)|(t1 & t2 & names & -> & HE1 & HE2)]; [done|].
  destruct HE2 as [-> [= ->]]. rewrite app_nil_r in HA. unfold named. apply list_elem_of_In, in_map_iff.
  exists tn. split; [done|]. apply list_elem_of_In. eapply enqueueFromNamespaceName_tenant; [done| |done|done].
  by rewrite Hn.
Qed.

(** Once the manager starts, everything is registered. *)
Lemma Add_exec d g gw t r :
  exec (Add d g gw) t (Done r) →
  (r = None ∧ t = existT (NewController "tenant-controller" (mkReconciler d g gw)) None
                    :: map (λ x, existT (Watch x.1.1 x.1.2) None) (watches gw)) ∨
  (is_some r = true ∧ ∀ a, existT Start a ∉ t).
Proof.
  unfold Add. cbn [exec prog_bind call]. intros ([err|] & t' & -> & HE).
  - destruct HE as [-> [= ->]]. right. split; [done|].
    intros a Hin%list_elem_of_singleton. by apply (f_equal (@projT1 _ _)) in Hin.
  - apply watchAll_exec in HE as [[-> ->]|[Hr Hc]]; [by left|]. right. split; [done|].
    intros a Hin. apply elem_of_cons in Hin as [Hin|Hin]; [by apply (f_equal (@projT1 _ _)) in Hin|].
    by pose proof (answers_elem _ _ _ _ Hc Hin).
Qed.

Lemma main_started f t out a :
  exec (main f) t out → existT Start a ∈ t →
  let gw := bool_decide (ToLower (tenantSpecificGateways f) = "true") in
  ∃ post, t = existT (NewManager (webhookPort f)) None
      :: existT (NewController "tenant-controller" (mkReconciler (domain f) (defaultGateway f) gw)) None
      :: map (λ x, existT (Watch x.1.1 x.1.2) None) (watches gw) ++
      existT (SetCertDir (certDir f)) tt :: existT (Register "/tenant/validate" gw) tt :: existT Start a :: post.
Proof.
  intros HE Hin gw.
  assert (∀ text t out (a : option error), exec (fatal (R:=Reconciler) (W:=tkind) (V:=bool) (Op:=top) text) t out →
    existT Start a ∉ t) as Hfatal.
  { intros text t0 o0 a0. cbn. intros ([] & ? & -> & -> & _) H%list_elem_of_singleton.
    by apply (f_equal (@projT1 _ _)) in H. }
  assert (∀ o (r : resp o) t, o ≠ Start → existT Start a ∈ existT o r :: t → existT Start a ∈ t) as Hskip.
  { intros o r t0 Hne [H|H]%elem_of_cons; [|done]. apply (f_equal (@projT1 _ _)) in H. by destruct Hne. }
  unfold main in HE. cbn [exec prog_bind call] in HE. destruct HE as ([err|] & t1 & -> & HE).
  { apply Hskip in Hin; [|done]. by apply Hfatal with (a:=a) in HE. }
  apply Hskip in Hin; [|done].
  case_bool_decide; [by apply Hfatal with (a:=a) in HE|].
  apply exec_bind in HE as [(m & HE & _)|(t2 & t3 & e & -> & HE1 & HE2)].
  { exfalso. unfold Add in HE. cbn [exec prog_bind call] in HE.
    destruct HE as ([e|] & t2 & -> & HE); [by destruct HE|]. by apply watchAll_no_panic in HE. }
  apply Add_exec in HE1 as [[-> ->]|[He Hno]].
  2: { destruct e as [e|]; [|done]. apply elem_of_app in Hin as [Hin|Hin]; [by apply Hno in Hin|].
       by apply Hfatal with (a:=a) in HE2. }
  cbn [exec prog_bind call] in HE2. destruct HE2 as ([] & t4 & -> & HE).
  cbn [exec prog_bind call] in HE. destruct HE as ([] & t5 & -> & HE).
  cbn [exec prog_bind call] in HE. destruct HE as (s & t6 & -> & HE).
  assert (s = a) as ->.
  { cbn [app] in Hin. apply Hskip in Hin; [|done]. apply elem_of_app in Hin as [Hin|Hin].
    - apply list_elem_of_In, in_map_iff in Hin as (x & Hx & _). by apply (f_equal (@projT1 _ _)) in Hx.
    - apply Hskip in Hin; [|done]. apply Hskip in Hin; [|done].
      apply elem_of_cons in Hin as [Hin|Hin].
      + apply (f_equal (λ e : event mopT, match e with existT Start a => Some a | _ => None end)) in Hin. by injection Hin.
      + exfalso. destruct s as [err|]; [by apply Hfatal with (a:=a) in HE|]. destruct HE as [-> _]. by apply not_elem_of_nil in Hin. }
  by exists t6.
Qed.

(** C16: whatever the tenant controller creates for a tenant, but the config
    map, leads back to that tenant.  Once its manager starts, the reconciler
    and the webhook use the same setting for tenant-specific gateways, and
    every kind of object that a reconciliation creates under this setting is
    watched such that a later change of the object (of a namespace: its
    creation or deletion) puts the tenant on the queue again. *)
Theorem tenant_objects_lead_back f t out a :
  exec (main f) t out → existT Start a ∈ t →
  let r := mkReconciler (domain f) (defaultGateway f) (bool_decide (ToLower (tenantSpecificGateways f) = "true")) in
    existT (NewController "tenant-controller" r) None ∈ t ∧
    existT (Register "/tenant/validate" (r_tenantSpecificGateways r)) tt ∈ t ∧
    ∀ tn tr o k x b, exec (Reconcile r tn) tr o → answers tenant_answers tr →
      existT (K (KCreate k x)) b ∈ tr → k ≠ KConfigMap →
      ∃ h, existT (Watch k h) None ∈ t ∧ leads_back tn k h (kmeta k x).
Proof.
  intros HE Hin. destruct (main_started f t out a HE Hin) as (post & ->). clear HE Hin.
  set (gw := bool_decide _). set (r := mkReconciler _ _ gw). cbn zeta.
  split_and!; [by right; left|do 2 right; apply elem_of_app; right; by right; left|].
  intros tn tr o k x b HE HA Hc Hk.
  destruct (wp_exec _ _ _ _ _ _ _ (Reconcile_creates r tn) HE HA) as [HG _].
  pose proof (answers_elem _ _ _ _ HG Hc) as (Hkind & Hown & Hns). cbn [r_tenantSpecificGateways r] in Hkind.
  assert (∀ h w, (k, h, w) ∈ watches gw → leads_back tn k h (kmeta k x) →
    ∃ h, existT (Watch k h) None ∈ existT (NewManager (webhookPort f)) None :: existT (NewController "tenant-controller" r) None
      :: map (λ x, existT (Watch x.1.1 x.1.2) None) (watches gw) ++
      existT (SetCertDir (certDir f)) tt :: existT (Register "/tenant/validate" gw) tt :: existT Start a :: post ∧
      leads_back tn k h (kmeta k x)) as Hex.
  { intros h w Hw Hl. exists h. split; [|done]. do 2 right. apply elem_of_app. left.
    apply list_elem_of_In, in_map_iff. exists (k, h, w). split; [done|]. by apply list_elem_of_In. }
  assert (∀ w, (k, forOwner, w) ∈ watches gw → _) as Howner
    by (intros w Hw; exact (Hex forOwner w Hw (forOwner_leads_back _ _ _ Hown))).
  unfold createdKinds in Hkind.
  repeat (apply elem_of_cons in Hkind as [Hkind|Hkind]; [subst k|]); try done.
  - destruct (Hns eq_refl) as [Hd Hname]. eapply Hex; [by right; left|by apply onNamespace_leads_back].
  - eapply Howner. by do 2 right; left.
  - eapply Howner. by do 3 right; left.
  - eapply Howner. by do 4 right; left.
  - cbn [app] in Hkind. destruct gw eqn:Hgw; [|by apply not_elem_of_nil in Hkind].
    repeat (apply elem_of_cons in Hkind as [Hkind|Hkind]; [subst k|]); [..|by apply not_elem_of_nil in Hkind].
    + eapply Howner. by do 6 right; left.
    + eapply Howner. by do 7 right; left.
    + eapply Howner. by do 8 right; left.
Qed.
End tenants.

(** *** Witnesses, and the exception *)
Section demo.
Import Tenant.Model.

Definition demoTenants : Tenants.flags := Tenants.mkFlags "/tls" "example.org" 9876 "istio/default" "True".
Definition demoManager {Op R W V} `{Effect Op} (o : mop Op R W V) (s : unit) : option (resp o * unit) :=
  match o return option (resp o * unit) with
  | ParseParams _ => Some (Ok [], s)
  | Getenv _ => Some ("robot-1", s)
  | SetLimits _ _ | SetCertDir _ | Register _ _ | Fatal _ => Some (tt, s)
  | Serve _ => Some (ServerEnded (EText "listener closed"), s)
  | InClusterConfig | NewManager _ | NewReleases | NewController _ _ | IndexField _ _ | Watch _ _ | Start =>
      Some (None, s)
  end.
Definition demoStart {Op R W V A} `{Effect Op} (p : prog (mop Op R W V) A) := run demoManager p tt.

(** A server that refuses all creations. *)
Definition refuse (o : top) : resp o → resp o :=
  match o return resp o → resp o with
  | K ko =>
      match ko return resp (K ko) → resp (K ko) with
      | KCreate _ _ => λ _, Err (EText "quota exceeded")
      | _ => λ r, r
      end
  | _ => λ r, r
  end.
Definition refusing (o : top) (s : unit) : option (resp o * unit) :=
  match Tenant.demoAPI (Tenant.demoTenant false) o s with
  | Some (r, s) => Some (refuse o r, s)
  | None => None
  end.
Definition demoReconcile : list (event Tenant.Model.top) :=
  trace_of (run refusing (Tenant.Model.Reconcile (Tenant.demoReconciler true) "acme") tt).

Lemma tenant_objects_lead_back_witness :
  let t := trace_of (demoStart (Tenants.main demoTenants)) in
  ∃ x b h, demoReconcile !! 2%nat = Some (existT (Tenant.Model.K (KCreate Tenant.Model.KNamespace x)) b) ∧
    existT (Watch Tenant.Model.KNamespace h) None ∈ t ∧ leads_back "acme" Tenant.Model.KNamespace h (ns_meta x).
Proof.
  intros t.
  assert (exec (Tenants.main demoTenants) t (Done 0%Z)) as HE by (apply run_exec; vm_compute; reflexivity).
  assert (∃ i, t !! i = Some (existT Start None)) as [i Hi] by (exists 14%nat; vm_compute; reflexivity).
  apply list_elem_of_lookup_2 in Hi.
  destruct (tenant_objects_lead_back demoTenants t _ _ HE Hi) as (_ & _ & Hback).
  assert (∃ x b, demoReconcile !! 2%nat = Some (existT (Tenant.Model.K (KCreate Tenant.Model.KNamespace x)) b)) as (x & b & Hx)
    by (do 2 eexists; vm_compute; reflexivity).
  assert (exec (Tenant.Model.Reconcile (Tenant.demoReconciler true) "acme") demoReconcile
     (Done (Tenant.Model.mkResult 0, Some (EWrap "ensure namespace" (EText "quota exceeded"))))) as HR
    by (apply run_exec; vm_compute; reflexivity).
  assert (answers tenant_answers demoReconcile) as HA by (vm_compute; by repeat split).
  destruct (Hback "acme" demoReconcile _ Tenant.Model.KNamespace x b HR HA (list_elem_of_lookup_2 _ _ _ Hx) ltac:(done)) as (h & Hh & Hl).
  exists x, b, h. exact (conj Hx (conj Hh Hl)).
Defined.

Definition demoRobot : Assignments.flags := Assignments.mkFlags false true true 9876 "/tls" 50.

Lemma admitted_assignments_are_handled_witness :
  let r := ChartAssign.Model.mkReconciler "robot-1" false in
  let ca := ChartAssign.demoAssignment false in
  let tr := ChartAssign.demoTrace false (ChartAssign.Model.reconcile r ca) in
  (3 ≤ length tr)%nat ∧ ∃ o,
  exec (ChartAssign.Model.Reconcile r "default" "nav")
    (existT (ChartAssign.Model.K (KGet ChartAssign.Model.KChartAssignment "default" "nav")) (Ok ca) :: tr) o.
Proof.
  intros r ca tr. split; [apply Nat.leb_le; vm_compute; reflexivity|].
  assert (∃ o, exec (ChartAssign.Model.reconcile r ca) tr o) as [o HE].
  { destruct (ChartAssign.demoAssignment_exec false (ChartAssign.Model.reconcile r ca)) as (o & _ & HE);
      [vm_compute; reflexivity|]. exists o. exact HE. }
  clearbody tr. set (t := trace_of (demoStart (Assignments.main demoRobot))).
  assert (exec (Assignments.main demoRobot) t (Done 1%Z)) as Hrun by (apply run_exec; vm_compute; reflexivity).
  assert (t !! 5%nat = Some (existT (NewController "chartassignment" r) None)) as Hc%list_elem_of_lookup_2
    by (vm_compute; reflexivity).
  assert (t !! 10%nat = Some (existT (Register "/chartassignment/validate" "robot-1") tt)) as Hr%list_elem_of_lookup_2
    by (vm_compute; reflexivity).
  destruct (admitted_assignments_are_handled demoRobot t _ _ _ _ Hrun Hc) as (_ & _ & _ & _ & _ & Hreg).
  destruct (Hreg _ _ _ Hr) as (_ & _ & Hadm). exists o.
  apply (Hadm (λ _, []) (λ _, []) ca None "default" "nav" tr o); [reflexivity|vm_compute; reflexivity|exact HE].
Defined.
End demo.

(** The config map is the exception: the watch of config maps only looks at
    the template, so that nothing happens when a tenant's copy is changed or
    deleted, although the copy names the tenant as its owner. *)
Theorem config_maps_do_not_lead_back gw h w tn m :
  (Tenant.Model.KConfigMap, h, w) ∈ Tenants.watches gw → tn ≠ DefaultTenantName →
  om_Namespace m = RobotConfigNamespace (TenantMainNamespace tn) →
  ∀ e, tells e m → ∀ tr l, exec (deliver h e) tr (Done l) → l = [].
Proof.
  intros Hin Htn Hns e He tr l HE.
  assert (h = Funcs (Some Tenants.onConfigMap) (Some (λ _ new, Tenants.onConfigMap new)) (Some Tenants.onConfigMap)) as ->.
  { unfold Tenants.watches in Hin. destruct gw; cbn [app] in Hin;
      repeat (apply elem_of_cons in Hin as [Hin|Hin]; [by try injection Hin as ->|]); by apply not_elem_of_nil in Hin. }
  assert (exec (Tenants.onConfigMap m) tr (Done l)) as HE' by (destruct He as [-> |[-> |[old ->]]]; exact HE).
  assert (om_Namespace m ≠ RobotConfigCloudNamespace) as Hne.
  { rewrite Hns. unfold RobotConfigNamespace, TenantMainNamespace. rewrite !(bool_decide_eq_false_2 (tn = _)) by done.
    rewrite bool_decide_eq_false_2 by done. by destruct tn. }
  unfold Tenants.onConfigMap, Tenant.Model.watchedConfigMap in HE'.
  rewrite (bool_decide_eq_false_2 (om_Namespace m = _)) in HE' by done. rewrite andb_false_r in HE'.
  by destruct HE' as [_ [= ->]].
Qed.

(** The rollout controller's watches deliver what [onEvent] enqueues. *)
Definition rolloutEvent (k : Rollout.Model.rkind) (e : wevent) : option Rollout.Model.watchEvent :=
  match k, e with
  | Rollout.Model.KAppRollout, (Created m | Updated _ m | Deleted m) => Some (Rollout.Model.RolloutEvent m)
  | Rollout.Model.KChartAssignment, Created m => Some (Rollout.Model.AssignmentCreated m)
  | Rollout.Model.KChartAssignment, Updated old m => Some (Rollout.Model.AssignmentUpdated old m)
  | Rollout.Model.KChartAssignment, Deleted m => Some (Rollout.Model.AssignmentDeleted m)
  | Rollout.Model.KRobot, Created m => Some (Rollout.Model.RobotCreated m)
  | Rollout.Model.KRobot, Updated old m => Some (Rollout.Model.RobotUpdated old m)
  | Rollout.Model.KRobot, Deleted m => Some (Rollout.Model.RobotDeleted m)
  | Rollout.Model.KApp, (Created m | Updated _ m | Deleted m) => Some (Rollout.Model.AppEvent m)
  | Rollout.Model.KTenant, _ => None
  end.
Theorem rollout_watches_are_onEvent k e we :
  rolloutEvent k e = Some we →
  ∃ h w, (k, h, w) ∈ Rollouts.watches ∧
    ∀ tr l, exec (deliver h e) tr (Done l) ↔ ∃ delay, exec (Rollout.Model.onEvent we) tr (Done (delay, l)).
Proof.
  assert (∀ we tr l, exec (Rollouts.requests we) tr (Done l) ↔ ∃ delay, exec (Rollout.Model.onEvent we) tr (Done (delay, l))) as Hreq.
  { intros we' tr l. unfold Rollouts.requests. rewrite exec_bind. split.
    - intros [(? & _ & ?)|(t1 & t2 & [d l'] & -> & HE1 & -> & [= ->])]; [done|]. exists d. by rewrite app_nil_r.
    - intros [d HE]. right. exists tr, [], (d, l). by rewrite app_nil_r. }
  unfold Rollouts.watches. destruct k, e; cbn [rolloutEvent]; intros [= <-].
  all: try (eexists _, _; split; [by do 3 right; left|]; intros; apply Hreq).
  all: try (eexists _, _; split; [by left|]; intros; cbn; naive_solver).
  all: try (eexists _, _; split; [by right; left|]; intros; first [apply Hreq|cbn; naive_solver]).
  all: eexists _, _; split; [by do 2 right; left|]; intros; apply Hreq.
Qed.
