(* ===== verification/CrSyncerMain.v ===== *)
(** * The cr-syncer program (src/go/cmd/cr-syncer: main.go, health.go)

    [Model] has what surrounds the syncers of [CrSyncer]: the transports of
    the two clusters' clients, the stream of changes of the CRDs, the health
    check and start-up.  The loop over CRDs is [CrSyncer.Model.crdLoop]. *)
From stdpp Require Import prelude strings list gmap.
From Stdlib Require Import Ascii ZArith.
From S2P Require Import Prelude GoStr GoErr Kube CrSyncer.
Import CrSyncer.Model.

Open Scope string_scope.
Open Scope prog_scope.

Module Model.

(** ** Transports *)

(** A request as far as the layers look at it: the location tag of its
    context, and the token it carries. *)
Record request := mkRequest { rq_location : option string; rq_token : option string }.
(** The layers of a transport, outermost first: [ctxRoundTripper],
    [ochttp.Transport], [loghttp.Transport], [oauth2.Transport]. *)
Inductive layer := CtxLayer (location : string) | MetricsLayer | LogLayer | OAuth2Layer.
(** What a layer reports of a request: a measurement under a location, or a
    log line about the request as it arrives there. *)
Inductive observation := Measured (location : option string) | Logged (r : request).

Definition withContext (location : string) (r : request) : request := mkRequest (Some location) (rq_token r).
Fixpoint RoundTrip (layers : list layer) (token : string) (r : request) : list observation * request :=
  match layers with
  | [] => ([], r)
  | CtxLayer l :: layers => RoundTrip layers token (withContext l r)
  | MetricsLayer :: layers =>
      let '(obs, sent) := RoundTrip layers token r in (Measured (rq_location r) :: obs, sent)
  | LogLayer :: layers => let '(obs, sent) := RoundTrip layers token r in (Logged r :: obs, sent)
  | OAuth2Layer :: layers => RoundTrip layers token (mkRequest (rq_location r) (Some token))
  end.

(** The [WrapTransport] functions, around a base transport. *)
Definition localTransport (verbose : bool) (base : list layer) : list layer :=
  let rt := if verbose then LogLayer :: base else base in
  let rt := MetricsLayer :: rt in
  CtxLayer "local" :: rt.
Definition remoteTransport (verbose : bool) (base : list layer) : list layer :=
  let rt := OAuth2Layer :: base in
  let rt := if verbose then LogLayer :: rt else rt in
  let rt := MetricsLayer :: rt in
  CtxLayer "remote" :: rt.

Record flags := mkFlags {
  remoteServer : string; robotName : string; verbose : bool; listenAddr : string;
  timeout : Z; namespace : string }.
Record restConfig := mkRestConfig { Host : string; WrapTransport : list layer → list layer; Timeout : Z }.

(** ** Calls *)

Inductive mop : Type :=
| InClusterConfig
| NewTag (location : string)             (* tag.New *)
| NewDynamicClient (remote : bool)       (* dynamic.NewForConfig *)
| DefaultTokenSource
| NewExporter
| Handle (path : string)
| ListenAndServe (addr : string)         (* in a goroutine *)
| RunCRDInformer                         (* in a goroutine *)
| WaitForCRDs                            (* cache.WaitForCacheSync *)
| AddCRDHandlers
| NextCRD                                (* the channel of changes *)
| StopSyncer (s : crSyncer)
| RunSyncer (s : crSyncer)               (* in a goroutine *)
| ListRobots
| HTTPError (msg : string) (code : Z)
| Fatal (text : string).
#[export] Instance mop_effect : Effect mop := λ o,
  match o with
  | InClusterConfig | NewTag _ | NewDynamicClient _ | DefaultTokenSource | NewExporter => option error
  | WaitForCRDs => bool
  | NextCRD => option CrdChange
  | ListRobots => option error
  | _ => unit
  end.

(** [restConfigForRemote]; a [time.Duration] wraps around like an int64. *)
Definition restConfigForRemote (f : flags) : prog mop (result restConfig) :=
  let! t := call DefaultTokenSource in
  match t with
  | Some err => Ret (Err err)
  | None =>
  let! c := call (NewTag "remote") in
  match c with
  | Some err => Ret (Err err)
  | None => Ret (Ok (mkRestConfig ("https://" ++ remoteServer f) (remoteTransport (verbose f))
                       (int64 (Second * int64 (timeout f + 5)))))
  end end.

(** ** The stream of CRDs *)

Definition streamCrds : prog mop (option error) :=
  call RunCRDInformer ;;!
  let! ok := call WaitForCRDs in
  if (ok : bool) then call AddCRDHandlers ;;! Ret None
  else Ret (Some (EText "WaitForCacheSync failed")).

(** What the informer hands to the handlers; a deletion whose last state is
    not known comes as a tombstone. *)
Inductive informed :=
| OnAdd (crd : CRD)
| OnUpdate (old new : CRD)
| OnDelete (crd : CRD)
| OnDeleteUnknown (key : string) (crd : CRD).
(** The handlers of [streamCrds]; [None] is the panic of the failed cast. *)
Definition change (i : informed) : option CrdChange :=
  match i with
  | OnAdd crd => Some (mkCrdChange Added crd)
  | OnUpdate _ crd => Some (mkCrdChange Modified crd)
  | OnDelete crd => Some (mkCrdChange Deleted crd)
  | OnDeleteUnknown _ _ => None
  end.

(** ** Health *)

(** [handler.ServeHTTP]: the status of the answer is 200 unless an error is
    written. *)
Definition ServeHTTP : prog mop unit :=
  let! l := call ListRobots in
  match l with
  | Some err => if IsUnauthorized err then call (HTTPError "unhealthy" 500) else Ret ()
  | None => Ret ()
  end.

(** ** Start-up *)

(** The loop over the changes, of which the model takes [n]; the effects of a
    change are done in order. *)
Fixpoint doEffects (l : list effect) : prog mop unit :=
  match l with
  | [] => Ret ()
  | Stop s :: l => call (StopSyncer s) ;;! doEffects l
  | Run s :: l => call (RunSyncer s) ;;! doEffects l
  end.
Fixpoint crds (f : flags) (n : nat) (syncers : gmap string crSyncer) : prog mop (gmap string crSyncer) :=
  match n with
  | O => Ret syncers
  | S n =>
      let! c := call NextCRD in
      match c with
      | None => Ret syncers
      | Some c =>
          let '(syncers, log) := onCrdChange (namespace f) (robotName f) c (syncers, []) in
          doEffects log ;;! crds f n syncers
      end
  end.

Definition fatal (text : string) : prog mop (option (gmap string crSyncer)) := call (Fatal text) ;;! Ret None.

(** [None]: the program ended. *)
Definition main (f : flags) (n : nat) : prog mop (option (gmap string crSyncer)) :=
  let! c := call InClusterConfig in
  match c with Some err => fatal (error_text err) | None =>
  let! t := call (NewTag "local") in
  match t with Some err => fatal (error_text err) | None =>
  let! l := call (NewDynamicClient false) in
  match l with Some err => fatal (error_text err) | None =>
  let! r := restConfigForRemote f in
  match r with Err err => fatal (error_text err) | Ok remoteConfig =>
  let! d := call (NewDynamicClient true) in
  match d with Some err => fatal (error_text err) | None =>
  let! e := call NewExporter in
  match e with Some err => fatal (error_text err) | None =>
  call (Handle "/debug") ;;!
  call (Handle "/metrics") ;;!
  call (Handle "/health") ;;!
  call (ListenAndServe (listenAddr f)) ;;!
  let! s := streamCrds in
  match s with
  | Some err => fatal ("Unable to stream CRDs from local Kubernetes: " ++ error_text err)
  | None => let! syncers := crds f n ∅ in Ret (Some syncers)
  end end end end end end end.

End Model.

(** * Properties *)
Import Model.

(** ** Transports *)

(** Requests to the remote cluster carry the token and are measured under
    "remote"; a verbose program logs them as the client made them, before the
    token is added. *)
Theorem remote_requests (v : bool) token r :
  let '(obs, sent) := RoundTrip (remoteTransport v []) token r in
  sent = mkRequest (Some "remote") (Some token) ∧
  Measured (Some "remote") ∈ obs ∧ (∀ l, Measured l ∈ obs → l = Some "remote") ∧
  (∀ r', Logged r' ∈ obs → v = true ∧ rq_token r' = rq_token r).
Proof. destruct v, r; cbn; set_solver. Qed.
Theorem local_requests (v : bool) token r :
  let '(obs, sent) := RoundTrip (localTransport v []) token r in
  sent = mkRequest (Some "local") (rq_token r) ∧ (∀ l, Measured l ∈ obs → l = Some "local").
Proof. destruct v, r; cbn; set_solver. Qed.

(** ** Health *)

(** The check fails exactly when the remote cluster does not know the caller
    any more; every other error counts as healthy. *)
Theorem health_fails_iff t out :
  exec ServeHTTP t out →
  out = Done tt ∧ ∃ l post, t = existT ListRobots l :: post ∧
    (post = [] ∨ post = [existT (HTTPError "unhealthy" 500) tt]) ∧
    (post ≠ [] ↔ ∃ err, l = Some err ∧ IsUnauthorized err = true).
Proof.
  unfold ServeHTTP. cbn [exec prog_bind call]. intros ([err|] & t' & -> & HE).
  - destruct (IsUnauthorized err) eqn:Hu; cbn in HE.
    + destruct HE as ([] & ? & -> & -> & ->). split; [done|]. eexists _, _. split; [done|]. split; [by right|].
      split; [intros _; by exists err|done].
    + destruct HE as [-> ->]. split; [done|]. eexists _, _. split; [done|]. split; [by left|].
      split; [done|]. intros (e & [= <-] & He). congruence.
  - destruct HE as [-> ->]. split; [done|]. eexists _, _. split; [done|]. split; [by left|].
    split; [done|]. by intros (e & ? & _).
Qed.

(** ** The syncers of the program *)

(** The changes a run received, and the syncers it stopped and started. *)
Definition change_of (e : event mop) : option CrdChange :=
  match e with existT NextCRD c => c | _ => None end.
Definition effect_of (e : event mop) : option effect :=
  match projT1 e with StopSyncer s => Some (Stop s) | RunSyncer s => Some (Run s) | _ => None end.
Definition changes_of (t : list (event mop)) : list CrdChange := omap change_of t.
Definition effects_of (t : list (event mop)) : list effect := omap effect_of t.

Lemma changes_of_app t1 t2 : changes_of (t1 ++ t2) = (changes_of t1 ++ changes_of t2)%list.
Proof. apply omap_app. Qed.
Lemma effects_of_app t1 t2 : effects_of (t1 ++ t2) = (effects_of t1 ++ effects_of t2)%list.
Proof. apply omap_app. Qed.

Lemma doEffects_exec l t out :
  exec (doEffects l) t out → out = Done tt ∧ effects_of t = l ∧ changes_of t = [].
Proof.
  revert t. induction l as [|[s|s] l IH]; intros t; cbn [doEffects].
  - by intros [-> ->].
  - cbn [exec prog_bind call]. intros ([] & t' & -> & HE). destruct (IH _ HE) as (-> & He & Hc).
    split; [done|]. cbn. by rewrite <-He, <-Hc.
  - cbn [exec prog_bind call]. intros ([] & t' & -> & HE). destruct (IH _ HE) as (-> & He & Hc).
    split; [done|]. cbn. by rewrite <-He, <-Hc.
Qed.

Lemma onCrdChange_log ns robot c syncers log :
  onCrdChange ns robot c (syncers, log) =
  let '(syncers', log') := onCrdChange ns robot c (syncers, []) in (syncers', log ++ log')%list.
Proof.
  unfold onCrdChange. destruct (syncers !! _) as [cur|]; destruct (ch_Type c);
    repeat match goal with |- context [newCRSyncer ?a ?b ?c] => destruct (newCRSyncer a b c) end;
    cbn; rewrite <-?(assoc_L (++)), ?app_nil_r; done.
Qed.
Lemma crds_exec f n syncers log t out :
  exec (crds f n syncers) t out →
  ∃ syncers', out = Done syncers' ∧
    foldl (λ st c, onCrdChange (namespace f) (robotName f) c st) (syncers, log) (changes_of t) =
    (syncers', log ++ effects_of t)%list.
Proof.
  revert syncers log t. induction n as [|n IH]; intros syncers log t HE; cbn [crds] in HE.
  - destruct HE as [-> ->]. exists syncers. split; [done|]. cbn. by rewrite app_nil_r.
  - cbn [exec prog_bind call] in HE. destruct HE as ([c|] & t' & -> & HE).
    2: { destruct HE as [-> ->]. exists syncers. split; [done|]. cbn. by rewrite app_nil_r. }
    destruct (onCrdChange _ _ c (syncers, [])) as [syncers1 log1] eqn:Hc.
    apply exec_bind in HE as [(m & HE & ->)|(t1 & t2 & [] & -> & HE1 & HE2)].
    { by apply doEffects_exec in HE as [? _]. }
    apply doEffects_exec in HE1 as (_ & He & Hch).
    destruct (IH _ (log ++ log1)%list _ HE2) as (syncers' & -> & Hf). exists syncers'. split; [done|].
    change (changes_of (existT NextCRD (Some c) :: t1 ++ t2)%list) with (c :: changes_of (t1 ++ t2))%list.
    change (effects_of (existT NextCRD (Some c) :: t1 ++ t2)%list) with (effects_of (t1 ++ t2)).
    rewrite changes_of_app, effects_of_app, Hch, He. cbn [foldl app]. rewrite onCrdChange_log, Hc, Hf.
    by rewrite (assoc_L (++)).
Qed.

Definition before_crds (o : mop) : Prop :=
  match o with NextCRD | StopSyncer _ | RunSyncer _ => False | _ => True end.
Lemma before_crds_quiet t : calls before_crds t → changes_of t = [] ∧ effects_of t = [].
Proof. induction t as [|[o r] t IH]; [done|]. intros [Ho Hc]. destruct (IH Hc). by destruct o. Qed.

Lemma fatal_before text t out :
  exec (fatal text) t out → out = Done None ∧ calls before_crds t.
Proof. cbn. intros ([] & ? & -> & -> & ->). by repeat split. Qed.

(** C22: the program runs one syncer per CRD.  In every run, at any point of its
    loop: the syncers it has stopped and started, replayed in order, show that
    it never started a syncer while another ran for the same CRD and stopped
    only running ones; those that run are the ones it remembers, and they are
    exactly the ones the last change of each CRD asks for.  A run that ends
    before has started none. *)
Theorem program_runs_one_syncer f n t out :
  exec (main f n) t out →
  (out = Done None ∧ effects_of t = []) ∨
  ∃ syncers, out = Done (Some syncers) ∧ replay (effects_of t) ∅ = Some syncers ∧
    ∀ name, syncers !! name = wanted (namespace f) (robotName f) (changes_of t) name.
Proof.
  intros HE.
  assert (∃ pre post, t = (pre ++ post)%list ∧ calls before_crds pre ∧
    ((out = Done None ∧ post = []) ∨ exec (let! syncers := crds f n ∅ in Ret (Some syncers)) post out)) as
    (pre & post & -> & Hpre & Hpost).
  { assert (∀ pre p text out, exec (fatal text) p out → calls before_crds pre → ∃ pre' post,
      (pre ++ p)%list = (pre' ++ post)%list ∧ calls before_crds pre' ∧
      ((out = Done None ∧ post = []) ∨ exec (let! syncers := crds f n ∅ in Ret (Some syncers)) post out)) as Hend.
    { intros pre p text o [-> Hp]%fatal_before Hpre. exists (pre ++ p)%list, []. rewrite app_nil_r.
      split_and!; [done| |by left]. by apply answers_app. }
    unfold main in HE. cbn [exec prog_bind call] in HE. destruct HE as ([e|] & t1 & -> & HE).
    { eapply (Hend [_]); [exact HE|by repeat split]. }
    cbn [exec prog_bind call] in HE. destruct HE as ([e|] & t2 & -> & HE).
    { eapply (Hend [_; _]); [exact HE|by repeat split]. }
    cbn [exec prog_bind call] in HE. destruct HE as ([e|] & t3 & -> & HE).
    { eapply (Hend [_; _; _]); [exact HE|by repeat split]. }
    unfold restConfigForRemote in HE. cbn [exec prog_bind call] in HE. destruct HE as ([e|] & t4 & -> & HE).
    { eapply (Hend [_; _; _; _]); [exact HE|by repeat split]. }
    cbn [exec prog_bind call] in HE. destruct HE as ([e|] & t5 & -> & HE).
    { eapply (Hend [_; _; _; _; _]); [exact HE|by repeat split]. }
    cbn [exec prog_bind call] in HE. destruct HE as ([e|] & t6 & -> & HE).
    { eapply (Hend [_; _; _; _; _; _]); [exact HE|by repeat split]. }
    cbn [exec prog_bind call] in HE. destruct HE as ([e|] & t7 & -> & HE).
    { eapply (Hend [_; _; _; _; _; _; _]); [exact HE|by repeat split]. }
    do 5 (cbn [exec prog_bind call streamCrds] in HE; destruct HE as ([] & ? & -> & HE)).
    cbn [exec prog_bind call] in HE. destruct HE as ([] & t9 & -> & HE).
    - cbn [exec prog_bind call] in HE. destruct HE as ([] & t10 & -> & HE).
      eexists [_; _; _; _; _; _; _; _; _; _; _; _; _; _], t10. split; [reflexivity|].
      split; [by repeat split|]. by right.
    - eapply (Hend [_; _; _; _; _; _; _; _; _; _; _; _; _]); [exact HE|by repeat split]. }
  destruct (before_crds_quiet _ Hpre) as [Hch Hef]. rewrite effects_of_app, changes_of_app, Hch, Hef. cbn [app].
  destruct Hpost as [[-> ->]|HE']; [by left|]. right.
  apply exec_bind in HE' as [(m & HE' & ->)|(t1 & t2 & syncers & -> & HE1 & HE2)].
  { by apply (crds_exec f n ∅ []) in HE' as (? & ? & _). }
  destruct HE2 as [-> ->]. rewrite app_nil_r. exists syncers. split; [done|].
  apply (crds_exec f n ∅ []) in HE1 as (syncers' & [= <-] & Hf).
  pose proof (crdLoop_one_syncer (namespace f) (robotName f) (changes_of t1)) as Hone.
  unfold crdLoop in Hone. rewrite Hf in Hone. cbn [app] in Hone. by destruct Hone.
Qed.

(** A deletion that the informer learns of late crashes the program: the
    handler expects the definition, not a tombstone. *)
Lemma late_deletion_crashes key crd : change (OnDeleteUnknown key crd) = None ∧ change (OnDelete crd) = Some (mkCrdChange Deleted crd).
Proof. done. Qed.

(** *** Witness: a definition is added, changed and deleted. *)
Definition demoCRD (src : string) : CRD :=
  mkCRD "goals.crc.io" (Some {[annotationSpecSource := src]}) "crc.io" "goals" true [mkCRDVersion "v1" true false].
Definition demoFlags : flags := mkFlags "cloud.example.org" "robot-1" false ":80" 300 "default".
Definition demoHost (o : mop) (s : list CrdChange) : option (resp o * list CrdChange) :=
  match o return option (resp o * list CrdChange) with
  | NextCRD => Some (head s, tail s)
  | WaitForCRDs => Some (true, s)
  | InClusterConfig | NewTag _ | NewDynamicClient _ | DefaultTokenSource | NewExporter | ListRobots => Some (None, s)
  | Handle _ | ListenAndServe _ | RunCRDInformer | AddCRDHandlers | StopSyncer _ | RunSyncer _ | HTTPError _ _ | Fatal _ =>
      Some (tt, s)
  end.
Definition demoRun :=
  run demoHost (main demoFlags 3) [mkCrdChange Added (demoCRD "cloud"); mkCrdChange Modified (demoCRD "robot")].

Lemma program_runs_one_syncer_witness :
  ∃ syncers, replay (effects_of (trace_of demoRun)) ∅ = Some syncers ∧ length (effects_of (trace_of demoRun)) = 3%nat ∧
    syncers !! "goals.crc.io" = wanted "default" "robot-1" (changes_of (trace_of demoRun)) "goals.crc.io".
Proof.
  assert (is_some (outcome_of demoRun) = true) as Hd by by vm_compute.
  destruct (run_exec_some demoHost (main demoFlags 3) _ Hd) as (out & Hout & HE).
  assert (length (effects_of (trace_of demoRun)) = 3%nat) as Hl by by vm_compute.
  destruct (program_runs_one_syncer demoFlags 3 _ _ HE) as [[_ He]|(syncers & _ & Hr & Hw)].
  - exfalso. change (effects_of (trace_of demoRun) = []) in He. rewrite He in Hl. done.
  - exists syncers. split; [exact Hr|]. split; [exact Hl|]. apply Hw.
Defined.
