(* ===== verification/Setup.v ===== *)
(** * Interactive set-up (src/go/pkg/setup, pkg/setup/util) and the rest of
    src/go/pkg/kubeutils

    [Terminal] is setupcommon.go and factory.go: the choice of a robot on a
    terminal.  [Kubeutils] has the names of contexts, the client configurations and
    the prefixing round tripper of kubeutils.go; its [ExpandUser] is in
    [MetadataServer], its [UpdateSecret] in [SetupRobot]. *)
From stdpp Require Import prelude strings list gmap.
From Stdlib Require Import Ascii ZArith.
From S2P Require Import Prelude GoStr GoErr Kube MetadataServer.

Open Scope string_scope.
Open Scope prog_scope.

(** ** Choosing a robot *)
Module Terminal.

(** A Robot as it is shown: [spec] is absent when it is not a map. *)
Record Robot := mkRobot { rb_Name : string; rb_Created : time; rb_Spec : option (list (string * json)) }.

(** An address of an interface: an [*net.IPNet] with an IPv4 or another
    address, or another type. *)
Inductive address := IPv4Net (ip : string) | IPv6Net (ip : string) | OtherAddr.

Inductive uop : Type :=
| Print (text : string)
| LogPrint (text : string)
| Stderr (text : string)
| IsTerminal
| Scan                         (* fmt.Scan of one word *)
| ListRobots
| GetRobot (name : string)
| Interfaces                   (* the names of the interfaces *)
| Addrs (name : string).
#[export] Instance uop_effect : Effect uop := λ o,
  match o with
  | Print _ | LogPrint _ | Stderr _ => unit
  | IsTerminal => bool
  | Scan => result string
  | ListRobots => result (list Robot)
  | GetRobot _ => result Robot
  | Interfaces => result (list string)
  | Addrs _ => result (list address)
  end.

(** *** factory.go *)

(** [strconv.Atoi]: an optional sign and decimal digits, within an int. *)
Definition signed (s : string) : bool * string :=
  match s with
  | String c s' => if Ascii.eqb c "-"%char then (true, s') else if Ascii.eqb c "+"%char then (false, s') else (false, s)
  | EmptyString => (false, s)
  end.
Definition Atoi (s : string) : result Z :=
  let '(neg, digits) := signed s in
  if all_digits digits && negb (bool_decide (digits = "")) then
    let v := if (neg : bool) then (- digits_val 0 digits)%Z else digits_val 0 digits in
    if (- 2 ^ 63 <=? v)%Z && (v <? 2 ^ 63)%Z then Ok v
    else Err (EText ("strconv.Atoi: parsing " ++ fmt_q s ++ ": value out of range"))
  else Err (EText ("strconv.Atoi: parsing " ++ fmt_q s ++ ": invalid syntax")).

Definition ScanInt : prog uop (result Z) :=
  let! s := call Scan in
  Ret (match s with
       | Err err => Err err
       | Ok s => Atoi s
       end).

(** The first IPv4 address of an interface; the addresses of all interfaces
    whose name starts with the prefix are tried in order. *)
Definition addressIP (a : address) (_ : unit) : prog uop (result string + unit) :=
  match a with
  | IPv4Net ip => Ret (inl (Ok ip))
  | _ => Ret (inr ())
  end.
Definition interfaceIP (namePrefix name : string) (_ : unit) : prog uop (result string + unit) :=
  if HasPrefix name namePrefix then
    let! a := call (Addrs name) in
    match a with
    | Err err => Ret (inl (Err err))
    | Ok addrs => for_each addressIP addrs ()
    end
  else Ret (inr ()).
Definition GetNetworkInterfaceIP (namePrefix : string) : prog uop (result string) :=
  let! i := call Interfaces in
  match i with
  | Err err => Ret (Err err)
  | Ok ifaces =>
      let! r := for_each (interfaceIP namePrefix) ifaces () in
      Ret (match r with
           | inl r => r
           | inr _ => Err (EText ("Could not look up IP of interface with prefix: " ++ namePrefix))
           end)
  end.

(** *** setupcommon.go *)

(** [%-nv] and [%nv] on text of one byte per character. *)
Definition spaces (n : nat) : string := Nat.iter n (String " "%char) "".
Definition padRight (n : nat) (s : string) : string := s ++ spaces (n - String.length s).
Definition padLeft (n : nat) (s : string) : string := spaces (n - String.length s) ++ s.

Section select.
(** [%v] of a JSON value, and the text of a time. *)
Context (fmt_v : json → string) (timeString : time → string).

Definition specType (spec : list (string * json)) : json :=
  match list_find (λ kv, kv.1 = "type") spec with
  | Some (_, (_, v)) => v
  | None => JNull
  end.
Fixpoint showRobots (i : Z) (robots : list Robot) : prog uop unit :=
  match robots with
  | [] => Ret ()
  | robot :: robots =>
      match rb_Spec robot with
      | None => call (LogPrint "unmarshaling robot failed: spec is not a map") ;;! showRobots (i + 1) robots
      | Some spec =>
          call (Print (padLeft 3 (fmt_d (i + 1)) ++ " " ++ padRight 20 (rb_Name robot) ++ " "
            ++ padRight 10 (fmt_v (specType spec)) ++ " " ++ timeString (rb_Created robot) ++ String "010"%char "")) ;;!
          showRobots (i + 1) robots
      end
  end.

(** The loop has no end of its own: [None] is a loop that runs on when the
    fuel ends. *)
Fixpoint askNumber (fuel : nat) (n : Z) : prog uop (option Z) :=
  match fuel with
  | O => Ret None
  | S fuel =>
      let! i := ScanInt in
      match i with
      | Ok ix => if (1 <=? ix)%Z && (ix <=? n)%Z then Ret (Some ix)
                 else call (Print ("Please enter a number (1-" ++ fmt_d n ++ "): ")) ;;! askNumber fuel n
      | Err _ => call (Print ("Please enter a number (1-" ++ fmt_d n ++ "): ")) ;;! askNumber fuel n
      end
  end.

Definition selectRobot (fuel : nat) (robots : list Robot) : prog uop (option string) :=
  call (Print ("  # " ++ padRight 20 "Name" ++ " " ++ padRight 10 "Type" ++ " " ++ padRight 16 "Create Time" ++ String "010"%char "")) ;;!
  showRobots 0 robots ;;!
  call (Print "Select robot: ") ;;!
  let! ix := askNumber fuel (Z.of_nat (length robots)) in
  match ix with
  | None => Ret None
  | Some ix =>
      match robots !! Z.to_nat (ix - 1) with
      | None => Panic "index out of range"
      | Some robot => Ret (Some (rb_Name robot))
      end
  end.

(** [err.(\*apierrors.StatusError)] with the reason NotFound: nothing is
    unwrapped. *)
Definition isStatusNotFound (err : error) : bool :=
  match err with EStatus _ reason _ => bool_decide (reason = "NotFound") | _ => false end.

(** How [GetRobotName] ends: with its results, or with the process. *)
Inductive chosen := Named (r : result string) | Exited (code : Z) | Asking.

Definition GetRobotName (fuel : nat) (robotName : string) : prog uop chosen :=
  if bool_decide (robotName = "") then
    let! t := call IsTerminal in
    if (t : bool) then
      let! l := call ListRobots in
      match l with
      | Err err => Ret (Named (Err err))
      | Ok robots =>
          let! r := selectRobot fuel robots in
          Ret (match r with Some name => Named (Ok name) | None => Asking end)
      end
    else call (Stderr ("ERROR: --robot-name not specified" ++ String "010"%char "")) ;;! Ret (Exited 1)
  else
    let! g := call (GetRobot robotName) in
    Ret (Named (match g with
         | Ok _ => Ok robotName
         | Err err =>
             if isStatusNotFound err then Err (EText ("robot " ++ robotName ++ " not found")) else Err err
         end)).
End select.

End Terminal.

(** ** kubeutils.go *)
Module Kubeutils.
Import MetadataServer.Model.

Definition LocalContext : string := "kubernetes-admin@kubernetes".
Definition localConfig : string := "~/.kube/config".

(** The environment, and client-go's loading of a kubeconfig with a context. *)
Inductive kuop : Type :=
| User (o : sop)
| LookupEnv (name : string)
| ClientConfig (path context : string).
(** A [rest.Config]: the host, and whether requests carry a token. *)
Record restConfig := mkRestConfig { Host : string; Authenticated : bool }.
#[export] Instance kuop_effect : Effect kuop := λ o,
  match o with
  | User o => resp o
  | LookupEnv _ => option string
  | ClientConfig _ _ => result restConfig
  end.

Definition CloudKubernetesContextName (projectID region : string) : string :=
  "gke_" ++ projectID ++ "_" ++ region ++ "-c_cloud-robotics".
Definition GetCloudKubernetesContext : prog kuop (result string) :=
  let! p := call (LookupEnv "GCP_PROJECT_ID") in
  match p with
  | None => Ret (Err (EText "GCP_PROJECT_ID environment variable is not defined"))
  | Some gcpProjectID =>
      let! r := call (LookupEnv "GCP_REGION") in
      match r with
      | None => Ret (Err (EText "GCP_REGION environment variable is not defined"))
      | Some gcpRegion => Ret (Ok (CloudKubernetesContextName gcpProjectID gcpRegion))
      end
  end.
Definition GetRobotKubernetesContext : prog kuop (result string) :=
  let! p := call (LookupEnv "GCP_PROJECT_ID") in
  match p with
  | None => Ret (Err (EText "GCP_PROJECT_ID environment variable is not defined"))
  | Some gcpProjectID => Ret (Ok (gcpProjectID ++ "-robot"))
  end.

Section config.
Context (filepath_Join : string → string → string).
Definition LoadOutOfClusterConfig (context : string) : prog kuop (result restConfig) :=
  let! path := interp (λ o, call (User o)) (ExpandUser filepath_Join localConfig) in
  call (ClientConfig path context).
Definition LoadOutOfClusterConfigLocal : prog kuop (result restConfig) := LoadOutOfClusterConfig LocalContext.
End config.

(** The URL of a request, which the round tripper changes in place. *)
Record URL := mkURL { Scheme : string; Path : string }.
Definition RoundTrip (Prefix : string) (u : URL) : URL :=
  mkURL "https" (if negb (HasPrefix (Path u) (Prefix ++ "/")) then Prefix ++ Path u else Path u).

Definition BuildCloudKubernetesConfig (remoteServer : string) : restConfig :=
  mkRestConfig ("https://" ++ remoteServer) true.

End Kubeutils.

(** * Properties *)
Import Terminal.

(** ** Numbers *)
Lemma Atoi_range s z : Atoi s = Ok z → (- 2 ^ 63 ≤ z < 2 ^ 63)%Z.
Proof.
  unfold Atoi. destruct (signed s) as [neg digits]. destruct (all_digits digits && _); [|done].
  destruct (_ <=? _)%Z eqn:H1; [|done]. destruct (_ <? _)%Z eqn:H2; [|done]. cbn. intros [= <-].
  apply Z.leb_le in H1. apply Z.ltb_lt in H2. done.
Qed.
Example Atoi_examples :
  Atoi "12" = Ok 12%Z ∧ Atoi "+7" = Ok 7%Z ∧ Atoi "-3" = Ok (-3)%Z ∧
  is_ok (Atoi "") = false ∧ is_ok (Atoi "1x") = false ∧ is_ok (Atoi "9223372036854775808") = false.
Proof. vm_compute. done. Qed.

(** ** The choice *)

Definition scan_of (e : event uop) : option (result string) :=
  match e with existT Scan s => Some s | _ => None end.
Definition scans (t : list (event uop)) : list (result string) := omap scan_of t.
Lemma scans_app t1 t2 : scans (t1 ++ t2) = (scans t1 ++ scans t2)%list.
Proof. apply omap_app. Qed.

(** What the user entered is the number of one of [n] robots. *)
Definition choice (n : Z) (s : result string) : option Z :=
  match s with
  | Ok w => match Atoi w with
            | Ok ix => if (1 <=? ix)%Z && (ix <=? n)%Z then Some ix else None
            | Err _ => None
            end
  | Err _ => None
  end.

Lemma askNumber_exec fuel n t out :
  exec (askNumber fuel n) t out →
  (out = Done None ∧ length (scans t) = fuel ∧ Forall (λ s, choice n s = None) (scans t)) ∨
  (∃ pre s ix, out = Done (Some ix) ∧ scans t = (pre ++ [s])%list ∧ Forall (λ s, choice n s = None) pre ∧
     choice n s = Some ix).
Proof.
  revert t. induction fuel as [|fuel IH]; intros t HE; cbn [askNumber] in HE.
  { destruct HE as [-> ->]. by left. }
  unfold ScanInt in HE. cbn [exec prog_bind call] in HE. destruct HE as (s & t' & -> & HE).
  assert ((∃ ix, choice n s = Some ix ∧ t' = [] ∧ out = Done (Some ix)) ∨
    (choice n s = None ∧ ∃ text t2, t' = existT (Print text) tt :: t2 ∧ exec (askNumber fuel n) t2 out)) as [H|H].
  { unfold choice. destruct s as [w|e]; [destruct (Atoi w) as [ix|e]|].
    - destruct ((1 <=? ix)%Z && (ix <=? n)%Z).
      + destruct HE as [-> ->]. left. by exists ix.
      + cbn [exec prog_bind call] in HE. destruct HE as ([] & t2 & -> & HE). right. split; [done|]. by eexists _, _.
    - cbn [exec prog_bind call] in HE. destruct HE as ([] & t2 & -> & HE). right. split; [done|]. by eexists _, _.
    - cbn [exec prog_bind call] in HE. destruct HE as ([] & t2 & -> & HE). right. split; [done|]. by eexists _, _. }
  - destruct H as (ix & Hc & -> & ->). right. by exists [], s, ix.
  - destruct H as (Hc & text & t2 & -> & HE2). change (scans (existT Scan s :: existT (Print text) tt :: t2)) with (s :: scans t2).
    destruct (IH _ HE2) as [(-> & Hl & Hf)|(pre & s' & ix & -> & Hs & Hf & Hs')].
    + left. split; [done|]. split; [by rewrite <-Hl|by constructor].
    + right. exists (s :: pre), s', ix. rewrite Hs. split_and!; [done|done|by constructor|done].
Qed.

Lemma showRobots_exec fmt_v timeString i robots t out :
  exec (showRobots fmt_v timeString i robots) t out → out = Done tt ∧ scans t = [].
Proof.
  revert i t. induction robots as [|r robots IH]; intros i t; cbn [showRobots].
  - by intros [-> ->].
  - intros HE. destruct (rb_Spec r); cbn [exec prog_bind call] in HE; destruct HE as ([] & t' & -> & HE);
      destruct (IH _ _ HE) as [-> Hs]; done.
Qed.

(** The user's choice: [selectRobot] never fails; it returns the robot
    whose number is the first valid number entered, counted from 1 in the order
    of the list, and goes on asking exactly as long as no such number was
    entered.  In particular it never returns when there are no robots. *)
Lemma selectRobot_outcome fmt_v timeString fuel robots t out :
  exec (selectRobot fmt_v timeString fuel robots) t out →
  let n := Z.of_nat (length robots) in
  (out = Done None ∧ length (scans t) = fuel ∧ Forall (λ s, choice n s = None) (scans t)) ∨
  (∃ pre s ix robot, out = Done (Some (rb_Name robot)) ∧ scans t = (pre ++ [s])%list ∧
     Forall (λ s, choice n s = None) pre ∧ choice n s = Some ix ∧ robots !! Z.to_nat (ix - 1) = Some robot ∧ robots ≠ []).
Proof.
  unfold selectRobot. intros HE. set (n := Z.of_nat (length robots)). cbv zeta. cbn [exec prog_bind call] in HE. destruct HE as ([] & t1 & -> & HE).
  apply exec_bind in HE as [(m & HE & _)|(t2 & t3 & [] & -> & HE1 & HE2)]; [by apply showRobots_exec in HE as [? _]|].
  apply showRobots_exec in HE1 as [_ Hs1]. cbn [exec prog_bind call] in HE2. destruct HE2 as ([] & t4 & -> & HE).
  change (scans (existT (Print _) tt :: t2 ++ existT (Print _) tt :: t4)%list) with (scans (t2 ++ existT (Print "Select robot: ") tt :: t4)%list).
  rewrite scans_app, Hs1. cbn [app]. change (scans (existT (Print _) tt :: t4)) with (scans t4).
  apply exec_bind in HE as [(m & HE & ->)|(t5 & t6 & ix & -> & HE1 & HE2)].
  { destruct (askNumber_exec _ _ _ _ HE) as [(? & _)|(? & ? & ? & ? & _)]; done. }
  rewrite scans_app. destruct (askNumber_exec _ _ _ _ HE1) as [([= ->] & Hl & Hf)|(pre & s & i & [= ->] & Hs & Hf & Hc)].
  - destruct HE2 as [-> ->]. left. rewrite app_nil_r. done.
  - right. assert (1 ≤ i ≤ n)%Z as Hi.
    { unfold choice in Hc. destruct s as [w|]; [|done]. destruct (Atoi w) as [ix|]; [|done].
      destruct (1 <=? ix)%Z eqn:H1; [|done]. destruct (ix <=? _)%Z eqn:H2; [|done]. cbn in Hc. injection Hc as ->.
      apply Z.leb_le in H1, H2. done. }
    destruct (robots !! Z.to_nat (i - 1)) as [robot|] eqn:Hr.
    + destruct HE2 as [-> ->]. rewrite app_nil_r. exists pre, s, i, robot. split_and!; try done. by destruct robots.
    + apply lookup_ge_None in Hr. unfold n in Hi. lia.
Qed.

(** With an empty list the question has no answer, and a closed standard input
    answers none: in both cases the loop has no end, however often it asks. *)
Lemma no_robots_no_end fmt_v timeString fuel t out :
  exec (selectRobot fmt_v timeString fuel []) t out → out = Done None.
Proof.
  intros HE. destruct (selectRobot_outcome _ _ _ _ _ _ HE) as [[-> _]|(pre & s & ix & r & _ & _ & _ & _ & _ & H)]; done.
Qed.
Lemma closed_input_no_end fmt_v timeString fuel robots t out :
  Forall (λ s, is_ok s = false) (scans t) →
  exec (selectRobot fmt_v timeString fuel robots) t out → out = Done None.
Proof.
  intros Hs HE. destruct (selectRobot_outcome _ _ _ _ _ _ HE) as [[-> _]|(pre & s & ix & r & _ & Hp & _ & Hc & _)]; [done|].
  rewrite Hp in Hs. apply Forall_app in Hs as [_ Hs]. apply Forall_cons in Hs as [Hs _]. by destruct s.
Qed.

(** GetRobotName "returns a valid robot name or an error".  The name it
    returns is that of a robot which the API server has just returned: the
    robot asked for by name, or one of the list from which the user chose.  It
    ends the process only when no name is given and no terminal is there to
    ask on, and it asks for ever only while no valid number is entered. *)
Theorem GetRobotName_valid fmt_v timeString fuel robotName t out :
  exec (GetRobotName fmt_v timeString fuel robotName) t out →
  ∃ c, out = Done c ∧
  match c with
  | Named (Ok name) =>
      (robotName ≠ "" ∧ name = robotName ∧ ∃ robot, existT (GetRobot name) (Ok robot) ∈ t) ∨
      (robotName = "" ∧ ∃ robots robot, existT ListRobots (Ok robots) ∈ t ∧ robot ∈ robots ∧ rb_Name robot = name)
  | Named (Err err) =>
      existT ListRobots (Err err) ∈ t ∨
      ∃ err', existT (GetRobot robotName) (Err err') ∈ t ∧
        err = if isStatusNotFound err' then EText ("robot " ++ robotName ++ " not found") else err'
  | Exited code => robotName = "" ∧ existT IsTerminal false ∈ t ∧ code = 1%Z
  | Asking => robotName = "" ∧ ∃ robots, existT ListRobots (Ok robots) ∈ t ∧
      length (scans t) = fuel ∧ Forall (λ s, choice (Z.of_nat (length robots)) s = None) (scans t)
  end.
Proof.
  unfold GetRobotName. case_bool_decide as Hn; intros HE; cbn [exec prog_bind call] in HE.
  - destruct HE as (b & t1 & -> & HE). destruct b; cbn [exec prog_bind call] in HE.
    2:{ destruct HE as ([] & t2 & -> & -> & ->). eexists. split; [done|]. split_and!; [done|by left|done]. }
    destruct HE as (l & t2 & -> & HE). destruct l as [robots|err]; [|destruct HE as [-> ->]; eexists; split; [done|]; left; right; by left].
    assert (existT ListRobots (Ok robots) ∈ (existT IsTerminal true :: existT ListRobots (Ok robots) :: t2 : list (event uop))) as Hl by (right; by left).
    apply exec_bind in HE as [(m & HE & _)|(t3 & t4 & r & -> & HE & HR)].
    { destruct (selectRobot_outcome _ _ _ _ _ _ HE) as [(? & _)|(? & ? & ? & ? & ? & _)]; done. }
    destruct HR as [-> ->]. rewrite app_nil_r in *.
    destruct (selectRobot_outcome _ _ _ _ _ _ HE) as [([= ->] & Hs)|(pre & s & ix & robot & [= ->] & _ & _ & _ & Hr & _)];
      eexists; (split; [done|]).
    + split; [done|]. by exists robots.
    + right. split; [done|]. exists robots, robot. split_and!; [done|by eapply list_elem_of_lookup_2|done].
  - destruct HE as (g & t1 & -> & -> & ->). eexists. split; [done|]. destruct g as [robot|err].
    + left. split_and!; [done|done|]. exists robot. by left.
    + destruct (isStatusNotFound err) eqn:He; right; exists err; rewrite He; (split; [by left|done]).
Qed.
Definition shown := [mkRobot "r1" 0%Z (Some [("type", JString "mir")]); mkRobot "r2" 1%Z None].
Definition demoTerminal (o : uop) (words : list string) : option (resp o * list string) :=
  match o with
  | Print _ | LogPrint _ | Stderr _ => Some (tt, words)
  | IsTerminal => Some (true, words)
  | Scan => Some (match words with w :: _ => Ok w | [] => Err (EText "EOF") end, drop 1 words)
  | ListRobots => Some (Ok shown, words)
  | GetRobot _ => Some (Err (EText "no server"), words)
  | Interfaces => Some (Ok ["lo"; "eth0"], words)
  | Addrs _ => Some (Ok [IPv6Net "fe80::1"; IPv4Net "10.0.0.2"], words)
  end.
Definition demoChoice (words : list string) (name : string) :=
  run demoTerminal (GetRobotName (λ _, "mir") (λ _, "2020") 3 name) words.
Example choices :
  outcome_of (demoChoice ["0"; "x"; "2"] "") = Some (Done (Named (Ok "r2"))) ∧
  outcome_of (demoChoice [] "") = Some (Done Asking) ∧
  outcome_of (demoChoice [] "r1") = Some (Done (Named (Err (EText "no server")))) ∧
  outcome_of (run demoTerminal (GetNetworkInterfaceIP "eth") []) = Some (Done (Ok "10.0.0.2")).
Proof. vm_compute. done. Qed.
Lemma GetRobotName_valid_witness :
  let t := trace_of (demoChoice ["0"; "x"; "2"] "") in
  ("" ≠ "" ∧ "r2" = "" ∧ ∃ robot, existT (GetRobot "r2") (Ok robot) ∈ t) ∨
  ("" = "" ∧ ∃ robots robot, existT ListRobots (Ok robots) ∈ t ∧ robot ∈ robots ∧ rb_Name robot = "r2").
Proof.
  assert (exec (GetRobotName (λ _, "mir") (λ _, "2020") 3 "") (trace_of (demoChoice ["0"; "x"; "2"] "")) (Done (Named (Ok "r2")))) as HE
    by (apply run_exec; vm_compute; reflexivity).
  destruct (GetRobotName_valid _ _ _ _ _ _ HE) as (c & Hc & H). injection Hc as <-. exact H.
Defined.

(** ** The prefixing round tripper *)

(** The prefix is added once, however often the request passes (a retried
    request is changed in place), when the path is absolute; *)
Lemma RoundTrip_idemp Prefix u :
  HasPrefix (Kubeutils.Path u) "/" = true →
  Kubeutils.RoundTrip Prefix (Kubeutils.RoundTrip Prefix u) = Kubeutils.RoundTrip Prefix u.
Proof.
  intros Hp. unfold Kubeutils.RoundTrip. cbn. destruct (HasPrefix (Kubeutils.Path u) (Prefix ++ "/")) eqn:He; cbn; [by rewrite He|].
  replace (HasPrefix (Prefix ++ Kubeutils.Path u) (Prefix ++ "/")) with true; [done|].
  symmetry. clear He. induction Prefix as [|c Prefix IH]; [done|].
  change ((Ascii.eqb c c && HasPrefix (Prefix ++ Kubeutils.Path u) (Prefix ++ "/")) = true). by rewrite Ascii.eqb_refl.
Qed.
(** an empty path, which is also absolute for HTTP, gets it each time. *)
Example empty_path_prefixed_twice :
  Kubeutils.Path (Kubeutils.RoundTrip "/core" (Kubeutils.RoundTrip "/core" (Kubeutils.mkURL "http" ""))) = "/core/core".
Proof. done. Qed.
