(* ===== verification/Deploy.v ===== *)
(** * From an AppRollout to the objects of its charts

    What the components do together: the assignments that [Rollout] generates
    before the webhook of [ChartAssign], and the worker of a release in
    [ChartAssign.Release] with the package modelled in [Synk] behind its calls. *)
From stdpp Require Import prelude strings list gmap.
From Stdlib Require Import Ascii ZArith.
From S2P Require Import Prelude GoStr GoErr Kube Apps Synk Rollout ChartAssign.

Open Scope string_scope.
Open Scope prog_scope.

(** ** A release's worker on the cluster *)
Module Worker.
Import Synk.Model ChartAssign.Release.

(** The worker's calls other than synk's, and synk's. *)
Inductive iop : Type := Wk (o : wop) | Sy (o : sop).
#[export] Instance iop_effect : Effect iop := λ o, match o with Wk o => resp o | Sy o => resp o end.

Section worker.
Context (L : Libs) (SL : Synk.Model.Libs).

Definition onCluster {A : Type} (p : prog sop A) : prog iop A := interp (λ o, call (Sy o)) p.
(** [r.synk.Apply] and [r.synk.Delete]. *)
Definition attach (o : wop) : prog iop (resp o) :=
  match o return prog iop (resp o) with
  | SynkApply name opts resources =>
      let! r := onCluster (Synk.Model.Apply SL name (Some opts) resources) in Ret r.2
  | SynkDelete name => onCluster (Synk.Model.DeleteSet name)
  | o => call (Wk o)
  end.
Definition worker (t : ChartAssign.Model.task) : prog iop unit :=
  interp attach (ChartAssign.System.taskProg L t).
End worker.

End Worker.

(** * Properties *)

(** ** Where synk writes *)
Section places.
Import Synk.Model.
Context (L : Libs) (ns name : string).

(** The namespaces an installation into [ns] may write to. *)
Definition inside (n : string) : Prop := n = "" ∨ n = ns ∨ n = "kube-system".
(** How the API server answers: CRDs are cluster-scoped, an object is returned
    in the namespace it was written to, a ResourceSet under its name. *)
Definition places (o : sop) : resp o → Prop :=
  match o return resp o → Prop with
  | RESTMap gvk => λ m,
      match m with
      | Ok m => gvk_Kind gvk ≠ "" ∧
          (gvk_Group gvk = "apiextensions.k8s.io" → gvk_Kind gvk = "CustomResourceDefinition" → m_Root m = true)
      | Err _ => True
      end
  | Create t _ | Update t _ | Patch t _ _ _ => λ u, match u with Ok u => u_Namespace u = t.2 | Err _ => True end
  | CreateResourceSet rs => λ r, match r with Ok rs' => rs_Name rs' = rs_Name rs | Err _ => True end
  | _ => λ _, True
  end.
Definition placed (o : sop) : Prop :=
  match o with
  | Create t _ | Update t _ | Patch t _ _ _ | Delete t _ => inside t.2
  | CreateResourceSet rs | UpdateResourceSet rs => ∃ v, rs_Name rs = resourceSetName name v
  | DeleteResourceSet n => ∃ v, decodeResourceSetName n = Some (Some (name, v))
  | DeleteResourceSets selector => selector = "name=" ++ name
  | _ => True
  end.
Abbreviation ok := (wp places placed any_panic).
Definition belongs (u : Unstructured) : Prop := isCustomResourceDefinition u = true ∨ inside (u_Namespace u).

Lemma CRD_kind u : isCustomResourceDefinition u = true →
  gvk_Kind (GroupVersionKind u) = "" ∨
  (gvk_Group (GroupVersionKind u) = "apiextensions.k8s.io" ∧ gvk_Kind (GroupVersionKind u) = "CustomResourceDefinition").
Proof.
  unfold isCustomResourceDefinition. rewrite andb_true_iff, bool_decide_eq_true. intros [Hp Hk].
  apply HasPrefix_iff in Hp as [r Hr]. unfold GroupVersionKind. rewrite Hr.
  rewrite !bool_decide_eq_false_2 by done. cbn [orb].
  assert (∃ n, Split ("apiextensions.k8s.io/" +:+ r) "/" = "apiextensions.k8s.io" :: Split_go n r "/") as [n ->]
    by (exists (20 + String.length r)%nat; by destruct r).
  destruct (Split_go n r "/") as [|v [|w l]] eqn:E; [|right|by left].
  - exfalso. revert E. destruct n; cbn; [done|]. by repeat case_match.
  - by rewrite Hk.
Qed.

Lemma belongs_target u m : belongs u → places (RESTMap (GroupVersionKind u)) (Ok m) →
  inside (if m_Root m then "" else u_Namespace u).
Proof.
  intros Hu [Hk Hroot]. destruct (m_Root m) eqn:Hr; [by left|]. destruct Hu as [Hc|?]; [|done].
  destruct (CRD_kind u Hc) as [?|[??]]; [done|]. by specialize (Hroot ltac:(done) ltac:(done)).
Qed.
Lemma belongs_same u u' : u_Namespace u' = u_Namespace u → u_Kind u' = u_Kind u → u_APIVersion u' = u_APIVersion u →
  belongs u → belongs u'.
Proof. unfold belongs, isCustomResourceDefinition. intros Hn Hk Ha. rewrite Hn, Hk, Ha. tauto. Qed.

Lemma belongs_answer u n : inside n → u_Namespace u = n → belongs u.
Proof. intros Hn Hu. right. by rewrite Hu. Qed.

Lemma applyOne_replace_placed t r e : inside t.2 → belongs r →
  ok (applyOne_replace t r e) (λ x, belongs x.1.1).
Proof.
  intros Ht Hr. unfold applyOne_replace. destruct (canReplace r e); [|done]. unfold replace. cbn.
  split; [done|]. intros [err|] _; [done|]. cbn. split; [done|]. intros [u|err] Hu; [|done].
  by eapply belongs_answer.
Qed.
Lemma applyOne_update_placed t m reset r current : inside t.2 → belongs r →
  ok (applyOne_update L t m reset r current) (λ x, belongs x.1.1).
Proof.
  intros Ht Hr. unfold applyOne_update. destruct (MarshalJSON L current); [|done].
  destruct (MarshalJSON L r); [|done]. set (cur := if reset then _ else _).
  assert (belongs (u_setMeta (om_setResourceVersion (om_ResourceVersion (u_meta cur)) (u_meta r)) r)) as Hr'.
  { eapply belongs_same; [..|exact Hr]; [|done..]. unfold u_Namespace. cbn. by destruct (u_meta r). }
  case_match; [destruct (makePatch _ _ _ _ _) as [[pt p]|]; [|done]|];
    cbn; (split; [done|]); (intros [u|err] Hu; [by eapply belongs_answer|by apply applyOne_replace_placed]).
Qed.
Lemma applyOne_placed r set : belongs r → ok (applyOne L r set) (λ x, belongs x.1.1).
Proof.
  intros Hr. unfold applyOne. case_bool_decide; [done|]. cbn [wp prog_bind call]. split; [done|].
  intros [m|e] Hm; [|done]. pose proof (belongs_target _ _ Hr Hm) as Ht.
  destruct (setAppliedAnnotation L r) as [annErr r'] eqn:Ha.
  apply setAppliedAnnotation_keeps in Ha as (_ & Hk & _ & Hns & Hav & _).
  assert (belongs r') as Hr' by (by eapply belongs_same).
  cbn [wp prog_bind call]. split; [done|]. intros [current|e] _.
  - destruct (validateOwnerRefs current set) as [[e|]|]; [done| |done]. by apply applyOne_update_placed.
  - destruct (IsNotFound e); [|done]. cbn. split; [done|]. intros [u|err] Hu; [|done]. by eapply belongs_answer.
Qed.

(** The resources at work. *)
Abbreviation all store := (Forall belongs store).
Lemma belongs_at store i : all store → belongs (at_ store i).
Proof.
  intros Hs. unfold at_. destruct (store !! i) as [u|] eqn:Hu; [|right; by left].
  by eapply Forall_lookup_1.
Qed.
Lemma belongs_owned u rs : belongs u → belongs (setOwnerRef u rs).
Proof. apply belongs_same; [|done..]. unfold u_Namespace. cbn. by destruct (u_meta u). Qed.
Lemma log_placed opts u a m : ok (logf opts u a m) (λ _, True) ∧ ok (errorf opts u a m) (λ _, True).
Proof. unfold logf, errorf. by destruct (o_Log opts). Qed.

Lemma applyCRD_placed rs opts i st : all st.1 → ok (applyCRD L rs opts i st) (λ st, all st.1).
Proof.
  intros Hs. destruct st as [store res]. unfold applyCRD. apply wp_bind.
  eapply wp_mono; [|by apply applyOne_placed, belongs_at]. intros [[u a] e] Hu. apply wp_bind.
  apply wp_mono with (λ _, True); [intros [] _; by apply Forall_insert|]. destruct e; apply log_placed.
Qed.
Lemma applyRegular_placed rs opts first i st : all st.2.1 → ok (applyRegular L rs opts first i st) (λ st, all st.2.1).
Proof.
  intros Hs. destruct st as [cur [store res]]. unfold applyRegular. case_match; [done|]. apply wp_bind.
  eapply wp_mono; [|by apply applyOne_placed, belongs_owned, belongs_at]. intros [[u a] e] Hu. apply wp_bind.
  apply wp_mono with (λ _, True); [intros [] _; by apply Forall_insert|]. destruct e; apply log_placed.
Qed.
Lemma applyRounds_placed rs opts regulars n first prev st :
  all st.1 → ok (applyRounds L rs opts regulars n first prev st) (λ st, all st.1).
Proof.
  revert first prev st. induction n as [|n IH]; intros first prev st Hs; cbn [applyRounds]; [done|].
  apply wp_bind. eapply wp_mono; [|apply (wp_loop _ _ _ _ _ (λ st, all st.2.1)); [|exact Hs]].
  - intros [cur st'] Hs'. case_match; [done|]. by apply IH.
  - intros i st' _. apply applyRegular_placed.
Qed.
Lemma waitCRDs_placed store crds : ok (waitCRDs L store crds) (λ _, True).
Proof.
  assert (∀ u, ok (crdAvailable L u) (λ _, True)) as Hcrd.
  { intros u. unfold crdAvailable. destruct (convertCRD L u) as [crd|]; [|done].
    apply wp_bind, (wp_for_each _ _ _ _ _ (λ _, True)); [|done..].
    intros v [] _ _. unfold crdVersion_body. cbn. split; [done|]. intros [items|] _; [|done]. by case_match. }
  unfold waitCRDs. eapply wp_mono; [|apply (wp_Retry _ _ _ _ _ (λ _, True) (λ _, True)); [|done]]; [done|].
  intros [] _. cbn [wp prog_bind call]. split; [done|]. intros _ _.
  apply wp_bind, (wp_for_each _ _ _ _ _ (λ _, True)); [..|done].
  - intros i [] _ _. unfold waitCRD_body. apply wp_bind. eapply wp_mono; [|apply Hcrd]. by intros [[]|] _.
  - done.
Qed.

Lemma applyAll_placed rs opts store : all store → ok (applyAll L rs opts store) (λ _, True).
Proof.
  intros Hs. unfold applyAll. destruct (separateCRDsFromResources 0 store) as [crds regulars].
  apply wp_bind. eapply wp_mono; [|apply (wp_loop _ _ _ _ _ (λ st, all st.1)); [|exact Hs]].
  2: { intros i st _. apply applyCRD_placed. }
  intros [store1 res1] Hs1. apply wp_bind. eapply wp_mono; [|apply waitCRDs_placed].
  intros [[e|] []] _; [done|]. cbn [wp prog_bind call]. split; [done|]. intros _ _.
  apply wp_bind. eapply wp_mono; [|by apply applyRounds_placed]. intros [store2 res2] _. cbn. by split.
Qed.

Lemma belongs_foreign opts u : o_Namespace opts = ns → foreignNamespace opts u = false → belongs u.
Proof.
  intros Hns. unfold foreignNamespace, belongs, inside. rewrite Hns. destruct (isCustomResourceDefinition u); [by left|].
  repeat case_bool_decide; cbn; naive_solver.
Qed.
Definition prepared (r : result (ResourceSet * list Unstructured * ApplyOptions)) : Prop :=
  match r with
  | Ok (rs, resources, opts) =>
      (∃ v, rs_Name rs = resourceSetName name v) ∧ all resources ∧ o_name opts = name
  | Err _ => True
  end.
Lemma initialize_placed opts resources :
  o_name opts = name → o_Namespace opts = ns → o_EnforceNamespace opts = true →
  ok (initialize L opts resources) prepared.
Proof.
  intros Hname Hns Henf. unfold initialize, populateNamespaces, next. rewrite Henf, Hname.
  cbn [wp prog_bind call]. split; [done|]. intros [l|e] _; [|done].
  destruct (crdsNamespaced _ _ _) as [m|]; [|done]. cbn [wp prog_bind]. set (us := map _ _).
  destruct (head _) as [r|] eqn:Hf; [done|]. cbn [wp prog_bind call]. split; [done|]. intros [items|e] _; [|done].
  destruct (maxVersion _ _ _) as [cur|]; [|done]. cbn [wp prog_bind call]. split; [done|]. intros now _.
  split; [by exists (int32 (cur + 1))|]. intros [rs|e] Hrs; [|done]. cbn in Hrs |- *. split_and!; [by eexists| |done].
  apply Forall_forall. intros u Hu. apply (belongs_foreign opts); [done|].
  destruct (foreignNamespace opts u) eqn:Hfu; [|done].
  assert (u ∈ filter (λ u, foreignNamespace opts u = true) us) as Hin by (by apply list_elem_of_filter).
  destruct (filter _ us); [by apply not_elem_of_nil in Hin|done].
Qed.
Lemma deleteResourceSets_placed version : ok (deleteResourceSets name version) (λ _, True).
Proof.
  unfold deleteResourceSets. cbn [wp prog_bind call]. split; [done|]. intros [items|e] _; [|done].
  apply wp_bind, (wp_for_each _ _ _ _ _ (λ _, True)); [|done..].
  intros u [] _ _. unfold deleteResourceSets_body. destruct (decodeResourceSetName _) as [[[n v]|]|] eqn:Hd; [|done..].
  case_bool_decide as Hn; [|done]. cbn [negb orb]. case_match; [done|]. cbn. subst n.
  split; [by exists v|]. by intros [e|] _.
Qed.
Lemma Apply_placed opts resources : o_Namespace opts = ns → o_EnforceNamespace opts = true →
  ok (Apply L name (Some opts) resources) (λ _, True).
Proof.
  intros Hns Henf. unfold Apply. apply wp_bind. eapply wp_mono; [|by apply initialize_placed].
  intros [[[rs us] opts']|e] Hp; [|done]. destruct Hp as ((v & Hrs) & Hus & Hname).
  apply wp_bind. eapply wp_mono; [|by apply applyAll_placed]. intros [[res err] store] _.
  apply wp_bind. unfold updateResourceSetStatus. cbn [wp prog_bind call]. split; [done|]. intros order _.
  split; [done|]. intros now _. split; [by exists v|]. intros [rs'|e] _; [|done]. destruct err as [e|]; [done|].
  cbn [wp prog_bind]. rewrite Hname. apply wp_bind. eapply wp_mono; [|apply deleteResourceSets_placed]. done.
Qed.
End places.

(** ** The worker *)
Section worker.
Import Synk.Model ChartAssign.Release ChartAssign.Model Worker.
Context (L : Libs) (SL : Synk.Model.Libs).

Definition lift (e : event sop) : event iop := let 'existT o r := e in existT (Sy o) r.
Definition liftW (e : event wop) : event iop := let 'existT o r := e in existT (Wk o) r.
Definition places_w (o : iop) : resp o → Prop :=
  match o return resp o → Prop with Wk _ => λ _, True | Sy o => places o end.
Definition placed_w (ns name : string) (o : iop) : Prop :=
  match o with Wk _ => True | Sy o => placed ns name o end.
(** Not one of synk's calls. *)
Definition own (o : wop) : Prop :=
  match o with SynkApply _ _ _ | SynkDelete _ => False | _ => True end.

Lemma onCluster_wp {A} ns name (p : prog sop A) Φ :
  wp places (placed ns name) any_panic p Φ → wp places_w (placed_w ns name) any_panic (onCluster p) Φ.
Proof. apply wp_interp. intros o Ho. cbn. split; [done|]. by intros r Hr. Qed.
Lemma onCluster_exec {A} (p : prog sop A) t out :
  exec (onCluster p) t out → ∃ h, t = map lift h ∧ exec p h out.
Proof. apply exec_interp. intros o t' out' (r & t1 & -> & -> & ->). by exists r. Qed.

Lemma attach_own o t out : own o → exec (attach SL o) t out → ∃ r, t = [liftW (existT o r)] ∧ out = Done r.
Proof. destruct o; try done; intros _ (r & t1 & -> & -> & ->); by exists r. Qed.
Lemma attach_exec {A} (p : prog wop A) Φ t out :
  wp any_answer own any_panic p Φ → exec (interp (attach SL) p) t out → ∃ h, t = map liftW h ∧ exec p h out.
Proof.
  revert t. induction p as [a|o k IH|m]; intros t Hp HE; cbn [interp] in HE.
  - destruct HE as [-> ->]. by exists [].
  - destruct Hp as [Ho Hk].
    apply exec_bind in HE as [(m & HE & _)|(t1 & t2 & r & -> & HE1 & HE2)];
      [apply attach_own in HE as (? & _ & ?); done|].
    apply attach_own in HE1 as (r' & -> & [= ->]); [|done].
    destruct (IH r' t2) as (h & -> & HE); [by apply Hk|done|]. exists (existT o r' :: h). split; [done|]. by exists r', h.
  - destruct HE as [-> ->]. by exists [].
Qed.

(** The assignment of a task. *)
Definition assignment (t : task) : ChartAssignment := match t with TUpdate a | TDelete a => a end.

(** The calls of synk that a release makes. *)
Definition own_set (a : ChartAssignment) (o : wop) : Prop :=
  match o with
  | SynkApply n opts _ => n = releaseName a ∧ opts = applyOptions a
  | SynkDelete n => n = releaseName a
  | _ => True
  end.
Lemma taskProg_wp t : wp any_answer (own_set (assignment t)) any_panic (System.taskProg L t) (λ _, True).
Proof.
  destruct t as [a|a]; cbn [System.taskProg assignment].
  - unfold update. cbn [wp prog_bind call]. split; [done|]. intros _ _. apply wp_bind.
    eapply wp_mono; [|apply (wp_weaken_call _ load_op), loadAndExpandChart_calls]; [|by intros []].
    intros [resources|[retry err]] _; cbn; repeat (split; [done|]; intros ? _); [|done].
    case_match; cbn; repeat (split; [done|]; intros ? _); done.
  - unfold delete. cbn [wp prog_bind call]. split; [done|]. intros phase _. case_match; [done|].
    cbn. repeat (split; [done|]; intros ? _). case_match; cbn; repeat (split; [done|]; intros ? _); done.
Qed.
Lemma attach_wp a o : own_set a o →
  wp places_w (placed_w (targetNs a) (releaseName a)) any_panic (attach SL o) (λ _, True).
Proof.
  destruct o as [| | | | | | |n opts us|n]; cbn [attach own_set]; try (intros _; by split).
  - intros [-> ->]. apply wp_bind. eapply wp_mono; [|by apply onCluster_wp, Apply_placed]. done.
  - intros ->. apply onCluster_wp. unfold DeleteSet. cbn. split; [done|]. by intros e _.
Qed.

(** C4: a release stays in its place.  Whatever the chart renders, every object
    that the worker of a release creates, updates, patches or deletes through
    synk is in the target namespace of its assignment, in kube-system, or
    cluster-scoped; and the bookkeeping it writes through synk's ResourceSet
    client are versions of the set named after the assignment and its
    namespace.  (Cluster-scoped objects of any kind may be rendered, so a chart
    can bring a ResourceSet of its own; it is applied like any other object.) *)
Theorem release_confined task t out :
  answers places_w t → exec (worker L SL task) t out →
  calls (placed_w (targetNs (assignment task)) (releaseName (assignment task))) t.
Proof.
  intros HA HE. eapply wp_exec in HE as [Hc _]; [exact Hc| |exact HA].
  apply (wp_interp _ any_answer (own_set (assignment task))); [|apply taskProg_wp].
  intros o Ho. eapply wp_mono; [|by apply attach_wp]. done.
Qed.

(** Whether an event sets the phase to Settled. *)
Definition settles (e : event iop) : bool :=
  match e with existT (Wk (SetPhase p)) _ => bool_decide (p = ChartAssignmentPhaseSettled) | _ => false end.
Lemma settles_in t : existT (Wk (SetPhase ChartAssignmentPhaseSettled)) tt ∈ t → existsb settles t = true.
Proof. intros Hin. apply existsb_exists. eexists. split; [by apply list_elem_of_In|done]. Qed.
Lemma settles_load h : calls load_op h → existsb settles (map liftW h) = false.
Proof. induction h as [|[o r] h IH]; [done|]. intros [Ho Hc]. cbn. rewrite IH by done. by destruct o. Qed.
Lemma settles_lift h : existsb settles (map lift h) = false.
Proof. induction h as [|[o r] h IH]; [done|]. cbn. by rewrite IH. Qed.

Lemma load_exec a t out : exec (interp (attach SL) (loadAndExpandChart L a)) t out →
  ∃ hl, t = map liftW hl ∧ exec (loadAndExpandChart L a) hl out ∧ existsb settles t = false.
Proof.
  intros HE. eapply attach_exec in HE as (hl & -> & HE);
    [|apply (wp_weaken_call _ load_op), loadAndExpandChart_calls; by intros []].
  exists hl. split_and!; [done..|]. apply settles_load. by eapply wp_exec_any, HE; apply loadAndExpandChart_calls.
Qed.

(** C5: Settled means installed.  When the worker sets the phase of a release
    to Settled, it has loaded and rendered the assigned chart, and synk's
    [Apply] of exactly the rendered resources, with the release's name and the
    enforced target namespace, has just ended without an error: the set of
    resources was recorded as a new version of the release and stored Settled,
    and no older version was deleted before that. *)
Theorem settled_means_installed a t out :
  exec (worker L SL (TUpdate a)) t out → existT (Wk (SetPhase ChartAssignmentPhaseSettled)) tt ∈ t →
  ∃ hl resources h res version,
    t = (map liftW (existT (SetPhase ChartAssignmentPhaseLoadingChart) tt :: hl
                      ++ [existT (SetPhase ChartAssignmentPhaseUpdating) tt;
                          existT (Event false "UpdateChart" "update chart") tt])
         ++ map lift h
         ++ map liftW [existT (Event false "Success" "chart updated successfully") tt;
                       existT (SetPhase ChartAssignmentPhaseSettled) tt])%list ∧
    exec (loadAndExpandChart L a) hl (Done (inl resources)) ∧
    exec (Apply SL (releaseName a) (Some (applyOptions a)) resources) h (Done (res, None)) ∧
    settled (releaseName a) version h ∧
    ∀ pre n e post, h = (pre ++ existT (DeleteResourceSet n) e :: post)%list →
      prune_guard (releaseName a) pre (DeleteResourceSet n).
Proof.
  intros HE Hin%settles_in. unfold worker in HE. cbn [System.taskProg] in HE. unfold update in HE.
  cbn [interp prog_bind call attach] in HE. destruct HE as ([] & t1 & -> & HE). change (existsb settles t1 = true) in Hin.
  apply interp_bind, exec_bind in HE as [(m & HE & ->)|(tl & t2 & l & -> & HE1 & HE)].
  { apply load_exec in HE as (hl & _ & _ & Hn). by rewrite Hn in Hin. }
  apply load_exec in HE1 as (hl & -> & Hload & Hn). rewrite existsb_app, Hn in Hin. cbn [orb] in Hin.
  destruct l as [resources|[retry err]]; cbn [interp prog_bind call attach exec] in HE.
  2: { destruct HE as ([] & t3 & -> & [] & t4 & -> & -> & ->). done. }
  destruct HE as ([] & t3 & -> & [] & t4 & -> & HE). change (existsb settles t4 = true) in Hin.
  apply exec_bind in HE as [(m & HE & ->)|(t5 & t6 & e & -> & HE1 & HE)].
  { apply exec_bind in HE as [(m' & HE & _)|(t5 & t6 & [res e] & -> & _ & HE)]; [|by destruct HE].
    apply onCluster_exec in HE as (h & -> & _). by rewrite settles_lift in Hin. }
  apply exec_bind in HE1 as [(m' & _ & ?)|(t7 & t8 & [res e'] & -> & HA & HE1)]; [done|].
  destruct HE1 as [-> [= ->]]. apply onCluster_exec in HA as (h & -> & HA).
  rewrite app_nil_r, existsb_app, settles_lift in Hin. cbn [orb] in Hin. cbn [snd] in HE.
  destruct e' as [err|]; cbn [interp prog_bind call attach exec] in HE.
  { destruct HE as ([] & t9 & -> & [] & t10 & -> & -> & _). done. }
  destruct HE as ([] & t9 & -> & [] & t10 & -> & -> & _).
  assert (answers any_answer h) as Hany by (clear; by induction h).
  destruct (hwp_exec _ _ _ _ _ _ _ _ (Apply_guard SL (releaseName a) (Some (applyOptions a)) resources) HA Hany)
    as [Hg Hs]. destruct (Hs eq_refl) as [version Hv].
  exists hl, resources, h, res, version. split_and!; [|done..|].
  - cbn [map app]. rewrite map_app, app_nil_r, <-(assoc_L (++)). done.
  - intros pre n e post Heq. exact (Hg pre (existT (DeleteResourceSet n) e) post Heq).
Qed.
End worker.

(** ** What a rollout generates, and the webhook *)
Section admission.
Import Rollout.Values Rollout.Model.
Context (L : Libs) (app : App) (rollout : AppRollout) (tenant : Tenant) (robots : list Robot).

(** The chart of a component, with a robot entry's version. *)
Definition chartOf (comp : AppComponent) (version : string) : AssignedChart :=
  let chart := ch_setInline (cmp_Inline comp)
    (if bool_decide (cmp_Name comp = "") then emptyAssignedChart
     else mkAssignedChart (as_Repository (app_Spec app)) (cmp_Name comp) (as_Version (app_Spec app)) "" []) in
  if bool_decide (version = "") then chart else ch_setVersion version chart.
(** Where an assignment of the rollout comes from: its component, the version
    that overrides the app's, its cluster and its name. *)
Inductive origin : AppComponent → string → string → string → Prop :=
| FromCloud : origin (cmps_Cloud (as_Components (app_Spec app))) "" "cloud"
                (chartAssignmentName (ar_Name rollout) compTypeCloud "")
| FromRobot rcomp sel ms robot :
    rcomp ∈ ars_Robots (ar_Spec rollout) → rr_Selector rcomp = Some sel → matches L robots sel = Ok ms → robot ∈ ms →
    origin (cmps_Robot (as_Components (app_Spec app))) (rr_Version rcomp) (om_Name robot)
      (chartAssignmentName (ar_Name rollout) compTypeRobot (om_Name robot)).
Definition originates (w : wantCA) (comp : AppComponent) (version cluster : string) : Prop :=
  origin comp version cluster (ca_Name (w_ca w)) ∧ wanted comp = true ∧
  ca_Spec (w_ca w) = mkChartAssignmentSpec cluster (appNamespaceName (ar_Namespace rollout) (ar_Name rollout))
                       (chartOf comp version).
Definition derived (w : wantCA) : Prop := ∃ comp version cluster, originates w comp version cluster.
Abbreviation ok p Φ := (wp any_answer any_call any_panic p Φ).

Lemma merge_any v src h : ok (merge L v src h) (λ _, True).
Proof. unfold merge. by case_match. Qed.
Lemma mergeKey_any v k j h : ok (mergeKey L v k j h) (λ _, True).
Proof. unfold mergeKey. destruct (h_new _ h). apply merge_any. Qed.

Lemma newBaseChartAssignment_spec comp :
  ca_Spec (newBaseChartAssignment app rollout comp) =
  mkChartAssignmentSpec "" (appNamespaceName (ar_Namespace rollout) (ar_Name rollout)) (chartOf comp "").
Proof. unfold newBaseChartAssignment, chartOf. cbn. by case_bool_decide. Qed.
Ltac skip_merges := repeat (apply wp_bind; eapply wp_mono; [|first [apply merge_any | apply mergeKey_any]]; intros ? _).
Lemma newRobotChartAssignment_spec robot rcomp base sv h :
  ok (newRobotChartAssignment L robot app rollout tenant rcomp base sv h)
    (λ r, ca_Name (w_ca r.1) = chartAssignmentName (ar_Name rollout) compTypeRobot (om_Name robot) ∧
       ca_Spec (w_ca r.1) = mkChartAssignmentSpec (om_Name robot)
       (appNamespaceName (ar_Namespace rollout) (ar_Name rollout))
       (chartOf (cmps_Robot (as_Components (app_Spec app))) (rr_Version rcomp))).
Proof.
  pose proof (newBaseChartAssignment_spec (cmps_Robot (as_Components (app_Spec app)))) as Hb.
  unfold newRobotChartAssignment. destruct (newBaseChartAssignment _ _ _) as [av k [] sp st]. cbn in Hb. subst sp.
  destruct (h_new ∅ h) as [vals h1]. skip_merges.
  case_match; skip_merges; cbn [wp w_ca fst]; unfold chartOf; by repeat (case_bool_decide; cbn [negb]).
Qed.
Lemma newCloudChartAssignment_spec base cv rs h :
  ok (newCloudChartAssignment L app rollout tenant base cv rs h)
    (λ r, ca_Name (w_ca r.1) = chartAssignmentName (ar_Name rollout) compTypeCloud "" ∧
       ca_Spec (w_ca r.1) = mkChartAssignmentSpec "cloud"
       (appNamespaceName (ar_Namespace rollout) (ar_Name rollout))
       (chartOf (cmps_Cloud (as_Components (app_Spec app))) "")).
Proof.
  pose proof (newBaseChartAssignment_spec (cmps_Cloud (as_Components (app_Spec app)))) as Hb.
  unfold newCloudChartAssignment. destruct (newBaseChartAssignment _ _ _) as [av k [] sp st]. cbn in Hb. subst sp.
  destruct (h_new ∅ h) as [vals h1]. skip_merges.
  case_match; skip_merges; cbn [wp w_ca fst]; unfold chartOf; by repeat (case_bool_decide; cbn [negb]).
Qed.

Lemma generate_robot_derived rcomp sel ms r base sv (s : gstate) :
  rcomp ∈ ars_Robots (ar_Spec rollout) → rr_Selector rcomp = Some sel → matches L robots sel = Ok ms → r ∈ ms →
  Forall derived s.1.2 →
  ok (generate_robot L app rollout tenant base rcomp sv r s) (λ x, match x with inl _ => True | inr s => Forall derived s.1.2 end).
Proof.
  intros Hrc Hsel Hms Hr Hs. destruct s as [[selected cas] h]. unfold generate_robot. case_match; [done|].
  case_match eqn:Hw; [|done]. apply wp_bind. eapply wp_mono; [|apply newRobotChartAssignment_spec].
  intros [w h'] [Hn Hsp]. cbn in *. apply Forall_app. split; [done|]. apply Forall_singleton.
  do 3 eexists. split; [rewrite Hn; by eapply FromRobot|]. by split.
Qed.
Lemma generate_spec_derived rcomp base sv (s : gstate) :
  rcomp ∈ ars_Robots (ar_Spec rollout) → Forall derived s.1.2 →
  ok (generate_spec L app rollout tenant robots base (rcomp, sv) s)
    (λ x, match x with inl _ => True | inr s => Forall derived s.1.2 end).
Proof.
  intros Hrc Hs. unfold generate_spec. cbn [fst snd]. destruct (rr_Selector rcomp) as [sel|] eqn:Hsel; [|done].
  assert (matchingRobots L robots (Some sel) = Ret (matches L robots sel)) as ->.
  { unfold matchingRobots, matches. by repeat case_match. }
  cbn [wp prog_bind]. destruct (matches L robots sel) as [ms|e] eqn:Hms; [|done].
  apply (wp_for_each _ _ _ _ _ (λ s, Forall derived s.1.2)); [|done..].
  intros r s' Hr Hs'. eapply wp_mono; [|by eapply generate_robot_derived]. by intros [].
Qed.
Lemma loadSpecs_specs specs h : (loadSpecs specs h).1.*1 = specs.
Proof.
  revert h. induction specs as [|s specs IH]; intros h; cbn; [done|].
  destruct (loadValues (rr_Values s) h) as [l h1]. specialize (IH h1). destruct (loadSpecs specs h1). cbn in *. by rewrite IH.
Qed.
Lemma generateChartAssignments_derived base h :
  ok (generateChartAssignments L app rollout tenant robots base h)
    (λ r, match r.1 with Ok ws => Forall derived ws | Err _ => True end).
Proof.
  unfold generateChartAssignments. destruct (loadValues _ h) as [cv h1].
  pose proof (loadSpecs_specs (ars_Robots (ar_Spec rollout)) h1) as Hsp. destruct (loadSpecs _ h1) as [specs h2]. cbn in Hsp.
  apply wp_bind, (wp_for_each _ _ _ _ _ (λ s, Forall derived s.1.2)).
  - intros [rcomp sv] s Hin Hs. eapply wp_mono; [|apply generate_spec_derived; [|exact Hs]]; [by intros [[]|]|].
    rewrite <-Hsp. apply list_elem_of_fmap. by exists (rcomp, sv).
  - intros [[selected cas] h3] Hs. cbn in Hs. case_match eqn:Hw.
    + apply wp_bind. eapply wp_mono; [|apply newCloudChartAssignment_spec]. intros [w h4] [Hn Hs']. cbn in *.
      rewrite sort_by_perm. apply Forall_app. split; [done|]. apply Forall_singleton.
      do 3 eexists. split; [rewrite Hn; apply FromCloud|]. by split.
    + cbn. by rewrite sort_by_perm.
  - constructor.
Qed.

(** What an App must say for a component, and a rollout's entry of a version. *)
Definition complete (comp : AppComponent) (version : string) : Prop :=
  if bool_decide (cmp_Inline comp = "")
  then as_Repository (app_Spec app) ≠ "" ∧ (version ≠ "" ∨ as_Version (app_Spec app) ≠ "")
  else cmp_Name comp = "" ∧ version = "".
Lemma rendered_spec h w ca : rendered L h w = Some ca →
  ca_Name ca = ca_Name (w_ca w) ∧
  ∃ vals, ca_Spec ca = cas_setChart (ch_setValues vals (cas_Chart (ca_Spec (w_ca w)))) (ca_Spec (w_ca w)).
Proof.
  unfold rendered. destruct (resolveValues _ _ _) as [vals|]; cbn; [|done]. intros [= <-].
  destruct (w_ca w). split; [done|]. by exists vals.
Qed.
Lemma chartOf_valid comp version vals : wanted comp = true →
  let c := ch_setValues vals (chartOf comp version) in
  (if bool_decide (ch_Inline c = "") then ch_Repository c ≠ "" ∧ ch_Name c ≠ "" ∧ ch_Version c ≠ ""
   else ch_Repository c = "" ∧ ch_Name c = "" ∧ ch_Version c = "") ↔
  complete comp version.
Proof.
  unfold wanted, complete, chartOf. destruct comp as [n inline]; cbn [cmp_Name cmp_Inline].
  repeat (case_bool_decide; cbn [negb orb ch_setInline ch_setVersion ch_setValues emptyAssignedChart
    ch_Inline ch_Repository ch_Name ch_Version]); simplify_eq; naive_solver.
Qed.

Lemma appNamespaceName_ne ns n : appNamespaceName ns n ≠ "".
Proof. unfold appNamespaceName. case_bool_decide; [done|]. by destruct ns. Qed.

(** C14: what the webhook of the cloud makes of the assignments a rollout
    generates.  Each of them comes from one component of the app, for the cloud
    or for a robot that an entry of the rollout selects, and is admitted, if it
    is new, exactly when the names of its namespace and cluster are valid and
    its component is complete: a chart of a repository with a version, the
    app's or the entry's, or an inline chart alone.  So an inline component
    together with a version in the rollout's entry is refused. *)
Theorem generated_assignments_admitted base h t ws h' w ca sent vn vc :
  exec (generateChartAssignments L app rollout tenant robots base h) t (Done (Ok ws, h')) →
  w ∈ ws → rendered L h' w = Some ca → ca_Spec sent = ca_Spec ca →
  ∃ comp version cluster, originates w comp version cluster ∧
    (ChartAssign.Model.Handle (ChartAssign.Model.mkValidator "" vn vc) (Ok sent) None = ChartAssign.Model.Allowed ↔
     cluster ≠ "" ∧ vn (appNamespaceName (ar_Namespace rollout) (ar_Name rollout)) = [] ∧ vc cluster = [] ∧
     complete comp version).
Proof.
  intros HE Hw Hren Hsent.
  apply (wp_exec_any _ _ _ _ _ _ (generateChartAssignments_derived base h)) in HE as [_ Hd]. cbn in Hd.
  rewrite Forall_forall in Hd. destruct (Hd w Hw) as (comp & version & cluster & Ho). exists comp, version, cluster.
  split; [done|]. destruct Ho as (_ & Hwanted & Hs). apply rendered_spec in Hren as (_ & vals & Hspec).
  rewrite Hspec, Hs in Hsent. cbn in Hsent. pose proof (chartOf_valid comp version vals Hwanted) as Hc. cbv zeta in Hc.
  rewrite ChartAssign.assignment_admitted_iff. unfold ChartAssign.Model.targetNs.
  pose proof (appNamespaceName_ne (ar_Namespace rollout) (ar_Name rollout)) as Hns.
  split.
  - intros (a & [= <-] & H1 & _ & _ & H3 & H4 & _ & H5). rewrite Hsent in *. cbn in *. split_and!; [done..|]. by apply Hc.
  - intros (H1 & H2 & H3 & H4). exists sent. rewrite Hsent. cbn. apply Hc in H4. split_and!; try done. by left.
Qed.
End admission.

(** A rollout's update never moves an assignment: what it generates under one
    name, at whatever time and for whatever app, has one cluster and one
    namespace, so that the webhook treats an update by the rollout like the
    creation of the same assignment. *)
Section updates.
Import Rollout.Model.

Lemma origin_cluster L app app' r r' robots robots' comp comp' version version' cluster cluster' n :
  ar_Name r = ar_Name r' →
  origin L app r robots comp version cluster n → origin L app' r' robots' comp' version' cluster' n → cluster = cluster'.
Proof.
  intros Hr Ho Ho'. destruct Ho as [|rc sel ms robot _ _ _ _]; inversion Ho' as [Hcl Hv Hc Hn|rc' sel' ms' robot' _ _ _ _ Hcl Hv Hc Hn];
    rewrite Hr in *.
  - done.
  - by apply chartAssignmentName_typ in Hn.
  - symmetry in Hn. by apply chartAssignmentName_typ in Hn.
  - symmetry. by apply chartAssignmentName_inj in Hn.
Qed.
Lemma updates_never_move L app app' r r' tenant tenant' robots robots' base base' h h0 t t' ws ws' h1 h1' w w' ca ca' v :
  exec (generateChartAssignments L app r tenant robots base h) t (Done (Ok ws, h1)) → w ∈ ws →
  rendered L h1 w = Some ca →
  exec (generateChartAssignments L app' r' tenant' robots' base' h0) t' (Done (Ok ws', h1')) → w' ∈ ws' →
  rendered L h1' w' = Some ca' →
  ar_Name r = ar_Name r' → ar_Namespace r = ar_Namespace r' → ca_Name ca = ca_Name ca' →
  ChartAssign.Model.Handle v (Ok ca') (Some (Ok ca)) = ChartAssign.Model.Handle v (Ok ca') None.
Proof.
  intros HE Hw Hren HE' Hw' Hren' Hr Hns Hname.
  apply (wp_exec_any _ _ _ _ _ _ (generateChartAssignments_derived L app r tenant robots base h)) in HE as [_ Hd].
  apply (wp_exec_any _ _ _ _ _ _ (generateChartAssignments_derived L app' r' tenant' robots' base' h0)) in HE' as [_ Hd'].
  cbn in Hd, Hd'. rewrite Forall_forall in Hd, Hd'.
  destruct (Hd w Hw) as (comp & version & cluster & Ho & _ & Hs).
  destruct (Hd' w' Hw') as (comp' & version' & cluster' & Ho' & _ & Hs').
  apply rendered_spec in Hren as (Hn & vals & Hspec), Hren' as (Hn' & vals' & Hspec').
  rewrite Hs in Hspec. rewrite Hs' in Hspec'. cbn in Hspec, Hspec'.
  assert (cluster = cluster') as <-.
  { eapply (origin_cluster L); [exact Hr|exact Ho|]. by rewrite <-Hn, Hname, Hn'. }
  cbn [ChartAssign.Model.Handle]. unfold ChartAssign.Model.validate, ChartAssign.Model.validateChange, ChartAssign.Model.targetNs.
  rewrite Hspec, Hspec'. cbn [cas_NamespaceName cas_ClusterName]. rewrite Hr, Hns.
  set (ns := appNamespaceName (ar_Namespace r') (ar_Name r')).
  by rewrite (bool_decide_eq_true_2 (cluster = cluster)), (bool_decide_eq_true_2 (ns = ns)) by done.
Qed.
End updates.

(** The concrete rollout of [Rollout]: its assignments are admitted. *)
Section example.
Import Rollout.Model.
Definition demoGenerate (app : App) (rollout : AppRollout) :=
  run Rollout.demoAPI (generateChartAssignments Rollout.demoLibs app rollout emptyTenant Rollout.demoRobots
    Rollout.demoBase Rollout.demoHeap) tt.
Definition demoSent (app : App) (rollout : AppRollout) : list ChartAssignment :=
  match outcome_of (demoGenerate app rollout) with
  | Some (Done (Ok ws, h)) => omap (rendered Rollout.demoLibs h) ws
  | _ => []
  end.
Definition demoAdmits (app : App) (rollout : AppRollout) : list (string * bool) :=
  map (λ ca, (ca_Name ca,
    match ChartAssign.Model.Handle (ChartAssign.Model.mkValidator "" (λ _, []) (λ _, [])) (Ok ca) None with
    | ChartAssign.Model.Allowed => true | _ => false end)) (demoSent app rollout).

(** The same app with an inline component, and a rollout that gives a version
    for the robots labelled [b]: the rollout is valid, and its assignment for
    robot [r2] is refused. *)
Definition inlineApp : App :=
  mkApp (namedMeta "" "nav") (mkAppSpec "" "" (mkAppComponents (mkAppComponent "" "") (mkAppComponent "" "H4sI"))).
Definition versioned (r : AppRollout) : AppRollout :=
  mkAppRollout (ar_APIVersion r) (ar_Kind r) (ar_meta r)
    (mkAppRolloutSpec (ars_AppName (ar_Spec r)) (ars_CloudValues (ar_Spec r))
       [Rollout.demoSpec "a" "one";
        mkAppRolloutSpecRobot (rr_Selector (Rollout.demoSpec "b" "two")) [] "1.2"]) (ar_Status r).
Example inline_versions_refused :
  demoAdmits Rollout.demoApp Rollout.demoRollout = [("nav-robot-r1", true); ("nav-robot-r2", true)] ∧
  validate Rollout.demoLibs (versioned Rollout.demoRollout) = None ∧
  demoAdmits inlineApp (versioned Rollout.demoRollout) = [("nav-robot-r1", true); ("nav-robot-r2", false)].
Proof. vm_compute. done. Qed.

Definition firstOnR1 (out : outcome (result (list wantCA) * Rollout.Values.heap)) : bool :=
  match out with
  | Done (Ok (w :: _), h) =>
      match rendered Rollout.demoLibs h w with
      | Some ca => bool_decide (cas_ClusterName (ca_Spec ca) = "r1")
      | None => false
      end
  | _ => false
  end.
Lemma demoGenerated : ∃ t w ws h' ca,
  exec (generateChartAssignments Rollout.demoLibs Rollout.demoApp Rollout.demoRollout emptyTenant Rollout.demoRobots
    Rollout.demoBase Rollout.demoHeap) t (Done (Ok (w :: ws), h')) ∧
  rendered Rollout.demoLibs h' w = Some ca ∧ cas_ClusterName (ca_Spec ca) = "r1".
Proof.
  destruct (run_exec_some Rollout.demoAPI (generateChartAssignments Rollout.demoLibs Rollout.demoApp Rollout.demoRollout
    emptyTenant Rollout.demoRobots Rollout.demoBase Rollout.demoHeap) tt) as (out & Hout & HE); [vm_compute; reflexivity|].
  assert (default false (firstOnR1 <$> outcome_of (demoGenerate Rollout.demoApp Rollout.demoRollout)) = true) as Hb
    by (vm_compute; reflexivity).
  unfold demoGenerate in Hb. rewrite Hout in Hb. clear Hout. revert HE. generalize (trace_of (run Rollout.demoAPI
    (generateChartAssignments Rollout.demoLibs Rollout.demoApp Rollout.demoRollout emptyTenant Rollout.demoRobots
       Rollout.demoBase Rollout.demoHeap) tt)). intros t HE. change (firstOnR1 out = true) in Hb. unfold firstOnR1 in Hb.
  destruct out as [[[[|w ws]|e] h']|m]; [discriminate Hb| |discriminate Hb..].
  destruct (rendered _ h' w) as [ca|] eqn:Hren; [|discriminate Hb]. apply bool_decide_eq_true in Hb.
  exists t, w, ws, h', ca. exact (conj HE (conj Hren Hb)).
Qed.
Lemma generated_assignments_admitted_witness :
  ∃ w h' ca, rendered Rollout.demoLibs h' w = Some ca ∧
    ChartAssign.Model.Handle (ChartAssign.Model.mkValidator "" (λ _, []) (λ _, [])) (Ok ca) None = ChartAssign.Model.Allowed.
Proof.
  destruct demoGenerated as (t & w & ws & h' & ca & HE & Hren & Hspec).
  destruct (generated_assignments_admitted Rollout.demoLibs Rollout.demoApp Rollout.demoRollout emptyTenant Rollout.demoRobots
    Rollout.demoBase Rollout.demoHeap t (w :: ws) h' w ca ca (λ _, []) (λ _, []) HE (list_elem_of_here _ _) Hren eq_refl)
    as (comp & version & cluster & Ho & Hiff).
  exists w, h', ca. refine (conj Hren (proj2 Hiff _)). destruct Ho as (Ho & _ & Hs).
  apply rendered_spec in Hren as (_ & vals & Hv).
  assert (cluster = "r1") as -> by (rewrite Hv, Hs in Hspec; exact Hspec). clear Hspec Hv Hs HE.
  remember "r1" as r eqn:Hr. destruct Ho as [|rc sel ms rb]; [done|]. rewrite Hr.
  refine (conj _ (conj eq_refl (conj eq_refl _))); [done|]. vm_compute. split; [done|by right].
Defined.
End example.

(** *** A release that is installed over an older version *)
Section demo.
Import Synk.Model ChartAssign.Release ChartAssign.Model Worker.
Definition demoCluster (o : Worker.iop) (s : ChartAssign.Release.releaseStatus * Z)
    : option (resp o * (ChartAssign.Release.releaseStatus * Z)) :=
  match o return option (resp o * _) with
  | Worker.Wk o => ChartAssign.demoWorker o s
  | Worker.Sy o => (λ r, (r.1, s)) <$> Synk.demoAPI [] ["default.nav.v3"; "other.v1"] o tt
  end.
Definition demoChart : ChartAssign.Release.Libs :=
  ChartAssign.Release.mkLibs unit (λ _, Ok tt) (λ _, Ok None) (λ _ _, None) (λ _, Ok []) (λ _, Ok "values")
    (λ _ _ _ _, Ok {["templates/job.yaml" := "a job"]})
    (λ _, ([Synk.Model.mkU false "batch/v1" "Job" (namedMeta "" "job") []], None))
    (λ h l, map_to_list (Rollout.Values.h_get h l)) 10.
Definition demoInstall := run demoCluster
  (Worker.worker demoChart Synk.demoLibs (ChartAssign.Model.TUpdate (ChartAssign.demoAssignment false)))
  (ChartAssign.Release.mkReleaseStatus ChartAssignmentPhaseAccepted None false, 0%Z).

Lemma demoInstall_exec :
  exec (worker demoChart Synk.demoLibs (TUpdate (ChartAssign.demoAssignment false))) (trace_of demoInstall) (Done tt).
Proof. apply run_exec. vm_compute. reflexivity. Qed.
Lemma release_confined_witness : calls (placed_w "app-nav" "default.nav") (trace_of demoInstall).
Proof.
  apply (release_confined demoChart Synk.demoLibs (TUpdate (ChartAssign.demoAssignment false)) (trace_of demoInstall) (Done tt)).
  - vm_compute. repeat split; intros; discriminate.
  - apply demoInstall_exec.
Defined.
Lemma settled_means_installed_witness : ∃ version h, settled "default.nav" version h.
Proof.
  destruct (settled_means_installed demoChart Synk.demoLibs (ChartAssign.demoAssignment false) (trace_of demoInstall) (Done tt))
    as (hl & resources & h & res & version & _ & _ & _ & Hs & _).
  - apply demoInstall_exec.
  - apply last_Some_elem_of. vm_compute. reflexivity.
  - exact (ex_intro _ version (ex_intro _ h Hs)).
Defined.
End demo.
