(* ===== verification/Kubetest.v ===== *)
(** * Test clusters (src/go/pkg/kubetest)

    [Model] is kubetest.go: environments of kind clusters that are set up
    concurrently, their teardown, the subtests run against them and the
    helpers tests use.  The goroutines of [New] interleave freely: [new_run]
    says which traces it can have. *)
From stdpp Require Import prelude strings list gmap.
From Stdlib Require Import Ascii ZArith.
From S2P Require Import Prelude GoStr GoErr Kube Apps.

Open Scope string_scope.
Open Scope prog_scope.

Module Model.

(** ** Calls *)

Record Deployment := mkDeployment { dp_Replicas : option Z; dp_ReadyReplicas : Z }.

Inductive eop : Type :=
| Getenv (name : string)
| UnixNano
| TempFile                                  (* ioutil.TempFile: its name *)
| CloseTemp (path : string)
| KindCreate (name kubeconfig : string)     (* a control plane and a worker *)
| KindDelete (name : string)
| ReadFile (path : string)
| ClientConfigFromBytes (raw : string)
| RestConfig (raw : string)                 (* its ClientConfig() *)
| NewClient (cluster : string)
| CreatePermissiveBinding (cluster : string)
| ListNodes (cluster : string)              (* the taints of each node *)
| Command (argv : list string) (stdin : option string)  (* CombinedOutput *)
| RemoveFile (path : string)
| GetDeployment (namespace name : string)
| GetChartAssignment (cluster namespace name : string)
| TarHeader (path : string) (size : Z)
| TarContent (content : string)
| CloseWriters                              (* tar, gzip and base64 *)
| ParseTemplate (tmpl : string)
| ExecuteTemplate                           (* on the given values *)
| UnmarshalYAML (text : string)
| Log (text : string)
| Errorf (text : string)                    (* marks the test as failed *)
| Fatalf (text : string)                    (* and ends it *)
| SubTest (name : string).                  (* t.Run starts a subtest *)
#[export] Instance eop_effect : Effect eop := λ o,
  match o with
  | Getenv _ => string
  | UnixNano => Z
  | TempFile | ReadFile _ | ExecuteTemplate => result string
  | ListNodes _ => result (list (list string))
  | Command _ _ => (string * option error)%type
  | GetDeployment _ _ => result Deployment
  | GetChartAssignment _ _ _ => result ChartAssignment
  | CloseWriters => string
  | Log _ | Errorf _ | Fatalf _ | SubTest _ => unit
  | _ => option error
  end.

(** [t.Fatalf] ends the test: [None]. *)
Definition fatal {A : Type} (text : string) : prog eop (option A) := call (Fatalf text) ;;! Ret None.

(** ** Setting up a cluster *)

(** [cfg] is the configuration's name; [kind] and [restCfg] say whether they
    are set. *)
Record cluster := mkCluster {
  genName : string; cfg : string; kind : bool; kubeConfigPath : string; restCfg : bool }.

Definition taintsRemoved (nodes : list (list string)) : bool :=
  existsb (λ taints, match taints with [] => true | _ => false end) nodes.
Definition waitForNodes (name : string) : prog eop (option error * unit) :=
  Retry 240 (λ _,
    let! l := call (ListNodes name) in
    Ret (match l with
         | Err err => Some (EPermanent (Some err))
         | Ok nodes => if taintsRemoved nodes then None else Some (EText "taints not removed")
         end, ())) ().

Definition setupCluster (synkPath : string) (c : cluster) : prog eop (option error * cluster) :=
  let c := mkCluster (genName c) (cfg c) true (kubeConfigPath c) (restCfg c) in
  let! f := call TempFile in
  match f with
  | Err err => Ret (Some (EWrap "create temp kubeconfig" err), c)
  | Ok path =>
  let c := mkCluster (genName c) (cfg c) true path (restCfg c) in
  let! e := call (CloseTemp path) in
  match e with
  | Some err => Ret (Some (EWrap "close temp kubeconfig" err), c)
  | None =>
  let! e := call (KindCreate (genName c) path) in
  match e with
  | Some err => Ret (Some (EWrap ("create cluster " ++ fmt_q (genName c)) err), c)
  | None =>
  let! r := call (ReadFile path) in
  match r with
  | Err err => Ret (Some (EWrap "read kube config" err), c)
  | Ok kubecfgRaw =>
  let! e := call (ClientConfigFromBytes kubecfgRaw) in
  match e with
  | Some err => Ret (Some (EWrap "decode kube config" err), c)
  | None =>
  let! e := call (RestConfig kubecfgRaw) in
  match e with
  | Some err => Ret (Some (EWrap "get rest config" err), c)
  | None =>
  let c := mkCluster (genName c) (cfg c) true path true in
  call (Log ("To use the cluster, run KUBECONFIG=" ++ path ++ " kubectl cluster-info")) ;;!
  let! e := call (NewClient (genName c)) in
  match e with
  | Some err => Ret (Some (EWrap "create client" err), c)
  | None =>
  let! e := call (CreatePermissiveBinding (genName c)) in
  match e with
  | Some err => Ret (Some (EWrap "create permissive role binding" err), c)
  | None =>
  let! ' (e, _) := waitForNodes (genName c) in
  match e with
  | Some err => Ret (Some (EWrap "wait for node taints to be removed" err), c)
  | None =>
  let! ' (output, e) := call (Command [synkPath; "init"; "--kubeconfig"; path] None) in
  match e with
  | Some err => Ret (Some (EText ("install Helm: " ++ error_text err ++ "; output:" ++ String "010"%char output ++ String "010"%char "")), c)
  | None => Ret (None, c)
  end end end end end end end end end end.

(** ** Environments *)

Record Environment := mkEnvironment {
  helmPath : string; synkPath : string; clusters : gmap string cluster; uniqCounter : Z }.
Definition defaultHelmPath : string := "../kubernetes_helm/helm".
Definition defaultSynkPath : string := "src/go/cmd/synk/synk_/synk".

(** [%x] of a time in nanoseconds. *)
Definition hexDigit (n : Z) : ascii := Ascii.ascii_of_nat (Z.to_nat (if (n <? 10)%Z then 48 + n else 87 + n)).
Fixpoint hex_go (fuel : nat) (n : Z) (acc : string) : string :=
  match fuel with
  | O => acc
  | S fuel =>
      let acc := String (hexDigit (n mod 16)) acc in
      if (n <? 16)%Z then acc else hex_go fuel (n / 16) acc
  end.
Definition fmt_x (n : Z) : string := if (n <? 0)%Z then "-" ++ hex_go 16 (- n) "" else hex_go 16 n "".

(** The loop of [New]: unique names, and the map of clusters. *)
Definition assign (name : string) (cls : list cluster) : prog eop (list cluster) :=
  let! now := call UnixNano in
  let uniqName := name ++ "-" ++ fmt_x now in
  call (Log ("Assigned unique name " ++ fmt_q uniqName ++ " to cluster " ++ fmt_q name)) ;;!
  Ret (cls ++ [mkCluster uniqName name false "" false])%list.

(** The goroutine of a cluster.  [loopName] and [errName] are the names in the
    loop variable [cfg] when the goroutine reads it, first to log or to delete
    and then for its error: the variable is shared by all iterations. *)
Definition goroutine (synkPath loopName errName : string) (c : cluster) : prog eop (option error * cluster) :=
  let! ' (e, c) := setupCluster synkPath c in
  match e with
  | None => call (Log ("Created cluster " ++ fmt_q loopName)) ;;! Ret (None, c)
  | Some err =>
      (if kind c then
         let! noTeardown := call (Getenv "NO_TEARDOWN") in
         if bool_decide (noTeardown = "") then
           let! _ := call (KindDelete loopName) in
           if negb (bool_decide (kubeConfigPath c = "")) then call (RemoveFile (kubeConfigPath c)) ;;! Ret ()
           else Ret ()
         else Ret ()
       else Ret ()) ;;!
      Ret (Some (EWrap ("Create cluster " ++ fmt_q errName) err), c)
  end.

(** The traces of goroutines, merged in some order. *)
Inductive interleaving {E : Type} : list (list E) → list E → Prop :=
| inter_nil ts : Forall (λ t, t = []) ts → interleaving ts []
| inter_step pre e t post l :
    interleaving (pre ++ t :: post) l → interleaving (pre ++ (e :: t) :: post) (e :: l).

(** The goroutines of the clusters with their traces and results: each reads
    names that the loop variable held. *)
Definition goroutines (synkPath : string) (cls : list cluster) (ts : list (list (event eop)))
    (rs : list (option error * cluster)) : Prop :=
  length ts = length cls ∧
  Forall2 (λ ct r, ∃ loopName errName, loopName ∈ map cfg cls ∧ errName ∈ map cfg cls ∧
      exec (goroutine synkPath loopName errName ct.1) ct.2 (Done r))
    (zip cls ts) rs.

(** [New]: [None] when it ends the test.  The loop and the goroutines run
    concurrently; [errgroup] waits for all of them and returns the error of
    one. *)
Definition byName (cls : list cluster) : gmap string cluster :=
  foldl (λ m c, <[cfg c := c]> m) ∅ cls.
Definition new_run (names : list string) (t : list (event eop)) (r : option Environment) : Prop :=
  ∃ t1 t2 t3 ts cls rs, t = (t2 ++ t3)%list ∧ interleaving (t1 :: ts) t2 ∧
    exec (loop assign names []) t1 (Done cls) ∧ goroutines defaultSynkPath cls ts rs ∧
    ((∀ x, x ∈ rs → x.1 = None) ∧ t3 = [] ∧
       r = Some (mkEnvironment defaultHelmPath defaultSynkPath (byName (map snd rs)) 0) ∨
     ∃ err c, (Some err, c) ∈ rs ∧ t3 = [existT (Fatalf (error_text err)) tt] ∧ r = None).

(** [Teardown]; [order] is the order in which Go visits the map. *)
Definition teardownOne (nc : string * cluster) (_ : unit) : prog eop unit :=
  let '(name, c) := nc in
  let! e := call (KindDelete (genName c)) in
  (match e with
   | Some err => call (Errorf ("Delete cluster " ++ fmt_q name ++ " (" ++ fmt_q (genName c) ++ "): " ++ error_text err))
   | None => call (Log ("Deleted cluster " ++ fmt_q name ++ " (" ++ fmt_q (genName c) ++ ")"))
   end) ;;!
  let! e := call (RemoveFile (kubeConfigPath c)) in
  match e with
  | Some err => call (Errorf ("Failed to delete " ++ fmt_q (kubeConfigPath c) ++ ": " ++ error_text err))
  | None => Ret ()
  end.
Definition Teardown (order : list (string * cluster)) : prog eop unit :=
  let! noTeardown := call (Getenv "NO_TEARDOWN") in
  if negb (bool_decide (noTeardown = "")) then call (Log "Skipping teardown")
  else call (Log "Tearing down...") ;;! loop teardownOne order ().

(** ** Using an environment *)

(** [helmValues], over the entries in the order they are visited. *)
Definition helmValues (vars : list (string * string)) : string :=
  Join (map (λ kv, kv.1 ++ "=" ++ kv.2) vars) ",".

Definition newline : string := String "010"%char "".
Definition failed (name tool : string) (err : error) (output : string) : string :=
  "Synk install of " ++ name ++ " failed: " ++ error_text err ++ newline ++ tool ++ " output:" ++ newline ++ output ++ newline.
Definition InstallChartArchive (e : Environment) (cluster name namespace path : string) (args : list (string * string))
    : prog eop (option unit) :=
  match clusters e !! cluster with
  | None => fatal ("Unknown cluster " ++ fmt_q cluster)
  | Some c =>
      let! ' (output, err) := call (Command
        [helmPath e; "template"; "--set-string"; helmValues args; "--name"; name; path] None) in
      match err with
      | Some err => fatal (failed name "Helm" err output)
      | None =>
          let! ' (out, err) := call (Command
            [synkPath e; "apply"; name; "--kubeconfig"; kubeConfigPath c; "-n"; namespace; "-f"; "-"] (Some output)) in
          match err with
          | Some err => fatal (failed name "Synk" err out)
          | None => Ret (Some ())
          end
      end
  end.

(** The client is named by its cluster. *)
Definition Client (e : Environment) (cluster : string) : prog eop (option string) :=
  match clusters e !! cluster with
  | None => fatal ("cluster with name " ++ fmt_q cluster ++ " does not exist")
  | Some c =>
      let! n := call (NewClient (genName c)) in
      match n with
      | Some err => fatal ("Create client for cluster " ++ fmt_q cluster ++ ": " ++ error_text err)
      | None => Ret (Some (genName c))
      end
  end.

Definition Uniq (s : string) (e : Environment) : string * Environment :=
  let n := int64 (uniqCounter e + 1) in
  (s ++ "-" ++ fmt_d n, mkEnvironment (helmPath e) (synkPath e) (clusters e) n).

(** A test function with its name; a panic in it is recovered. *)
Fixpoint recovered {A : Type} (p : prog eop A) : prog eop (option A) :=
  match p with
  | Ret a => Ret (Some a)
  | Vis o k => Vis o (λ r, recovered (k r))
  | Panic m => call (Errorf ("panic: " ++ m)) ;;! Ret None
  end.
Definition runTest (test : string * prog eop unit) (_ : unit) : prog eop unit :=
  call (SubTest test.1) ;;! recovered test.2 ;;! Ret ().
Definition Run (tests : list (string * prog eop unit)) : prog eop unit := loop runTest tests ().

Section yaml.
Context (TrimSpace : string → string).
Definition FromYAML (tmpl : string) : prog eop (option unit) :=
  let! t := call (ParseTemplate tmpl) in
  match t with
  | Some err => fatal ("Invalid template: " ++ error_text err)
  | None =>
  let! x := call ExecuteTemplate in
  match x with
  | Err err => fatal ("Execute template: " ++ error_text err)
  | Ok buf =>
  let! u := call (UnmarshalYAML (TrimSpace buf)) in
  match u with
  | Some err => fatal (error_text err)
  | None => Ret (Some ())
  end end end.
End yaml.

Definition addFileToTar (path content : string) : prog eop (option error) :=
  let! e := call (TarHeader path (Z.of_nat (String.length content))) in
  match e with
  | Some err => Ret (Some err)
  | None => call (TarContent content)
  end.
(** Only the first file's error is looked at. *)
Definition BuildInlineChart (name tmpl values : string) : prog eop (option string) :=
  let chartData := "{name: " ++ fmt_q name ++ ", version: " ++ dq "0.0.1" ++ "}" in
  let! e := addFileToTar (name ++ "/Chart.yaml") chartData in
  match e with
  | Some err => fatal ("Failed to add Chart.yaml to tarball: " ++ error_text err)
  | None =>
      addFileToTar (name ++ "/templates/template.yaml") tmpl ;;!
      addFileToTar (name ++ "/values.yaml") values ;;!
      let! encoded := call CloseWriters in
      Ret (Some encoded)
  end.

Definition DeploymentReady (namespace name : string) : prog eop (option error) :=
  let! d := call (GetDeployment namespace name) in
  Ret (match d with
       | Err err => Some (EPermanent (Some (EWrap ("get deployment " ++ namespace ++ "/" ++ name) err)))
       | Ok d =>
           match dp_Replicas d with
           | None => if (dp_ReadyReplicas d <=? 0)%Z then Some (EText "Replicas not ready") else None
           | Some n => if bool_decide (dp_ReadyReplicas d = n) then None else Some (EText "Replicas not ready")
           end
       end).

(** The condition, on the assignment it keeps up to date; [%+v] of a status is
    a parameter. *)
Definition ChartAssignmentHasStatus (fmt_v : ChartAssignmentStatus → string) (client expected : string)
    (ca : ChartAssignment) : prog eop (option error * ChartAssignment) :=
  let! g := call (GetChartAssignment client (ca_Namespace ca) (ca_Name ca)) in
  match g with
  | Err err => Ret (Some (EPermanent (Some err)), ca)
  | Ok ca =>
      let phase := cat_Phase (ca_Status ca) in
      if bool_decide (expected = ChartAssignmentPhaseSettled) && bool_decide (phase = ChartAssignmentPhaseReady)
      then Ret (None, ca)
      else if negb (bool_decide (phase = expected)) then
        call (Log ("Status: " ++ fmt_v (ca_Status ca))) ;;! Ret (Some (EText ("chart status != " ++ expected)), ca)
      else Ret (None, ca)
  end.

End Model.

(** * Properties *)
Import Model.

(** ** Setting up *)

(** Nothing is deleted, and only the cluster of that name is created. *)
Definition creates_only (name : string) (o : eop) : Prop :=
  match o with KindCreate n _ => n = name | KindDelete _ => False | _ => True end.
Lemma waitForNodes_wp name : wp any_answer (λ o, o = ListNodes name) no_panic (waitForNodes name) (λ _, True).
Proof.
  unfold waitForNodes. eapply wp_mono; [|apply (wp_Retry _ _ _ _ _ (λ _, True) (λ _, True)); [|done]]; [done|].
  intros [] _. cbn. split; [done|]. intros [nodes|err] _; cbn; [by destruct (taintsRemoved nodes)|done].
Qed.
Lemma waitForNodes_last name t : exec (waitForNodes name) t (Done (None, ())) →
  ∃ t' nodes, t = (t' ++ [existT (ListNodes name) (Ok nodes)])%list ∧ taintsRemoved nodes = true.
Proof.
  unfold waitForNodes. generalize 240%nat. intros n HE.
  apply Retry_last in HE as (ta & tb & [] & e & -> & Hop & Hr). cbn in Hop. destruct Hop as (l & tl & -> & -> & [= ->]).
  destruct l as [nodes|err]; [|discriminate Hr]. destruct (taintsRemoved nodes) eqn:Hn; [|discriminate Hr]. by exists ta, nodes.
Qed.
Lemma setupCluster_wp sp c :
  wp any_answer (creates_only (genName c)) no_panic (setupCluster sp c)
    (λ r, genName r.2 = genName c ∧ cfg r.2 = cfg c ∧ kind r.2 = true).
Proof.
  unfold setupCluster. cbn [wp prog_bind call genName cfg]. split; [done|]. intros [path|e] _; [|done].
  cbn [wp prog_bind call genName cfg]. split; [done|]. intros [e|] _; [done|].
  cbn [wp prog_bind call genName cfg]. split; [done|]. intros [e|] _; [done|].
  cbn [wp prog_bind call genName cfg]. split; [done|]. intros [raw|e] _; [|done].
  do 2 (cbn [wp prog_bind call genName cfg]; split; [done|]; intros [e|] _; [done|]).
  cbn [wp prog_bind call genName cfg]. split; [done|]. intros _ _.
  do 2 (cbn [wp prog_bind call genName cfg]; split; [done|]; intros [e|] _; [done|]).
  apply wp_bind. eapply wp_mono; [|apply (wp_weaken_call _ (λ o, o = ListNodes (genName c))), waitForNodes_wp]; [|by intros ? ->].
  intros [[e|] []] _; [done|]. cbn. split; [done|]. by intros [out [e|]] _.
Qed.

(** A set-up that ends well: the calls in order. *)
Lemma setupCluster_success sp c t c' :
  exec (setupCluster sp c) t (Done (None, c')) →
  ∃ path raw tw nodes output,
    t = ([existT TempFile (Ok path); existT (CloseTemp path) None; existT (KindCreate (genName c) path) None;
          existT (ReadFile path) (Ok raw); existT (ClientConfigFromBytes raw) None; existT (RestConfig raw) None;
          existT (Log ("To use the cluster, run KUBECONFIG=" ++ path ++ " kubectl cluster-info")) tt;
          existT (NewClient (genName c)) None; existT (CreatePermissiveBinding (genName c)) None]
         ++ tw ++ [existT (Command [sp; "init"; "--kubeconfig"; path] None) (output, None)])%list ∧
    calls (λ o, o = ListNodes (genName c)) tw ∧
    existT (ListNodes (genName c)) (Ok nodes) ∈ tw ∧ taintsRemoved nodes = true ∧
    c' = mkCluster (genName c) (cfg c) true path true.
Proof.
  intros HE. unfold setupCluster in HE. cbn [exec prog_bind call genName cfg] in HE.
  destruct HE as ([path|e] & t1 & -> & HE); [|by destruct HE].
  cbn [exec prog_bind call genName cfg] in HE. destruct HE as ([e|] & t2 & -> & HE); [by destruct HE|].
  cbn [exec prog_bind call genName cfg] in HE. destruct HE as ([e|] & t3 & -> & HE); [by destruct HE|].
  cbn [exec prog_bind call genName cfg] in HE. destruct HE as ([raw|e] & t4 & -> & HE); [|by destruct HE].
  cbn [exec prog_bind call genName cfg] in HE. destruct HE as ([e|] & t5 & -> & HE); [by destruct HE|].
  cbn [exec prog_bind call genName cfg] in HE. destruct HE as ([e|] & t6 & -> & HE); [by destruct HE|].
  cbn [exec prog_bind call genName cfg] in HE. destruct HE as ([] & t7 & -> & HE).
  cbn [exec prog_bind call genName cfg] in HE. destruct HE as ([e|] & t8 & -> & HE); [by destruct HE|].
  cbn [exec prog_bind call genName cfg] in HE. destruct HE as ([e|] & t9 & -> & HE); [by destruct HE|].
  apply exec_bind in HE as [(m & _ & ?)|(tw & t10 & [e []] & -> & HW & HE)]; [done|].
  destruct e as [e|]; [by destruct HE|]. cbn [exec prog_bind call genName cfg] in HE.
  destruct HE as ([output [e|]] & t11 & -> & -> & HE); [done|]. injection HE as HE.
  destruct (wp_exec_any _ _ _ _ _ _ (waitForNodes_wp (genName c)) HW) as [Hw _].
  apply waitForNodes_last in HW as (ta & nodes & -> & Hn). subst c'.
  exists path, raw, (ta ++ [existT (ListNodes (genName c)) (Ok nodes)])%list, nodes, output.
  split_and!; [done|done| |done|done]. apply elem_of_app. right. by left.
Qed.

(** The wait is bounded. *)
Lemma waitForNodes_bounded name :
  cost_le (λ o, match o with ListNodes _ => 1 | _ => 0 end) (waitForNodes name) 241.
Proof.
  unfold waitForNodes. apply (cost_le_mono _ _ (241 * 1)); [lia|]. apply Retry_cost. intros []. cbn. split; [lia|]. done.
Qed.

(** ** Environments *)

Lemma assign_exec names cls0 t out : exec (loop assign names cls0) t out →
  ∃ cls, out = Done (cls0 ++ cls)%list ∧ map cfg cls = names ∧
    calls (λ o, match o with UnixNano | Log _ => True | _ => False end) t.
Proof.
  revert cls0 t. induction names as [|n names IH]; intros cls0 t HE; cbn [loop] in HE.
  { destruct HE as [-> ->]. exists []. by rewrite app_nil_r. }
  apply exec_bind in HE as [(m & HE & _)|(t1 & t2 & cls1 & -> & HE1 & HE2)].
  { by destruct HE as (now & ta & _ & u & tb & _ & _ & ?). }
  destruct HE1 as (now & ta & -> & u & tb & -> & -> & [= ->]).
  destruct (IH _ _ HE2) as (cls & -> & Hn & Hc). rewrite <-(assoc_L (++)). eexists. split; [done|].
  split; [cbn; by rewrite Hn|by repeat split].
Qed.
Lemma interleaving_elem {E} (ts : list (list E)) l e : interleaving ts l → (e ∈ l ↔ ∃ t, t ∈ ts ∧ e ∈ t).
Proof.
  intros Hi. induction Hi as [ts Hn|pre x t post l Hi IH].
  - split; [by intros ?%not_elem_of_nil|]. intros (t & Ht & He). rewrite Forall_forall in Hn.
    rewrite (Hn _ Ht) in He. by apply not_elem_of_nil in He.
  - rewrite elem_of_cons, IH. split.
    + intros [->|(t' & Ht & He)]; [exists (x :: t); set_solver|].
      apply elem_of_app in Ht as [Ht|[->|Ht]%elem_of_cons]; [exists t'; set_solver|exists (x :: t); set_solver|exists t'; set_solver].
    + intros (t' & Ht & He). apply elem_of_app in Ht as [Ht|[->|Ht]%elem_of_cons].
      * right. exists t'. set_solver.
      * apply elem_of_cons in He as [->|He]; [by left|]. right. exists t. set_solver.
      * right. exists t'. set_solver.
Qed.
Lemma byName_lookup cls c : NoDup (map cfg cls) → c ∈ cls → byName cls !! cfg c = Some c.
Proof.
  unfold byName. generalize (∅ : gmap string cluster). induction cls as [|x cls IH]; intros m Hnd Hc; [by apply not_elem_of_nil in Hc|].
  cbn in Hnd |- *. apply NoDup_cons in Hnd as [Hx Hnd]. apply elem_of_cons in Hc as [->|Hc]; [|by apply IH].
  clear IH. assert (∀ m : gmap string cluster, m !! cfg x = Some x → foldl (λ (m : gmap string cluster) c, <[cfg c := c]> m) m cls !! cfg x = Some x) as H.
  { clear Hnd m. induction cls as [|y cls IH]; intros m Hm; cbn; [done|]. apply IH; [set_solver|].
    rewrite lookup_insert_ne; [done|]. intros Heq. apply Hx. rewrite <-Heq. by left. }
  apply H. by rewrite lookup_insert_eq.
Qed.

Lemma goroutine_cfg sp loopName errName c t e c' :
  exec (goroutine sp loopName errName c) t (Done (e, c')) → cfg c' = cfg c.
Proof.
  intros HE. unfold goroutine in HE.
  apply exec_bind in HE as [(m & _ & ?)|(t1 & t2 & [e1 c1] & -> & HE1 & HE2)]; [done|].
  destruct (wp_exec_any _ _ _ _ _ _ (setupCluster_wp sp c) HE1) as [_ (_ & Hc & _)]. cbn in Hc. destruct e1 as [err|].
  - apply exec_bind in HE2 as [(m & _ & ?)|(t3 & t4 & [] & -> & _ & _ & [= _ <-])]; done.
  - cbn [exec prog_bind call] in HE2. by destruct HE2 as ([] & t3 & -> & _ & [= _ <-]).
Qed.
(** A goroutine that ends well: what it created is what its cluster names. *)
Lemma goroutine_success sp loopName errName c t c' n p a :
  exec (goroutine sp loopName errName c) t (Done (None, c')) → existT (KindCreate n p) a ∈ t →
  n = genName c' ∧ p = kubeConfigPath c' ∧ cfg c' = cfg c.
Proof.
  intros HE Hin. unfold goroutine in HE.
  apply exec_bind in HE as [(m & _ & ?)|(t1 & t2 & [e c1] & -> & HE1 & HE2)]; [done|]. destruct e as [err|].
  { apply exec_bind in HE2 as [(m & _ & ?)|(t3 & t4 & [] & -> & _ & _ & ?)]; done. }
  cbn [exec prog_bind call] in HE2. destruct HE2 as ([] & t3 & -> & -> & [= <-]).
  apply setupCluster_success in HE1 as (path & raw & tw & nodes & output & -> & Hw & _ & _ & ->).
  assert (existT (KindCreate n p) a = existT (KindCreate (genName c) path) None ∨ existT (KindCreate n p) a ∈ tw) as [H|H].
  { rewrite !elem_of_app, !elem_of_cons, elem_of_nil in Hin.
    repeat match type of Hin with
    | _ ∨ _ => destruct Hin as [Hin|Hin]
    end; first [done|discriminate Hin|by left|by right|by apply not_elem_of_nil in Hin]. }
  - apply (f_equal (λ e, match e with existT (KindCreate n p) _ => (n, p) | _ => (n, p) end)) in H. cbn in H.
    by injection H as -> ->.
  - by apply (answers_elem _ _ _ _ Hw) in H.
Qed.

Lemma Teardown_exec order t out : exec (loop teardownOne order ()) t out →
  out = Done () ∧ ∀ name c, (name, c) ∈ order →
    (∃ a, existT (KindDelete (genName c)) a ∈ t) ∧ (∃ b, existT (RemoveFile (kubeConfigPath c)) b ∈ t).
Proof.
  revert t. induction order as [|[name c] order IH]; intros t HE; cbn [loop] in HE.
  { destruct HE as [-> ->]. split; [done|]. by intros ?? ?%not_elem_of_nil. }
  assert (∃ a t1 b t2 t3, t = (existT (KindDelete (genName c)) a :: t1 ++ existT (RemoveFile (kubeConfigPath c)) b :: t2 ++ t3)%list ∧
    exec (loop teardownOne order ()) t3 out) as (a & t1 & b & t2 & t3 & -> & HE2).
  { unfold teardownOne in HE at 1. cbn [exec prog_bind call] in HE. destruct HE as (a & ta & -> & HE).
    destruct a as [e|]; cbn [exec prog_bind call] in HE; destruct HE as ([] & tb & -> & b & tc & -> & HE);
      (destruct b as [e'|]; cbn [exec prog_bind call] in HE; [destruct HE as ([] & td & -> & HE)|]).
    - by eexists _, [_], _, [_], td.
    - by eexists _, [_], _, [], tc.
    - by eexists _, [_], _, [_], td.
    - by eexists _, [_], _, [], tc. }
  destruct (IH _ HE2) as [-> Hall]. split; [done|]. intros name' c' [[= -> ->]|Hin]%elem_of_cons.
  - split; [exists a; by left|]. exists b. right. apply elem_of_app. right. by left.
  - destruct (Hall _ _ Hin) as [(a' & Ha) (b' & Hb)]. split; [exists a'|exists b'];
      right; apply elem_of_app; right; right; apply elem_of_app; by right.
Qed.

(** ** What an environment leaves behind *)

(** The goroutines all end well: what they create is named by the clusters
    they return. *)
Lemma goroutines_success sp cls ts rs :
  goroutines sp cls ts rs → (∀ x, x ∈ rs → x.1 = None) →
  map cfg (map snd rs) = map cfg cls ∧
  ∀ t n p a, t ∈ ts → existT (KindCreate n p) a ∈ t →
    ∃ c, c ∈ map snd rs ∧ genName c = n ∧ kubeConfigPath c = p.
Proof.
  intros [Hlen HF] Hok.
  assert (Forall2 (λ ct r, cfg r.2 = cfg ct.1 ∧ ∀ n p a, existT (KindCreate n p) a ∈ ct.2 →
    r.1 = None → n = genName r.2 ∧ p = kubeConfigPath r.2) (zip cls ts) rs) as HR.
  { eapply Forall2_impl; [exact HF|]. intros [c t] [e c'] (ln & en & _ & _ & HE).
    split; [by eapply goroutine_cfg|]. intros n p a Hin Hnone. simpl in Hnone. subst e.
    by destruct (goroutine_success _ _ _ _ _ _ _ _ _ HE Hin) as (? & ? & _). }
  clear HF. revert ts rs Hlen HR Hok. induction cls as [|c cls IH]; intros [|t ts] rs Hlen HR Hok; try discriminate Hlen.
  { inversion HR; subst. split; [done|]. by intros ???? ?%not_elem_of_nil. }
  apply Forall2_cons_inv_l in HR as ([e c'] & rs' & [Hc Hcr] & HR & ->). injection Hlen as Hlen.
  destruct (IH _ _ Hlen HR) as [Hn Hall]; [intros x Hx; apply Hok; by right|].
  specialize (Hok _ (list_elem_of_here _ _)). split; [cbn in *; by f_equal|].
  intros t' n p a [->|Ht]%elem_of_cons Hin.
  - destruct (Hcr _ _ _ Hin Hok) as [-> ->]. exists c'. split; [by left|done].
  - destruct (Hall _ _ _ _ Ht Hin) as (c0 & Hc0 & ?). exists c0. split; [by right|done].
Qed.

Lemma assign_creates_nothing names t cls n p a :
  exec (loop assign names []) t (Done cls) → existT (KindCreate n p) a ∉ t.
Proof. intros HE Hin. apply assign_exec in HE as (? & _ & _ & Hc). by apply (answers_elem _ _ _ _ Hc) in Hin. Qed.

Definition env_answer (e : event eop) : string :=
  match e with
  | existT o v => (match o return (resp o → string) with Getenv _ => λ v, v | _ => λ _, "" end) v
  end.

(** The test environment is cleaned up completely: if the clusters have
    different names and [New] returns an environment, its [Teardown] (with
    NO_TEARDOWN unset, in whatever order it visits the clusters) asks to
    delete every kind cluster that any of the concurrent set-ups created, and
    removes its kubeconfig file. *)
Theorem created_is_torn_down names t e order tt' out :
  NoDup names → new_run names t (Some e) → order ≡ₚ map_to_list (clusters e) →
  exec (Teardown order) tt' out → existT (Getenv "NO_TEARDOWN") "" ∈ tt' →
  ∀ n p a, existT (KindCreate n p) a ∈ t →
    (∃ b, existT (KindDelete n) b ∈ tt') ∧ ∃ b, existT (RemoveFile p) b ∈ tt'.
Proof.
  intros Hnd (t1 & t2 & t3 & ts & cls & rs & -> & Hi & HA & HG & HR) Hord HT Henv n p a Hin.
  destruct HR as [(Hok & -> & [= ->])|(err & c & _ & _ & ?)]; [|done]. rewrite app_nil_r in Hin.
  apply (interleaving_elem _ _ _ Hi) in Hin as (t & [->|Ht]%elem_of_cons & Hin).
  { by apply (assign_creates_nothing _ _ _ _ _ _ HA) in Hin. }
  destruct (goroutines_success _ _ _ _ HG Hok) as [Hnames Hall].
  destruct (Hall _ _ _ _ Ht Hin) as (c & Hc & <- & <-).
  apply assign_exec in HA as (cls' & [= ->] & Hcls & _). cbn in Hnames. rewrite Hcls in Hnames. rewrite <-Hnames in Hnd.
  pose proof (byName_lookup _ _ Hnd Hc) as Hl. apply elem_of_map_to_list in Hl. cbn [clusters] in Hord. rewrite <-Hord in Hl.
  unfold Teardown in HT. cbn [exec prog_bind call] in HT. destruct HT as (v & tt1 & -> & HT).
  change string in v. destruct (bool_decide (v = "")) eqn:Hv; cbn [negb exec prog_bind call] in HT.
  - destruct HT as ([] & tt2 & -> & HT). apply Teardown_exec in HT as [_ HT].
    destruct (HT _ _ Hl) as [[b Hb] [b' Hb']]. split; [exists b|exists b']; by do 2 right.
  - destruct HT as ([] & tt2 & -> & -> & _). apply bool_decide_eq_false in Hv.
    apply elem_of_cons in Henv as [Henv|Henv].
    + apply (f_equal env_answer) in Henv. cbn in Henv. by subst v.
    + apply elem_of_cons in Henv as [?|?%not_elem_of_nil]; done.
Qed.

(** ** Failed set-ups *)

Lemma goroutine_wp sp loopName errName c :
  wp any_answer (λ o, match o with KindDelete n => n = loopName | _ => True end) no_panic
    (goroutine sp loopName errName c) (λ _, True).
Proof.
  unfold goroutine. apply wp_bind. eapply wp_mono; [|apply (wp_weaken_call _ (creates_only (genName c))), setupCluster_wp]; [|by intros []].
  intros [[err|] c'] _; [|done]. apply wp_bind.
  eapply (wp_mono _ _ _ _ (λ _, True)); [done|].
  destruct (kind c'); [|done]. cbn [wp prog_bind call]. split; [done|]. intros v _. case_bool_decide; [|done].
  cbn [wp prog_bind call]. split; [done|]. intros _ _. by destruct (negb _).
Qed.

Lemma goroutines_elem sp cls ts rs t : goroutines sp cls ts rs → t ∈ ts →
  ∃ c loopName errName r, loopName ∈ map cfg cls ∧ exec (goroutine sp loopName errName c) t (Done r).
Proof.
  intros [Hlen HF] Ht. apply list_elem_of_lookup_1 in Ht as [i Ht].
  destruct (lookup_lt_is_Some_2 cls i) as [c Hc]; [rewrite <-Hlen; by eapply lookup_lt_Some|].
  destruct (Forall2_lookup_l _ _ _ i (c, t) HF) as (r & _ & ln & en & Hln & _ & HE).
  { apply lookup_zip_with_Some. by exists c, t. }
  by exists c, ln, en, r.
Qed.
(** [New] deletes under the name of a configuration, never under the unique
    name the clusters have: a set-up that fails after its cluster was created
    leaves it running, and so do the others. *)
Lemma deletes_by_config_name names t r n a :
  new_run names t r → existT (KindDelete n) a ∈ t → n ∈ names.
Proof.
  intros (t1 & t2 & t3 & ts & cls & rs & -> & Hi & HA & HG & HR) Hin.
  apply elem_of_app in Hin as [Hin|Hin].
  2: { destruct HR as [(_ & -> & _)|(err & c & _ & -> & _)]; [by apply not_elem_of_nil in Hin|].
       by apply elem_of_cons in Hin as [Hin|?%not_elem_of_nil]. }
  apply assign_exec in HA as (cls' & [= ->] & Hn & Hc).
  apply (interleaving_elem _ _ _ Hi) in Hin as (t & [->|Ht]%elem_of_cons & Hin).
  { by apply (answers_elem _ _ _ _ Hc) in Hin. }
  destruct (goroutines_elem _ _ _ _ _ HG Ht) as (c & ln & en & r' & Hln & HE).
  destruct (wp_exec_any _ _ _ _ _ _ (goroutine_wp _ _ _ _) HE) as [Hw _].
  apply (answers_elem _ _ _ _ Hw) in Hin. by rewrite Hin, <-Hn.
Qed.

(** One cluster whose kubeconfig cannot be read: the cluster "c-0" is created
    and stays, the cluster "c" is deleted. *)
Example failed_setup_leaks :
  let err := EText "read" in
  let created : event eop := existT (KindCreate "c-0" "/tmp/k") None in
  let trace : list (event eop) :=
    [existT TempFile (Ok "/tmp/k"); existT (CloseTemp "/tmp/k") None; created;
     existT (ReadFile "/tmp/k") (Err err); existT (Getenv "NO_TEARDOWN") "";
     existT (KindDelete "c") None; existT (RemoveFile "/tmp/k") None] in
  exec (goroutine defaultSynkPath "c" "c" (mkCluster "c-0" "c" false "" false)) trace
    (Done (Some (EWrap ("Create cluster " ++ fmt_q "c") (EWrap "read kube config" err)),
           mkCluster "c-0" "c" true "/tmp/k" false)).
Proof.
  intros err created trace. unfold goroutine, setupCluster, trace, created.
  do 7 (cbn [exec prog_bind call genName cfg kind kubeConfigPath restCfg];
        try change (bool_decide ("" = "")) with true; try change (negb (bool_decide ("/tmp/k" = ""))) with true;
        cbn [exec prog_bind call genName cfg kind kubeConfigPath restCfg]; eexists _, _; split; [reflexivity|]).
  by split.
Qed.

(** [Uniq] gives different names as long as the counter does not wrap. *)
Lemma Uniq_counts s e : (0 ≤ uniqCounter e < 2 ^ 63 - 1)%Z →
  uniqCounter (Uniq s e).2 = (uniqCounter e + 1)%Z ∧ clusters (Uniq s e).2 = clusters e.
Proof. intros H. split; [|done]. cbn. apply wrap_id; lia. Qed.

(** No panic of a test ends the tests: [Run] runs all of them, whatever they
    do, and a test that panics is marked as failed. *)
Lemma recovered_wp {A} (p : prog eop A) : wp any_answer (λ _, True) no_panic (recovered p) (λ _, True).
Proof. induction p as [a|o k IH|m]; cbn; [done|split; [done|]; intros r _; apply IH|split; done]. Qed.
Lemma runTest_wp x : wp any_answer (λ _, True) no_panic (runTest x ()) (λ _, True).
Proof.
  unfold runTest. cbn. split; [done|]. intros _ _. apply wp_bind. eapply wp_mono; [|apply recovered_wp]. done.
Qed.
Lemma Run_wp tests : wp any_answer (λ _, True) no_panic (Run tests) (λ _, True).
Proof.
  unfold Run. apply (wp_loop _ _ _ _ _ (λ _, True)); [|done]. intros x [] _ _. apply runTest_wp.
Qed.
Lemma Run_runs_all tests t out : exec (Run tests) t out →
  out = Done () ∧ ∀ name, name ∈ map fst tests → existT (SubTest name) tt ∈ t.
Proof.
  intros HE. split. { destruct (wp_exec_any _ _ _ _ _ _ (Run_wp tests) HE) as [_ H]. destruct out as [[]|]; done. }
  revert t HE. unfold Run. induction tests as [|[n p] tests IH]; intros t HE name Hin; [by apply not_elem_of_nil in Hin|].
  cbn [loop] in HE. apply exec_bind in HE as [(m & HE & _)|(t1 & t2 & [] & -> & HE1 & HE2)].
  { by destruct (wp_exec_any _ _ _ _ _ _ (runTest_wp _) HE) as [_ []]. }
  apply elem_of_app. apply elem_of_cons in Hin as [->|Hin]; [left|right; by apply IH].
  destruct HE1 as ([] & t3 & -> & _). by left.
Qed.
